(** * pmaze: the maze generator [gen_maze] of [__main__.py]

    A shallow embedding of [gen_maze] and of the library calls it makes
    ([random], [heapq], [collections.deque], list indexing), followed by
    the properties of the generator that the specification states.

    Conventions.
    - Python integers are [Z]; the three per-cell arrays are [list Z] and
      are indexed the way Python indexes a list (a negative index counts
      from the end, anything else out of range raises [IndexError]).
    - The local variables of one call of [gen_maze], together with the
      state of the module-level generator of [random] and the text printed
      so far, form a [frame]; the body of [gen_maze] is written in a state
      and exception monad over that frame.
    - [random] is modelled by the stream of raw words its generator will
      deliver: [random.seed] installs the stream that belongs to the seed,
      and every draw consumes one word.  Nothing is assumed about the
      stream, so a statement proved for every stream holds for every seed.
    - The branch weights are floats in the program; here they are exact
      rationals, and [random.random()] is the rational [r / 2^53] for a
      53-bit word [r], which is the set of values the float generator
      produces. *)

From Stdlib Require Import ZArith QArith Bool List Lia String Sorted.
From stdpp Require Import base list gmap.
Import ListNotations.

Local Open Scope Z_scope.

(** ** Python values and exceptions *)

Definition cell : Type := Z * Z.

Inductive exn : Type :=
| IndexError
| ValueError
| TypeError
| SystemExit.

(** [Maze] dataclass. *)
Record Maze : Type := mkMaze {
  maze : list Z;
  width : Z;
  height : Z
}.

Definition INF : Z := 2 ^ 62.

(** *** List indexing

    [py_index len i] is the position that [a[i]] denotes in a list of
    length [len], when there is one. *)
Definition py_index (len : nat) (i : Z) : option nat :=
  if (0 <=? i) && (i <? Z.of_nat len) then Some (Z.to_nat i)
  else if (- Z.of_nat len <=? i) && (i <? 0) then Some (Z.to_nat (Z.of_nat len + i))
  else None.

Definition py_get {A : Type} (a : list A) (i : Z) : option A :=
  match py_index (length a) i with
  | Some k => a !! k
  | None => None
  end.

Definition py_set {A : Type} (a : list A) (i : Z) (v : A) : option (list A) :=
  match py_index (length a) i with
  | Some k => Some (<[k := v]> a)
  | None => None
  end.

(** [range(n)] *)
Definition range (n : Z) : list Z := map Z.of_nat (seq 0 (Z.to_nat n)).

(** [list(accumulate(ws))] *)
Fixpoint accumulate_from (acc : Q) (ws : list Q) : list Q :=
  match ws with
  | [] => []
  | w :: ws' => (acc + w)%Q :: accumulate_from (acc + w)%Q ws'
  end.

Definition accumulate (ws : list Q) : list Q :=
  match ws with
  | [] => []
  | w :: ws' => w :: accumulate_from w ws'
  end.

(** *** [heapq]

    The program only pushes entries, pops the smallest one and reads
    [heap[0]]; the heap list is kept here as the sorted list of its
    entries, whose head is [heap[0]].  Entries are the tuples
    [(-d, (x, y))], compared the way Python compares tuples. *)
Definition entry : Type := Z * cell.

Definition cell_ltb (a b : cell) : bool :=
  (fst a <? fst b) || ((fst a =? fst b) && (snd a <? snd b)).

Definition entry_ltb (a b : entry) : bool :=
  (fst a <? fst b) || ((fst a =? fst b) && cell_ltb (snd a) (snd b)).

Fixpoint heappush (h : list entry) (e : entry) : list entry :=
  match h with
  | [] => [e]
  | e' :: h' => if entry_ltb e' e then e' :: heappush h' e else e :: h
  end.

Definition heappop (h : list entry) : list entry := tl h.

(** ** The frame of one call *)

Record frame : Type := mkFrame {
  cells_visited : Z;
  cell_remaining_sides : list Z;
  cell_distance : list Z;
  cell_state : list Z;
  cell_by_distance : list entry;
  q : list cell;
  start : option cell;
  last_border_cell : option cell;
  rand_words : list Z;
  stdout : list string
}.

Definition set_cells_visited (v : Z) (s : frame) : frame :=
  mkFrame v (cell_remaining_sides s) (cell_distance s) (cell_state s)
    (cell_by_distance s) (q s) (start s) (last_border_cell s) (rand_words s) (stdout s).

Definition set_cell_remaining_sides (v : list Z) (s : frame) : frame :=
  mkFrame (cells_visited s) v (cell_distance s) (cell_state s)
    (cell_by_distance s) (q s) (start s) (last_border_cell s) (rand_words s) (stdout s).

Definition set_cell_distance (v : list Z) (s : frame) : frame :=
  mkFrame (cells_visited s) (cell_remaining_sides s) v (cell_state s)
    (cell_by_distance s) (q s) (start s) (last_border_cell s) (rand_words s) (stdout s).

Definition set_cell_state (v : list Z) (s : frame) : frame :=
  mkFrame (cells_visited s) (cell_remaining_sides s) (cell_distance s) v
    (cell_by_distance s) (q s) (start s) (last_border_cell s) (rand_words s) (stdout s).

Definition set_cell_by_distance (v : list entry) (s : frame) : frame :=
  mkFrame (cells_visited s) (cell_remaining_sides s) (cell_distance s) (cell_state s)
    v (q s) (start s) (last_border_cell s) (rand_words s) (stdout s).

Definition set_q (v : list cell) (s : frame) : frame :=
  mkFrame (cells_visited s) (cell_remaining_sides s) (cell_distance s) (cell_state s)
    (cell_by_distance s) v (start s) (last_border_cell s) (rand_words s) (stdout s).

Definition set_start (v : option cell) (s : frame) : frame :=
  mkFrame (cells_visited s) (cell_remaining_sides s) (cell_distance s) (cell_state s)
    (cell_by_distance s) (q s) v (last_border_cell s) (rand_words s) (stdout s).

Definition set_last_border_cell (v : option cell) (s : frame) : frame :=
  mkFrame (cells_visited s) (cell_remaining_sides s) (cell_distance s) (cell_state s)
    (cell_by_distance s) (q s) (start s) v (rand_words s) (stdout s).

Definition set_rand_words (v : list Z) (s : frame) : frame :=
  mkFrame (cells_visited s) (cell_remaining_sides s) (cell_distance s) (cell_state s)
    (cell_by_distance s) (q s) (start s) (last_border_cell s) v (stdout s).

Definition set_stdout (v : list string) (s : frame) : frame :=
  mkFrame (cells_visited s) (cell_remaining_sides s) (cell_distance s) (cell_state s)
    (cell_by_distance s) (q s) (start s) (last_border_cell s) (rand_words s) v.

(** ** The monad: state over [frame], Python exceptions, loop fuel *)

Inductive outcome (A : Type) : Type :=
| Returns (a : A) (s : frame)
| Raises (e : exn) (s : frame)
| OutOfFuel.

Arguments Returns {A} a s.
Arguments Raises {A} e s.
Arguments OutOfFuel {A}.

Definition M (A : Type) : Type := frame -> outcome A.

Definition ret {A : Type} (a : A) : M A := fun s => Returns a s.

Definition bind {A B : Type} (m : M A) (k : A -> M B) : M B :=
  fun s =>
    match m s with
    | Returns a s' => k a s'
    | Raises e s' => Raises e s'
    | OutOfFuel => OutOfFuel
    end.

Definition raise {A : Type} (e : exn) : M A := fun s => Raises e s.

Definition gets {A : Type} (f : frame -> A) : M A := fun s => Returns (f s) s.

Definition modify (f : frame -> frame) : M unit := fun s => Returns tt (f s).

Declare Scope py_scope.
Delimit Scope py_scope with py.
Notation "x <- m ;; k" := (bind m (fun x => k))
  (at level 100, m at next level, k at level 200, right associativity) : py_scope.
Notation "m ;;; k" := (bind m (fun _ => k))
  (at level 100, k at level 200, right associativity) : py_scope.
Local Open Scope py_scope.

(** [for x in xs: body x] *)
Fixpoint for_each {A : Type} (xs : list A) (body : A -> M unit) : M unit :=
  match xs with
  | [] => ret tt
  | x :: xs' => body x ;;; for_each xs' body
  end.

(** [a[i]] and [a[i] = v] on one of the arrays of the frame. *)
Definition load (arr : frame -> list Z) (i : Z) : M Z :=
  fun s =>
    match py_get (arr s) i with
    | Some v => Returns v s
    | None => Raises IndexError s
    end.

Definition store (arr : frame -> list Z) (upd : list Z -> frame -> frame)
    (i : Z) (v : Z) : M unit :=
  fun s =>
    match py_set (arr s) i v with
    | Some a' => Returns tt (upd a' s)
    | None => Raises IndexError s
    end.

(** ** The [random] module *)

(** The next raw word of the generator; an exhausted stream yields 0. *)
Definition next_word : M Z :=
  fun s =>
    match rand_words s with
    | [] => Returns 0 s
    | r :: rs => Returns r (set_rand_words rs s)
    end.

(** [_randbelow(n)], for [n > 0]. *)
Definition randbelow (n : Z) : M Z :=
  r <- next_word ;; ret (r mod n).

(** [random.random()]: a multiple of [2^-53] in [[0, 1)]. *)
Definition random_random : M Q :=
  r <- next_word ;; ret (Qmake (r mod 2 ^ 53) (2 ^ 53)%positive).

(** [random.choice(seq)] *)
Definition random_choice {A : Type} (seq : list A) : M A :=
  match seq with
  | [] => raise IndexError
  | x :: _ =>
      i <- randbelow (Z.of_nat (length seq)) ;;
      ret (nth (Z.to_nat i) seq x)
  end.

(** [random.randint(a, b)]: both end points included. *)
Definition random_randint (a b : Z) : M Z :=
  if 0 <? b + 1 - a then
    i <- randbelow (b + 1 - a) ;; ret (a + i)
  else raise ValueError.

(** [bisect.bisect_right(a, x, lo, hi)]; the interval halves at every
    round, so [hi - lo] rounds suffice. *)
Fixpoint bisect_loop (rounds : nat) (a : list Q) (x : Q) (lo hi : nat) : nat :=
  match rounds with
  | O => lo
  | S rounds' =>
      if (lo <? hi)%nat then
        let mid := ((lo + hi) / 2)%nat in
        match a !! mid with
        | Some am =>
            if negb (Qle_bool am x) then bisect_loop rounds' a x lo mid
            else bisect_loop rounds' a x (S mid) hi
        | None => lo
        end
      else lo
  end.

Definition bisect (a : list Q) (x : Q) (lo hi : nat) : nat :=
  bisect_loop (hi - lo) a x lo hi.

(** [random.choices(population, cum_weights=cum_weights)[0]] *)
Definition random_choices (population : list nat) (cum_weights : list Q) : M nat :=
  let n := length population in
  if negb (length cum_weights =? n)%nat then raise ValueError
  else
    match last cum_weights with
    | None => raise IndexError
    | Some total =>
        if Qle_bool total 0 then raise ValueError
        else
          u <- random_random ;;
          match population !! bisect cum_weights (u * total)%Q 0 (n - 1) with
          | Some k => ret k
          | None => raise IndexError
          end
    end.

(** [random.sample(population, k)], the pool branch (taken for every
    population of at most 21 elements). *)
Fixpoint sample_pool {A : Type} (k : nat) (pool : list A) (n : nat) : M (list A) :=
  match k with
  | O => ret []
  | S k' =>
      j <- randbelow (Z.of_nat n) ;;
      match pool !! Z.to_nat j, pool !! (n - 1)%nat with
      | Some x, Some y =>
          rest <- sample_pool k' (<[Z.to_nat j := y]> pool) (n - 1) ;;
          ret (x :: rest)
      | _, _ => raise IndexError
      end
  end.

Definition random_sample {A : Type} (population : list A) (k : nat) : M (list A) :=
  if (k <=? length population)%nat then sample_pool k population (length population)
  else raise ValueError.

(** ** [gen_maze] *)

Section GenMaze.

Variables (width height : Z).
Variable branch_dist : list Q.
Variable min_length : Z.

(** The stream of raw words of the generator seeded with an integer. *)
Variable seeded_words : Z -> list Z.

(** [random.seed(seed)]: an integer seed fixes the stream; with [None]
    the generator is seeded from the environment, which is the stream
    the frame holds on entry. *)
Definition random_seed (seed : option Z) : M unit :=
  match seed with
  | Some n => modify (set_rand_words (seeded_words n))
  | None => ret tt
  end.

(** *** Precomputed values *)

Definition cumulative_brach_dist : list Q := accumulate branch_dist.
Definition cell_count : Z := width * height.
Definition last_x : Z := width - 1.
Definition last_y : Z := height - 1.

(** *** Utility functions *)

Definition t (c : cell) : Z := width * snd c + fst c.

Definition in_bounds (c : cell) : bool :=
  (0 <=? fst c) && (fst c <? width) && ((0 <=? snd c) && (snd c <? height)).

Definition is_border (c : cell) : bool :=
  (fst c =? 0) || (snd c =? 0) || (fst c =? last_x) || (snd c =? last_y).

Definition c_l (c : cell) : cell := (fst c - 1, snd c).
Definition c_r (c : cell) : cell := (fst c + 1, snd c).
Definition c_t (c : cell) : cell := (fst c, snd c - 1).
Definition c_b (c : cell) : cell := (fst c, snd c + 1).

(** *** Initial state *)

Definition init_state : M unit :=
  modify (set_cells_visited 0) ;;;
  modify (set_cell_remaining_sides (repeat 4 (Z.to_nat cell_count))) ;;;
  for_each (range width) (fun x =>
    store cell_remaining_sides set_cell_remaining_sides (t (x, 0)) 3 ;;;
    store cell_remaining_sides set_cell_remaining_sides (t (x, height - 1)) 3) ;;;
  for_each (range height) (fun y =>
    store cell_remaining_sides set_cell_remaining_sides (t (0, y)) 3 ;;;
    store cell_remaining_sides set_cell_remaining_sides (t (width - 1, y)) 3) ;;;
  store cell_remaining_sides set_cell_remaining_sides (t (0, 0)) 2 ;;;
  store cell_remaining_sides set_cell_remaining_sides (t (width - 1, 0)) 2 ;;;
  store cell_remaining_sides set_cell_remaining_sides (t (0, height - 1)) 2 ;;;
  store cell_remaining_sides set_cell_remaining_sides (t (width - 1, height - 1)) 2 ;;;
  modify (set_cell_distance (repeat INF (Z.to_nat cell_count))) ;;;
  modify (set_cell_state (repeat 0 (Z.to_nat cell_count))) ;;;
  modify (set_cell_by_distance []) ;;;
  modify (set_q []).

Definition is_visited (c : cell) : M bool :=
  d <- load cell_distance (t c) ;; ret (negb (d =? INF)).

(** [fallback_cell]: the loop over the heap, given the remaining-sides
    array; it returns the cell (or [None] when the heap runs empty) and
    the heap it leaves, or fails with [IndexError] at the heap it had
    reached.  [heappop] leaves the tail [h'] of the sorted list. *)
Fixpoint fallback_from (sides : list Z) (h : list entry)
    : (option cell * list entry) + list entry :=
  match h with
  | [] => inl (None, [])
  | e :: h' =>
      match py_get sides (t (snd e)) with
      | None => inr h
      | Some remaining_sides =>
          if 1 <? remaining_sides then inl (Some (snd e), h)
          else if remaining_sides =? 1 then inl (Some (snd e), h')
          else fallback_from sides h'
      end
  end.

Definition fallback_cell : M (option cell) :=
  fun s =>
    match fallback_from (cell_remaining_sides s) (cell_by_distance s) with
    | inl (c, h) => Returns c (set_cell_by_distance h s)
    | inr h => Raises IndexError (set_cell_by_distance h s)
    end.

(** [cell_remaining_sides[t(n)] -= 1] when [n] is in bounds *)
Definition decrement_side (n : cell) : M unit :=
  if in_bounds n then
    v <- load cell_remaining_sides (t n) ;;
    store cell_remaining_sides set_cell_remaining_sides (t n) (v - 1)
  else ret tt.

Definition set_visited (c : cell) (d : Z) : M unit :=
  modify (fun s => set_cells_visited (cells_visited s + 1) s) ;;;
  store cell_distance set_cell_distance (t c) d ;;;
  modify (fun s => set_cell_by_distance (heappush (cell_by_distance s) (- d, c)) s) ;;;
  decrement_side (c_l c) ;;;
  decrement_side (c_r c) ;;;
  decrement_side (c_t c) ;;;
  decrement_side (c_b c).

(** [cell_state[t(x, y)] |= bit] *)
Definition open_wall (bit : Z) (c : cell) : M unit :=
  v <- load cell_state (t c) ;;
  store cell_state set_cell_state (t c) (Z.lor v bit).

Definition open_left : cell -> M unit := open_wall 1.
Definition open_top : cell -> M unit := open_wall 2.
Definition open_right : cell -> M unit := open_wall 4.
Definition open_bottom : cell -> M unit := open_wall 8.

Definition connect (c1 c2 : cell) : M unit :=
  if fst c1 <? fst c2 then open_right c1 ;;; open_left c2
  else if fst c2 <? fst c1 then open_left c1 ;;; open_right c2
  else if snd c1 <? snd c2 then open_bottom c1 ;;; open_top c2
  else if snd c2 <? snd c1 then open_top c1 ;;; open_bottom c2
  else ret tt.

Definition q_up (c : cell) (d : Z) : M unit :=
  modify (fun s => set_q (q s ++ [c]) s) ;;;
  set_visited c d.

(** *** Picking the starting cell *)

Definition pick_start : M unit :=
  side <- random_choice [true; false] ;;
  (if side : bool then
     x <- random_randint 0 width ;;
     first <- random_choice [true; false] ;;
     if first : bool then
       modify (set_start (Some (x, 0))) ;;; open_top (x, 0)
     else
       modify (set_start (Some (x, height - 1))) ;;; open_bottom (x, height - 1)
   else
     y <- random_randint 1 (height - 1) ;;
     first <- random_choice [true; false] ;;
     if first : bool then
       modify (set_start (Some (0, y))) ;;; open_left (0, y)
     else
       modify (set_start (Some (width - 1, y))) ;;; open_right (width - 1, y)) ;;;
  st <- gets start ;;
  match st with
  | Some c => q_up c 0
  | None => raise TypeError
  end.

(** *** The growth loop *)

(** [if in_bounds(n) and not is_visited(n): possible_branches.append(n)] *)
Definition consider (n : cell) (possible_branches : list cell) : M (list cell) :=
  if in_bounds n then
    v <- is_visited n ;;
    ret (if v : bool then possible_branches else possible_branches ++ [n])
  else ret possible_branches.

Definition possible_branches_of (cc : cell) : M (list cell) :=
  pb <- consider (c_l cc) [] ;;
  pb <- consider (c_r cc) pb ;;
  pb <- consider (c_t cc) pb ;;
  consider (c_b cc) pb.

(** The [random.choices] call of the loop, for [n] possible branches. *)
Definition sample_branch_count (n : nat) : M nat :=
  random_choices (seq 0 (n + 1)) (take (n + 1) cumulative_brach_dist).

Definition popleft : M cell :=
  fun s =>
    match q s with
    | [] => Raises IndexError s
    | c :: rest => Returns c (set_q rest s)
    end.

(** The part of an iteration that follows the choice of the current
    cell [cc]: the distance read, the enumeration of the neighbours, the
    two draws and the [for] loop over the selection. *)
Definition branch_from (can_terminate : bool) (cc : cell) : M unit :=
  d <- load cell_distance (t cc) ;;
  possible_branches <- possible_branches_of cc ;;
  sampled <- sample_branch_count (length possible_branches) ;;
  let branch_count :=
    if negb can_terminate && (sampled =? 0)%nat then 1%nat else sampled in
  selection <- random_sample possible_branches branch_count ;;
  for_each selection (fun n => connect cc n ;;; q_up n (d + 1)).

(** One iteration of [while cells_visited < cell_count].  When
    [fallback_cell] returns [None] the queue receives and hands back
    [None], and unpacking it for [t] raises [TypeError] with the queue
    empty again. *)
Definition loop_body : M unit :=
  queue <- gets q ;;
  can_terminate <-
    match queue with
    | [] =>
        seed_cell <- fallback_cell ;;
        match seed_cell with
        | Some c => modify (fun s => set_q (q s ++ [c]) s) ;;; ret false
        | None => raise TypeError
        end
    | _ :: _ => ret true
    end ;;
  cc <- popleft ;;
  branch_from can_terminate cc.

Fixpoint grow (fuel : nat) : M unit :=
  fun s =>
    if cells_visited s <? cell_count then
      match fuel with
      | O => OutOfFuel
      | S fuel' => (loop_body ;;; grow fuel') s
      end
    else Returns tt s.

(** *** Punching out the exit *)

Definition min_exit_distance : Z :=
  if 0 <? min_length then min_length else Z.min width height.

(** The cells [(x, y) for x in range(width) for y in range(height)]. *)
Definition all_cells : list cell :=
  flat_map (fun x => map (fun y => (x, y)) (range height)) (range width).

(** The list comprehension: the border cells farther than
    [min_exit_distance], in the order of [all_cells]. *)
Fixpoint exit_candidates (cs : list cell) : M (list cell) :=
  match cs with
  | [] => ret []
  | c :: cs' =>
      keep <-
        (if is_border c then
           d <- load cell_distance (t c) ;; ret (min_exit_distance <? d)
         else ret false) ;;
      rest <- exit_candidates cs' ;;
      ret (if keep : bool then c :: rest else rest)
  end.

Definition punch_exit : M unit :=
  candidates <- exit_candidates all_cells ;;
  match candidates with
  | [] =>
      modify (fun s =>
        set_stdout (stdout s ++ ["Could not find a path with min distance specified"%string]) s) ;;;
      raise SystemExit
  | _ :: _ =>
      c <- random_choice candidates ;;
      modify (set_last_border_cell (Some c)) ;;;
      if fst c =? 0 then open_left c
      else if snd c =? 0 then open_top c
      else if fst c =? last_x then open_right c
      else if snd c =? last_y then open_bottom c
      else ret tt
  end.

(** *** The whole function *)

Definition growth (fuel : nat) (seed : option Z) : M unit :=
  random_seed seed ;;;
  init_state ;;;
  pick_start ;;;
  grow fuel.

Definition gen_maze (fuel : nat) (seed : option Z) : M Maze :=
  growth fuel seed ;;;
  punch_exit ;;;
  walls <- gets cell_state ;;
  ret (mkMaze walls width height).

End GenMaze.

(** ** Reading a finished maze *)

(** The frame on entry of [gen_maze]: no local is bound yet, nothing has
    been printed, and the generator is in whatever state [g] the
    environment left it. *)
Definition entry_frame (g : list Z) : frame :=
  mkFrame 0 [] [] [] [] [] None None g [].

(** [--branch-factors] default of the command line. *)
Definition default_branch_factors : list Q :=
  [3 # 10; 45 # 100; 2 # 10; 5 # 100]%Q.

Section Reading.

Variables (width height : Z).
Variable walls : list Z.
Variable distances : list Z.

Definition mask_of (c : cell) : Z :=
  default 0 (py_get walls (t width c)).

Definition distance_of (c : cell) : Z :=
  default INF (py_get distances (t width c)).

(** Wall bits: 0 left, 1 top, 2 right, 3 bottom. *)
Definition joined_right (c : cell) : bool :=
  in_bounds width height c && in_bounds width height (c_r c)
  && Z.testbit (mask_of c) 2 && Z.testbit (mask_of (c_r c)) 0.

Definition joined_below (c : cell) : bool :=
  in_bounds width height c && in_bounds width height (c_b c)
  && Z.testbit (mask_of c) 3 && Z.testbit (mask_of (c_b c)) 1.

(** The interior connections: pairs of adjacent cells whose shared wall
    is open on both sides. *)
Definition interior_edges : list (cell * cell) :=
  flat_map
    (fun c =>
       (if joined_right c then [(c, c_r c)] else [])
       ++ (if joined_below c then [(c, c_b c)] else []))
    (all_cells width height).

(** The grid neighbours a cell reaches through its own open walls. *)
Definition open_neighbours (c : cell) : list cell :=
  List.filter (fun n => in_bounds width height n)
    ((if Z.testbit (mask_of c) 0 then [c_l c] else [])
     ++ (if Z.testbit (mask_of c) 1 then [c_t c] else [])
     ++ (if Z.testbit (mask_of c) 2 then [c_r c] else [])
     ++ (if Z.testbit (mask_of c) 3 then [c_b c] else [])).

(** The grid neighbours of a cell. *)
Definition grid_neighbours (c : cell) : list cell :=
  List.filter (fun n => in_bounds width height n) [c_l c; c_r c; c_t c; c_b c].

End Reading.

(** * The vocabulary of the statements *)

(** ** The generator *)

(** The word the generator delivers next, and the frame after the draw. *)
Definition next_raw (s : frame) : Z := hd 0 (rand_words s).
Definition consume (s : frame) : frame := set_rand_words (tl (rand_words s)) s.

(** Two weight lists are proportional when one is the other scaled by a
    positive factor [c], entry by entry. *)
Definition scaled (c : Q) (a' a : list Q) : Prop :=
  Forall2 (fun x' x => x' == c * x)%Q a' a.

(** ** Invariants *)

(** [m] keeps [I]: from a frame with [I], it returns or raises with [I]. *)
Definition preserves (I : frame -> Prop) {A : Type} (m : M A) : Prop :=
  forall s, I s ->
    match m s with
    | Returns _ s' => I s'
    | Raises _ s' => I s'
    | OutOfFuel => True
    end.

(** The three arrays have length [n]. *)
Definition shaped (n : nat) (s : frame) : Prop :=
  length (cell_remaining_sides s) = n
  /\ length (cell_distance s) = n
  /\ length (cell_state s) = n.

(** The visit counter stands at [v]. *)
Definition visited_is (v : Z) (s : frame) : Prop := cells_visited s = v.

(** The part of a frame the invariants below read: the visit counter,
    the distance array, the heap, the queue and the lengths of the other
    two arrays. *)
Definition footprint (s : frame)
    : Z * list Z * list entry * list cell * nat * nat :=
  (cells_visited s, cell_distance s, cell_by_distance s, q s,
   length (cell_state s), length (cell_remaining_sides s)).

Definition footprint_is (x : Z * list Z * list entry * list cell * nat * nat)
    (s : frame) : Prop :=
  footprint s = x.

(** The footprint is [x] and the start cell is [c]. *)
Definition started (x : Z * list Z * list entry * list cell * nat * nat) (c : cell)
    (s : frame) : Prop :=
  footprint s = x /\ start s = Some c.

(** ** The heap *)

(** The distance an entry [(-d, cell)] of the heap stands for. *)
Definition entry_distance (e : entry) : Z := - fst e.

(** The order of the heap entries: [a] is not after [b]. *)
Definition entry_le (a b : entry) : Prop := entry_ltb b a = false.

(** The heap as the program builds it: ordered from the smallest entry. *)
Definition heap_ordered (h : list entry) : Prop := StronglySorted entry_le h.

(** ** The exit *)

Section ExitVocabulary.

Variables (width height : Z) (min_length : Z).

(** The wall an exit cell gets: left, top, right, bottom, by the first
    edge the cell lies on. *)
Definition exit_side (c : cell) : Z :=
  if fst c =? 0 then 1
  else if snd c =? 0 then 2
  else if fst c =? width - 1 then 4
  else 8.

(** The position on the other side of a wall. *)
Definition across (bit : Z) (c : cell) : cell :=
  if bit =? 1 then c_l c
  else if bit =? 2 then c_t c
  else if bit =? 4 then c_r c
  else c_b c.

(** A border cell farther from the start than [min_exit_distance]. *)
Definition qualifies (distances : list Z) (c : cell) : bool :=
  is_border width height c
  && (min_exit_distance width height min_length <? distance_of width distances c).

(** The cells the exit is drawn from, in the order of the comprehension. *)
Definition exit_pool (distances : list Z) : list cell :=
  List.filter (qualifies distances) (all_cells width height).

End ExitVocabulary.

(** The line [gen_maze] prints when no cell qualifies. *)
Definition no_path_message : string :=
  "Could not find a path with min distance specified".

(** ** The loop *)

Section LoopVocabulary.

Variables (width height : Z) (branch_dist : list Q).
Variable seeded_words : Z -> list Z.
Variable seed : option Z.
Variable s0 : frame.

(** The four positions next to a cell, in the order the loop looks at
    them. *)
Definition neighbours (c : cell) : list cell := [c_l c; c_r c; c_t c; c_b c].

(** A position the loop may branch into: in bounds, distance still [INF]. *)
Definition unvisited (distances : list Z) (n : cell) : bool :=
  in_bounds width height n && (distance_of width distances n =? INF).

(** A cell with a side through which it cannot branch. *)
Definition blocked (distances : list Z) (c : cell) : Prop :=
  exists n, In n (neighbours c) /\ unvisited distances n = false.

(** The cells waiting in the queue or in the heap. *)
Definition pending (s : frame) : list cell := q s ++ map snd (cell_by_distance s).

(** What holds of every frame at the head of the loop: the arrays have one
    entry per cell, the heap is ordered, every distance is the sentinel or
    below the number of visits, and every waiting cell has an index in
    range, a distance, and a side it cannot branch through. *)
Record loop_inv (s : frame) : Prop := {
  inv_shape : shaped (Z.to_nat (cell_count width height)) s;
  inv_heap : heap_ordered (cell_by_distance s);
  inv_distance :
    forall i d, cell_distance s !! i = Some d ->
      d = INF \/ 0 <= d < cells_visited s;
  inv_pending :
    forall c, In c (pending s) ->
      0 <= t width c < cell_count width height
      /\ distance_of width (cell_distance s) c <> INF
      /\ blocked (cell_distance s) c
}.

(** The current cell of an iteration: the head of the queue, or the cell
    [fallback_cell] hands out when the queue is empty. *)
Definition chooses (s : frame) (can_terminate : bool) (cc : cell) (s1 : frame) : Prop :=
  (exists rest, q s = cc :: rest /\ can_terminate = true /\ s1 = set_q rest s)
  \/ (q s = [] /\ can_terminate = false
      /\ fallback_cell width s = Returns (Some cc) s1).

(** A position with non-negative coordinates that has a side facing out
    of the grid. *)
Definition on_rim (c : cell) : Prop :=
  0 <= fst c /\ 0 <= snd c
  /\ exists n, In n (neighbours c) /\ in_bounds width height n = false.

(** The frames in which the run from [s0] evaluates the condition of
    the [while] loop. *)
Inductive at_loop_head : frame -> Prop :=
| head_first (s : frame) :
    (random_seed seeded_words seed ;;; init_state width height ;;;
     pick_start width height) s0 = Returns tt s ->
    at_loop_head s
| head_next (s s' : frame) :
    at_loop_head s ->
    cells_visited s < cell_count width height ->
    loop_body width height branch_dist s = Returns tt s' ->
    at_loop_head s'.

End LoopVocabulary.

(** ** Runs

    Each list of draws below holds what CPython 3.11 draws in the named
    call, in order: the value [_randbelow] returned, or
    [random() * 2**53]. *)

(** [gen_maze(2, 2, (0.3, 0.45, 0.2, 0.05), 1, 582)] *)
Definition draws_2x2_seed582 : list Z :=
  [0; 2; 0; 7573356314991143; 0; 8465791106270669; 0; 0; 0].

(** The frame in which the growth of that run ends. *)
Definition grown_2x2_seed582 : frame :=
  mkFrame 4 [1; -1; 0; 1] [2; 1; 0; 2] [4; 13; 3; 2]
    [(-2, (0, 0)); (-2, (1, 1)); (-1, (1, 0)); (0, (2, 0))]
    [(0, 0); (1, 1)] (Some (2, 0)) None [0] [].

(** [gen_maze(2, 2, (0.3, 0.45, 0.2, 0.05), 1, 55)]: the start is the
    cell (0, 0); the run visits the whole grid and returns. *)
Definition draws_2x2_seed55 : list Z :=
  [0; 0; 0; 8997190218620289; 1; 0; 6729611396001285; 0; 0].

(** The frames of that run at the head of the loop for the first time,
    when growth ends, and when [gen_maze] returns. *)
Definition head1_2x2_seed55 : frame :=
  mkFrame 1 [2; 1; 1; 2] [0; INF; INF; INF] [2; 0; 0; 0] [(0, (0, 0))] [(0, 0)]
    (Some (0, 0)) None [8997190218620289; 1; 0; 6729611396001285; 0; 0] [].

Definition grown_2x2_seed55 : frame :=
  mkFrame 4 [0; 0; 0; 0] [0; 1; 1; 2] [14; 1; 6; 1]
    [(-2, (1, 1)); (-1, (0, 1)); (-1, (1, 0)); (0, (0, 0))]
    [(1, 0); (1, 1)] (Some (0, 0)) None [0] [].

Definition returned_2x2_seed55 : frame :=
  mkFrame 4 [0; 0; 0; 0] [0; 1; 1; 2] [14; 1; 6; 5]
    [(-2, (1, 1)); (-1, (0, 1)); (-1, (1, 0)); (0, (0, 0))]
    [(1, 0); (1, 1)] (Some (0, 0)) (Some (1, 1)) [] [].

(** [gen_maze(2, 2, (0.3, 0.45, 0.2, 0.05), -1, 86)] *)
Definition draws_2x2_seed86 : list Z := [0; 2; 1].

(** [gen_maze(2, 2, (0.3, 0.45, 0.2, 0.05), -1, 33)] *)
Definition draws_2x2_seed33 : list Z :=
  [0; 2; 0; 7358916557861135; 0; 4314152153350445; 0;
   8820125287013977; 8153318592867735].

(** [gen_maze(1, 3, (0.3, 0.45, 0.2, 0.05), -1, 7)] *)
Definition draws_1x3_seed7 : list Z :=
  [1; 0; 1; 5863096500449791; 0; 7397381190762048; 847848043607847].

(** The frames of [gen_maze(1, 3, (0.3, 0.45, 0.2, 0.05), -1, 7)] at the
    head of the loop: before the first, the second and the third
    iteration. *)
Definition head1_1x3_seed7 : frame :=
  mkFrame 1 [1; 3; 1] [INF; 0; INF] [0; 4; 0] [(0, (0, 1))] [(0, 1)]
    (Some (0, 1)) None
    [5863096500449791; 0; 7397381190762048; 847848043607847] [].

Definition head2_1x3_seed7 : frame :=
  mkFrame 2 [1; 2; 1] [1; 0; INF] [8; 6; 0] [(-1, (0, 0)); (0, (0, 1))] [(0, 0)]
    (Some (0, 1)) None [7397381190762048; 847848043607847] [].

Definition head3_1x3_seed7 : frame :=
  mkFrame 2 [1; 2; 1] [1; 0; INF] [8; 6; 0] [(-1, (0, 0)); (0, (0, 1))] []
    (Some (0, 1)) None [847848043607847] [].

(** [gen_maze(3, 1, (0.3, 0.45, 0.2, 0.05), -1, 26)] *)
Definition draws_3x1_seed26 : list Z :=
  [0; 1; 1; 5411139138425371; 0; 1151772707714530; 8567381568700875].

(** The frame of [gen_maze(3, 1, (0.3, 0.45, 0.2, 0.05), -1, 26)] after
    two iterations: the start (1, 0) and cell (0, 0) are visited, the
    queue is empty. *)
Definition stuck_3x1_seed26 : frame :=
  mkFrame 2 [1; 2; 1] [1; 0; INF] [4; 9; 0] [(-1, (0, 0)); (0, (1, 0))] []
    (Some (1, 0)) None [8567381568700875] [].

(** [gen_maze(3, 1, (0.3, 0.45, 0.2, 0.05), -1, 0)] *)
Definition draws_3x1_seed0 : list Z := [1].

(** * Rendering: [pmap], [Maze.__str__] and [draw_maze]

    A Python string is the list of its code points.  PIL's images are
    known only through the calls the program makes: a bitmap is the
    number [i] of the file [i.png] it was opened from, and the output
    image is its size together with the pastes made on it, in order.
    [Image.open] fails on a file that is missing and [Image.new] on a
    negative width or height; PIL's other failures are not modelled. *)

(** The exceptions of the subscripts, of [Image.open] and of [Image.new]
    (a [ValueError], for a size with a negative component). *)
Inductive lookup_exn : Type :=
| ListIndexError
| KeyError (key : Z)
| FileNotFoundError (tile : Z)
| ImageValueError.

(** [pmap]: wall mask to glyph. *)
Definition pmap : gmap Z Z :=
  list_to_map
    [(0, 9679); (1, 9592); (2, 9593); (3, 9499); (4, 9594); (5, 9473);
     (6, 9495); (7, 9531); (8, 9595); (9, 9491); (10, 9475); (11, 9515);
     (12, 9487); (13, 9523); (14, 9507); (15, 9547)].

(** The code point of the line feed that [print(file=s)] writes. *)
Definition newline : Z := 10.

(** [range(a, b)] *)
Definition range_from (a b : Z) : list Z := map (fun k => a + k) (range (b - a)).

(** The inner loop of [__str__], [for x in range(width)], from counter
    [i] and buffer [s]. *)
Fixpoint str_row (dat : list Z) (xs : list Z) (i : Z) (s : list Z)
    : lookup_exn + (Z * list Z) :=
  match xs with
  | [] => inr (i, s)
  | _ :: xs' =>
      match py_get dat i with
      | None => inl ListIndexError
      | Some v =>
          match pmap !! v with
          | None => inl (KeyError v)
          | Some glyph => str_row dat xs' (i + 1) (s ++ [glyph])
          end
      end
  end.

(** The outer loop, [for y in range(height)]. *)
Fixpoint str_rows (dat : list Z) (width : Z) (ys : list Z) (i : Z) (s : list Z)
    : lookup_exn + list Z :=
  match ys with
  | [] => inr s
  | _ :: ys' =>
      match str_row dat (range width) i s with
      | inl e => inl e
      | inr (i', s') => str_rows dat width ys' i' (s' ++ [newline])
      end
  end.

(** [Maze.__str__] *)
Definition Maze_str (m : Maze) : lookup_exn + list Z :=
  str_rows (maze m) (width m) (range (height m)) 0 [].

(** The image [draw_maze] saves: the size it was created with and the
    pastes [(bitmap, (left, top))]. *)
Record picture : Type := mkPicture {
  image_size : Z * Z;
  pasted : list (Z * (Z * Z))
}.

(** [for i in range(1, 16): bitmaps[i] = Image.open(f"{i}.png")], where
    [on_disk i] tells whether the file [i.png] is there. *)
Fixpoint open_bitmaps (on_disk : Z -> bool) (tiles : list Z) (bitmaps : gmap Z Z)
    : lookup_exn + gmap Z Z :=
  match tiles with
  | [] => inr bitmaps
  | i :: tiles' =>
      if on_disk i then open_bitmaps on_disk tiles' (<[i := i]> bitmaps)
      else inl (FileNotFoundError i)
  end.

(** The inner loop of [draw_maze] in row [y]. *)
Fixpoint paste_row (dat : list Z) (bitmaps : gmap Z Z) (tilesize y : Z)
    (xs : list Z) (i : Z) (out : list (Z * (Z * Z)))
    : lookup_exn + (Z * list (Z * (Z * Z))) :=
  match xs with
  | [] => inr (i, out)
  | x :: xs' =>
      match py_get dat i with
      | None => inl ListIndexError
      | Some v =>
          match bitmaps !! v with
          | None => inl (KeyError v)
          | Some bitmap =>
              paste_row dat bitmaps tilesize y xs' (i + 1)
                (out ++ [(bitmap, (x * tilesize, y * tilesize))])
          end
      end
  end.

(** The outer loop of [draw_maze]. *)
Fixpoint paste_rows (dat : list Z) (bitmaps : gmap Z Z) (tilesize width : Z)
    (ys : list Z) (i : Z) (out : list (Z * (Z * Z)))
    : lookup_exn + list (Z * (Z * Z)) :=
  match ys with
  | [] => inr out
  | y :: ys' =>
      match paste_row dat bitmaps tilesize y (range width) i out with
      | inl e => inl e
      | inr (i', out') => paste_rows dat bitmaps tilesize width ys' i' out'
      end
  end.

(** [draw_maze(maze, filename, tilesize)]: the picture saved under
    [filename]. *)
Definition draw_maze (on_disk : Z -> bool) (m : Maze) (tilesize : Z)
    : lookup_exn + picture :=
  match open_bitmaps on_disk (range_from 1 16) ∅ with
  | inl e => inl e
  | inr bitmaps =>
      if (width m * tilesize <? 0) || (height m * tilesize <? 0)
      then inl ImageValueError
      else
        match paste_rows (maze m) bitmaps tilesize (width m) (range (height m)) 0 [] with
        | inl e => inl e
        | inr out => inr (mkPicture (width m * tilesize, height m * tilesize) out)
        end
  end.

(** ** Reading a rendering *)

(** [table[dat[i]]], when both subscripts succeed. *)
Definition through (table : gmap Z Z) (dat : list Z) (i : nat) : option Z :=
  match dat !! i with
  | Some v => table !! v
  | None => None
  end.

(** The exception [table[dat[i]]] raises when [dat[i]] is missing, or is
    there but no key of the table. *)
Definition subscript_error (dat : list Z) (i : nat) : lookup_exn :=
  match dat !! i with
  | Some v => KeyError v
  | None => ListIndexError
  end.

(** The number of cells the two loops of a rendering go through. *)
Definition cells_read (m : Maze) : nat :=
  (Z.to_nat (height m) * Z.to_nat (width m))%nat.

(** The dictionary [bitmaps] once the fifteen tiles have been opened. *)
Definition all_bitmaps : gmap Z Z :=
  foldl (fun bitmaps i => <[i := i]> bitmaps) ∅ (range_from 1 16).

(** * More vocabulary: what a run keeps *)

(** Where [pick_start] can put the start, and the wall it opens there:
    on the top or the bottom row with [x] drawn by [randint(0, width)], or
    on the left or the right column with [y] drawn by
    [randint(1, height - 1)]. *)
Definition start_shape (width height : Z) (c : cell) (bit : Z) : Prop :=
  (0 <= fst c <= width
   /\ ((bit = 2 /\ snd c = 0) \/ (bit = 8 /\ snd c = height - 1)))
  \/ (1 <= snd c <= height - 1
      /\ ((bit = 1 /\ fst c = 0) \/ (bit = 4 /\ fst c = width - 1))).

(** A wall mask is a 4-bit value. *)
Definition mask_ok (v : Z) : Prop := 0 <= v <= 15.

(** Every bit set in [v] is set in [v']. *)
Definition mask_le (v v' : Z) : Prop :=
  forall b, Z.testbit v b = true -> Z.testbit v' b = true.

(** No wall that is open in [walls] is closed in [walls']. *)
Definition walls_grow (walls walls' : list Z) : Prop := Forall2 mask_le walls walls'.

(** The number of entries of the distance array that are not the
    sentinel. *)
Definition visited_count (distances : list Z) : nat :=
  length (List.filter (fun d => negb (d =? INF)) distances).

(** Every distance that has been assigned is still there. *)
Definition distances_kept (distances distances' : list Z) : Prop :=
  forall i d, distances !! i = Some d -> d <> INF -> distances' !! i = Some d.

(** What one frame owes to an earlier one of the same run. *)
Definition extends (s s' : frame) : Prop :=
  distances_kept (cell_distance s) (cell_distance s')
  /\ walls_grow (cell_state s) (cell_state s')
  /\ cells_visited s <= cells_visited s'.

(** The heap entries are the pairs [(-distance, cell)]. *)
Definition keyed (width : Z) (distances : list Z) (h : list entry) : Prop :=
  forall e, In e h -> distance_of width distances (snd e) = - fst e.

(** What holds, beyond [loop_inv], of every frame at the head of the loop:
    the masks are 4-bit values, a cell with a distance has an open wall,
    [cells_visited] counts the cells with a distance, and the heap is keyed
    by the negated distances. *)
Record visit_inv (width height : Z) (s : frame) : Prop := {
  vis_loop : loop_inv width height s;
  vis_masks : Forall mask_ok (cell_state s);
  vis_open :
    forall i d, cell_distance s !! i = Some d -> d <> INF ->
      exists v, cell_state s !! i = Some v /\ v <> 0;
  vis_count : cells_visited s = Z.of_nat (visited_count (cell_distance s));
  vis_keys : keyed width (cell_distance s) (cell_by_distance s)
}.

(** ** Runs that start in the grid *)

(** The number of positions around [c] that the loop may still branch
    into. *)
Definition open_sides (width height : Z) (distances : list Z) (c : cell) : Z :=
  Z.of_nat (length (List.filter (unvisited width height distances) (neighbours c))).

(** How often [set_visited n] decrements the remaining-sides count of
    [c]. *)
Definition adjacency (n c : cell) : Z :=
  Z.b2z (bool_decide (c = c_l n)) + Z.b2z (bool_decide (c = c_r n))
  + Z.b2z (bool_decide (c = c_t n)) + Z.b2z (bool_decide (c = c_b n)).

(** The weights [gen_maze] is documented for: four of them, none
    negative, the first one positive. *)
Definition weights_ok (branch_dist : list Q) : Prop :=
  length branch_dist = 4%nat
  /\ exists w0 rest, branch_dist = w0 :: rest /\ (0 < w0)%Q /\ Forall (Qle 0) rest.

(** The heap holds every visited cell of the grid that can still branch,
    the cell [spared] apart. *)
Definition heap_covers (width height : Z) (spared : option cell) (s : frame) : Prop :=
  forall c, in_bounds width height c = true ->
    distance_of width (cell_distance s) c <> INF ->
    1 <= open_sides width height (cell_distance s) c ->
    Some c <> spared ->
    In c (map snd (cell_by_distance s)).

(** What holds at the head of the loop of a run on a grid of at least two
    rows and two columns whose start lies in the grid: the waiting cells
    are cells of the grid, the remaining-sides array counts, for every
    cell, the neighbours the loop may still branch into, and the heap
    holds the visited cells for which that count is positive. *)
Record grid_core (width height : Z) (spared : option cell) (s : frame) : Prop := {
  core_shape : shaped (Z.to_nat (cell_count width height)) s;
  core_pending : forall c, In c (pending s) -> in_bounds width height c = true;
  core_sides :
    forall c, in_bounds width height c = true ->
      py_get (cell_remaining_sides s) (t width c)
      = Some (open_sides width height (cell_distance s) c);
  core_heap : heap_covers width height spared s
}.

Record grid_inv (width height : Z) (s : frame) : Prop := {
  grid_visit : visit_inv width height s;
  grid_core_of : grid_core width height None s;
  grid_start :
    exists c, start s = Some c /\ in_bounds width height c = true
              /\ distance_of width (cell_distance s) c <> INF
}.

(** The bound on the number of iterations still to come: every iteration
    takes a cell from the queue or visits a new one. *)
Definition iterations_left (width height : Z) (s : frame) : Z :=
  2 * (cell_count width height - cells_visited s) + Z.of_nat (length (q s)).

(** ** The maze as a graph *)

(** The four wall bits, and the bit of a wall seen from the cell on its
    other side. *)
Definition wall_bits : list Z := [1; 2; 4; 8].

Definition opposite (bit : Z) : Z :=
  if bit =? 1 then 4 else if bit =? 2 then 8 else if bit =? 4 then 1 else 2.

Section Graph.

Variables (width height : Z).
Variable walls : list Z.

(** The wall [bit] of cell [c] is open. *)
Definition open_toward (c : cell) (bit : Z) : bool :=
  Z.testbit (mask_of width walls c) (Z.log2 bit).

(** [c] and the position across its wall [bit] are cells of the grid, and
    the wall between them is open on both sides. *)
Definition linked_by (c : cell) (bit : Z) : bool :=
  in_bounds width height c && in_bounds width height (across bit c)
  && open_toward c bit && open_toward (across bit c) (opposite bit).

(** Where one gets from [c] by going through the walls [steps], one
    after the other, as long as each of them is a passage. *)
Fixpoint walk (c : cell) (steps : list Z) : option cell :=
  match steps with
  | [] => Some c
  | bit :: rest => if linked_by c bit then walk (across bit c) rest else None
  end.

End Graph.

(** The array of masks after [open_wall bit c]. *)
Definition opened (width : Z) (walls : list Z) (c : cell) (bit : Z) : list Z :=
  <[Z.to_nat (t width c) := Z.lor (mask_of width walls c) bit]> walls.

(** What the walls and the distances of a run that started at the cell
    [c0] of the grid, with the wall [bit0] opened to the outside, have in
    common at every moment: the start has distance 0 and no distance is
    negative; a cell without a
    distance has no open wall; a wall between two cells is open on both
    sides or on none; the only wall open to the outside is that of the
    start; every other cell with a distance is linked to a cell that is
    one step nearer to the start; linked cells are one step apart; and
    there is one passage less than there are cells with a distance. *)
Record tree_inv (width height : Z) (c0 : cell) (bit0 : Z) (walls distances : list Z)
    : Prop := {
  tree_root :
    in_bounds width height c0 = true /\ distance_of width distances c0 = 0;
  tree_nonneg :
    forall c, in_bounds width height c = true -> 0 <= distance_of width distances c;
  tree_closed :
    forall c, in_bounds width height c = true -> distance_of width distances c = INF ->
      mask_of width walls c = 0;
  tree_sym :
    forall c bit, In bit wall_bits ->
      in_bounds width height c = true -> in_bounds width height (across bit c) = true ->
      open_toward width walls c bit = open_toward width walls (across bit c) (opposite bit);
  tree_out :
    forall c bit, In bit wall_bits ->
      in_bounds width height c = true -> in_bounds width height (across bit c) = false ->
      open_toward width walls c bit = bool_decide (c = c0) && (bit =? bit0);
  tree_parent :
    forall c, in_bounds width height c = true -> distance_of width distances c <> INF ->
      c <> c0 ->
      exists bit,
        In bit wall_bits /\ linked_by width height walls c bit = true
        /\ distance_of width distances (across bit c) + 1 = distance_of width distances c;
  tree_near :
    forall c bit, In bit wall_bits -> linked_by width height walls c bit = true ->
      distance_of width distances (across bit c) = distance_of width distances c + 1
      \/ distance_of width distances c = distance_of width distances (across bit c) + 1;
  tree_edges : S (length (interior_edges width height walls)) = visited_count distances
}.

(** * Properties *)

(** ** Python lists *)

Lemma py_index_in_range (len : nat) (i : Z) :
  0 <= i < Z.of_nat len -> py_index len i = Some (Z.to_nat i).
Proof.
  intros Hi. unfold py_index.
  destruct (Z.leb_spec 0 i); [|lia].
  destruct (Z.ltb_spec i (Z.of_nat len)); [reflexivity|lia].
Qed.

Lemma py_index_bound (len : nat) (i : Z) (k : nat) :
  py_index len i = Some k -> (k < len)%nat.
Proof.
  unfold py_index.
  destruct (Z.leb_spec 0 i), (Z.ltb_spec i (Z.of_nat len)); simpl;
    try (intros [= <-]; lia);
    destruct (Z.leb_spec (- Z.of_nat len) i), (Z.ltb_spec i 0); simpl;
    try discriminate; intros [= <-]; lia.
Qed.

Lemma py_get_in_range {A : Type} (a : list A) (i : Z) :
  0 <= i < Z.of_nat (length a) -> py_get a i = a !! Z.to_nat i.
Proof. intros Hi. unfold py_get. now rewrite py_index_in_range. Qed.

Lemma py_get_is_Some {A : Type} (a : list A) (i : Z) :
  0 <= i < Z.of_nat (length a) -> exists v, py_get a i = Some v.
Proof.
  intros Hi. rewrite py_get_in_range by assumption.
  destruct (a !! Z.to_nat i) as [v|] eqn:E; [eauto|].
  apply lookup_ge_None in E. lia.
Qed.

Lemma py_set_in_range {A : Type} (a : list A) (i : Z) (v : A) :
  0 <= i < Z.of_nat (length a) -> py_set a i v = Some (<[Z.to_nat i := v]> a).
Proof. intros Hi. unfold py_set. now rewrite py_index_in_range. Qed.

Lemma py_set_length {A : Type} (a a' : list A) (i : Z) (v : A) :
  py_set a i v = Some a' -> length a' = length a.
Proof.
  unfold py_set. destruct (py_index (length a) i); [|discriminate].
  intros [= <-]. apply length_insert.
Qed.

Lemma range_spec (n x : Z) : In x (range n) <-> 0 <= x < n.
Proof.
  unfold range. rewrite in_map_iff. split.
  - intros (k & <- & Hk). apply in_seq in Hk. lia.
  - intros Hx. exists (Z.to_nat x). split; [lia|]. apply in_seq. lia.
Qed.

(** ** The monad *)

Lemma bind_Returns {A B : Type} (m : M A) (k : A -> M B) s b s' :
  bind m k s = Returns b s' ->
  exists a s1, m s = Returns a s1 /\ k a s1 = Returns b s'.
Proof.
  unfold bind. destruct (m s) as [a s1| |]; [eauto|discriminate|discriminate].
Qed.

Lemma bind_of_Returns {A B : Type} (m : M A) (k : A -> M B) s a s1 :
  m s = Returns a s1 -> bind m k s = k a s1.
Proof. intros H. unfold bind. now rewrite H. Qed.

Lemma bind_of_Raises {A B : Type} (m : M A) (k : A -> M B) s e s1 :
  m s = Raises e s1 -> bind m k s = Raises e s1.
Proof. intros H. unfold bind. now rewrite H. Qed.

Lemma next_word_spec (s : frame) : next_word s = Returns (next_raw s) (consume s).
Proof.
  unfold next_word, next_raw, consume. destruct s as [a b c d e f g h ws o].
  destruct ws; reflexivity.
Qed.

Lemma randbelow_spec (n : Z) (s : frame) :
  randbelow n s = Returns (next_raw s mod n) (consume s).
Proof. unfold randbelow, bind. now rewrite next_word_spec. Qed.

Lemma random_random_spec (s : frame) :
  random_random s = Returns (Qmake (next_raw s mod 2 ^ 53) (2 ^ 53)) (consume s).
Proof. unfold random_random, bind. now rewrite next_word_spec. Qed.

Lemma random_choice_spec {A : Type} (x : A) (xs : list A) (s : frame) :
  random_choice (x :: xs) s
  = Returns (nth (Z.to_nat (next_raw s mod Z.of_nat (length (x :: xs)))) (x :: xs) x)
      (consume s).
Proof. unfold random_choice, bind. now rewrite randbelow_spec. Qed.

(** ** Fuel *)

Section Fuel.

Variables (width height : Z) (branch_dist : list Q).

Lemma grow_more_fuel (fuel : nat) :
  forall s fuel', grow width height branch_dist fuel s <> OutOfFuel ->
    (fuel <= fuel')%nat ->
    grow width height branch_dist fuel' s = grow width height branch_dist fuel s.
Proof.
  induction fuel as [|fuel IH]; intros s fuel' Hne Hle.
  - simpl in *. destruct (cells_visited s <? cell_count width height) eqn:E.
    + congruence.
    + destruct fuel'; simpl; now rewrite E.
  - destruct fuel' as [|fuel']; [lia|]. simpl in *.
    destruct (cells_visited s <? cell_count width height) eqn:E; [|reflexivity].
    unfold bind in *.
    destruct (loop_body width height branch_dist s) as [[] s1|e s1|]; try reflexivity.
    apply IH; [assumption|lia].
Qed.

End Fuel.

(** ** Determinism *)

Section Determinism.

Variables (width height : Z) (branch_dist : list Q) (min_length : Z).
Variable seeded_words : Z -> list Z.

Lemma growth_more_fuel (fuel fuel' : nat) (seed : option Z) (s : frame) :
  growth width height branch_dist seeded_words fuel seed s <> OutOfFuel ->
  (fuel <= fuel')%nat ->
  growth width height branch_dist seeded_words fuel' seed s
  = growth width height branch_dist seeded_words fuel seed s.
Proof.
  unfold growth, bind. intros Hne Hle.
  destruct (random_seed seeded_words seed s) as [[] s1|e s1|]; try reflexivity.
  destruct (init_state width height s1) as [[] s2|e s2|]; try reflexivity.
  destruct (pick_start width height s2) as [[] s3|e s3|]; try reflexivity.
  now apply grow_more_fuel.
Qed.

Lemma gen_maze_more_fuel (fuel fuel' : nat) (seed : option Z) (s : frame) :
  gen_maze width height branch_dist min_length seeded_words fuel seed s <> OutOfFuel ->
  (fuel <= fuel')%nat ->
  gen_maze width height branch_dist min_length seeded_words fuel' seed s
  = gen_maze width height branch_dist min_length seeded_words fuel seed s.
Proof.
  unfold gen_maze. intros Hne Hle. unfold bind at 1 3.
  rewrite (growth_more_fuel fuel fuel' seed s); [reflexivity| |assumption].
  intros E. apply Hne. unfold bind at 1. now rewrite E.
Qed.

(** An integer seed makes the run independent of the generator state it
    finds on entry (and of the fuel, once there is enough of it). *)
Lemma seeded_run_ignores_entry (fuel : nat) (seed : Z) (g1 g2 : list Z) :
  gen_maze width height branch_dist min_length seeded_words fuel (Some seed)
    (entry_frame g1)
  = gen_maze width height branch_dist min_length seeded_words fuel (Some seed)
    (entry_frame g2).
Proof. reflexivity. Qed.

End Determinism.

(** C2.  For fixed [width], [height], [branch_dist], [min_length] and an
    integer [seed], two runs of [gen_maze] that both finish, from any two
    states of the module-level generator, end in the same way: the same
    [Maze] (wall-mask array and dimensions) and the same final frame, hence
    the same distance array, start cell and exit cell; or the same
    exception. *)
Theorem gen_maze_deterministic
    (width height : Z) (branch_dist : list Q) (min_length : Z)
    (seeded_words : Z -> list Z) (seed : Z)
    (fuel1 fuel2 : nat) (g1 g2 : list Z) :
  gen_maze width height branch_dist min_length seeded_words fuel1 (Some seed)
    (entry_frame g1) <> OutOfFuel ->
  gen_maze width height branch_dist min_length seeded_words fuel2 (Some seed)
    (entry_frame g2) <> OutOfFuel ->
  gen_maze width height branch_dist min_length seeded_words fuel1 (Some seed)
    (entry_frame g1)
  = gen_maze width height branch_dist min_length seeded_words fuel2 (Some seed)
    (entry_frame g2).
Proof.
  intros H1 H2.
  rewrite <- (gen_maze_more_fuel _ _ _ _ _ fuel1 (Nat.max fuel1 fuel2))
    by (assumption || lia).
  rewrite <- (gen_maze_more_fuel _ _ _ _ _ fuel2 (Nat.max fuel1 fuel2) _ (entry_frame g2))
    by (assumption || lia).
  apply seeded_run_ignores_entry.
Qed.

Lemma gen_maze_deterministic_witness :
  gen_maze 2 2 default_branch_factors 1 (fun _ => draws_2x2_seed582) 2 (Some 582)
    (entry_frame [])
  = gen_maze 2 2 default_branch_factors 1 (fun _ => draws_2x2_seed582) 5 (Some 582)
    (entry_frame [1; 2; 3]).
Proof.
  apply gen_maze_deterministic; vm_compute; discriminate.
Defined.

(** ** The branch sampler *)

Lemma accumulate_from_length (acc : Q) (ws : list Q) :
  length (accumulate_from acc ws) = length ws.
Proof. revert acc. induction ws as [|w ws IH]; intros acc; simpl; [reflexivity|now rewrite IH]. Qed.

Lemma accumulate_length (ws : list Q) : length (accumulate ws) = length ws.
Proof. destruct ws; simpl; [reflexivity|now rewrite accumulate_from_length]. Qed.

Lemma take_accumulate_from (k : nat) (acc : Q) (ws : list Q) :
  take k (accumulate_from acc ws) = accumulate_from acc (take k ws).
Proof.
  revert k acc. induction ws as [|w ws IH]; intros [|k] acc; simpl; try reflexivity.
  now rewrite IH.
Qed.

(** Truncating the running sums is the same as summing the truncated
    weights: the entries past the cut never enter the sums. *)
Lemma take_accumulate (k : nat) (ws : list Q) :
  take k (accumulate ws) = accumulate (take k ws).
Proof.
  destruct ws as [|w ws]; destruct k as [|k]; simpl; try reflexivity.
  now rewrite take_accumulate_from.
Qed.

Lemma bisect_loop_bounds (rounds : nat) (a : list Q) (x : Q) :
  forall lo hi, (lo <= hi)%nat ->
    (lo <= bisect_loop rounds a x lo hi <= hi)%nat.
Proof.
  induction rounds as [|rounds IH]; intros lo hi Hle; cbn [bisect_loop]; [lia|].
  destruct (Nat.ltb_spec lo hi) as [Hlt|]; [|lia].
  assert (Hmid : (lo <= (lo + hi) / 2 < hi)%nat).
  { split.
    - apply Nat.div_le_lower_bound; lia.
    - apply Nat.Div0.div_lt_upper_bound; lia. }
  destruct (a !! ((lo + hi) / 2)%nat) as [am|]; [|lia].
  destruct (negb (Qle_bool am x)).
  - specialize (IH lo ((lo + hi) / 2)%nat). lia.
  - specialize (IH (S ((lo + hi) / 2)) hi). lia.
Qed.

Lemma Qle_bool_scaled (c x y x' y' : Q) :
  (0 < c)%Q -> (x' == c * x)%Q -> (y' == c * y)%Q ->
  Qle_bool x' y' = Qle_bool x y.
Proof.
  intros Hc Hx Hy. apply eq_true_iff_eq. rewrite !Qle_bool_iff, Hx, Hy.
  now apply Qmult_le_l.
Qed.

Lemma bisect_loop_scaled (c : Q) (a' a : list Q) (x' x : Q) (rounds : nat) :
  (0 < c)%Q -> scaled c a' a -> (x' == c * x)%Q ->
  forall lo hi, bisect_loop rounds a' x' lo hi = bisect_loop rounds a x lo hi.
Proof.
  intros Hc Ha Hx.
  induction rounds as [|rounds IH]; intros lo hi; cbn [bisect_loop]; [reflexivity|].
  destruct (lo <? hi)%nat; [|reflexivity].
  destruct (a' !! ((lo + hi) / 2)%nat) as [am'|] eqn:E'.
  - destruct (Forall2_lookup_l _ _ _ _ _ Ha E') as (am & E & Ham).
    rewrite E, (Qle_bool_scaled c am x am' x') by assumption.
    destruct (negb (Qle_bool am x)); apply IH.
  - assert (E : a !! ((lo + hi) / 2)%nat = None).
    { apply lookup_ge_None. apply lookup_ge_None in E'.
      now rewrite <- (Forall2_length _ _ _ Ha). }
    now rewrite E.
Qed.

Lemma accumulate_from_scaled (c : Q) (ws : list Q) :
  forall acc' acc, (acc' == c * acc)%Q ->
    scaled c (accumulate_from acc' (map (Qmult c) ws)) (accumulate_from acc ws).
Proof.
  induction ws as [|w ws IH]; intros acc' acc Hacc; simpl; constructor.
  - rewrite Hacc. ring.
  - apply IH. rewrite Hacc. ring.
Qed.

Lemma accumulate_scaled (c : Q) (ws : list Q) :
  scaled c (accumulate (map (Qmult c) ws)) (accumulate ws).
Proof.
  destruct ws as [|w ws]; simpl; constructor; [reflexivity|].
  apply accumulate_from_scaled. reflexivity.
Qed.

Lemma scaled_last (c : Q) (a' a : list Q) :
  scaled c a' a ->
  match last a', last a with
  | Some x', Some x => (x' == c * x)%Q
  | None, None => True
  | _, _ => False
  end.
Proof.
  induction 1 as [|x' x a' a Hx Hrest IH]; simpl; [exact I|].
  destruct Hrest as [|y' y b' b Hy Hb]; simpl in *; [assumption|].
  exact IH.
Qed.

Lemma accumulate_from_positive (acc : Q) (ws : list Q) :
  (0 < acc)%Q -> Forall (Qle 0) ws ->
  Forall (Qlt 0) (accumulate_from acc ws).
Proof.
  intros Hacc Hws. revert acc Hacc.
  induction Hws as [|w ws Hw _ IH]; intros acc Hacc; simpl; constructor.
  - apply Qlt_le_trans with (acc + 0)%Q; [now rewrite Qplus_0_r|].
    now apply Qplus_le_r.
  - apply IH. apply Qlt_le_trans with (acc + 0)%Q; [now rewrite Qplus_0_r|].
    now apply Qplus_le_r.
Qed.

Lemma accumulate_positive (w0 : Q) (ws : list Q) :
  (0 < w0)%Q -> Forall (Qle 0) ws -> Forall (Qlt 0) (accumulate (w0 :: ws)).
Proof.
  intros H0 Hws. simpl. constructor; [assumption|].
  now apply accumulate_from_positive.
Qed.

Lemma random_choices_scaled (c : Q) (population : list nat) (a' a : list Q) (s : frame) :
  (0 < c)%Q -> scaled c a' a ->
  random_choices population a' s = random_choices population a s.
Proof.
  intros Hc Ha. unfold random_choices.
  rewrite (Forall2_length _ _ _ Ha).
  destruct (negb (length a =? length population)%nat); [reflexivity|].
  pose proof (scaled_last c a' a Ha) as Hlast.
  destruct (last a') as [total'|], (last a) as [total|]; try contradiction; [|reflexivity].
  rewrite (Qle_bool_scaled c total 0 total' 0) by (assumption || ring).
  destruct (Qle_bool total 0); [reflexivity|].
  unfold bind. rewrite random_random_spec. unfold ret, bisect.
  rewrite (bisect_loop_scaled c a' a _
             (Qmake (next_raw s mod 2 ^ 53) (2 ^ 53) * total)%Q); try assumption.
  - reflexivity.
  - rewrite Hlast. ring.
Qed.

Lemma random_choices_Returns (population : list nat) (a : list Q) (s : frame) k s' :
  random_choices population a s = Returns k s' ->
  exists i, (i <= length population - 1)%nat /\ population !! i = Some k /\ s' = consume s.
Proof.
  unfold random_choices.
  destruct (negb (length a =? length population)%nat); [discriminate|].
  destruct (last a) as [total|]; [|discriminate].
  destruct (Qle_bool total 0); [discriminate|].
  unfold bind. rewrite random_random_spec. unfold ret.
  set (i := bisect a _ 0 _).
  destruct (population !! i) as [k'|] eqn:E; [|discriminate].
  intros [= <- <-]. exists i. repeat split; try assumption.
  subst i. unfold bisect. apply bisect_loop_bounds. lia.
Qed.

Lemma random_choices_total (population : list nat) (a : list Q) (s : frame) :
  length a = length population -> population <> [] -> Forall (Qlt 0) a ->
  exists k, random_choices population a s = Returns k (consume s).
Proof.
  intros Hlen Hne Hpos. unfold random_choices.
  rewrite Hlen, Nat.eqb_refl. simpl.
  destruct (last a) as [total|] eqn:Elast.
  - assert (Ht : (0 < total)%Q).
    { apply last_Some in Elast as [a0 ->].
      apply Forall_app in Hpos as [_ Hpos]. now inversion Hpos. }
    destruct (Qle_bool total 0) eqn:Ele.
    { apply Qle_bool_iff in Ele. exfalso. apply (Qlt_irrefl 0).
      now apply Qlt_le_trans with total. }
    unfold bind. rewrite random_random_spec. unfold ret.
    set (i := bisect a _ 0 _).
    assert (Hi : (i <= length population - 1)%nat).
    { subst i. unfold bisect. apply bisect_loop_bounds. lia. }
    destruct (population !! i) as [k|] eqn:E; [eauto|].
    apply lookup_ge_None in E. destruct population; [congruence|simpl in *; lia].
  - apply last_None in Elast. subst a. destruct population; [congruence|discriminate].
Qed.

(** The draw of the branch count for [n] possible branches.  With
    non-negative weights, a positive first weight and at least [n+1]
    weights configured, the draw succeeds and consumes one word of the
    generator.  Whenever it yields a count [k]: [k] lies in [0, n]; the
    same count results from any weight list with the same first [n+1]
    entries; and the same count results from the weights scaled by any
    positive factor. *)
Lemma sample_branch_count_spec
    (branch_dist : list Q) (n : nat) (s : frame) :
  (forall w0 rest, branch_dist = w0 :: rest -> (0 < w0)%Q -> Forall (Qle 0) rest ->
     (n < length branch_dist)%nat ->
     exists k, sample_branch_count branch_dist n s = Returns k (consume s))
  /\ (forall k s', sample_branch_count branch_dist n s = Returns k s' ->
        (k <= n)%nat
        /\ (forall other, take (n + 1) other = take (n + 1) branch_dist ->
              sample_branch_count other n s = Returns k s')
        /\ (forall c, (0 < c)%Q ->
              sample_branch_count (map (Qmult c) branch_dist) n s = Returns k s')).
Proof.
  split.
  - intros w0 rest -> H0 Hrest Hn. unfold sample_branch_count, cumulative_brach_dist.
    apply random_choices_total.
    + rewrite length_take, accumulate_length, length_seq. lia.
    + rewrite Nat.add_1_r. discriminate.
    + apply Forall_take. now apply accumulate_positive.
  - intros k s' Hk. split; [|split].
    + apply random_choices_Returns in Hk as (i & Hi & Hlook & _).
      apply lookup_seq in Hlook. lia.
    + intros other Hother. rewrite <- Hk.
      unfold sample_branch_count, cumulative_brach_dist.
      now rewrite !take_accumulate, Hother.
    + intros c Hc. rewrite <- Hk.
      unfold sample_branch_count, cumulative_brach_dist.
      apply random_choices_scaled with c; [assumption|].
      apply Forall2_take. apply accumulate_scaled.
Qed.

(** ** Invariants of the frame *)

Section Preserves.

Variable I : frame -> Prop.

Lemma preserves_ret {A : Type} (a : A) : preserves I (ret a).
Proof. intros s Hs. exact Hs. Qed.

Lemma preserves_raise {A : Type} (e : exn) : preserves I (@raise A e).
Proof. intros s Hs. exact Hs. Qed.

Lemma preserves_gets {A : Type} (f : frame -> A) : preserves I (gets f).
Proof. intros s Hs. exact Hs. Qed.

Lemma preserves_bind {A B : Type} (m : M A) (k : A -> M B) :
  preserves I m -> (forall a, preserves I (k a)) -> preserves I (bind m k).
Proof.
  intros Hm Hk s Hs. unfold bind. specialize (Hm s Hs).
  destruct (m s) as [a s1|e s1|]; [|assumption|exact Logic.I].
  apply Hk. exact Hm.
Qed.

Lemma preserves_modify (f : frame -> frame) :
  (forall s, I s -> I (f s)) -> preserves I (modify f).
Proof. intros Hf s Hs. apply Hf, Hs. Qed.

Lemma preserves_load (arr : frame -> list Z) (i : Z) : preserves I (load arr i).
Proof. intros s Hs. unfold load. destruct (py_get (arr s) i); exact Hs. Qed.

Lemma preserves_store (arr : frame -> list Z) upd (i v : Z) :
  (forall s a', I s -> py_set (arr s) i v = Some a' -> I (upd a' s)) ->
  preserves I (store arr upd i v).
Proof.
  intros Hu s Hs. unfold store. destruct (py_set (arr s) i v) eqn:E; [|exact Hs].
  now apply Hu.
Qed.

Lemma preserves_for_each {A : Type} (xs : list A) (body : A -> M unit) :
  (forall x, preserves I (body x)) -> preserves I (for_each xs body).
Proof.
  intros Hb. induction xs as [|x xs IH]; simpl.
  - apply preserves_ret.
  - apply preserves_bind; [apply Hb|intros _; exact IH].
Qed.

(** Frames that differ in fields [I] does not read. *)
Hypothesis I_rand : forall s ws, I s -> I (set_rand_words ws s).
Hypothesis I_heap : forall s h, I s -> I (set_cell_by_distance h s).
Hypothesis I_q : forall s v, I s -> I (set_q v s).

Lemma preserves_next_word : preserves I next_word.
Proof.
  intros s Hs. unfold next_word. destruct (rand_words s); [exact Hs|].
  now apply I_rand.
Qed.

Lemma preserves_randbelow (n : Z) : preserves I (randbelow n).
Proof.
  apply preserves_bind; [apply preserves_next_word|intros; apply preserves_ret].
Qed.

Lemma preserves_random_random : preserves I random_random.
Proof.
  apply preserves_bind; [apply preserves_next_word|intros; apply preserves_ret].
Qed.

Lemma preserves_random_choice {A : Type} (seq : list A) : preserves I (random_choice seq).
Proof.
  destruct seq; simpl; [apply preserves_raise|].
  apply preserves_bind; [apply preserves_randbelow|intros; apply preserves_ret].
Qed.

Lemma preserves_random_randint (a b : Z) : preserves I (random_randint a b).
Proof.
  unfold random_randint. destruct (0 <? b + 1 - a); [|apply preserves_raise].
  apply preserves_bind; [apply preserves_randbelow|intros; apply preserves_ret].
Qed.

Lemma preserves_random_choices (population : list nat) (cw : list Q) :
  preserves I (random_choices population cw).
Proof.
  unfold random_choices.
  destruct (negb _); [apply preserves_raise|].
  destruct (last cw); [|apply preserves_raise].
  destruct (Qle_bool _ _); [apply preserves_raise|].
  apply preserves_bind; [apply preserves_random_random|intros u].
  destruct (population !! _); [apply preserves_ret|apply preserves_raise].
Qed.

Lemma preserves_sample_pool {A : Type} (k : nat) :
  forall (pool : list A) (n : nat), preserves I (sample_pool k pool n).
Proof.
  induction k as [|k IH]; intros pool n; simpl; [apply preserves_ret|].
  apply preserves_bind; [apply preserves_randbelow|intros j].
  destruct (pool !! Z.to_nat j); [|apply preserves_raise].
  destruct (pool !! (n - 1)%nat); [|apply preserves_raise].
  apply preserves_bind; [apply IH|intros; apply preserves_ret].
Qed.

Lemma preserves_random_sample {A : Type} (population : list A) (k : nat) :
  preserves I (random_sample population k).
Proof.
  unfold random_sample. destruct (k <=? length population)%nat.
  - apply preserves_sample_pool.
  - apply preserves_raise.
Qed.

Lemma preserves_fallback_cell (width : Z) : preserves I (fallback_cell width).
Proof.
  intros s Hs. unfold fallback_cell.
  destruct (fallback_from _ _ _) as [[c h]|h]; now apply I_heap.
Qed.

Lemma preserves_popleft : preserves I popleft.
Proof.
  intros s Hs. unfold popleft. destruct (q s); [exact Hs|now apply I_q].
Qed.

End Preserves.

Create HintDb genmaze.

#[local] Hint Unfold open_left open_top open_right open_bottom open_wall connect
  q_up set_visited decrement_side is_visited consider possible_branches_of
  sample_branch_count branch_from loop_body pick_start : genmaze.

Ltac preserves_step leaf :=
  lazymatch goal with
  | |- preserves _ (bind _ _) => apply preserves_bind; [|intro]
  | |- preserves _ (ret _) => apply preserves_ret
  | |- preserves _ (raise _) => apply preserves_raise
  | |- preserves _ (gets _) => apply preserves_gets
  | |- preserves _ (load _ _) => apply preserves_load
  | |- preserves _ (modify _) => apply preserves_modify; leaf
  | |- preserves _ (store _ _ _ _) => apply preserves_store; leaf
  | |- preserves _ (for_each _ _) => apply preserves_for_each; intro
  | |- preserves _ (random_choice _) => apply preserves_random_choice; leaf
  | |- preserves _ (random_randint _ _) => apply preserves_random_randint; leaf
  | |- preserves _ (random_choices _ _) => apply preserves_random_choices; leaf
  | |- preserves _ (random_sample _ _) => apply preserves_random_sample; leaf
  | |- preserves _ (fallback_cell _) => apply preserves_fallback_cell; leaf
  | |- preserves _ popleft => apply preserves_popleft; leaf
  | |- preserves _ (if ?b then _ else _) => destruct b
  | |- preserves _ (match ?x with _ => _ end) => destruct x
  end.

Ltac preserves_all leaf :=
  autounfold with genmaze; cbv zeta; repeat preserves_step leaf.

(** *** The arrays keep their length *)

Ltac shaped_leaf :=
  first
    [ let s := fresh "s" in let a := fresh "a" in let E := fresh "E" in
      intros s a (? & ? & ?) E; apply py_set_length in E;
      repeat split; simpl in *; congruence
    | let s := fresh "s" in
      intros s ? (? & ? & ?); repeat split; simpl; assumption
    | let s := fresh "s" in
      intros s (? & ? & ?); repeat split; simpl; assumption ].

Section Shaped.

Variables (width height : Z) (branch_dist : list Q) (n : nat).

Lemma shaped_pick_start : preserves (shaped n) (pick_start width height).
Proof. preserves_all shaped_leaf. Qed.

Lemma shaped_loop_body : preserves (shaped n) (loop_body width height branch_dist).
Proof. preserves_all shaped_leaf. Qed.

Lemma shaped_grow (fuel : nat) : preserves (shaped n) (grow width height branch_dist fuel).
Proof.
  induction fuel as [|fuel IH]; intros s Hs; simpl;
    destruct (cells_visited s <? cell_count width height); try assumption; [exact Logic.I|].
  apply (preserves_bind (shaped n) (loop_body width height branch_dist)
           (fun _ => grow width height branch_dist fuel));
    [apply shaped_loop_body|intros _; exact IH|exact Hs].
Qed.

End Shaped.

Lemma init_state_shaped (width height : Z) (s s' : frame) :
  init_state width height s = Returns tt s' ->
  shaped (Z.to_nat (cell_count width height)) s'.
Proof.
  unfold init_state. intros H.
  apply bind_Returns in H as (? & s1 & _ & H).
  apply bind_Returns in H as (? & s2 & H2 & H).
  assert (Hlen : forall (m : M unit) sa sb,
             preserves (fun s => length (cell_remaining_sides s)
                                 = Z.to_nat (cell_count width height)) m ->
             length (cell_remaining_sides sa) = Z.to_nat (cell_count width height) ->
             m sa = Returns tt sb ->
             length (cell_remaining_sides sb) = Z.to_nat (cell_count width height)).
  { intros m sa sb Hm Ha E. specialize (Hm sa Ha). now rewrite E in Hm. }
  assert (Hleaf : forall i v (s : frame) (a' : list Z),
             length (cell_remaining_sides s) = Z.to_nat (cell_count width height) ->
             py_set (cell_remaining_sides s) i v = Some a' ->
             length (cell_remaining_sides (set_cell_remaining_sides a' s))
             = Z.to_nat (cell_count width height)).
  { intros i v s0 a' Hs E. apply py_set_length in E. simpl. congruence. }
  assert (H2' : length (cell_remaining_sides s2) = Z.to_nat (cell_count width height)).
  { unfold modify in H2. injection H2 as H2. subst s2. simpl. apply repeat_length. }
  apply bind_Returns in H as ([] & s3 & H3 & H).
  apply Hlen in H3; [|preserves_all ltac:(apply Hleaf)|assumption].
  apply bind_Returns in H as ([] & s4 & H4 & H).
  apply Hlen in H4; [|preserves_all ltac:(apply Hleaf)|assumption].
  apply bind_Returns in H as ([] & s5 & H5 & H).
  apply Hlen in H5; [|preserves_all ltac:(apply Hleaf)|assumption].
  apply bind_Returns in H as ([] & s6 & H6 & H).
  apply Hlen in H6; [|preserves_all ltac:(apply Hleaf)|assumption].
  apply bind_Returns in H as ([] & s7 & H7 & H).
  apply Hlen in H7; [|preserves_all ltac:(apply Hleaf)|assumption].
  apply bind_Returns in H as ([] & s8 & H8 & H).
  apply Hlen in H8; [|preserves_all ltac:(apply Hleaf)|assumption].
  unfold bind, modify in H. injection H as H. subst s'.
  repeat split; simpl; [assumption|apply repeat_length|apply repeat_length].
Qed.

Lemma growth_shaped (width height : Z) (branch_dist : list Q)
    (seeded_words : Z -> list Z) (fuel : nat) (seed : option Z) (s s' : frame) :
  growth width height branch_dist seeded_words fuel seed s = Returns tt s' ->
  shaped (Z.to_nat (cell_count width height)) s'.
Proof.
  unfold growth. intros H.
  apply bind_Returns in H as (? & s1 & _ & H).
  apply bind_Returns in H as ([] & s2 & H2 & H).
  apply init_state_shaped in H2.
  apply bind_Returns in H as ([] & s3 & H3 & H).
  pose proof (shaped_pick_start width height _ s2 H2) as P3. rewrite H3 in P3.
  pose proof (shaped_grow width height branch_dist _ fuel s3 P3) as P4.
  now rewrite H in P4.
Qed.

(** ** The exit *)

Section Exit.

Variables (width height : Z) (min_length : Z).

Lemma all_cells_spec (c : cell) :
  In c (all_cells width height) <-> in_bounds width height c = true.
Proof.
  unfold all_cells, in_bounds. rewrite in_flat_map. split.
  - intros (x & Hx & Hc). apply in_map_iff in Hc as (y & <- & Hy).
    apply range_spec in Hx, Hy. simpl.
    apply andb_true_iff; split; apply andb_true_iff; split; lia.
  - intros H. destruct c as [x y]. simpl in H.
    apply andb_true_iff in H as [Hx Hy].
    apply andb_true_iff in Hx as [? ?], Hy as [? ?].
    exists x. split; [apply range_spec; lia|].
    apply in_map_iff. exists y. split; [reflexivity|apply range_spec; lia].
Qed.

Lemma t_in_range (c : cell) :
  in_bounds width height c = true -> 0 <= t width c < width * height.
Proof.
  unfold in_bounds, t. destruct c as [x y]. simpl. intros H.
  apply andb_true_iff in H as [Hx Hy].
  apply andb_true_iff in Hx as [? ?], Hy as [? ?]. nia.
Qed.

Lemma exit_pool_spec (distances : list Z) (c : cell) :
  In c (exit_pool width height min_length distances) <->
  in_bounds width height c = true /\ is_border width height c = true
  /\ min_exit_distance width height min_length < distance_of width distances c.
Proof.
  unfold exit_pool, qualifies. rewrite filter_In, all_cells_spec, andb_true_iff.
  rewrite Z.ltb_lt. tauto.
Qed.

Lemma exit_candidates_spec (s : frame) (cs : list cell) :
  (forall c, In c cs -> 0 <= t width c < Z.of_nat (length (cell_distance s))) ->
  exit_candidates width height min_length cs s
  = Returns (List.filter (qualifies width height min_length (cell_distance s)) cs) s.
Proof.
  induction cs as [|c cs IH]; intros Hcs; simpl; [reflexivity|].
  unfold bind at 1. unfold qualifies at 1.
  destruct (is_border width height c).
  - unfold bind at 1, load.
    destruct (py_get_is_Some (cell_distance s) (t width c)) as [d Hd];
      [apply Hcs; now left|].
    unfold distance_of. rewrite Hd. unfold ret at 1. unfold bind.
    rewrite IH by (intros; apply Hcs; now right). reflexivity.
  - unfold ret at 1. unfold bind.
    rewrite IH by (intros; apply Hcs; now right). reflexivity.
Qed.

Lemma exit_wall_choice (c : cell) :
  is_border width height c = true ->
  (if fst c =? 0 then open_left width c
   else if snd c =? 0 then open_top width c
   else if fst c =? last_x width then open_right width c
   else if snd c =? last_y height then open_bottom width c
   else ret tt)
  = open_wall width (exit_side width c) c.
Proof.
  unfold is_border, exit_side, last_x, last_y.
  destruct (fst c =? 0); [reflexivity|].
  destruct (snd c =? 0); [reflexivity|].
  destruct (fst c =? width - 1); [reflexivity|].
  destruct (snd c =? height - 1); [reflexivity|discriminate].
Qed.

Lemma exit_side_outward (c : cell) :
  in_bounds width height c = true -> is_border width height c = true ->
  in_bounds width height (across (exit_side width c) c) = false.
Proof.
  unfold in_bounds, is_border, exit_side, across, last_x, last_y, c_l, c_t, c_r, c_b.
  destruct c as [x y]. simpl. intros Hin Hb.
  apply andb_true_iff in Hin as [Hx Hy].
  apply andb_true_iff in Hx as [? ?], Hy as [? ?].
  destruct (Z.eqb_spec x 0); simpl.
  { subst. reflexivity. }
  destruct (Z.eqb_spec y 0); simpl.
  { subst. rewrite andb_false_r. reflexivity. }
  destruct (Z.eqb_spec x (width - 1)); simpl.
  { apply andb_false_iff. left. apply andb_false_iff. right. lia. }
  destruct (Z.eqb_spec y (height - 1)); simpl in *; [|discriminate].
  apply andb_false_iff. right. apply andb_false_iff. right. lia.
Qed.

Lemma open_wall_spec (bit : Z) (c : cell) (s : frame) :
  0 <= t width c < Z.of_nat (length (cell_state s)) ->
  open_wall width bit c s
  = Returns tt
      (set_cell_state
         (<[Z.to_nat (t width c) := Z.lor (mask_of width (cell_state s) c) bit]>
            (cell_state s)) s).
Proof.
  intros Hr. unfold open_wall, bind, load, store, mask_of.
  destruct (py_get_is_Some (cell_state s) (t width c) Hr) as [v Hv].
  rewrite Hv. simpl. now rewrite py_set_in_range.
Qed.

End Exit.

Lemma punch_exit_empty (width height min_length : Z) (s : frame) :
  (forall c, In c (all_cells width height) ->
     0 <= t width c < Z.of_nat (length (cell_distance s))) ->
  exit_pool width height min_length (cell_distance s) = [] ->
  punch_exit width height min_length s
  = Raises SystemExit (set_stdout (stdout s ++ [no_path_message]) s).
Proof.
  intros Hr Hpool. unfold punch_exit, bind.
  rewrite exit_candidates_spec by assumption.
  unfold exit_pool in Hpool. rewrite Hpool. reflexivity.
Qed.

Lemma punch_exit_pick (width height min_length : Z) (s : frame) (e : cell) :
  (forall c, In c (all_cells width height) ->
     0 <= t width c < Z.of_nat (length (cell_distance s))) ->
  (forall c, In c (all_cells width height) ->
     0 <= t width c < Z.of_nat (length (cell_state s))) ->
  exit_pool width height min_length (cell_distance s)
    !! Z.to_nat (next_raw s
                 mod Z.of_nat (length (exit_pool width height min_length (cell_distance s))))
  = Some e ->
  punch_exit width height min_length s
  = Returns tt
      (set_cell_state
         (<[Z.to_nat (t width e) :=
              Z.lor (mask_of width (cell_state s) e) (exit_side width e)]> (cell_state s))
         (set_last_border_cell (Some e) (consume s))).
Proof.
  intros Hd Hw He. unfold punch_exit, bind at 1.
  rewrite exit_candidates_spec by assumption.
  fold (exit_pool width height min_length (cell_distance s)).
  set (pool := exit_pool width height min_length (cell_distance s)) in *.
  assert (Hin : In e pool).
  { apply list_elem_of_In. eapply list_elem_of_lookup_2. exact He. }
  destruct pool as [|x xs] eqn:Epool; [destruct Hin|].
  unfold bind at 1. rewrite random_choice_spec.
  rewrite nth_lookup, He. simpl default.
  unfold bind at 1, modify.
  assert (Hq : In e (exit_pool width height min_length (cell_distance s)))
    by (subst pool; now rewrite Epool).
  apply exit_pool_spec in Hq as (Hb & Hbord & _).
  rewrite exit_wall_choice by assumption.
  rewrite open_wall_spec; [reflexivity|].
  simpl. apply Hw. now apply all_cells_spec.
Qed.



(** ** The restart selector *)

Lemma entry_ltb_spec (a b : entry) :
  entry_ltb a b = true <->
  fst a < fst b
  \/ (fst a = fst b
      /\ (fst (snd a) < fst (snd b)
          \/ (fst (snd a) = fst (snd b) /\ snd (snd a) < snd (snd b)))).
Proof.
  unfold entry_ltb, cell_ltb.
  rewrite !orb_true_iff, !andb_true_iff, !orb_true_iff, !andb_true_iff.
  rewrite !Z.ltb_lt, !Z.eqb_eq. tauto.
Qed.

Lemma entry_le_spec (a b : entry) :
  entry_le a b <->
  fst a < fst b
  \/ (fst a = fst b
      /\ (fst (snd a) < fst (snd b)
          \/ (fst (snd a) = fst (snd b) /\ snd (snd a) <= snd (snd b)))).
Proof.
  unfold entry_le. rewrite <- not_true_iff_false, entry_ltb_spec. lia.
Qed.

Lemma entry_le_trans (a b c : entry) : entry_le a b -> entry_le b c -> entry_le a c.
Proof. rewrite !entry_le_spec. lia. Qed.

Lemma heappush_Forall (P : entry -> Prop) (h : list entry) (e : entry) :
  P e -> Forall P h -> Forall P (heappush h e).
Proof.
  intros He. induction 1 as [|e' h He' Hh IH]; simpl.
  - now constructor.
  - destruct (entry_ltb e' e); constructor; try assumption. now constructor.
Qed.

(** [heappush] keeps the heap ordered. *)
Lemma heappush_ordered (h : list entry) (e : entry) :
  heap_ordered h -> heap_ordered (heappush h e).
Proof.
  unfold heap_ordered. induction 1 as [|e' h Hh IH He']; simpl.
  - constructor; constructor.
  - destruct (entry_ltb e' e) eqn:E.
    + constructor; [assumption|]. apply heappush_Forall; [|assumption].
      apply entry_le_spec. apply entry_ltb_spec in E. lia.
    + constructor; [now constructor|]. constructor; [exact E|].
      eapply Forall_impl; [exact He'|]. intros x Hx.
      apply entry_le_trans with e'; [exact E|exact Hx].
Qed.

(** [heappop] keeps the heap ordered. *)
Lemma heappop_ordered (h : list entry) : heap_ordered h -> heap_ordered (heappop h).
Proof. unfold heap_ordered. destruct 1; simpl; [constructor|assumption]. Qed.

Lemma heap_head_farthest (e : entry) (rest : list entry) :
  heap_ordered (e :: rest) ->
  forall e', In e' (e :: rest) -> entry_distance e' <= entry_distance e.
Proof.
  intros Hs e' [<-|Hin]; [lia|].
  apply StronglySorted_inv in Hs as [_ Hall].
  rewrite List.Forall_forall in Hall. specialize (Hall e' Hin).
  apply entry_le_spec in Hall. unfold entry_distance. lia.
Qed.

Lemma preserves_Returns (I : frame -> Prop) {A : Type} (m : M A) s a s' :
  preserves I m -> I s -> m s = Returns a s' -> I s'.
Proof. intros Hm Hs E. specialize (Hm s Hs). now rewrite E in Hm. Qed.

Lemma preserves_Raises (I : frame -> Prop) {A : Type} (m : M A) s e s' :
  preserves I m -> I s -> m s = Raises e s' -> I s'.
Proof. intros Hm Hs E. specialize (Hm s Hs). now rewrite E in Hm. Qed.

(** *** Counting the visits *)

Ltac visited_leaf := intros; unfold visited_is in *; simpl; assumption.

Section Visits.

Variables (width height : Z) (branch_dist : list Q).

Lemma connect_visited (v : Z) (c1 c2 : cell) :
  preserves (visited_is v) (connect width c1 c2).
Proof. preserves_all visited_leaf. Qed.

Lemma q_up_visited (c : cell) (d : Z) (s s' : frame) :
  q_up width height c d s = Returns tt s' ->
  cells_visited s' = cells_visited s + 1.
Proof.
  unfold q_up, set_visited. intros H.
  apply bind_Returns in H as ([] & s1 & H1 & H).
  apply bind_Returns in H as ([] & s2 & H2 & H).
  unfold modify in H1, H2. injection H1 as H1. injection H2 as H2. subst s1 s2.
  eapply (preserves_Returns (visited_is (cells_visited s + 1))) in H;
    [exact H|preserves_all visited_leaf|reflexivity].
Qed.

Lemma for_each_visited (cc : cell) (d : Z) (selection : list cell) :
  forall s s',
    for_each selection (fun n => connect width cc n ;;; q_up width height n d) s
    = Returns tt s' ->
    cells_visited s' = cells_visited s + Z.of_nat (length selection).
Proof.
  induction selection as [|n selection IH]; intros s s' H; simpl in H.
  - injection H as H. subst s'. simpl. lia.
  - apply bind_Returns in H as ([] & s1 & H1 & H).
    apply bind_Returns in H1 as ([] & s2 & H2 & H1).
    apply (preserves_Returns (visited_is (cells_visited s))) in H2;
      [|apply connect_visited|reflexivity].
    apply q_up_visited in H1. apply IH in H.
    unfold visited_is in H2. simpl length. lia.
Qed.

Lemma sample_pool_length {A : Type} (k : nat) :
  forall (pool : list A) (n : nat) s sel s',
    sample_pool k pool n s = Returns sel s' -> length sel = k.
Proof.
  induction k as [|k IH]; intros pool n s sel s' H; simpl in H.
  - injection H as H _. now subst sel.
  - apply bind_Returns in H as (j & s1 & _ & H).
    destruct (pool !! Z.to_nat j); [|discriminate].
    destruct (pool !! (n - 1)%nat); [|discriminate].
    apply bind_Returns in H as (rest & s2 & H2 & H).
    injection H as H _. subst sel. simpl. f_equal. eapply IH, H2.
Qed.

Lemma random_sample_length {A : Type} (population : list A) (k : nat) s sel s' :
  random_sample population k s = Returns sel s' -> length sel = k.
Proof.
  unfold random_sample. destruct (k <=? length population)%nat; [|discriminate].
  apply sample_pool_length.
Qed.

(** An iteration that may not terminate without branching visits at
    least one more cell when it completes. *)
Lemma branch_from_forced (cc : cell) (s s' : frame) :
  branch_from width height branch_dist false cc s = Returns tt s' ->
  cells_visited s + 1 <= cells_visited s'.
Proof.
  unfold branch_from. intros H.
  apply bind_Returns in H as (d & s1 & H1 & H).
  apply (preserves_Returns (visited_is (cells_visited s))) in H1;
    [|preserves_all visited_leaf|reflexivity].
  apply bind_Returns in H as (pb & s2 & H2 & H).
  apply (preserves_Returns (visited_is (cells_visited s))) in H2;
    [|preserves_all visited_leaf|assumption].
  apply bind_Returns in H as (sampled & s3 & H3 & H).
  apply (preserves_Returns (visited_is (cells_visited s))) in H3;
    [|preserves_all visited_leaf|assumption].
  cbv zeta in H.
  apply bind_Returns in H as (selection & s4 & H4 & H).
  pose proof (random_sample_length _ _ _ _ _ H4) as Hlen.
  apply (preserves_Returns (visited_is (cells_visited s))) in H4;
    [|preserves_all visited_leaf|assumption].
  apply for_each_visited in H. unfold visited_is in H4.
  assert (1 <= length selection)%nat.
  { rewrite Hlen. simpl. destruct sampled; simpl; lia. }
  lia.
Qed.

End Visits.

Lemma fallback_cell_only_heap (width : Z) (s : frame) c s1 :
  fallback_cell width s = Returns c s1 ->
  exists h, s1 = set_cell_by_distance h s.
Proof.
  unfold fallback_cell. destruct (fallback_from _ _ _) as [[c' h]|h]; [|discriminate].
  intros [= _ <-]. now exists h.
Qed.

Lemma loop_body_restart (width height : Z) (branch_dist : list Q) (s : frame) c s1 :
  q s = [] ->
  fallback_cell width s = Returns (Some c) s1 ->
  loop_body width height branch_dist s
  = branch_from width height branch_dist false c s1.
Proof.
  intros Hq Hfb. destruct (fallback_cell_only_heap _ _ _ _ Hfb) as [h ->].
  unfold loop_body. unfold bind at 1. unfold gets. rewrite Hq.
  unfold bind at 1. unfold bind at 1. rewrite Hfb.
  unfold bind at 1. unfold modify, ret. unfold bind at 1. unfold popleft. simpl.
  rewrite Hq. simpl.
  destruct s as [cv rs di st hp qu sta lb rw out]. simpl in *. subst qu. reflexivity.
Qed.

(** [fallback_cell] and the iteration it feeds, for a frame with an empty
    queue and an ordered, non-empty heap whose head is [e], with [r] the
    remaining-sides count of the cell of [e]. *)
Lemma fallback_cell_cases
    (width height : Z) (branch_dist : list Q) (s : frame)
    (e : entry) (rest : list entry) (r : Z) :
  q s = [] ->
  cell_by_distance s = e :: rest ->
  heap_ordered (e :: rest) ->
  py_get (cell_remaining_sides s) (t width (snd e)) = Some r ->
  (forall e', In e' (e :: rest) -> entry_distance e' <= entry_distance e)
  /\ (1 < r -> fallback_cell width s = Returns (Some (snd e)) s)
  /\ (r = 1 ->
      fallback_cell width s = Returns (Some (snd e)) (set_cell_by_distance rest s))
  /\ (r <= 0 ->
      fallback_cell width s = fallback_cell width (set_cell_by_distance rest s))
  /\ (forall c s1, fallback_cell width s = Returns (Some c) s1 ->
        loop_body width height branch_dist s
        = branch_from width height branch_dist false c s1
        /\ forall s2, loop_body width height branch_dist s = Returns tt s2 ->
             cells_visited s + 1 <= cells_visited s2).
Proof.
  intros Hq Hheap Hord Hr.
  split; [now apply heap_head_farthest|].
  split; [|split; [|split]].
  - intros H1. unfold fallback_cell. rewrite Hheap. simpl. rewrite Hr.
    destruct (Z.ltb_spec 1 r); [|lia].
    destruct s as [cv rs di st hp qu sta lb rw out]. simpl in *. now subst hp.
  - intros ->. unfold fallback_cell. rewrite Hheap. simpl. rewrite Hr. reflexivity.
  - intros H0. unfold fallback_cell at 1. rewrite Hheap. simpl. rewrite Hr.
    destruct (Z.ltb_spec 1 r); [lia|]. destruct (Z.eqb_spec r 1); [lia|].
    unfold fallback_cell. simpl.
    destruct (fallback_from width (cell_remaining_sides s) rest) as [[c h]|h]; reflexivity.
  - intros c s1 Hfb. split; [now apply loop_body_restart|].
    intros s2 H2. rewrite (loop_body_restart _ _ _ _ _ _ Hq Hfb) in H2.
    apply branch_from_forced in H2.
    destruct (fallback_cell_only_heap _ _ _ _ Hfb) as [h ->]. exact H2.
Qed.

(** ** Runs in which the generator goes wrong *)

(** C1.  [gen_maze(2, 2, (0.3, 0.45, 0.2, 0.05), 1, 582)] returns a maze:
    [random.randint(0, width)] draws [x = 2 = width], the start is the
    position (2, 0) outside the grid, whose index is that of cell (0, 1).
    The returned maze has two interior connections, not
    [cell_count - 1 = 3], and none of them touches cell (0, 1): the graph
    is not connected. *)
Theorem off_grid_start_is_no_spanning_tree (extra : nat) (g : list Z) :
  exists s,
    gen_maze 2 2 default_branch_factors 1 (fun _ => draws_2x2_seed582)
      (2 + extra) (Some 582) (entry_frame g)
    = Returns (mkMaze [5; 13; 3; 2] 2 2) s
    /\ start s = Some (2, 0)
    /\ interior_edges 2 2 [5; 13; 3; 2] = [((0, 0), (1, 0)); ((1, 0), (1, 1))]
    /\ Z.of_nat (length (interior_edges 2 2 [5; 13; 3; 2])) <> cell_count 2 2 - 1
    /\ Forall (fun edge => fst edge <> (0, 1) /\ snd edge <> (0, 1))
         (interior_edges 2 2 [5; 13; 3; 2]).
Proof.
  eexists. split.
  - rewrite (gen_maze_more_fuel _ _ _ _ _ 2%nat (2 + extra)%nat);
      [vm_compute; reflexivity|vm_compute; discriminate|lia].
  - split; [reflexivity|]. split; [reflexivity|]. split; [vm_compute; discriminate|].
    repeat constructor; discriminate.
Qed.

(** C3.  [gen_maze(2, 2, (0.3, 0.45, 0.2, 0.05), -1, 33)]: the start is
    again the off-grid position (2, 0); in the fourth iteration the heap
    hands out cell (0, 0), which has no unvisited neighbour, the forced
    branch count 1 exceeds the empty population and [random.sample] raises
    [ValueError].  The growth loop ends there, after three visits, with
    cell (1, 1) still at the sentinel distance. *)
Theorem growth_loop_crashes_before_full_coverage (extra : nat) (g : list Z) :
  exists s,
    growth 2 2 default_branch_factors (fun _ => draws_2x2_seed33)
      (4 + extra) (Some 33) (entry_frame g)
    = Raises ValueError s
    /\ start s = Some (2, 0)
    /\ cells_visited s = 3
    /\ cell_distance s = [2; 1; 0; INF]
    /\ distance_of 2 (cell_distance s) (1, 1) = INF.
Proof.
  eexists. split.
  - rewrite (growth_more_fuel _ _ _ _ 4%nat (4 + extra)%nat);
      [vm_compute; reflexivity|vm_compute; discriminate|lia].
  - repeat split.
Qed.

(** C5.  The start cell is not always a cell of the grid.  With seed 582
    on a 2 x 2 grid, [random.randint(0, width)] yields [x = width] and the
    start is (2, 0): out of bounds; distance 0 and the "outer" wall go to
    the cell with the same index, (0, 1), and the wall opened there, its
    top one, faces cell (0, 0) inside the grid.  With seed 86 the start is
    (2, 1), whose index 4 is past the arrays, and [gen_maze] raises
    [IndexError]. *)
Theorem start_cell_can_miss_the_grid (fuel : nat) (g : list Z) :
  (exists m s,
     gen_maze 2 2 default_branch_factors 1 (fun _ => draws_2x2_seed582)
       (2 + fuel) (Some 582) (entry_frame g)
     = Returns m s
     /\ start s = Some (2, 0)
     /\ in_bounds 2 2 (2, 0) = false
     /\ t 2 (2, 0) = t 2 (0, 1)
     /\ distance_of 2 (cell_distance s) (0, 1) = 0
     /\ Z.testbit (mask_of 2 (maze m) (0, 1)) 1 = true
     /\ in_bounds 2 2 (c_t (0, 1)) = true)
  /\ (exists s,
        gen_maze 2 2 default_branch_factors (-1) (fun _ => draws_2x2_seed86)
          fuel (Some 86) (entry_frame g)
        = Raises IndexError s
        /\ start s = Some (2, 1)
        /\ in_bounds 2 2 (2, 1) = false).
Proof.
  split.
  - eexists. eexists. split.
    + rewrite (gen_maze_more_fuel _ _ _ _ _ 2%nat (2 + fuel)%nat);
        [vm_compute; reflexivity|vm_compute; discriminate|lia].
    + repeat split.
  - eexists. split; [vm_compute; reflexivity|]. split; reflexivity.
Qed.

(** C8.  In the maze that [gen_maze(2, 2, (0.3, 0.45, 0.2, 0.05), 1, 582)]
    returns, cell (1, 0) is not the start and has distance 1, yet the
    cells it reaches through its open walls, (0, 0) and (1, 1), both have
    distance 2: its parent is the off-grid start (2, 0), and no open-wall
    neighbour has distance 0. *)
Theorem off_grid_start_leaves_cell_without_parent (extra : nat) (g : list Z) :
  exists m s,
    gen_maze 2 2 default_branch_factors 1 (fun _ => draws_2x2_seed582)
      (2 + extra) (Some 582) (entry_frame g)
    = Returns m s
    /\ start s = Some (2, 0)
    /\ t 2 (1, 0) <> t 2 (2, 0)
    /\ distance_of 2 (cell_distance s) (1, 0) = 1
    /\ open_neighbours 2 2 (maze m) (1, 0) = [(0, 0); (1, 1)]
    /\ Forall (fun n => distance_of 2 (cell_distance s) n = 2)
         (open_neighbours 2 2 (maze m) (1, 0)).
Proof.
  eexists. eexists. split.
  - rewrite (gen_maze_more_fuel _ _ _ _ _ 2%nat (2 + extra)%nat);
      [vm_compute; reflexivity|vm_compute; discriminate|lia].
  - split; [reflexivity|]. split; [vm_compute; discriminate|].
    split; [reflexivity|]. split; [reflexivity|].
    repeat constructor.
Qed.

(** C9.  Strips.  On the 1 x 3 strip with seed 7 the start is (0, 1); the
    first iteration branches into (0, 0), the second finds no neighbour
    there, and the restart in the third receives (0, 0) again from the
    heap (its remaining-sides count, initialised to 2 for a cell with one
    grid neighbour, has only dropped to 1), so [random.sample] is asked
    for one of no cells and raises [ValueError] with cell (0, 2) never
    visited.  The counts the strip is initialised with are [2; 3; 2],
    though no cell has more than two grid neighbours.  On the 3 x 1 strip
    with seed 0 the start is to be drawn on the left or right border, and
    [random.randint(1, height - 1)] has nothing to draw from. *)
Theorem strip_generation_crashes (extra : nat) (g : list Z) :
  (exists s,
     gen_maze 1 3 default_branch_factors (-1) (fun _ => draws_1x3_seed7)
       (3 + extra) (Some 7) (entry_frame g)
     = Raises ValueError s
     /\ cells_visited s = 2
     /\ distance_of 1 (cell_distance s) (0, 2) = INF)
  /\ (exists s,
        gen_maze 3 1 default_branch_factors (-1) (fun _ => draws_3x1_seed0)
          extra (Some 0) (entry_frame g)
        = Raises ValueError s
        /\ cells_visited s = 0
        /\ cell_remaining_sides s = [2; 3; 2]
        /\ Forall (fun c => (length (grid_neighbours 3 1 c) <= 2)%nat) (all_cells 3 1)).
Proof.
  split.
  - eexists. split.
    + rewrite (gen_maze_more_fuel _ _ _ _ _ 3%nat (3 + extra)%nat);
        [vm_compute; reflexivity|vm_compute; discriminate|lia].
    + split; reflexivity.
  - eexists. split; [vm_compute; reflexivity|].
    split; [reflexivity|]. split; [reflexivity|].
    repeat constructor.
Qed.

(** C10.  [random.sample] can be asked for more cells than there are.  In
    [gen_maze(3, 1, (0.3, 0.45, 0.2, 0.05), -1, 26)] the first two
    iterations end in the frame [stuck_3x1_seed26]; one cell is still
    unvisited and the queue is empty, so the third iteration restarts:
    [fallback_cell] pops and returns (0, 0), whose remaining-sides count
    is 1 although its only neighbour is visited; the cell has no possible
    branch, the forced branch count is 1, and [random.sample] of the empty
    list raises [ValueError], which ends [gen_maze]. *)
Theorem forced_branch_exceeds_population (extra : nat) (g : list Z) :
  (random_seed (fun _ => draws_3x1_seed26) (Some 26) ;;;
   init_state 3 1 ;;;
   pick_start 3 1 ;;;
   loop_body 3 1 default_branch_factors ;;;
   loop_body 3 1 default_branch_factors) (entry_frame g)
  = Returns tt stuck_3x1_seed26
  /\ cells_visited stuck_3x1_seed26 < cell_count 3 1
  /\ q stuck_3x1_seed26 = []
  /\ fallback_cell 3 stuck_3x1_seed26
     = Returns (Some (0, 0)) (set_cell_by_distance [(0, (1, 0))] stuck_3x1_seed26)
  /\ possible_branches_of 3 1 (0, 0)
       (set_cell_by_distance [(0, (1, 0))] stuck_3x1_seed26)
     = Returns [] (set_cell_by_distance [(0, (1, 0))] stuck_3x1_seed26)
  /\ (forall s, random_sample (@nil cell) 1 s = Raises ValueError s)
  /\ exists s,
       loop_body 3 1 default_branch_factors stuck_3x1_seed26 = Raises ValueError s
       /\ gen_maze 3 1 default_branch_factors (-1) (fun _ => draws_3x1_seed26)
            (3 + extra) (Some 26) (entry_frame g)
          = Raises ValueError s.
Proof.
  split; [vm_compute; reflexivity|].
  split; [reflexivity|]. split; [reflexivity|]. split; [reflexivity|].
  split; [reflexivity|]. split; [reflexivity|].
  eexists. split; [vm_compute; reflexivity|].
  rewrite (gen_maze_more_fuel _ _ _ _ _ 3%nat (3 + extra)%nat);
    [vm_compute; reflexivity|vm_compute; discriminate|lia].
Qed.

(** ** The frames at the head of the loop *)

Lemma load_Returns (arr : frame -> list Z) (i : Z) s v s' :
  load arr i s = Returns v s' -> s' = s /\ py_get (arr s) i = Some v.
Proof.
  unfold load. destruct (py_get (arr s) i); [|discriminate].
  intros [= <- <-]. now split.
Qed.

Lemma store_Returns (arr : frame -> list Z) upd (i v : Z) s u s' :
  store arr upd i v s = Returns u s' ->
  exists a', py_set (arr s) i v = Some a' /\ s' = upd a' s.
Proof.
  unfold store. destruct (py_set (arr s) i v) as [a'|]; [|discriminate].
  intros [= <-]. now exists a'.
Qed.

Lemma modify_Returns (f : frame -> frame) s u s' :
  modify f s = Returns u s' -> s' = f s.
Proof. unfold modify. now intros [= <-]. Qed.

Ltac footprint_leaf :=
  first
    [ let E := fresh "E" in
      intros ? ? ? E; apply py_set_length in E;
      unfold footprint_is, footprint in *; simpl in *; rewrite E; assumption
    | intros; unfold footprint_is, footprint in *; simpl in *; assumption ].

Section Footprint.

Variables (width height : Z).

Lemma connect_footprint x (c1 c2 : cell) :
  preserves (footprint_is x) (connect width c1 c2).
Proof. preserves_all footprint_leaf. Qed.

Lemma open_wall_footprint x (bit : Z) (c : cell) :
  preserves (footprint_is x) (open_wall width bit c).
Proof. preserves_all footprint_leaf. Qed.

Lemma decrement_side_footprint x (c : cell) :
  preserves (footprint_is x) (decrement_side width height c).
Proof. preserves_all footprint_leaf. Qed.

(** What [q_up] does to the footprint. *)
Lemma q_up_footprint (c : cell) (d : Z) (s s' : frame) :
  q_up width height c d s = Returns tt s' ->
  exists k,
    py_index (length (cell_distance s)) (t width c) = Some k
    /\ footprint s'
       = (cells_visited s + 1, <[k := d]> (cell_distance s),
          heappush (cell_by_distance s) (- d, c), q s ++ [c],
          length (cell_state s), length (cell_remaining_sides s)).
Proof.
  unfold q_up, set_visited. intros H.
  apply bind_Returns in H as ([] & s1 & H1 & H). apply modify_Returns in H1.
  apply bind_Returns in H as ([] & s2 & H2 & H). apply modify_Returns in H2.
  apply bind_Returns in H as ([] & s3 & H3 & H).
  apply store_Returns in H3 as (a' & Ha' & H3).
  apply bind_Returns in H as ([] & s4 & H4 & H). apply modify_Returns in H4.
  subst s1 s2 s3 s4. simpl in Ha'. unfold py_set in Ha'.
  destruct (py_index (length (cell_distance s)) (t width c)) as [k|] eqn:Ek;
    [|discriminate].
  injection Ha' as <-. exists k. split; [reflexivity|].
  eapply (preserves_Returns (footprint_is _)) in H; [exact H| |reflexivity].
  repeat (apply preserves_bind; [|intros _]); apply decrement_side_footprint.
Qed.

End Footprint.

Section LoopInvariant.

Variables (width height : Z).

Lemma heappush_In (h : list entry) (e x : entry) :
  In x (heappush h e) <-> x = e \/ In x h.
Proof.
  induction h as [|e' h IH]; simpl; [intuition|].
  destruct (entry_ltb e' e); simpl; [rewrite IH|]; intuition.
Qed.

Lemma fallback_from_spec (sides : list Z) (h : list entry) c h' :
  fallback_from width sides h = inl (Some c, h') ->
  In c (map snd h)
  /\ (forall x, In x h' -> In x h)
  /\ (heap_ordered h -> heap_ordered h').
Proof.
  induction h as [|e h IH]; simpl; [discriminate|].
  destruct (py_get sides (t width (snd e))) as [r|]; [|discriminate].
  destruct (1 <? r).
  { intros [= <- <-]. split; [now left|]. split; [auto|auto]. }
  destruct (r =? 1).
  { intros [= <- <-]. split; [now left|]. split; [now right|].
    intros Ho. exact (heappop_ordered _ Ho). }
  intros H. destruct (IH H) as (Hc & Hsub & Hord).
  split; [now right|]. split; [intros x Hx; right; auto|].
  intros Ho. apply Hord. exact (heappop_ordered _ Ho).
Qed.

Lemma distance_of_insert (distances : list Z) (k : nat) (d : Z) (n : cell) :
  d <> INF ->
  distance_of width distances n <> INF ->
  distance_of width (<[k := d]> distances) n <> INF.
Proof.
  unfold distance_of, py_get. rewrite length_insert.
  destruct (py_index (length distances) (t width n)) as [j|]; [|auto].
  destruct (decide (k = j)) as [->|Hne].
  - destruct (distances !! j) as [v|] eqn:E.
    + rewrite list_lookup_insert_eq by (eapply lookup_lt_Some; eassumption). auto.
    + apply lookup_ge_None in E. rewrite list_insert_ge by assumption.
      apply lookup_ge_None in E. now rewrite E.
  - now rewrite list_lookup_insert_ne.
Qed.

Lemma unvisited_insert (distances : list Z) (k : nat) (d : Z) (n : cell) :
  d <> INF ->
  unvisited width height distances n = false -> unvisited width height (<[k := d]> distances) n = false.
Proof.
  unfold unvisited. intros Hd H.
  destruct (in_bounds width height n); [simpl in *|reflexivity].
  apply Z.eqb_neq. apply Z.eqb_neq in H. now apply distance_of_insert.
Qed.

Lemma blocked_insert (distances : list Z) (k : nat) (d : Z) (c : cell) :
  d <> INF -> blocked width height distances c -> blocked width height (<[k := d]> distances) c.
Proof.
  intros Hd (n & Hn & Hu). exists n. split; [assumption|].
  now apply unvisited_insert.
Qed.

Lemma blocked_few_branches (distances : list Z) (c : cell) :
  blocked width height distances c ->
  (length (List.filter (unvisited width height distances) (neighbours c)) <= 3)%nat.
Proof.
  intros (n & Hn & Hu). unfold neighbours in *. simpl in *.
  destruct Hn as [<-|[<-|[<-|[<-|[]]]]]; rewrite Hu;
    repeat match goal with |- context [if ?b then _ else _] => destruct b end;
    simpl; lia.
Qed.

(** Under the shape invariant, [possible_branches] is the list of the
    unvisited neighbours, and enumerating it changes nothing. *)
Lemma possible_branches_spec (cc : cell) (s : frame) :
  1 <= width -> 1 <= height ->
  shaped (Z.to_nat (cell_count width height)) s ->
  possible_branches_of width height cc s
  = Returns (List.filter (unvisited width height (cell_distance s)) (neighbours cc)) s.
Proof.
  intros Hw Hh (_ & Hd & _).
  assert (Hc : forall n pb,
             consider width height n pb s
             = Returns (if unvisited width height (cell_distance s) n then pb ++ [n] else pb) s).
  { intros n pb. unfold consider, unvisited.
    destruct (in_bounds width height n) eqn:Hin; [|reflexivity].
    unfold is_visited, bind, load, distance_of.
    destruct (py_get_is_Some (cell_distance s) (t width n)) as [d Hget].
    { rewrite Hd. pose proof (t_in_range width height n Hin).
      unfold cell_count. nia. }
    rewrite Hget. simpl. unfold ret. now destruct (d =? INF). }
  unfold possible_branches_of, bind. rewrite !Hc. unfold neighbours. simpl.
  destruct (unvisited width height (cell_distance s) (c_l cc)),
    (unvisited width height (cell_distance s) (c_r cc)),
    (unvisited width height (cell_distance s) (c_t cc)),
    (unvisited width height (cell_distance s) (c_b cc)); reflexivity.
Qed.

End LoopInvariant.

Lemma sample_pool_In {A : Type} (k : nat) :
  forall (pool : list A) (n : nat) s sel s',
    sample_pool k pool n s = Returns sel s' ->
    forall x, In x sel -> In x pool.
Proof.
  induction k as [|k IH]; intros pool n s sel s' H x Hx; simpl in H.
  - injection H as H _. subst sel. destruct Hx.
  - apply bind_Returns in H as (j & s1 & _ & H).
    destruct (pool !! Z.to_nat j) as [a|] eqn:Ea; [|discriminate].
    destruct (pool !! (n - 1)%nat) as [b|] eqn:Eb; [|discriminate].
    apply bind_Returns in H as (rest & s2 & H2 & H).
    injection H as H _. subst sel. destruct Hx as [<-|Hx].
    + apply list_elem_of_In. eapply list_elem_of_lookup_2, Ea.
    + specialize (IH _ _ _ _ _ H2 x Hx).
      apply list_elem_of_In, list_elem_of_lookup in IH as [i Hi].
      apply list_lookup_insert_Some in Hi as [(_ & <- & _)|(_ & Hi)];
        apply list_elem_of_In; eapply list_elem_of_lookup_2; eassumption.
Qed.

Lemma random_sample_In {A : Type} (population : list A) (k : nat) s sel s' :
  random_sample population k s = Returns sel s' ->
  forall x, In x sel -> In x population.
Proof.
  unfold random_sample. destruct (k <=? length population)%nat; [|discriminate].
  apply sample_pool_In.
Qed.

Section LoopSteps.

Variables (width height : Z) (branch_dist : list Q).
Hypothesis width_pos : 1 <= width.
Hypothesis height_pos : 1 <= height.

Lemma loop_inv_footprint (s s' : frame) :
  footprint s' = footprint s -> loop_inv width height s -> loop_inv width height s'.
Proof.
  unfold footprint. intros [= Hv Hd Hh Hq Hs Hr] [(Ir & Id & Is) Ih Idist Ip].
  constructor.
  - repeat split; congruence.
  - now rewrite Hh.
  - rewrite Hd, Hv. exact Idist.
  - unfold pending. rewrite Hq, Hh, Hd. exact Ip.
Qed.

Lemma neighbours_back (cc n : cell) : In n (neighbours cc) -> In cc (neighbours n).
Proof.
  unfold neighbours, c_l, c_r, c_t, c_b. destruct cc as [x y]. simpl.
  intros [<-|[<-|[<-|[<-|[]]]]]; simpl.
  - right; left. f_equal; lia.
  - left. f_equal; lia.
  - right; right; right; left. f_equal; lia.
  - right; right; left. f_equal; lia.
Qed.

(** One [q_up] of an in-bounds cell [n] next to [cc], at a distance below
    the number of visits, keeps the invariant. *)
Lemma q_up_inv (cc n : cell) (d : Z) (s s' : frame) :
  loop_inv width height s ->
  in_bounds width height n = true ->
  In cc (neighbours n) ->
  unvisited width height (cell_distance s) cc = false ->
  0 <= d <= cells_visited s -> d <> INF ->
  q_up width height n d s = Returns tt s' ->
  loop_inv width height s'
  /\ cells_visited s' = cells_visited s + 1
  /\ (forall m, unvisited width height (cell_distance s) m = false ->
        unvisited width height (cell_distance s') m = false).
Proof.
  intros [(Ir & Id & Is) Ih Idist Ip] Hin Hcc Hu Hd HINF H.
  apply q_up_footprint in H as (k & Hk & Hfp).
  unfold footprint in Hfp. injection Hfp as Hv Hdist Hheap Hq Hs Hr.
  pose proof (py_index_bound _ _ _ Hk) as Hklt.
  split; [|split].
  - constructor.
    + repeat split; [congruence| |congruence].
      rewrite Hdist, length_insert. exact Id.
    + rewrite Hheap. now apply heappush_ordered.
    + intros i v. rewrite Hdist, Hv. intros Hi.
      apply list_lookup_insert_Some in Hi as [(_ & <- & _)|(_ & Hi)].
      * right. lia.
      * destruct (Idist i v Hi); [now left|right; lia].
    + intros c Hc. unfold pending in Hc. rewrite Hq, Hheap in Hc.
      assert (Hcases : c = n \/ In c (pending s)).
      { unfold pending. rewrite !in_app_iff in Hc. rewrite in_map_iff in Hc.
        rewrite in_app_iff, in_map_iff.
        destruct Hc as [[Hc|[<-|[]]]|(e & <- & He)]; auto.
        apply heappush_In in He as [->|He]; [now left|].
        right; right. now exists e. }
      rewrite Hdist. destruct Hcases as [->|Hold].
      * split; [now apply t_in_range|]. split.
        -- unfold distance_of, py_get. rewrite length_insert, Hk.
           rewrite list_lookup_insert_eq by assumption. exact HINF.
        -- exists cc. split; [assumption|]. now apply unvisited_insert.
      * destruct (Ip c Hold) as (Hrange & Hvis & Hbl).
        split; [assumption|]. split.
        -- now apply distance_of_insert.
        -- now apply blocked_insert.
  - exact Hv.
  - intros m Hm. rewrite Hdist. now apply unvisited_insert.
Qed.

End LoopSteps.

Section LoopBody.

Variables (width height : Z) (branch_dist : list Q).
Hypothesis width_pos : 1 <= width.
Hypothesis height_pos : 1 <= height.

Lemma for_each_inv (cc : cell) (d : Z) (selection : list cell) :
  d <> INF ->
  (forall n, In n selection ->
     in_bounds width height n = true /\ In n (neighbours cc)) ->
  forall s s',
    loop_inv width height s ->
    unvisited width height (cell_distance s) cc = false ->
    0 <= d <= cells_visited s ->
    for_each selection (fun n => connect width cc n ;;; q_up width height n d) s
    = Returns tt s' ->
    loop_inv width height s'.
Proof.
  intros HINF. induction selection as [|n selection IH]; intros Hsel s s' Hinv Hu Hd H.
  - simpl in H. injection H as <-. exact Hinv.
  - simpl in H. apply bind_Returns in H as ([] & s1 & H1 & H).
    apply bind_Returns in H1 as ([] & s2 & H2 & H1).
    apply (preserves_Returns (footprint_is (footprint s))) in H2;
      [|apply connect_footprint|reflexivity].
    unfold footprint_is in H2.
    assert (Hdist2 : cell_distance s2 = cell_distance s).
    { unfold footprint in H2. now injection H2. }
    assert (Hv2 : cells_visited s2 = cells_visited s).
    { unfold footprint in H2. now injection H2. }
    destruct (Hsel n (or_introl eq_refl)) as (Hin & Hnb).
    apply (q_up_inv width height cc n d s2 s1) in H1
      as (Hinv1 & Hv1 & Hmono);
      [ | now apply (loop_inv_footprint width height s) | assumption
        | now apply neighbours_back | now rewrite Hdist2 | lia | assumption ].
    apply (IH (fun m Hm => Hsel m (or_intror Hm)) s1 s'); try assumption.
    + apply Hmono. now rewrite Hdist2.
    + lia.
Qed.

Lemma loop_body_chooses (s : frame) b cc s1 :
  chooses width s b cc s1 ->
  loop_body width height branch_dist s = branch_from width height branch_dist b cc s1.
Proof.
  intros [(rest & Hq & -> & ->)|(Hq & -> & Hfb)].
  - unfold loop_body. unfold bind at 1. unfold gets. rewrite Hq.
    unfold bind at 1. unfold ret. unfold bind at 1. unfold popleft. now rewrite Hq.
  - now apply loop_body_restart.
Qed.

Lemma loop_body_Returns (s s' : frame) :
  loop_body width height branch_dist s = Returns tt s' ->
  exists b cc s1,
    chooses width s b cc s1 /\ branch_from width height branch_dist b cc s1 = Returns tt s'.
Proof.
  intros H. destruct (q s) as [|c rest] eqn:Hq.
  - destruct (fallback_cell width s) as [[c|] s1|e s1|] eqn:Hfb.
    + exists false, c, s1. split; [right; auto|].
      now rewrite <- (loop_body_restart _ _ _ _ _ _ Hq Hfb).
    + exfalso. unfold loop_body in H. unfold bind at 1 in H. unfold gets in H.
      rewrite Hq in H. unfold bind at 1 in H. unfold bind at 1 in H.
      rewrite Hfb in H. discriminate.
    + exfalso. unfold loop_body in H. unfold bind at 1 in H. unfold gets in H.
      rewrite Hq in H. unfold bind at 1 in H. unfold bind at 1 in H.
      rewrite Hfb in H. discriminate.
    + exfalso. unfold loop_body in H. unfold bind at 1 in H. unfold gets in H.
      rewrite Hq in H. unfold bind at 1 in H. unfold bind at 1 in H.
      rewrite Hfb in H. discriminate.
  - exists true, c, (set_q rest s). split; [left; eauto|].
    rewrite <- H. symmetry. apply loop_body_chooses. left; eauto.
Qed.

Lemma chooses_inv (s : frame) b cc s1 :
  loop_inv width height s -> chooses width s b cc s1 ->
  loop_inv width height s1
  /\ cells_visited s1 = cells_visited s
  /\ cell_distance s1 = cell_distance s
  /\ In cc (pending s).
Proof.
  intros [(Ir & Id & Is) Ih Idist Ip] [(rest & Hq & _ & ->)|(Hq & _ & Hfb)].
  - split; [|split; [reflexivity|split; [reflexivity|]]].
    + constructor; simpl; try assumption.
      * repeat split; assumption.
      * intros c Hc. apply Ip. unfold pending in *. simpl in Hc. rewrite Hq.
        simpl. now right.
    + unfold pending. rewrite Hq. now left.
  - unfold fallback_cell in Hfb.
    destruct (fallback_from width (cell_remaining_sides s) (cell_by_distance s))
      as [[c h]|h] eqn:E; [|discriminate].
    injection Hfb as -> <-.
    apply fallback_from_spec in E as (Hc & Hsub & Hord).
    split; [|split; [reflexivity|split; [reflexivity|]]].
    + constructor; simpl; try assumption.
      * repeat split; assumption.
      * now apply Hord.
      * intros c Hc'. apply Ip. unfold pending in *. simpl in Hc'.
        rewrite in_app_iff in *. destruct Hc' as [Hc'|Hc']; [now left|right].
        apply in_map_iff in Hc' as (e & <- & He). apply in_map. now apply Hsub.
    + unfold pending. apply in_app_iff. now right.
Qed.

(** The current cell never has four possible branches. *)
Lemma current_cell_branches (s : frame) b cc s1 :
  loop_inv width height s -> chooses width s b cc s1 ->
  exists pb,
    possible_branches_of width height cc s1 = Returns pb s1
    /\ pb = List.filter (unvisited width height (cell_distance s1)) (neighbours cc)
    /\ (length pb <= 3)%nat.
Proof.
  intros Hinv Hch. destruct (chooses_inv s b cc s1 Hinv Hch) as (H1 & _ & Hd & Hcc).
  eexists. split; [apply possible_branches_spec; try assumption; apply H1|].
  split; [reflexivity|]. apply blocked_few_branches.
  rewrite Hd. now apply (inv_pending _ _ _ Hinv).
Qed.

Lemma branch_from_inv (b : bool) (cc : cell) (s s' : frame) :
  cell_count width height <= INF ->
  loop_inv width height s ->
  cells_visited s < cell_count width height ->
  0 <= t width cc < cell_count width height ->
  distance_of width (cell_distance s) cc <> INF ->
  branch_from width height branch_dist b cc s = Returns tt s' ->
  loop_inv width height s'.
Proof.
  intros Hbig Hinv Hguard Hrange Hvis H. unfold branch_from in H.
  apply bind_Returns in H as (d & s0 & H0 & H).
  apply load_Returns in H0 as (-> & Hget).
  assert (Hd : d <> INF /\ 0 <= d < cells_visited s).
  { unfold distance_of in Hvis. rewrite Hget in Hvis. simpl in Hvis.
    split; [assumption|]. unfold py_get in Hget.
    destruct (py_index (length (cell_distance s)) (t width cc)); [|discriminate].
    destruct (inv_distance _ _ _ Hinv _ _ Hget); [contradiction|assumption]. }
  destruct Hd as (HdINF & Hd).
  cbv beta in H. unfold bind at 1 in H.
  rewrite (possible_branches_spec width height cc s width_pos height_pos
             (inv_shape _ _ _ Hinv)) in H.
  apply bind_Returns in H as (sampled & s2 & H2 & H).
  apply (preserves_Returns (footprint_is (footprint s))) in H2;
    [|preserves_all footprint_leaf|reflexivity].
  cbv zeta in H.
  apply bind_Returns in H as (selection & s3 & H3 & H).
  pose proof (random_sample_In _ _ _ _ _ H3) as Hsel.
  apply (preserves_Returns (footprint_is (footprint s))) in H3;
    [|preserves_all footprint_leaf|assumption].
  unfold footprint_is in H3.
  assert (Hdist3 : cell_distance s3 = cell_distance s).
  { unfold footprint in H3. now injection H3. }
  assert (Hv3 : cells_visited s3 = cells_visited s).
  { unfold footprint in H3. now injection H3. }
  apply (for_each_inv cc (d + 1) selection) in H; try assumption.
  - unfold INF in *. lia.
  - intros n Hn. apply Hsel in Hn. apply filter_In in Hn as (Hnb & Hu).
    split; [|assumption]. unfold unvisited in Hu.
    now apply andb_true_iff in Hu as [? _].
  - now apply (loop_inv_footprint width height s).
  - rewrite Hdist3. unfold unvisited. apply andb_false_iff. right.
    now apply Z.eqb_neq.
  - lia.
Qed.

(** An iteration keeps the invariant. *)
Lemma loop_body_inv (s s' : frame) :
  cell_count width height <= INF ->
  loop_inv width height s ->
  cells_visited s < cell_count width height ->
  loop_body width height branch_dist s = Returns tt s' ->
  loop_inv width height s'.
Proof.
  intros Hbig Hinv Hguard H.
  apply loop_body_Returns in H as (b & cc & s1 & Hch & H).
  destruct (chooses_inv s b cc s1 Hinv Hch) as (H1 & Hv & Hd & Hcc).
  destruct (inv_pending _ _ _ Hinv cc Hcc) as (Hrange & Hvis & _).
  eapply branch_from_inv; try eassumption.
  - now rewrite Hv.
  - now rewrite Hd.
Qed.

End LoopBody.

(** *** The frame the loop starts from *)

Lemma init_state_spec (width height : Z) (s s' : frame) :
  init_state width height s = Returns tt s' ->
  footprint s'
  = (0, repeat INF (Z.to_nat (cell_count width height)), [], [],
     Z.to_nat (cell_count width height), Z.to_nat (cell_count width height)).
Proof.
  unfold init_state. intros H.
  set (n := Z.to_nat (cell_count width height)) in *.
  set (I := fun s : frame => length (cell_remaining_sides s) = n /\ cells_visited s = 0).
  assert (HI : forall (m : M unit) sa sb, preserves I m -> I sa -> m sa = Returns tt sb -> I sb).
  { intros m sa sb Hm Ha E. exact (preserves_Returns I m sa tt sb Hm Ha E). }
  assert (Hleaf : forall i v (s : frame) (a' : list Z),
             I s -> py_set (cell_remaining_sides s) i v = Some a' ->
             I (set_cell_remaining_sides a' s)).
  { intros i v s0 a' [Hs Hv] E. apply py_set_length in E. split; simpl; congruence. }
  apply bind_Returns in H as ([] & s1 & H1 & H). apply modify_Returns in H1.
  apply bind_Returns in H as ([] & s2 & H2 & H). apply modify_Returns in H2.
  assert (I2 : I s2).
  { subst s2 s1. split; simpl; [apply repeat_length|reflexivity]. }
  apply bind_Returns in H as ([] & s3 & H3 & H).
  apply HI in H3; [|preserves_all ltac:(apply Hleaf)|assumption].
  apply bind_Returns in H as ([] & s4 & H4 & H).
  apply HI in H4; [|preserves_all ltac:(apply Hleaf)|assumption].
  apply bind_Returns in H as ([] & s5 & H5 & H).
  apply HI in H5; [|preserves_all ltac:(apply Hleaf)|assumption].
  apply bind_Returns in H as ([] & s6 & H6 & H).
  apply HI in H6; [|preserves_all ltac:(apply Hleaf)|assumption].
  apply bind_Returns in H as ([] & s7 & H7 & H).
  apply HI in H7; [|preserves_all ltac:(apply Hleaf)|assumption].
  apply bind_Returns in H as ([] & s8 & H8 & H).
  apply HI in H8; [|preserves_all ltac:(apply Hleaf)|assumption].
  unfold bind, modify in H. injection H as H. subst s'.
  destruct H8 as [Hr Hv]. unfold footprint. simpl.
  now rewrite Hv, Hr, repeat_length.
Qed.

Lemma random_randint_Returns (a b : Z) s v s' :
  random_randint a b s = Returns v s' -> a <= v <= b.
Proof.
  unfold random_randint. destruct (Z.ltb_spec 0 (b + 1 - a)); [|discriminate].
  unfold bind. rewrite randbelow_spec. intros [= <- _].
  pose proof (Z.mod_pos_bound (next_raw s) (b + 1 - a)). lia.
Qed.

Section Start.

Variables (width height : Z).
Hypothesis width_pos : 1 <= width.
Hypothesis height_pos : 1 <= height.

Lemma on_rim_top (x : Z) : 0 <= x -> on_rim width height (x, 0).
Proof.
  intros Hx. repeat split; simpl; try lia. exists (c_t (x, 0)).
  split; [unfold neighbours; simpl; tauto|].
  unfold in_bounds, c_t. simpl. apply andb_false_iff. right. reflexivity.
Qed.

Lemma on_rim_bottom (x : Z) : 0 <= x -> on_rim width height (x, height - 1).
Proof.
  intros Hx. repeat split; simpl; try lia. exists (c_b (x, height - 1)).
  split; [unfold neighbours; simpl; tauto|].
  unfold in_bounds, c_b. simpl. apply andb_false_iff. right.
  apply andb_false_iff. right. apply Z.ltb_ge. lia.
Qed.

Lemma on_rim_left (y : Z) : 0 <= y -> on_rim width height (0, y).
Proof.
  intros Hy. repeat split; simpl; try lia. exists (c_l (0, y)).
  split; [unfold neighbours; simpl; tauto|].
  unfold in_bounds, c_l. simpl. reflexivity.
Qed.

Lemma on_rim_right (y : Z) : 0 <= y -> on_rim width height (width - 1, y).
Proof.
  intros Hy. repeat split; simpl; try lia. exists (c_r (width - 1, y)).
  split; [unfold neighbours; simpl; tauto|].
  unfold in_bounds, c_r. simpl. apply andb_false_iff. left.
  apply andb_false_iff. right. apply Z.ltb_ge. lia.
Qed.

Lemma open_wall_started x c (bit : Z) (c' : cell) :
  preserves (started x c) (open_wall width bit c').
Proof.
  preserves_all
    ltac:(first
            [ let E := fresh "E" in
              intros ? ? [? ?] E; apply py_set_length in E; split;
              [unfold footprint in *; simpl in *; rewrite E; assumption
              |simpl; assumption]
            | intros ? [? ?]; split; simpl; assumption ]).
Qed.

(** [pick_start] leaves the footprint alone up to its last step, which is
    [q_up] of a position on the rim at distance 0. *)
Lemma pick_start_spec (s s' : frame) :
  pick_start width height s = Returns tt s' ->
  exists c s1,
    on_rim width height c /\ footprint s1 = footprint s /\ start s1 = Some c
    /\ q_up width height c 0 s1 = Returns tt s'.
Proof.
  unfold pick_start. intros H.
  apply bind_Returns in H as (side & sa & Ha & H).
  apply (preserves_Returns (footprint_is (footprint s))) in Ha;
    [|preserves_all footprint_leaf|reflexivity].
  apply bind_Returns in H as ([] & s1 & H1 & H).
  apply bind_Returns in H as (st & s1' & Hst & H).
  unfold gets in Hst. injection Hst as <- <-.
  assert (Hgoal : exists c, on_rim width height c /\ started (footprint s) c s1).
  { clear H. destruct side.
    - apply bind_Returns in H1 as (x & sb & Hb & H1).
      pose proof (random_randint_Returns _ _ _ _ _ Hb) as Hx.
      apply (preserves_Returns (footprint_is (footprint s))) in Hb;
        [|preserves_all footprint_leaf|assumption].
      apply bind_Returns in H1 as (first & sc & Hc & H1).
      apply (preserves_Returns (footprint_is (footprint s))) in Hc;
        [|preserves_all footprint_leaf|assumption].
      destruct first;
        apply bind_Returns in H1 as ([] & sd & Hd & H1);
        apply modify_Returns in Hd; subst sd.
      + exists (x, 0). split; [apply on_rim_top; lia|].
        eapply (preserves_Returns (started (footprint s) (x, 0))) in H1;
          [exact H1|apply open_wall_started|split; [exact Hc|reflexivity]].
      + exists (x, height - 1). split; [apply on_rim_bottom; lia|].
        eapply (preserves_Returns (started (footprint s) (x, height - 1))) in H1;
          [exact H1|apply open_wall_started|split; [exact Hc|reflexivity]].
    - apply bind_Returns in H1 as (y & sb & Hb & H1).
      pose proof (random_randint_Returns _ _ _ _ _ Hb) as Hy.
      apply (preserves_Returns (footprint_is (footprint s))) in Hb;
        [|preserves_all footprint_leaf|assumption].
      apply bind_Returns in H1 as (first & sc & Hc & H1).
      apply (preserves_Returns (footprint_is (footprint s))) in Hc;
        [|preserves_all footprint_leaf|assumption].
      destruct first;
        apply bind_Returns in H1 as ([] & sd & Hd & H1);
        apply modify_Returns in Hd; subst sd.
      + exists (0, y). split; [apply on_rim_left; lia|].
        eapply (preserves_Returns (started (footprint s) (0, y))) in H1;
          [exact H1|apply open_wall_started|split; [exact Hc|reflexivity]].
      + exists (width - 1, y). split; [apply on_rim_right; lia|].
        eapply (preserves_Returns (started (footprint s) (width - 1, y))) in H1;
          [exact H1|apply open_wall_started|split; [exact Hc|reflexivity]]. }
  destruct Hgoal as (c & Hrim & Hfp & Hstart).
  rewrite Hstart in H. exists c, s1. auto.
Qed.

End Start.

Lemma py_index_nonneg (len : nat) (i : Z) (k : nat) :
  0 <= i -> py_index len i = Some k -> k = Z.to_nat i /\ i < Z.of_nat len.
Proof.
  intros Hi. unfold py_index.
  destruct (Z.leb_spec 0 i); [|lia]. destruct (Z.ltb_spec i (Z.of_nat len)); simpl.
  - intros [= <-]. now split.
  - destruct (Z.ltb_spec i 0); [lia|]. rewrite andb_false_r. discriminate.
Qed.

Section Run.

Variables (width height : Z) (branch_dist : list Q).
Variable seeded_words : Z -> list Z.
Variable seed : option Z.
Variable s0 : frame.

Hypothesis width_pos : 1 <= width.
Hypothesis height_pos : 1 <= height.
Hypothesis grid_small : cell_count width height <= INF.

Lemma first_head_inv (s : frame) :
  (random_seed seeded_words seed ;;; init_state width height ;;;
   pick_start width height) s0 = Returns tt s ->
  loop_inv width height s.
Proof.
  intros H.
  apply bind_Returns in H as ([] & s1 & _ & H).
  apply bind_Returns in H as ([] & s2 & H2 & H).
  apply init_state_spec in H2.
  apply (pick_start_spec width height width_pos height_pos) in H
    as (c & s3 & (Hx & Hy & n & Hn & Hout) & Hfp & _ & H).
  rewrite H2 in Hfp. unfold footprint in Hfp.
  injection Hfp as Hv Hd Hh Hq Hs Hr.
  apply q_up_footprint in H as (k & Hk & Hfp).
  rewrite Hv, Hd, Hh, Hq, Hs, Hr in Hfp. rewrite Hd, repeat_length in Hk.
  unfold footprint in Hfp. injection Hfp as Hv' Hd' Hh' Hq' Hs' Hr'.
  assert (Ht : 0 <= t width c) by (unfold t; nia).
  apply py_index_nonneg in Hk as (-> & Hlt); [|assumption].
  assert (Hcount : Z.of_nat (Z.to_nat (cell_count width height))
                   = cell_count width height) by (unfold cell_count in *; nia).
  constructor.
  - repeat split; [assumption| |assumption].
    now rewrite Hd', length_insert, repeat_length.
  - rewrite Hh'. simpl. repeat constructor.
  - intros i d. rewrite Hd', Hv'. intros Hi.
    apply list_lookup_insert_Some in Hi as [(_ & <- & _)|(_ & Hi)]; [right; lia|].
    left. apply list_elem_of_lookup_2, list_elem_of_In, repeat_spec in Hi. exact Hi.
  - intros c' Hc'. unfold pending in Hc'. rewrite Hq', Hh' in Hc'. simpl in Hc'.
    assert (c' = c) by (destruct Hc' as [<-|[<-|[]]]; reflexivity). subst c'.
    rewrite Hd'. split; [lia|]. split.
    + unfold distance_of. rewrite py_get_in_range
        by (rewrite length_insert, repeat_length; lia).
      rewrite list_lookup_insert_eq by (rewrite repeat_length; lia).
      simpl. unfold INF. lia.
    + exists n. split; [assumption|]. unfold unvisited. now rewrite Hout.
Qed.

(** Every frame at the head of the loop satisfies the invariant. *)
Lemma loop_head_inv (s : frame) : at_loop_head width height branch_dist seeded_words seed s0 s -> loop_inv width height s.
Proof.
  induction 1 as [s H|s s' _ IH Hguard H].
  - now apply first_head_inv.
  - eapply loop_body_inv; eassumption.
Qed.

(** The frame in which [growth] returns is one of them. *)
Lemma grow_at_loop_head (fuel : nat) :
  forall s s', at_loop_head width height branch_dist seeded_words seed s0 s ->
    grow width height branch_dist fuel s = Returns tt s' -> at_loop_head width height branch_dist seeded_words seed s0 s'.
Proof.
  induction fuel as [|fuel IH]; intros s s' Hs H; simpl in H;
    destruct (Z.ltb_spec (cells_visited s) (cell_count width height)) as [Hlt|Hge];
    try discriminate; try (injection H as <-; exact Hs).
  apply bind_Returns in H as ([] & s1 & H1 & H).
  apply (IH s1 s'); [|exact H]. now apply head_next with s.
Qed.

End Run.

(** ** Growth steps of a run *)

Lemma head1_1x3_seed7_reached :
  at_loop_head 1 3 default_branch_factors (fun _ => draws_1x3_seed7) (Some 7)
    (entry_frame []) head1_1x3_seed7.
Proof. apply head_first. vm_compute. reflexivity. Defined.

Lemma head3_1x3_seed7_reached :
  at_loop_head 1 3 default_branch_factors (fun _ => draws_1x3_seed7) (Some 7)
    (entry_frame []) head3_1x3_seed7.
Proof.
  apply head_next with head2_1x3_seed7; [|reflexivity|vm_compute; reflexivity].
  apply head_next with head1_1x3_seed7; [|reflexivity|vm_compute; reflexivity].
  apply head1_1x3_seed7_reached.
Defined.



(** C7.  In every iteration of a run (grid of at least one cell and at
    most [2^62]) that starts with unvisited cells left, an empty queue and
    a non-empty heap with head [e]: the cell of [e] has a remaining-sides
    count [r]; [e] is an entry of largest distance; [fallback_cell] returns
    that cell and leaves the heap as it is when [r > 1], returns it and
    pops the entry when [r = 1], and pops the entry and goes on with the
    rest of the heap when [r] is 0 (or less); and whenever [fallback_cell]
    supplies a cell, the iteration is the branching step from that cell
    with termination disallowed (a drawn branch count of 0 becomes 1), so
    that, if it completes, at least one more cell has been visited. *)
Theorem restart_selector
    (width height : Z) (branch_dist : list Q) (seeded_words : Z -> list Z)
    (seed : option Z) (s0 s : frame) (e : entry) (rest : list entry) :
  1 <= width -> 1 <= height -> cell_count width height <= INF ->
  at_loop_head width height branch_dist seeded_words seed s0 s ->
  cells_visited s < cell_count width height ->
  q s = [] ->
  cell_by_distance s = e :: rest ->
  exists r,
    py_get (cell_remaining_sides s) (t width (snd e)) = Some r
    /\ (forall e', In e' (e :: rest) -> entry_distance e' <= entry_distance e)
    /\ (1 < r -> fallback_cell width s = Returns (Some (snd e)) s)
    /\ (r = 1 ->
        fallback_cell width s = Returns (Some (snd e)) (set_cell_by_distance rest s))
    /\ (r <= 0 ->
        fallback_cell width s = fallback_cell width (set_cell_by_distance rest s))
    /\ (forall c s1, fallback_cell width s = Returns (Some c) s1 ->
          loop_body width height branch_dist s
          = branch_from width height branch_dist false c s1
          /\ forall s2, loop_body width height branch_dist s = Returns tt s2 ->
               cells_visited s + 1 <= cells_visited s2).
Proof.
  intros Hw Hh Hbig Hhead Hguard Hq Hheap.
  pose proof (loop_head_inv _ _ _ _ _ _ Hw Hh Hbig s Hhead) as Hinv.
  destruct (inv_pending _ _ _ Hinv (snd e)) as (Hrange & _ & _).
  { unfold pending. rewrite Hq, Hheap. now left. }
  destruct (py_get_is_Some (cell_remaining_sides s) (t width (snd e))) as [r Hr].
  { destruct (inv_shape _ _ _ Hinv) as (-> & _ & _). unfold cell_count in *. nia. }
  exists r. split; [assumption|].
  apply fallback_cell_cases; try assumption.
  rewrite <- Hheap. exact (inv_heap _ _ _ Hinv).
Qed.

Lemma restart_selector_witness :
  exists r,
    py_get (cell_remaining_sides head3_1x3_seed7) (t 1 (0, 0)) = Some r
    /\ (r = 1 ->
        fallback_cell 1 head3_1x3_seed7
        = Returns (Some (0, 0)) (set_cell_by_distance [(0, (0, 1))] head3_1x3_seed7)).
Proof.
  destruct (restart_selector 1 3 default_branch_factors (fun _ => draws_1x3_seed7)
              (Some 7) (entry_frame []) head3_1x3_seed7 (-1, (0, 0)) [(0, (0, 1))])
    as (r & Hr & _ & _ & H1 & _).
  - lia.
  - lia.
  - vm_compute. discriminate.
  - exact head3_1x3_seed7_reached.
  - reflexivity.
  - reflexivity.
  - reflexivity.
  - exists r. split; assumption.
Defined.

(** * Beyond the claims *)

(** ** The linear index *)

Lemma t_injective (width height : Z) (c c' : cell) :
  in_bounds width height c = true -> in_bounds width height c' = true ->
  t width c = t width c' -> c = c'.
Proof.
  unfold in_bounds, t. destruct c as [x y], c' as [x' y']. simpl.
  intros H H' E.
  apply andb_true_iff in H as [Hx Hy], H' as [Hx' Hy'].
  apply andb_true_iff in Hx as [? ?], Hy as [? ?], Hx' as [? ?], Hy' as [? ?].
  assert (y = y') by nia. subst y'. f_equal. lia.
Qed.

Lemma mask_cases (v : Z) :
  mask_ok v ->
  v = 0 \/ v = 1 \/ v = 2 \/ v = 3 \/ v = 4 \/ v = 5 \/ v = 6 \/ v = 7 \/ v = 8
  \/ v = 9 \/ v = 10 \/ v = 11 \/ v = 12 \/ v = 13 \/ v = 14 \/ v = 15.
Proof. unfold mask_ok. lia. Qed.

Lemma lor_mask_ok (v bit : Z) :
  mask_ok v -> In bit [1; 2; 4; 8] ->
  mask_ok (Z.lor v bit) /\ Z.lor v bit <> 0.
Proof.
  intros Hv Hb. apply mask_cases in Hv. unfold mask_ok. simpl in Hb.
  repeat match goal with H : _ \/ _ |- _ => destruct H end;
    try contradiction; subst; vm_compute; repeat split; congruence.
Qed.

Lemma lor_mask_le (v bit : Z) : mask_le v (Z.lor v bit).
Proof. intros b Hb. rewrite Z.lor_spec, Hb. reflexivity. Qed.

Lemma mask_le_refl (v : Z) : mask_le v v.
Proof. intros b Hb. exact Hb. Qed.

Lemma mask_le_trans (u v w : Z) : mask_le u v -> mask_le v w -> mask_le u w.
Proof. intros H1 H2 b Hb. auto. Qed.

Lemma walls_grow_refl (walls : list Z) : walls_grow walls walls.
Proof. apply Forall2_same_length_lookup. split; [reflexivity|].
  intros i v v' E E'. rewrite E in E'. injection E' as <-. apply mask_le_refl. Qed.

Lemma walls_grow_trans (a b c : list Z) :
  walls_grow a b -> walls_grow b c -> walls_grow a c.
Proof.
  unfold walls_grow. intros H1 H2. revert c H2.
  induction H1 as [|x y a b Hxy _ IH]; intros c H2; inversion H2; subst; constructor.
  - eapply mask_le_trans; eassumption.
  - now apply IH.
Qed.

Lemma walls_grow_insert (walls : list Z) (k : nat) (v bit : Z) :
  walls !! k = Some v -> walls_grow walls (<[k := Z.lor v bit]> walls).
Proof.
  intros Hk. apply Forall2_same_length_lookup. split; [now rewrite length_insert|].
  intros i a b Ha Hb.
  apply list_lookup_insert_Some in Hb as [(-> & <- & _)|(_ & Hb)].
  - rewrite Hk in Ha. injection Ha as <-. apply lor_mask_le.
  - rewrite Ha in Hb. injection Hb as <-. apply mask_le_refl.
Qed.

(** What [open_wall] does: one entry of [cell_state] gets one more bit. *)
Lemma open_wall_Returns (width : Z) (bit : Z) (c : cell) (s s' : frame) :
  open_wall width bit c s = Returns tt s' ->
  exists k v,
    py_index (length (cell_state s)) (t width c) = Some k
    /\ cell_state s !! k = Some v
    /\ s' = set_cell_state (<[k := Z.lor v bit]> (cell_state s)) s.
Proof.
  unfold open_wall. intros H.
  apply bind_Returns in H as (v & s1 & H1 & H).
  apply load_Returns in H1 as (-> & Hget).
  apply store_Returns in H as (a' & Hset & ->).
  unfold py_get in Hget. unfold py_set in Hset.
  destruct (py_index (length (cell_state s)) (t width c)) as [k|]; [|discriminate].
  injection Hset as <-. now exists k, v.
Qed.

Lemma mask_le_nonzero (v v' : Z) : mask_le v v' -> v <> 0 -> v' <> 0.
Proof.
  intros Hle Hv ->. apply Hv. apply Z.bits_inj_0. intros b.
  destruct (Z.testbit v b) eqn:E; [|reflexivity].
  apply Hle in E. now rewrite Z.testbit_0_l in E.
Qed.

Lemma walls_grow_nonzero (walls walls' : list Z) (i : nat) (v : Z) :
  walls_grow walls walls' -> walls !! i = Some v -> v <> 0 ->
  exists v', walls' !! i = Some v' /\ v' <> 0.
Proof.
  intros Hg Hi Hv. destruct (Forall2_lookup_l _ _ _ _ _ Hg Hi) as (v' & Hi' & Hle).
  exists v'. split; [assumption|]. eapply mask_le_nonzero; eassumption.
Qed.

Section Walls.

Variables (width height : Z).

(** One [open_wall] with one of the four wall bits. *)
Lemma open_wall_effect (bit : Z) (c : cell) (s s' : frame) :
  In bit [1; 2; 4; 8] ->
  Forall mask_ok (cell_state s) ->
  open_wall width bit c s = Returns tt s' ->
  footprint s' = footprint s
  /\ Forall mask_ok (cell_state s')
  /\ walls_grow (cell_state s) (cell_state s')
  /\ exists k v',
       py_index (length (cell_state s)) (t width c) = Some k
       /\ cell_state s' !! k = Some v' /\ v' <> 0 /\ Z.testbit v' (Z.log2 bit) = true.
Proof.
  intros Hbit Hok H.
  apply open_wall_Returns in H as (k & v & Hk & Hv & ->).
  assert (Hvok : mask_ok v).
  { rewrite Forall_lookup in Hok. exact (Hok k v Hv). }
  destruct (lor_mask_ok v bit Hvok Hbit) as (Hnew & Hnz).
  split; [|split; [|split]].
  - unfold footprint. simpl. now rewrite length_insert.
  - simpl. apply Forall_insert; assumption.
  - simpl. now apply walls_grow_insert.
  - exists k, (Z.lor v bit). simpl. split; [assumption|].
    split; [apply list_lookup_insert_eq; eapply lookup_lt_Some; eassumption|].
    split; [assumption|]. rewrite Z.lor_spec. apply orb_true_iff. right.
    simpl in Hbit. destruct Hbit as [<-|[<-|[<-|[<-|[]]]]]; reflexivity.
Qed.

(** For a neighbour [n] of [cc], [connect] is two [open_wall]s, the
    second one on [n]. *)
Lemma connect_neighbour (cc n : cell) :
  In n (neighbours cc) ->
  exists bit_cc bit_n,
    In bit_cc [1; 2; 4; 8] /\ In bit_n [1; 2; 4; 8]
    /\ across bit_cc cc = n /\ across bit_n n = cc
    /\ connect width cc n = (open_wall width bit_cc cc ;;; open_wall width bit_n n).
Proof.
  unfold neighbours, connect, across, c_l, c_r, c_t, c_b.
  destruct cc as [x y]. simpl.
  intros [<-|[<-|[<-|[<-|[]]]]]; simpl.
  - exists 1, 4. repeat split; simpl; auto; try (f_equal; lia).
    destruct (Z.ltb_spec x (x - 1)); [lia|].
    destruct (Z.ltb_spec (x - 1) x); [reflexivity|lia].
  - exists 4, 1. repeat split; simpl; auto; try (f_equal; lia).
    destruct (Z.ltb_spec x (x + 1)); [reflexivity|lia].
  - exists 2, 8. repeat split; simpl; auto; try (f_equal; lia).
    rewrite Z.ltb_irrefl.
    destruct (Z.ltb_spec y (y - 1)); [lia|].
    destruct (Z.ltb_spec (y - 1) y); [reflexivity|lia].
  - exists 8, 2. repeat split; simpl; auto; try (f_equal; lia).
    rewrite Z.ltb_irrefl.
    destruct (Z.ltb_spec y (y + 1)); [reflexivity|lia].
Qed.

Lemma connect_effect (cc n : cell) (s s' : frame) :
  In n (neighbours cc) ->
  Forall mask_ok (cell_state s) ->
  connect width cc n s = Returns tt s' ->
  footprint s' = footprint s
  /\ Forall mask_ok (cell_state s')
  /\ walls_grow (cell_state s) (cell_state s')
  /\ exists k v',
       py_index (length (cell_state s)) (t width n) = Some k
       /\ cell_state s' !! k = Some v' /\ v' <> 0.
Proof.
  intros Hn Hok H.
  destruct (connect_neighbour cc n Hn) as (b1 & b2 & Hb1 & Hb2 & _ & _ & E).
  rewrite E in H. apply bind_Returns in H as ([] & s1 & H1 & H2).
  apply (open_wall_effect b1 cc s s1 Hb1 Hok) in H1 as (Hf1 & Hok1 & Hg1 & _).
  apply (open_wall_effect b2 n s1 s' Hb2 Hok1) in H2
    as (Hf2 & Hok2 & Hg2 & k & v' & Hk & Hv' & Hnz & _).
  split; [congruence|]. split; [assumption|].
  split; [eapply walls_grow_trans; eassumption|].
  exists k, v'. split; [|split; assumption].
  rewrite <- Hk. f_equal. unfold footprint in Hf1. now injection Hf1.
Qed.

Lemma q_up_walls (walls : list Z) (c : cell) (d : Z) :
  preserves (fun s => cell_state s = walls) (q_up width height c d).
Proof. preserves_all ltac:(intros; simpl; assumption). Qed.

End Walls.

(** *** Counting the cells with a distance *)

Lemma visited_count_insert (distances : list Z) (k : nat) (d : Z) :
  distances !! k = Some INF -> d <> INF ->
  visited_count (<[k := d]> distances) = S (visited_count distances).
Proof.
  unfold visited_count. revert k.
  induction distances as [|a l IH]; intros [|k] Hk Hd; simpl in *; try discriminate.
  - injection Hk as ->. rewrite Z.eqb_refl. simpl.
    apply Z.eqb_neq in Hd. now rewrite Hd.
  - destruct (negb (a =? INF)); simpl; now rewrite IH.
Qed.

Lemma visited_count_le (distances : list Z) :
  (visited_count distances <= length distances)%nat.
Proof. unfold visited_count. apply filter_length_le. Qed.

Lemma visited_count_full (distances : list Z) :
  visited_count distances = length distances -> Forall (fun d => d <> INF) distances.
Proof.
  unfold visited_count. induction distances as [|a l IH]; simpl; [constructor|].
  pose proof (filter_length_le (fun d => negb (d =? INF)) l) as Hle.
  destruct (Z.eqb_spec a INF); simpl; intros H; [lia|].
  constructor; [assumption|]. apply IH. lia.
Qed.

(** *** [random.sample] draws without replacement *)

Lemma sample_pool_NoDup {A : Type} (k : nat) :
  forall (pool : list A) (n : nat) s sel s',
    (k <= n)%nat -> (n <= length pool)%nat -> NoDup (take n pool) ->
    sample_pool k pool n s = Returns sel s' ->
    NoDup sel /\ forall x, In x sel -> x ∈ take n pool.
Proof.
  induction k as [|k IH]; intros pool n s sel s' Hk Hn Hnd H; simpl in H.
  - injection H as H _. subst sel. split; [constructor|intros x []].
  - apply bind_Returns in H as (jz & s1 & Hj & H).
    rewrite randbelow_spec in Hj. injection Hj as Hj _.
    assert (Hjn : (Z.to_nat jz < n)%nat).
    { pose proof (Z.mod_pos_bound (next_raw s) (Z.of_nat n)). lia. }
    set (j := Z.to_nat jz) in *.
    destruct (pool !! j) as [x|] eqn:Ex; [|discriminate].
    destruct (pool !! (n - 1)%nat) as [y|] eqn:Ey; [|discriminate].
    apply bind_Returns in H as (rest & s2 & H2 & H).
    injection H as H _. subst sel.
    pose proof (proj1 (NoDup_alt _) Hnd) as Halt.
    assert (Hpool : forall i1 i2 a, (i1 < n)%nat -> (i2 < n)%nat ->
              pool !! i1 = Some a -> pool !! i2 = Some a -> i1 = i2).
    { intros i1 i2 a H1 H2' E1 E2. apply (Halt i1 i2 a);
        apply lookup_take_Some; split; assumption. }
    assert (Hins : forall i a, (i < n - 1)%nat -> <[j := y]> pool !! i = Some a ->
              (i < n)%nat /\ pool !! (if decide (i = j) then n - 1 else i)%nat = Some a
              /\ (if decide (i = j) then n - 1 else i)%nat <> j).
    { intros i a Hi E. split; [lia|].
      apply list_lookup_insert_Some in E as [(-> & <- & _)|(Hne & E)].
      - rewrite decide_True by reflexivity. split; [assumption|lia].
      - rewrite decide_False by congruence. split; [assumption|congruence]. }
    destruct (IH (<[j := y]> pool) (n - 1)%nat s1 rest s2) as (Hrest & Hsub);
      [lia|rewrite length_insert; lia| |assumption|].
    + apply NoDup_alt. intros i1 i2 a E1 E2.
      apply lookup_take_Some in E1 as (E1 & L1), E2 as (E2 & L2).
      destruct (Hins i1 a L1 E1) as (_ & P1 & _), (Hins i2 a L2 E2) as (_ & P2 & _).
      assert (Heq : (if decide (i1 = j) then (n - 1)%nat else i1)
                    = (if decide (i2 = j) then (n - 1)%nat else i2)).
      { apply (Hpool _ _ a); try assumption; repeat case_decide; lia. }
      destruct (decide (i1 = j)), (decide (i2 = j)); lia.
    + assert (Hin : forall a, a ∈ take (n - 1) (<[j := y]> pool) ->
                a ∈ take n pool /\ a <> x).
      { intros a Ha. apply elem_of_take in Ha as (i & E & Li).
        destruct (Hins i a Li E) as (_ & P & Pne).
        split.
        - apply elem_of_take. eexists. split; [exact P|].
          repeat case_decide; lia.
        - intros ->. apply Pne. apply (Hpool _ _ x); try assumption.
          repeat case_decide; lia. }
      split.
      * constructor; [|assumption].
        intros Hx. apply list_elem_of_In, Hsub, Hin in Hx as (_ & Hx). now apply Hx.
      * intros a [<-|Ha].
        -- apply elem_of_take. eauto.
        -- now apply Hsub, Hin in Ha as (Ha & _).
Qed.

Lemma random_sample_NoDup {A : Type} (population : list A) (k : nat) s sel s' :
  NoDup population ->
  random_sample population k s = Returns sel s' -> NoDup sel.
Proof.
  unfold random_sample. intros Hnd H.
  destruct (Nat.leb_spec k (length population)); [|discriminate].
  eapply (sample_pool_NoDup k population (length population)); try eassumption.
  - reflexivity.
  - now rewrite firstn_all.
Qed.

Lemma neighbours_NoDup (c : cell) : NoDup (neighbours c).
Proof.
  unfold neighbours, c_l, c_r, c_t, c_b. destruct c as [x y]. simpl.
  repeat constructor; rewrite ?elem_of_cons, ?elem_of_nil;
    intros H; repeat destruct H as [H|H]; try inversion H; lia.
Qed.

(** *** The visit invariant *)

Section VisitSteps.

Variables (width height : Z) (branch_dist : list Q).
Hypothesis width_pos : 1 <= width.
Hypothesis height_pos : 1 <= height.

Lemma distances_kept_refl (distances : list Z) : distances_kept distances distances.
Proof. intros i d H _. exact H. Qed.

Lemma distances_kept_trans (a b c : list Z) :
  distances_kept a b -> distances_kept b c -> distances_kept a c.
Proof. intros H1 H2 i d Hi Hd. apply H2; [|assumption]. now apply H1. Qed.

Lemma distances_kept_insert (distances : list Z) (k : nat) (d : Z) :
  distances !! k = Some INF -> distances_kept distances (<[k := d]> distances).
Proof.
  intros Hk i d0 Hi Hd0. rewrite list_lookup_insert_ne; [assumption|].
  intros ->. rewrite Hk in Hi. congruence.
Qed.

(** [q_up] of a position whose entry is still the sentinel. *)
Lemma q_up_marks (n : cell) (d : Z) (s s' : frame) :
  0 <= t width n ->
  q_up width height n d s = Returns tt s' ->
  cell_distance s' = <[Z.to_nat (t width n) := d]> (cell_distance s)
  /\ cells_visited s' = cells_visited s + 1
  /\ cell_state s' = cell_state s
  /\ t width n < Z.of_nat (length (cell_distance s))
  /\ cell_by_distance s' = heappush (cell_by_distance s) (- d, n)
  /\ q s' = q s ++ [n].
Proof.
  intros Ht H.
  pose proof (preserves_Returns _ _ _ _ _ (q_up_walls width height (cell_state s) n d)
                eq_refl H) as Hw.
  apply q_up_footprint in H as (k & Hk & Hfp).
  apply py_index_nonneg in Hk as (-> & Hlt); [|assumption].
  unfold footprint in Hfp. injection Hfp as Hv Hd Hh Hq _ _.
  auto 10.
Qed.

Lemma keyed_mark (n : cell) (d : Z) (distances : list Z) (h : list entry) :
  0 <= t width n ->
  distances !! Z.to_nat (t width n) = Some INF ->
  keyed width distances h ->
  (forall e, In e h ->
     0 <= t width (snd e) /\ distance_of width distances (snd e) <> INF) ->
  keyed width (<[Z.to_nat (t width n) := d]> distances) (heappush h (- d, n)).
Proof.
  intros Ht Hk Hkeys Hpend e He. apply heappush_In in He as [->|He]; simpl.
  - unfold distance_of.
    rewrite py_get_in_range
      by (rewrite length_insert; apply lookup_lt_Some in Hk; lia).
    rewrite list_lookup_insert_eq by (eapply lookup_lt_Some; eassumption).
    simpl. lia.
  - destruct (Hpend e He) as (Hte & Hne). rewrite <- (Hkeys e He).
    unfold distance_of, py_get in *. rewrite length_insert.
    destruct (py_index (length distances) (t width (snd e))) as [j|] eqn:Ej;
      [|reflexivity].
    apply py_index_nonneg in Ej as (-> & _); [|assumption].
    rewrite list_lookup_insert_ne; [reflexivity|].
    intros E. rewrite <- E, Hk in Hne. now apply Hne.
Qed.

Lemma visit_inv_mark (n : cell) (d : Z) (s s' : frame) :
  Forall mask_ok (cell_state s) ->
  (forall i d, cell_distance s !! i = Some d -> d <> INF ->
     exists v, cell_state s !! i = Some v /\ v <> 0) ->
  cells_visited s = Z.of_nat (visited_count (cell_distance s)) ->
  keyed width (cell_distance s) (cell_by_distance s) ->
  (forall e, In e (cell_by_distance s) ->
     0 <= t width (snd e) /\ distance_of width (cell_distance s) (snd e) <> INF) ->
  loop_inv width height s' ->
  0 <= t width n ->
  cell_distance s' = <[Z.to_nat (t width n) := d]> (cell_distance s) ->
  cell_by_distance s' = heappush (cell_by_distance s) (- d, n) ->
  cells_visited s' = cells_visited s + 1 ->
  cell_state s' = cell_state s ->
  cell_distance s !! Z.to_nat (t width n) = Some INF -> d <> INF ->
  (exists v, cell_state s !! Z.to_nat (t width n) = Some v /\ v <> 0) ->
  visit_inv width height s'.
Proof.
  intros Hm Ho Hc Hkeys Hpend Hloop Ht Hd Hh Hv Hw Hk HINF Hopen. constructor.
  - assumption.
  - now rewrite Hw.
  - intros i d0. rewrite Hd, Hw. intros Hi Hd0.
    apply list_lookup_insert_Some in Hi as [(<- & _ & _)|(_ & Hi)]; [assumption|].
    now apply (Ho i d0).
  - rewrite Hv, Hd, visited_count_insert by assumption. lia.
  - rewrite Hd, Hh. now apply keyed_mark.
Qed.

Lemma heap_pending (s : frame) :
  loop_inv width height s ->
  forall e, In e (cell_by_distance s) ->
    0 <= t width (snd e) /\ distance_of width (cell_distance s) (snd e) <> INF.
Proof.
  intros Hinv e He.
  destruct (inv_pending _ _ _ Hinv (snd e)) as ((? & _) & ? & _); [|now split].
  unfold pending. apply in_app_iff. right. now apply in_map.
Qed.

Lemma visit_inv_walls (s s' : frame) :
  visit_inv width height s ->
  footprint s' = footprint s ->
  Forall mask_ok (cell_state s') ->
  walls_grow (cell_state s) (cell_state s') ->
  visit_inv width height s'.
Proof.
  intros [Hl Hm Ho Hc Hkeys] Hfp Hm' Hg.
  pose proof Hfp as Hfp'. unfold footprint in Hfp'.
  injection Hfp' as Hv Hd Hh _ _ _.
  constructor.
  - now apply (loop_inv_footprint width height s).
  - assumption.
  - intros i d. rewrite Hd. intros Hi Hd0.
    destruct (Ho i d Hi Hd0) as (v & Hv' & Hnz).
    eapply walls_grow_nonzero; eassumption.
  - now rewrite Hv, Hd.
  - now rewrite Hd, Hh.
Qed.

Lemma unvisited_true (distances : list Z) (n : cell) :
  length distances = Z.to_nat (cell_count width height) ->
  unvisited width height distances n = true ->
  in_bounds width height n = true
  /\ 0 <= t width n < cell_count width height
  /\ distances !! Z.to_nat (t width n) = Some INF.
Proof.
  intros Hlen H. unfold unvisited in H. apply andb_true_iff in H as [Hin Hd].
  pose proof (t_in_range width height n Hin) as Hr.
  split; [assumption|]. split; [exact Hr|].
  apply Z.eqb_eq in Hd. unfold distance_of in Hd.
  rewrite py_get_in_range in Hd by (rewrite Hlen; unfold cell_count in *; nia).
  destruct (distances !! Z.to_nat (t width n)) as [v|] eqn:E; [simpl in Hd; now subst|].
  apply lookup_ge_None in E. unfold cell_count in *. nia.
Qed.

Lemma unvisited_other (distances : list Z) (n m : cell) (d : Z) :
  in_bounds width height n = true -> in_bounds width height m = true ->
  n <> m ->
  unvisited width height (<[Z.to_nat (t width n) := d]> distances) m
  = unvisited width height distances m.
Proof.
  intros Hn Hm Hne. unfold unvisited. rewrite Hm. simpl. f_equal.
  unfold distance_of, py_get. rewrite length_insert.
  destruct (py_index (length distances) (t width m)) as [j|] eqn:Ej; [|reflexivity].
  pose proof (t_in_range width height m Hm) as Hrm.
  pose proof (t_in_range width height n Hn) as Hrn.
  apply py_index_nonneg in Ej as (-> & _); [|lia].
  rewrite list_lookup_insert_ne; [reflexivity|].
  intros E. apply Hne. apply (t_injective width height); try assumption. lia.
Qed.

(** The [for] loop over a selection of distinct unvisited neighbours. *)
Lemma for_each_visit (cc : cell) (d : Z) (selection : list cell) :
  d <> INF -> NoDup selection ->
  forall s s',
    (forall n, In n selection ->
       unvisited width height (cell_distance s) n = true /\ In n (neighbours cc)) ->
    visit_inv width height s ->
    unvisited width height (cell_distance s) cc = false ->
    0 <= d <= cells_visited s ->
    for_each selection (fun n => connect width cc n ;;; q_up width height n d) s
    = Returns tt s' ->
    visit_inv width height s'
    /\ distances_kept (cell_distance s) (cell_distance s')
    /\ walls_grow (cell_state s) (cell_state s')
    /\ cells_visited s' = cells_visited s + Z.of_nat (length selection).
Proof.
  intros HINF Hnd. induction Hnd as [|n selection Hnotin Hnd IH];
    intros s s' Hsel Hinv Hu Hd H.
  - simpl in H. injection H as <-.
    split; [assumption|]. split; [apply distances_kept_refl|].
    split; [apply walls_grow_refl|simpl; lia].
  - simpl in H. apply bind_Returns in H as ([] & s1 & H1 & H).
    apply bind_Returns in H1 as ([] & s2 & H2 & H1).
    destruct (Hsel n (or_introl eq_refl)) as (Hun & Hnb).
    apply (connect_effect width cc n s s2 Hnb (vis_masks _ _ _ Hinv)) in H2
      as (Hfp & Hm2 & Hg2 & k & v & Hk & Hkv & Hnz).
    pose proof (visit_inv_walls s s2 Hinv Hfp Hm2 Hg2) as Hinv2.
    pose proof Hfp as Hfp'. unfold footprint in Hfp'.
    injection Hfp' as Hv2 Hd2 _ _ Hlen2 _.
    destruct (inv_shape _ _ _ (vis_loop _ _ _ Hinv)) as (_ & Hld & Hls).
    destruct (unvisited_true _ n Hld Hun) as (Hin & Hrange & HnINF).
    apply py_index_nonneg in Hk as (-> & _); [|lia].
    pose proof H1 as Hloop.
    apply (q_up_inv width height cc n d s2 s1) in Hloop
      as (Hloop & _ & Hmono);
      [ | exact (vis_loop _ _ _ Hinv2) | assumption | now apply neighbours_back
        | now rewrite Hd2 | lia | assumption ].
    apply q_up_marks in H1 as (Hd1 & Hv1 & Hw1 & _ & Hh1 & _); [|lia].
    assert (Hinv1 : visit_inv width height s1).
    { apply (visit_inv_mark n d s2 s1); try assumption.
      - exact (vis_open _ _ _ Hinv2).
      - exact (vis_count _ _ _ Hinv2).
      - exact (vis_keys _ _ _ Hinv2).
      - apply heap_pending. exact (vis_loop _ _ _ Hinv2).
      - lia.
      - now rewrite Hd2.
      - eauto. }
    destruct (IH s1 s') as (Hinv' & Hkept & Hgrow & Hcount); try assumption.
    + intros m Hm. destruct (Hsel m (or_intror Hm)) as (Hum & Hmb).
      split; [|assumption]. rewrite Hd1, Hd2.
      destruct (unvisited_true _ m Hld Hum) as (Hinm & _ & _).
      rewrite unvisited_other; try assumption.
      intros ->. apply Hnotin. now apply list_elem_of_In.
    + apply Hmono. now rewrite Hd2.
    + lia.
    + split; [assumption|]. split; [|split].
      * eapply distances_kept_trans; [|exact Hkept].
        rewrite Hd1, Hd2. now apply distances_kept_insert.
      * eapply walls_grow_trans; [exact Hg2|]. now rewrite <- Hw1.
      * simpl length. lia.
Qed.

End VisitSteps.

Section VisitRun.

Variables (width height : Z) (branch_dist : list Q).
Variable seeded_words : Z -> list Z.
Variable seed : option Z.
Variable s0 : frame.
Hypothesis width_pos : 1 <= width.
Hypothesis height_pos : 1 <= height.
Hypothesis count_small : cell_count width height <= INF.

Lemma extends_refl (s : frame) : extends s s.
Proof.
  split; [apply distances_kept_refl|]. split; [apply walls_grow_refl|lia].
Qed.

Lemma extends_trans (a b c : frame) : extends a b -> extends b c -> extends a c.
Proof.
  intros (H1 & H2 & H3) (H1' & H2' & H3'). split; [|split].
  - eapply distances_kept_trans; eassumption.
  - eapply walls_grow_trans; eassumption.
  - lia.
Qed.

Lemma branch_from_visit (b : bool) (cc : cell) (s s' : frame) :
  visit_inv width height s ->
  cells_visited s < cell_count width height ->
  0 <= t width cc < cell_count width height ->
  distance_of width (cell_distance s) cc <> INF ->
  blocked width height (cell_distance s) cc ->
  branch_from width height branch_dist b cc s = Returns tt s' ->
  visit_inv width height s' /\ extends s s'
  /\ cells_visited s' <= cells_visited s + 3.
Proof.
  intros Hvinv Hguard Hrange Hvis Hblocked H. pose proof (vis_loop _ _ _ Hvinv) as Hinv.
  unfold branch_from in H.
  apply bind_Returns in H as (d & sa & H0 & H).
  apply load_Returns in H0 as (-> & Hget).
  assert (Hd : d <> INF /\ 0 <= d < cells_visited s).
  { unfold distance_of in Hvis. rewrite Hget in Hvis. simpl in Hvis.
    split; [assumption|]. unfold py_get in Hget.
    destruct (py_index (length (cell_distance s)) (t width cc)); [|discriminate].
    destruct (inv_distance _ _ _ Hinv _ _ Hget); [contradiction|assumption]. }
  destruct Hd as (HdINF & Hd).
  cbv beta in H. unfold bind at 1 in H.
  rewrite (possible_branches_spec width height cc s width_pos height_pos
             (inv_shape _ _ _ Hinv)) in H.
  apply bind_Returns in H as (sampled & s2 & H2 & H).
  assert (Hw2 : cell_state s2 = cell_state s).
  { eapply (preserves_Returns (fun s1 => cell_state s1 = cell_state s));
      [|reflexivity|exact H2].
    preserves_all ltac:(intros; simpl; assumption). }
  apply (preserves_Returns (footprint_is (footprint s))) in H2;
    [|preserves_all footprint_leaf|reflexivity].
  cbv zeta in H.
  apply bind_Returns in H as (selection & s3 & H3 & H).
  pose proof (random_sample_In _ _ _ _ _ H3) as Hsel.
  assert (Hnd : NoDup selection).
  { eapply random_sample_NoDup; [|exact H3].
    apply NoDup_ListNoDup, List.NoDup_filter, NoDup_ListNoDup, neighbours_NoDup. }
  assert (Hfew : (length selection <= 3)%nat).
  { pose proof (blocked_few_branches width height _ cc Hblocked) as Hpb.
    pose proof (random_sample_length _ _ _ _ _ H3) as Hk.
    unfold random_sample in H3.
    destruct (Nat.leb_spec
                (if negb b && (sampled =? 0)%nat then 1%nat else sampled)
                (length (List.filter (unvisited width height (cell_distance s))
                           (neighbours cc)))); [lia|discriminate]. }
  assert (Hw3 : cell_state s3 = cell_state s).
  { eapply (preserves_Returns (fun s1 => cell_state s1 = cell_state s));
      [|exact Hw2|exact H3].
    preserves_all ltac:(intros; simpl; assumption). }
  apply (preserves_Returns (footprint_is (footprint s))) in H3;
    [|preserves_all footprint_leaf|assumption].
  unfold footprint_is in H3.
  assert (Hdist3 : cell_distance s3 = cell_distance s).
  { unfold footprint in H3. now injection H3. }
  assert (Hv3 : cells_visited s3 = cells_visited s).
  { unfold footprint in H3. now injection H3. }
  assert (Hvinv3 : visit_inv width height s3).
  { apply (visit_inv_walls width height s s3 Hvinv H3).
    - rewrite Hw3. exact (vis_masks _ _ _ Hvinv).
    - rewrite Hw3. apply walls_grow_refl. }
  apply (for_each_visit width height cc (d + 1) selection) in H;
    try assumption.
  - destruct H as (Hv' & Hk & Hg & Hc). split; [assumption|].
    rewrite Hdist3 in Hk. rewrite Hw3 in Hg. rewrite Hv3 in Hc.
    split; [|rewrite Hc; lia].
    split; [assumption|]. split; [assumption|]. rewrite Hc. lia.
  - unfold INF in *. lia.
  - intros n Hn. apply Hsel in Hn. apply filter_In in Hn as (Hnb & Hu).
    rewrite Hdist3. split; assumption.
  - rewrite Hdist3. unfold unvisited. apply andb_false_iff. right.
    now apply Z.eqb_neq.
  - lia.
Qed.

Lemma chooses_walls (s : frame) (b : bool) (cc : cell) (s1 : frame) :
  chooses width s b cc s1 ->
  cell_state s1 = cell_state s /\ cell_distance s1 = cell_distance s
  /\ cells_visited s1 = cells_visited s.
Proof.
  intros [(rest & _ & _ & ->)|(_ & _ & H)]; [now simpl|].
  apply fallback_cell_only_heap in H as (h & ->). now simpl.
Qed.

Lemma chooses_heap (s : frame) (b : bool) (cc : cell) (s1 : frame) :
  chooses width s b cc s1 ->
  forall e, In e (cell_by_distance s1) -> In e (cell_by_distance s).
Proof.
  intros [(rest & _ & _ & ->)|(_ & _ & Hfb)]; [now simpl|].
  unfold fallback_cell in Hfb.
  destruct (fallback_from width (cell_remaining_sides s) (cell_by_distance s))
    as [[c h]|h] eqn:E; [|discriminate].
  injection Hfb as -> <-. simpl.
  now apply (fallback_from_spec width) in E as (_ & Hsub & _).
Qed.

Lemma loop_body_visit (s s' : frame) :
  visit_inv width height s ->
  cells_visited s < cell_count width height ->
  loop_body width height branch_dist s = Returns tt s' ->
  visit_inv width height s' /\ extends s s'
  /\ cells_visited s' <= cells_visited s + 3.
Proof.
  intros Hvinv Hguard H. pose proof (vis_loop _ _ _ Hvinv) as Hinv.
  apply loop_body_Returns in H as (b & cc & s1 & Hch & H).
  destruct (chooses_inv width height s b cc s1 Hinv Hch) as (H1 & Hv & Hd & Hcc).
  destruct (chooses_walls s b cc s1 Hch) as (Hw & _ & _).
  destruct (inv_pending _ _ _ Hinv cc Hcc) as (Hrange & Hvis & Hblocked).
  assert (Hvinv1 : visit_inv width height s1).
  { destruct Hvinv as [_ Hm Ho Hc Hkeys]. constructor.
    - assumption.
    - now rewrite Hw.
    - rewrite Hw, Hd. exact Ho.
    - now rewrite Hv, Hd.
    - rewrite Hd. intros e He. apply Hkeys.
      now apply (chooses_heap s b cc s1 Hch). }
  apply branch_from_visit in H; try assumption;
    [|now rewrite Hv|now rewrite Hd|now rewrite Hd].
  unfold extends in *. now rewrite Hw, Hd, Hv in H.
Qed.

Lemma init_state_walls (s s' : frame) :
  init_state width height s = Returns tt s' ->
  cell_state s' = repeat 0 (Z.to_nat (cell_count width height)).
Proof.
  unfold init_state. intros H.
  do 8 (apply bind_Returns in H as ([] & ? & _ & H)).
  unfold bind, modify in H. injection H as H. subst s'. reflexivity.
Qed.

(** [pick_start] up to its last two steps: the wall it opens at the start
    position faces away from the grid. *)
Lemma pick_start_walls (s s' : frame) :
  pick_start width height s = Returns tt s' ->
  exists c bit sd s1,
    0 <= fst c /\ 0 <= snd c
    /\ footprint sd = footprint s /\ cell_state sd = cell_state s
    /\ cell_remaining_sides sd = cell_remaining_sides s
    /\ In bit [1; 2; 4; 8]
    /\ in_bounds width height (across bit c) = false
    /\ open_wall width bit c sd = Returns tt s1
    /\ start s1 = Some c
    /\ q_up width height c 0 s1 = Returns tt s'
    /\ start_shape width height c bit.
Proof.
  unfold pick_start. intros H.
  assert (Hkeep : forall {A} (m : M A) sa a sb,
            preserves (footprint_is (footprint s)) m ->
            preserves (fun s1 => cell_state s1 = cell_state s) m ->
            preserves (fun s1 => cell_remaining_sides s1 = cell_remaining_sides s) m ->
            footprint sa = footprint s /\ cell_state sa = cell_state s
            /\ cell_remaining_sides sa = cell_remaining_sides s ->
            m sa = Returns a sb ->
            footprint sb = footprint s /\ cell_state sb = cell_state s
            /\ cell_remaining_sides sb = cell_remaining_sides s).
  { intros A m sa a sb P1 P2 P3 (I1 & I2 & I3) E. split; [|split].
    - exact (preserves_Returns _ m sa a sb P1 I1 E).
    - exact (preserves_Returns _ m sa a sb P2 I2 E).
    - exact (preserves_Returns _ m sa a sb P3 I3 E). }
  apply bind_Returns in H as (side & sa & Ha & H).
  apply Hkeep in Ha;
    [|preserves_all footprint_leaf
     |preserves_all ltac:(intros; simpl; assumption)
     |preserves_all ltac:(intros; simpl; assumption)|now repeat split].
  apply bind_Returns in H as ([] & s1 & H1 & H).
  apply bind_Returns in H as (st & s1' & Hst & H).
  unfold gets in Hst. injection Hst as <- <-.
  assert (Hgoal : exists c bit sd,
            0 <= fst c /\ 0 <= snd c
            /\ footprint sd = footprint s /\ cell_state sd = cell_state s
            /\ cell_remaining_sides sd = cell_remaining_sides s
            /\ In bit [1; 2; 4; 8]
            /\ in_bounds width height (across bit c) = false
            /\ open_wall width bit c sd = Returns tt s1
            /\ start sd = Some c
            /\ start_shape width height c bit).
  { clear H. destruct side.
    - apply bind_Returns in H1 as (x & sb & Hb & H1).
      pose proof (random_randint_Returns _ _ _ _ _ Hb) as Hx.
      apply Hkeep in Hb;
        [|preserves_all footprint_leaf
         |preserves_all ltac:(intros; simpl; assumption)
         |preserves_all ltac:(intros; simpl; assumption)|assumption].
      apply bind_Returns in H1 as (first & sc & Hc & H1).
      apply Hkeep in Hc;
        [|preserves_all footprint_leaf
         |preserves_all ltac:(intros; simpl; assumption)
         |preserves_all ltac:(intros; simpl; assumption)|assumption].
      destruct Hc as (Hc1 & Hc2 & Hc3).
      destruct first;
        apply bind_Returns in H1 as ([] & sd & Hd & H1);
        apply modify_Returns in Hd; subst sd.
      + exists (x, 0), 2, (set_start (Some (x, 0)) sc). simpl.
        split; [lia|]. split; [lia|]. split; [assumption|]. split; [assumption|].
        split; [assumption|]. split; [tauto|]. split; [|split; [assumption|split; [reflexivity|]]].
        * unfold in_bounds, across, c_t. simpl. now rewrite andb_false_r.
        * unfold start_shape. simpl. left. split; [lia|]. left. now split.
      + exists (x, height - 1), 8, (set_start (Some (x, height - 1)) sc). simpl.
        split; [lia|]. split; [lia|]. split; [assumption|]. split; [assumption|].
        split; [assumption|]. split; [tauto|]. split; [|split; [assumption|split; [reflexivity|]]].
        * unfold in_bounds, across, c_b. simpl. apply andb_false_iff. right.
          apply andb_false_iff. right. apply Z.ltb_ge. lia.
        * unfold start_shape. simpl. left. split; [lia|]. right. now split.
    - apply bind_Returns in H1 as (y & sb & Hb & H1).
      pose proof (random_randint_Returns _ _ _ _ _ Hb) as Hy.
      apply Hkeep in Hb;
        [|preserves_all footprint_leaf
         |preserves_all ltac:(intros; simpl; assumption)
         |preserves_all ltac:(intros; simpl; assumption)|assumption].
      apply bind_Returns in H1 as (first & sc & Hc & H1).
      apply Hkeep in Hc;
        [|preserves_all footprint_leaf
         |preserves_all ltac:(intros; simpl; assumption)
         |preserves_all ltac:(intros; simpl; assumption)|assumption].
      destruct Hc as (Hc1 & Hc2 & Hc3).
      destruct first;
        apply bind_Returns in H1 as ([] & sd & Hd & H1);
        apply modify_Returns in Hd; subst sd.
      + exists (0, y), 1, (set_start (Some (0, y)) sc). simpl.
        split; [lia|]. split; [lia|]. split; [assumption|]. split; [assumption|].
        split; [assumption|]. split; [tauto|]. split; [|split; [assumption|split; [reflexivity|]]].
        * reflexivity.
        * unfold start_shape. simpl. right. split; [lia|]. left. now split.
      + exists (width - 1, y), 4, (set_start (Some (width - 1, y)) sc). simpl.
        split; [lia|]. split; [lia|]. split; [assumption|]. split; [assumption|].
        split; [assumption|]. split; [tauto|]. split; [|split; [assumption|split; [reflexivity|]]].
        * unfold in_bounds, across, c_r. simpl. apply andb_false_iff. left.
          apply andb_false_iff. right. apply Z.ltb_ge. lia.
        * unfold start_shape. simpl. right. split; [lia|]. right. now split. }
  destruct Hgoal as (c & bit & sd & Hx & Hy & Hfp & Hw & Hsd & Hbit & Hout & Hopen
                     & Hstart & Hshape).
  assert (Hstart1 : start s1 = Some c).
  { apply open_wall_Returns in Hopen as (k & v & _ & _ & ->). exact Hstart. }
  rewrite Hstart1 in H. exists c, bit, sd, s1. auto 14.
Qed.

Lemma visited_count_repeat (n : nat) : visited_count (repeat INF n) = 0%nat.
Proof.
  unfold visited_count. induction n as [|n IH]; [reflexivity|].
  cbn [repeat List.filter]. rewrite Z.eqb_refl. exact IH.
Qed.

Lemma lookup_repeat {A : Type} (a : A) (n i : nat) :
  (i < n)%nat -> repeat a n !! i = Some a.
Proof.
  revert i. induction n as [|n IH]; intros [|i] Hi; simpl; try lia; [reflexivity|].
  apply IH. lia.
Qed.

Lemma first_head_visit (s : frame) :
  (random_seed seeded_words seed ;;; init_state width height ;;;
   pick_start width height) s0 = Returns tt s ->
  visit_inv width height s.
Proof.
  intros H.
  pose proof (first_head_inv width height seeded_words seed s0
                width_pos height_pos s H) as Hloop.
  apply bind_Returns in H as ([] & s1 & _ & H).
  apply bind_Returns in H as ([] & s2 & H2 & H).
  pose proof (init_state_walls _ _ H2) as Hw2.
  apply init_state_spec in H2.
  apply pick_start_walls in H
    as (c & bit & sd & s3 & Hx & Hy & Hfp & Hw & _ & Hbit & _ & Hopen & _ & H & _).
  rewrite H2 in Hfp. rewrite Hw2 in Hw.
  assert (Hok : Forall mask_ok (cell_state sd)).
  { rewrite Hw. apply Forall_forall. intros v Hv.
    apply list_elem_of_In, repeat_spec in Hv. subst v. unfold mask_ok. lia. }
  apply (open_wall_effect width bit c sd s3 Hbit Hok) in Hopen
    as (Hfp3 & Hok3 & _ & k & v & Hk & Hkv & Hnz & _).
  rewrite Hfp in Hfp3. unfold footprint in Hfp, Hfp3.
  injection Hfp as _ _ _ _ Hlen _.
  injection Hfp3 as Hv3 Hd3 Hh3 _ _ _.
  assert (Ht : 0 <= t width c) by (unfold t; nia).
  apply py_index_nonneg in Hk as (-> & _); [|assumption].
  apply q_up_marks in H as (Hd & Hv & Hws & Hlt & Hh & _); [|assumption].
  apply (visit_inv_mark width height c 0 s3 s);
    try assumption.
  - intros i d. rewrite Hd3. intros Hi Hne.
    apply list_elem_of_lookup_2, list_elem_of_In, repeat_spec in Hi. contradiction.
  - rewrite Hv3, Hd3, visited_count_repeat. reflexivity.
  - rewrite Hh3. intros e [].
  - rewrite Hh3. intros e [].
  - rewrite Hd3. apply lookup_repeat. rewrite Hd3, repeat_length in Hlt. lia.
  - unfold INF. lia.
  - eauto.
Qed.

(** Every frame at the head of the loop satisfies the visit invariant. *)
Lemma loop_head_visit (s : frame) :
  at_loop_head width height branch_dist seeded_words seed s0 s ->
  visit_inv width height s.
Proof.
  induction 1 as [s H|s s' _ IH Hguard H].
  - now apply first_head_visit.
  - now apply (loop_body_visit s s' IH Hguard).
Qed.

(** From a frame at the head of the loop to the frame in which the loop
    ends. *)
Lemma grow_extends (fuel : nat) :
  forall s s', visit_inv width height s ->
    grow width height branch_dist fuel s = Returns tt s' ->
    visit_inv width height s' /\ extends s s'
    /\ cell_count width height <= cells_visited s'.
Proof.
  induction fuel as [|fuel IH]; intros s s' Hs H; simpl in H;
    destruct (Z.ltb_spec (cells_visited s) (cell_count width height)) as [Hguard|Hguard];
    try discriminate.
  - injection H as <-. split; [assumption|]. split; [apply extends_refl|lia].
  - apply bind_Returns in H as ([] & s1 & H1 & H).
    destruct (loop_body_visit s s1 Hs Hguard H1) as (Hs1 & He1 & _).
    destruct (IH s1 s' Hs1 H) as (Hs' & He & Hc).
    split; [assumption|]. split; [|assumption].
    eapply extends_trans; eassumption.
  - injection H as <-. split; [assumption|]. split; [apply extends_refl|lia].
Qed.

End VisitRun.

(** *** The exit keeps what growth built *)

Section ExitKeeps.

Variables (width height : Z) (min_length : Z).

Lemma exit_candidates_preserves (I : frame -> Prop) (cs : list cell) :
  preserves I (exit_candidates width height min_length cs).
Proof.
  induction cs as [|c cs IH]; simpl.
  - apply preserves_ret.
  - apply preserves_bind.
    + destruct (is_border width height c).
      * apply preserves_bind; [apply preserves_load|intro; apply preserves_ret].
      * apply preserves_ret.
    + intro. apply preserves_bind; [exact IH|intro; apply preserves_ret].
Qed.

Lemma punch_exit_effect (s s' : frame) :
  Forall mask_ok (cell_state s) ->
  punch_exit width height min_length s = Returns tt s' ->
  footprint s' = footprint s
  /\ Forall mask_ok (cell_state s')
  /\ walls_grow (cell_state s) (cell_state s').
Proof.
  intros Hok H. unfold punch_exit in H.
  apply bind_Returns in H as (candidates & s1 & H1 & H).
  assert (E1 : footprint s1 = footprint s /\ cell_state s1 = cell_state s).
  { split.
    - exact (preserves_Returns (footprint_is (footprint s)) _ _ _ _
               (exit_candidates_preserves _ _) eq_refl H1).
    - exact (preserves_Returns (fun x => cell_state x = cell_state s) _ _ _ _
               (exit_candidates_preserves _ _) eq_refl H1). }
  destruct E1 as [Hf1 Hw1].
  destruct candidates as [|c0 cs].
  { apply bind_Returns in H as ([] & ? & _ & H). discriminate. }
  apply bind_Returns in H as (c & s2 & H2 & H).
  assert (Hf2 : footprint s2 = footprint s).
  { eapply (preserves_Returns (footprint_is (footprint s))); [|exact Hf1|exact H2].
    preserves_all footprint_leaf. }
  assert (Hw2 : cell_state s2 = cell_state s).
  { eapply (preserves_Returns (fun x => cell_state x = cell_state s));
      [|exact Hw1|exact H2].
    preserves_all ltac:(intros; simpl; assumption). }
  apply bind_Returns in H as ([] & s3 & H3 & H).
  apply modify_Returns in H3. subst s3.
  set (s3 := set_last_border_cell (Some c) s2) in *.
  assert (Hf3 : footprint s3 = footprint s) by exact Hf2.
  assert (Hw3 : cell_state s3 = cell_state s) by exact Hw2.
  assert (Hok3 : Forall mask_ok (cell_state s3)) by now rewrite Hw3.
  assert (Hwall : forall bit, In bit [1; 2; 4; 8] ->
            open_wall width bit c s3 = Returns tt s' ->
            footprint s' = footprint s
            /\ Forall mask_ok (cell_state s')
            /\ walls_grow (cell_state s) (cell_state s')).
  { intros bit Hbit E.
    apply (open_wall_effect width bit c s3 s' Hbit Hok3) in E as (F & O & G & _).
    rewrite <- Hf3, <- Hw3. auto. }
  destruct (fst c =? 0); [apply (Hwall 1); [simpl; tauto|exact H]|].
  destruct (snd c =? 0); [apply (Hwall 2); [simpl; tauto|exact H]|].
  destruct (fst c =? last_x width); [apply (Hwall 4); [simpl; tauto|exact H]|].
  destruct (snd c =? last_y height); [apply (Hwall 8); [simpl; tauto|exact H]|].
  injection H as <-. rewrite <- Hw3. split; [assumption|]. split; [assumption|].
  apply walls_grow_refl.
Qed.

End ExitKeeps.

(** ** Rendering *)

Lemma py_get_nat {A : Type} (a : list A) (i : nat) : py_get a (Z.of_nat i) = a !! i.
Proof.
  unfold py_get, py_index.
  destruct (Z.leb_spec 0 (Z.of_nat i)); [|lia].
  destruct (Z.ltb_spec (Z.of_nat i) (Z.of_nat (length a))); simpl.
  - now rewrite Nat2Z.id.
  - destruct (Z.ltb_spec (Z.of_nat i) 0); [lia|]. rewrite andb_false_r.
    symmetry. apply lookup_ge_None. lia.
Qed.

Lemma range_length (n : Z) : length (range n) = Z.to_nat n.
Proof. unfold range. now rewrite length_map, length_seq. Qed.

Lemma range_lookup (n : Z) (k : nat) :
  (k < Z.to_nat n)%nat -> range n !! k = Some (Z.of_nat k).
Proof.
  intros Hk. unfold range. rewrite list_lookup_fmap.
  rewrite lookup_seq_lt by assumption. reflexivity.
Qed.

(** The first index below [n] at which a decidable property fails. *)
Lemma first_failure (P : nat -> Prop) (dec : forall k, {P k} + {~ P k}) (n : nat) :
  (forall k, (k < n)%nat -> P k)
  \/ exists k, (k < n)%nat /\ ~ P k /\ forall j, (j < k)%nat -> P j.
Proof.
  induction n as [|n [IH|(k & Hk & Hbad & Hfirst)]].
  - left. intros k Hk. lia.
  - destruct (dec n) as [Hn|Hn].
    + left. intros k Hk. destruct (decide (k = n)) as [->|]; [assumption|].
      apply IH. lia.
    + right. exists n. split; [lia|]. split; [assumption|]. intros j Hj. now apply IH.
  - right. exists k. split; [lia|]. now split.
Qed.

Lemma through_dec (table : gmap Z Z) (dat : list Z) (k : nat) :
  {is_Some (through table dat k)} + {~ is_Some (through table dat k)}.
Proof.
  destruct (through table dat k) as [g|].
  - left. eauto.
  - right. intros [g Hg]. discriminate.
Qed.

Lemma through_None (table : gmap Z Z) (dat : list Z) (k : nat) :
  ~ is_Some (through table dat k) -> through table dat k = None.
Proof. destruct (through table dat k); [intros H; exfalso; apply H; eauto|reflexivity]. Qed.

(** *** [pmap] *)

Lemma pmap_keys (v : Z) : is_Some (pmap !! v) <-> mask_ok v.
Proof.
  split.
  - intros [g Hg]. destruct (decide (0 <= v <= 15)) as [|Hout]; [assumption|].
    exfalso. unfold pmap in Hg.
    rewrite not_elem_of_list_to_map_1 in Hg; [discriminate|].
    simpl. rewrite !elem_of_cons, elem_of_nil. lia.
  - intros Hv. apply mask_cases in Hv.
    repeat (destruct Hv as [->|Hv]; [vm_compute; eauto|]). subst. vm_compute. eauto.
Qed.

Lemma pmap_injective (v v' g : Z) :
  pmap !! v = Some g -> pmap !! v' = Some g -> v = v'.
Proof.
  intros H H'.
  assert (Hv : mask_ok v) by (apply pmap_keys; eauto).
  assert (Hv' : mask_ok v') by (apply pmap_keys; eauto).
  apply mask_cases in Hv, Hv'.
  repeat (destruct Hv as [->|Hv]);
    repeat (destruct Hv' as [->|Hv']); subst;
    first [reflexivity | vm_compute in H, H'; congruence].
Qed.

(** The dot stands for the mask without any open wall, and for no other. *)
Lemma pmap_dot (v : Z) : pmap !! v = Some 9679 <-> v = 0.
Proof.
  split.
  - intros H. apply (pmap_injective v 0 9679 H). reflexivity.
  - intros ->. reflexivity.
Qed.

(** *** [Maze.__str__] *)

Section StrLoops.

Variable dat : list Z.

Lemma str_row_ok (xs : list Z) :
  forall (a : nat) (s : list Z),
    (forall k, (k < length xs)%nat -> is_Some (through pmap dat (a + k))) ->
    exists row,
      str_row dat xs (Z.of_nat a) s = inr (Z.of_nat (a + length xs), s ++ row)
      /\ length row = length xs
      /\ forall k, (k < length xs)%nat -> row !! k = through pmap dat (a + k).
Proof.
  induction xs as [|x xs IH]; intros a s Hall; simpl.
  - exists []. rewrite Nat.add_0_r, app_nil_r. split; [reflexivity|].
    split; [reflexivity|]. intros k Hk. lia.
  - pose proof (Hall 0%nat ltac:(simpl; lia)) as [g Hg].
    rewrite Nat.add_0_r in Hg. rewrite py_get_nat.
    unfold through in Hg. destruct (dat !! a) as [v|] eqn:Ea; [|discriminate].
    rewrite Hg.
    destruct (IH (S a) (s ++ [g])) as (row & Hrow & Hlen & Hat).
    { intros k Hk. replace (S a + k)%nat with (a + S k)%nat by lia.
      apply Hall. simpl. lia. }
    exists (g :: row).
    replace (Z.of_nat a + 1) with (Z.of_nat (S a)) by lia.
    rewrite Hrow. split; [|split].
    + f_equal. f_equal; [f_equal; lia|]. now rewrite <- app_assoc.
    + simpl. now rewrite Hlen.
    + intros [|k] Hk; simpl.
      * rewrite Nat.add_0_r. unfold through. now rewrite Ea.
      * replace (a + S k)%nat with (S a + k)%nat by lia. apply Hat. simpl in Hk. lia.
Qed.

Lemma str_row_fails (xs : list Z) :
  forall (a : nat) (s : list Z) (k : nat),
    (k < length xs)%nat ->
    (forall j, (j < k)%nat -> is_Some (through pmap dat (a + j))) ->
    through pmap dat (a + k) = None ->
    str_row dat xs (Z.of_nat a) s = inl (subscript_error dat (a + k)).
Proof.
  induction xs as [|x xs IH]; intros a s k Hk Hbefore Hbad; simpl in *; [lia|].
  rewrite py_get_nat. destruct k as [|k].
  - rewrite Nat.add_0_r in *. unfold through in Hbad. unfold subscript_error.
    destruct (dat !! a) as [v|]; [|reflexivity]. now rewrite Hbad.
  - pose proof (Hbefore 0%nat ltac:(lia)) as [g Hg].
    rewrite Nat.add_0_r in Hg. unfold through in Hg.
    destruct (dat !! a) as [v|]; [|discriminate]. rewrite Hg.
    replace (Z.of_nat a + 1) with (Z.of_nat (S a)) by lia.
    replace (a + S k)%nat with (S a + k)%nat in * by lia.
    apply IH; [lia| |assumption].
    intros j Hj. replace (S a + j)%nat with (a + S j)%nat by lia. apply Hbefore. lia.
Qed.

Lemma str_rows_ok (w : Z) (ys : list Z) :
  forall (a : nat) (s : list Z),
    let n := Z.to_nat w in
    (forall k, (k < length ys * n)%nat -> is_Some (through pmap dat (a + k))) ->
    exists text,
      str_rows dat w ys (Z.of_nat a) s = inr (s ++ text)
      /\ length text = (length ys * (n + 1))%nat
      /\ (forall y x, (y < length ys)%nat -> (x < n)%nat ->
            text !! (y * (n + 1) + x)%nat = through pmap dat (a + (y * n + x)))
      /\ (forall y, (y < length ys)%nat ->
            text !! (y * (n + 1) + n)%nat = Some newline).
Proof.
  intros a s n. revert a s.
  induction ys as [|y0 ys IH]; intros a s Hall; simpl.
  - exists []. rewrite app_nil_r. split; [reflexivity|]. split; [reflexivity|].
    split; intros; simpl in *; lia.
  - destruct (str_row_ok (range w) a s) as (row & Hrow & Hlen & Hat).
    { intros k Hk. apply Hall. rewrite range_length in Hk. simpl. fold n. lia. }
    rewrite range_length in Hrow, Hlen, Hat. fold n in Hrow, Hlen, Hat.
    rewrite Hrow.
    destruct (IH (a + n)%nat ((s ++ row) ++ [newline])) as (text & Htext & Htl & Hcell & Hnl).
    { intros k Hk. replace (a + n + k)%nat with (a + (n + k))%nat by lia.
      apply Hall. simpl. lia. }
    rewrite Htext. exists (row ++ [newline] ++ text).
    split; [now rewrite <- !app_assoc|]. split; [|split].
    + rewrite !length_app, Htl, Hlen. simpl. lia.
    + intros y x Hy Hx. destruct y as [|y].
      * simpl. rewrite lookup_app_l by lia. now apply Hat.
      * replace (S y * (n + 1) + x)%nat
          with (length row + (1 + (y * (n + 1) + x)))%nat by lia.
        rewrite lookup_app_r by lia.
        replace (length row + (1 + (y * (n + 1) + x)) - length row)%nat
          with (length [newline] + (y * (n + 1) + x))%nat by (simpl; lia).
        rewrite lookup_app_r by lia.
        replace (length [newline] + (y * (n + 1) + x) - length [newline])%nat
          with (y * (n + 1) + x)%nat by (simpl; lia).
        rewrite Hcell by (simpl in Hy; lia || assumption).
        f_equal. lia.
    + intros y Hy. destruct y as [|y].
      * simpl. rewrite lookup_app_r by lia.
        replace (n - length row)%nat with 0%nat by lia. reflexivity.
      * replace (S y * (n + 1) + n)%nat
          with (length row + (1 + (y * (n + 1) + n)))%nat by lia.
        rewrite lookup_app_r by lia.
        replace (length row + (1 + (y * (n + 1) + n)) - length row)%nat
          with (length [newline] + (y * (n + 1) + n))%nat by (simpl; lia).
        rewrite lookup_app_r by lia.
        replace (length [newline] + (y * (n + 1) + n) - length [newline])%nat
          with (y * (n + 1) + n)%nat by (simpl; lia).
        apply Hnl. simpl in Hy. lia.
Qed.

Lemma str_rows_fails (w : Z) (ys : list Z) :
  forall (a : nat) (s : list Z) (k : nat),
    (k < length ys * Z.to_nat w)%nat ->
    (forall j, (j < k)%nat -> is_Some (through pmap dat (a + j))) ->
    through pmap dat (a + k) = None ->
    str_rows dat w ys (Z.of_nat a) s = inl (subscript_error dat (a + k)).
Proof.
  induction ys as [|y0 ys IH]; intros a s k Hk Hbefore Hbad; simpl in *; [lia|].
  destruct (le_lt_dec (Z.to_nat w) k) as [Hge|Hlt].
  - destruct (str_row_ok (range w) a s) as (row & Hrow & _).
    { intros j Hj. apply Hbefore. rewrite range_length in Hj. lia. }
    rewrite range_length in Hrow. rewrite Hrow.
    replace (a + k)%nat with (a + Z.to_nat w + (k - Z.to_nat w))%nat by lia.
    apply IH.
    + lia.
    + intros j Hj.
      replace (a + Z.to_nat w + j)%nat with (a + (Z.to_nat w + j))%nat by lia.
      apply Hbefore. lia.
    + replace (a + Z.to_nat w + (k - Z.to_nat w))%nat with (a + k)%nat by lia.
      assumption.
  - rewrite (str_row_fails (range w) a s k); [reflexivity| |assumption|assumption].
    now rewrite range_length.
Qed.

End StrLoops.

Lemma Maze_str_ok (m : Maze) :
  (forall k, (k < cells_read m)%nat -> is_Some (through pmap (maze m) k)) ->
  exists text,
    Maze_str m = inr text
    /\ length text = (Z.to_nat (height m) * (Z.to_nat (width m) + 1))%nat
    /\ (forall y x, (y < Z.to_nat (height m))%nat -> (x < Z.to_nat (width m))%nat ->
          text !! (y * (Z.to_nat (width m) + 1) + x)%nat
          = through pmap (maze m) (y * Z.to_nat (width m) + x))
    /\ (forall y, (y < Z.to_nat (height m))%nat ->
          text !! (y * (Z.to_nat (width m) + 1) + Z.to_nat (width m))%nat
          = Some newline).
Proof.
  intros Hall. unfold Maze_str.
  destruct (str_rows_ok (maze m) (width m) (range (height m)) 0 [])
    as (text & Htext & Hlen & Hcell & Hnl).
  { intros k Hk. rewrite range_length in Hk. now apply Hall. }
  rewrite range_length in Hlen, Hcell, Hnl.
  exists text. auto.
Qed.

Lemma Maze_str_fails (m : Maze) (k : nat) :
  (k < cells_read m)%nat ->
  (forall j, (j < k)%nat -> is_Some (through pmap (maze m) j)) ->
  through pmap (maze m) k = None ->
  Maze_str m = inl (subscript_error (maze m) k).
Proof.
  intros Hk Hbefore Hbad. unfold Maze_str.
  apply (str_rows_fails (maze m) (width m) (range (height m)) 0 [] k);
    [now rewrite range_length|assumption|assumption].
Qed.

(** *** [draw_maze] *)

Lemma open_bitmaps_ok (on_disk : Z -> bool) (tiles : list Z) :
  forall bitmaps,
    (forall i, In i tiles -> on_disk i = true) ->
    open_bitmaps on_disk tiles bitmaps
    = inr (foldl (fun bitmaps i => <[i := i]> bitmaps) bitmaps tiles).
Proof.
  induction tiles as [|i tiles IH]; intros bitmaps Hall; simpl; [reflexivity|].
  rewrite (Hall i) by now left. apply IH. intros j Hj. apply Hall. now right.
Qed.

Lemma open_bitmaps_fails (on_disk : Z -> bool) (before : list Z) :
  forall bitmaps i after,
    (forall j, In j before -> on_disk j = true) -> on_disk i = false ->
    open_bitmaps on_disk (before ++ i :: after) bitmaps = inl (FileNotFoundError i).
Proof.
  induction before as [|i0 before IH]; intros bitmaps i after Hall Hoff; simpl.
  - now rewrite Hoff.
  - rewrite (Hall i0) by now left. apply IH; [|assumption].
    intros j Hj. apply Hall. now right.
Qed.

Lemma range_from_spec (a b x : Z) : In x (range_from a b) <-> a <= x < b.
Proof.
  unfold range_from. rewrite in_map_iff. split.
  - intros (k & <- & Hk). apply range_spec in Hk. lia.
  - intros Hx. exists (x - a). split; [lia|]. apply range_spec. lia.
Qed.

Lemma all_bitmaps_keys (v : Z) : is_Some (all_bitmaps !! v) <-> 1 <= v <= 15.
Proof.
  split.
  - intros [g Hg]. destruct (decide (1 <= v <= 15)) as [|Hout]; [assumption|].
    exfalso.
    assert (E : all_bitmaps
                = list_to_map
                    [(15, 15); (14, 14); (13, 13); (12, 12); (11, 11); (10, 10);
                     (9, 9); (8, 8); (7, 7); (6, 6); (5, 5); (4, 4); (3, 3);
                     (2, 2); (1, 1)]) by reflexivity.
    rewrite E in Hg. rewrite not_elem_of_list_to_map_1 in Hg; [discriminate|].
    simpl. rewrite !elem_of_cons, elem_of_nil. lia.
  - intros Hv.
    assert (Hc : v = 1 \/ v = 2 \/ v = 3 \/ v = 4 \/ v = 5 \/ v = 6 \/ v = 7 \/ v = 8
                 \/ v = 9 \/ v = 10 \/ v = 11 \/ v = 12 \/ v = 13 \/ v = 14 \/ v = 15)
      by lia.
    repeat (destruct Hc as [->|Hc]; [vm_compute; eauto|]). subst. vm_compute. eauto.
Qed.

Lemma all_bitmaps_value (v b : Z) : all_bitmaps !! v = Some b -> b = v.
Proof.
  intros H. assert (Hv : 1 <= v <= 15) by (apply all_bitmaps_keys; eauto).
  assert (Hc : v = 1 \/ v = 2 \/ v = 3 \/ v = 4 \/ v = 5 \/ v = 6 \/ v = 7 \/ v = 8
               \/ v = 9 \/ v = 10 \/ v = 11 \/ v = 12 \/ v = 13 \/ v = 14 \/ v = 15)
    by lia.
  repeat (destruct Hc as [->|Hc]; [vm_compute in H; congruence|]).
  subst. vm_compute in H. congruence.
Qed.

Lemma tiles_split (j : Z) :
  1 <= j <= 15 ->
  range_from 1 16 = range_from 1 j ++ j :: range_from (j + 1) 16.
Proof.
  intros Hj.
  assert (Hc : j = 1 \/ j = 2 \/ j = 3 \/ j = 4 \/ j = 5 \/ j = 6 \/ j = 7 \/ j = 8
               \/ j = 9 \/ j = 10 \/ j = 11 \/ j = 12 \/ j = 13 \/ j = 14 \/ j = 15)
    by lia.
  repeat (destruct Hc as [->|Hc]; [reflexivity|]). subst. reflexivity.
Qed.

Section PasteLoops.

Variables (dat : list Z) (bitmaps : gmap Z Z) (tilesize : Z).

Lemma paste_row_ok (y : Z) (xs : list Z) :
  forall (a : nat) (out : list (Z * (Z * Z))),
    (forall k, (k < length xs)%nat -> is_Some (through bitmaps dat (a + k))) ->
    exists row,
      paste_row dat bitmaps tilesize y xs (Z.of_nat a) out
      = inr (Z.of_nat (a + length xs), out ++ row)
      /\ length row = length xs
      /\ forall k x, xs !! k = Some x ->
           exists b, through bitmaps dat (a + k) = Some b
                     /\ row !! k = Some (b, (x * tilesize, y * tilesize)).
Proof.
  induction xs as [|x0 xs IH]; intros a out Hall; simpl.
  - exists []. rewrite Nat.add_0_r, app_nil_r. split; [reflexivity|].
    split; [reflexivity|]. intros k x Hk. discriminate.
  - pose proof (Hall 0%nat ltac:(simpl; lia)) as [g Hg].
    rewrite Nat.add_0_r in Hg. rewrite py_get_nat.
    unfold through in Hg. destruct (dat !! a) as [v|] eqn:Ea; [|discriminate].
    rewrite Hg.
    destruct (IH (S a) (out ++ [(g, (x0 * tilesize, y * tilesize))]))
      as (row & Hrow & Hlen & Hat).
    { intros k Hk. replace (S a + k)%nat with (a + S k)%nat by lia.
      apply Hall. simpl. lia. }
    exists ((g, (x0 * tilesize, y * tilesize)) :: row).
    replace (Z.of_nat a + 1) with (Z.of_nat (S a)) by lia.
    rewrite Hrow. split; [|split].
    + f_equal. f_equal; [f_equal; lia|]. now rewrite <- app_assoc.
    + simpl. now rewrite Hlen.
    + intros [|k] x Hk; simpl in *.
      * injection Hk as <-. exists g. rewrite Nat.add_0_r. unfold through.
        now rewrite Ea.
      * replace (a + S k)%nat with (S a + k)%nat by lia. now apply Hat.
Qed.

Lemma paste_row_fails (y : Z) (xs : list Z) :
  forall (a : nat) (out : list (Z * (Z * Z))) (k : nat),
    (k < length xs)%nat ->
    (forall j, (j < k)%nat -> is_Some (through bitmaps dat (a + j))) ->
    through bitmaps dat (a + k) = None ->
    paste_row dat bitmaps tilesize y xs (Z.of_nat a) out
    = inl (subscript_error dat (a + k)).
Proof.
  induction xs as [|x xs IH]; intros a out k Hk Hbefore Hbad; simpl in *; [lia|].
  rewrite py_get_nat. destruct k as [|k].
  - rewrite Nat.add_0_r in *. unfold through in Hbad. unfold subscript_error.
    destruct (dat !! a) as [v|]; [|reflexivity]. now rewrite Hbad.
  - pose proof (Hbefore 0%nat ltac:(lia)) as [g Hg].
    rewrite Nat.add_0_r in Hg. unfold through in Hg.
    destruct (dat !! a) as [v|]; [|discriminate]. rewrite Hg.
    replace (Z.of_nat a + 1) with (Z.of_nat (S a)) by lia.
    replace (a + S k)%nat with (S a + k)%nat in * by lia.
    apply IH; [lia| |assumption].
    intros j Hj. replace (S a + j)%nat with (a + S j)%nat by lia. apply Hbefore. lia.
Qed.

Lemma paste_rows_ok (w : Z) (ys : list Z) :
  forall (a : nat) (out : list (Z * (Z * Z))),
    let n := Z.to_nat w in
    (forall k, (k < length ys * n)%nat -> is_Some (through bitmaps dat (a + k))) ->
    exists ps,
      paste_rows dat bitmaps tilesize w ys (Z.of_nat a) out = inr (out ++ ps)
      /\ length ps = (length ys * n)%nat
      /\ forall j y x, ys !! j = Some y -> (x < n)%nat ->
           exists b, through bitmaps dat (a + (j * n + x)) = Some b
                     /\ ps !! (j * n + x)%nat
                        = Some (b, (Z.of_nat x * tilesize, y * tilesize)).
Proof.
  intros a out n. revert a out.
  induction ys as [|y0 ys IH]; intros a out Hall; simpl.
  - exists []. rewrite app_nil_r. split; [reflexivity|]. split; [reflexivity|].
    intros j y x Hj. discriminate.
  - destruct (paste_row_ok y0 (range w) a out) as (row & Hrow & Hlen & Hat).
    { intros k Hk. apply Hall. rewrite range_length in Hk. simpl. fold n. lia. }
    rewrite range_length in Hrow, Hlen. fold n in Hrow, Hlen.
    rewrite Hrow.
    destruct (IH (a + n)%nat (out ++ row)) as (ps & Hps & Hpl & Hcell).
    { intros k Hk. replace (a + n + k)%nat with (a + (n + k))%nat by lia.
      apply Hall. simpl. lia. }
    rewrite Hps. exists (row ++ ps).
    split; [now rewrite <- !app_assoc|]. split.
    + rewrite length_app, Hpl, Hlen. simpl. lia.
    + intros j y x Hj Hx. destruct j as [|j]; simpl in Hj.
      * injection Hj as <-. simpl.
        destruct (Hat x (Z.of_nat x) (range_lookup w x Hx)) as (b & Hb & Hrowx).
        exists b. split; [assumption|]. now rewrite lookup_app_l by lia.
      * destruct (Hcell j y x Hj Hx) as (b & Hb & Hpsx).
        exists b. split.
        -- rewrite <- Hb. f_equal. lia.
        -- replace (S j * n + x)%nat with (length row + (j * n + x))%nat by lia.
           rewrite lookup_app_r by lia.
           replace (length row + (j * n + x) - length row)%nat
             with (j * n + x)%nat by lia.
           assumption.
Qed.

Lemma paste_rows_fails (w : Z) (ys : list Z) :
  forall (a : nat) (out : list (Z * (Z * Z))) (k : nat),
    (k < length ys * Z.to_nat w)%nat ->
    (forall j, (j < k)%nat -> is_Some (through bitmaps dat (a + j))) ->
    through bitmaps dat (a + k) = None ->
    paste_rows dat bitmaps tilesize w ys (Z.of_nat a) out
    = inl (subscript_error dat (a + k)).
Proof.
  induction ys as [|y0 ys IH]; intros a out k Hk Hbefore Hbad; simpl in *; [lia|].
  destruct (le_lt_dec (Z.to_nat w) k) as [Hge|Hlt].
  - destruct (paste_row_ok y0 (range w) a out) as (row & Hrow & _).
    { intros j Hj. apply Hbefore. rewrite range_length in Hj. lia. }
    rewrite range_length in Hrow. rewrite Hrow.
    replace (a + k)%nat with (a + Z.to_nat w + (k - Z.to_nat w))%nat by lia.
    apply IH.
    + lia.
    + intros j Hj.
      replace (a + Z.to_nat w + j)%nat with (a + (Z.to_nat w + j))%nat by lia.
      apply Hbefore. lia.
    + replace (a + Z.to_nat w + (k - Z.to_nat w))%nat with (a + k)%nat by lia.
      assumption.
  - rewrite (paste_row_fails y0 (range w) a out k); [reflexivity| |assumption|assumption].
    now rewrite range_length.
Qed.

End PasteLoops.

Lemma size_accepted (w h tilesize : Z) :
  0 <= w * tilesize /\ 0 <= h * tilesize ->
  (w * tilesize <? 0) || (h * tilesize <? 0) = false.
Proof.
  intros [Hw Hh]. apply orb_false_iff. split; apply Z.ltb_ge; assumption.
Qed.

Lemma size_refused (w h tilesize : Z) :
  w * tilesize < 0 \/ h * tilesize < 0 ->
  (w * tilesize <? 0) || (h * tilesize <? 0) = true.
Proof.
  intros H. apply orb_true_iff. destruct H; [left|right]; now apply Z.ltb_lt.
Qed.

Lemma draw_maze_ok (on_disk : Z -> bool) (m : Maze) (tilesize : Z) :
  (forall i, 1 <= i <= 15 -> on_disk i = true) ->
  0 <= width m * tilesize /\ 0 <= height m * tilesize ->
  (forall k, (k < cells_read m)%nat -> is_Some (through all_bitmaps (maze m) k)) ->
  exists ps,
    draw_maze on_disk m tilesize
    = inr (mkPicture (width m * tilesize, height m * tilesize) ps)
    /\ length ps = cells_read m
    /\ forall y x, (y < Z.to_nat (height m))%nat -> (x < Z.to_nat (width m))%nat ->
         exists b, through all_bitmaps (maze m) (y * Z.to_nat (width m) + x) = Some b
                   /\ ps !! (y * Z.to_nat (width m) + x)%nat
                      = Some (b, (Z.of_nat x * tilesize, Z.of_nat y * tilesize)).
Proof.
  intros Hdisk Hsize Hall. unfold draw_maze.
  rewrite open_bitmaps_ok by (intros i Hi; apply Hdisk; apply range_from_spec in Hi; lia).
  fold all_bitmaps.
  rewrite (size_accepted _ _ _ Hsize).
  destruct (paste_rows_ok (maze m) all_bitmaps tilesize (width m) (range (height m)) 0 [])
    as (ps & Hps & Hlen & Hcell).
  { intros k Hk. rewrite range_length in Hk. now apply Hall. }
  rewrite range_length in Hlen. change (Z.of_nat 0) with 0 in Hps.
  rewrite Hps. exists ps.
  split; [reflexivity|]. split; [assumption|].
  intros y x Hy Hx. apply (Hcell y (Z.of_nat y) x); [|assumption].
  now apply range_lookup.
Qed.

Lemma draw_maze_missing_tile (on_disk : Z -> bool) (m : Maze) (tilesize : Z) (j : Z) :
  1 <= j <= 15 -> on_disk j = false ->
  (forall i, 1 <= i < j -> on_disk i = true) ->
  draw_maze on_disk m tilesize = inl (FileNotFoundError j).
Proof.
  intros Hj Hoff Hbefore. unfold draw_maze.
  rewrite (tiles_split j Hj), open_bitmaps_fails; [reflexivity| |assumption].
  intros i Hi. apply Hbefore. now apply range_from_spec in Hi.
Qed.

Lemma draw_maze_bad_size (on_disk : Z -> bool) (m : Maze) (tilesize : Z) :
  (forall i, 1 <= i <= 15 -> on_disk i = true) ->
  width m * tilesize < 0 \/ height m * tilesize < 0 ->
  draw_maze on_disk m tilesize = inl ImageValueError.
Proof.
  intros Hdisk Hsize. unfold draw_maze.
  rewrite open_bitmaps_ok by (intros i Hi; apply Hdisk; apply range_from_spec in Hi; lia).
  now rewrite (size_refused _ _ _ Hsize).
Qed.

Lemma draw_maze_fails (on_disk : Z -> bool) (m : Maze) (tilesize : Z) (k : nat) :
  (forall i, 1 <= i <= 15 -> on_disk i = true) ->
  0 <= width m * tilesize /\ 0 <= height m * tilesize ->
  (k < cells_read m)%nat ->
  (forall j, (j < k)%nat -> is_Some (through all_bitmaps (maze m) j)) ->
  through all_bitmaps (maze m) k = None ->
  draw_maze on_disk m tilesize = inl (subscript_error (maze m) k).
Proof.
  intros Hdisk Hsize Hk Hbefore Hbad. unfold draw_maze.
  rewrite open_bitmaps_ok by (intros i Hi; apply Hdisk; apply range_from_spec in Hi; lia).
  fold all_bitmaps.
  rewrite (size_accepted _ _ _ Hsize).
  pose proof (paste_rows_fails (maze m) all_bitmaps tilesize (width m)
                (range (height m)) 0 [] k) as E.
  change (Z.of_nat 0) with 0 in E. rewrite E;
    [reflexivity|now rewrite range_length|assumption|assumption].
Qed.

Lemma through_pmap (dat : list Z) (k : nat) :
  is_Some (through pmap dat k) <-> exists v, dat !! k = Some v /\ 0 <= v <= 15.
Proof.
  unfold through. destruct (dat !! k) as [v|].
  - rewrite pmap_keys. unfold mask_ok. split.
    + intros Hv. exists v. now split.
    + intros (v' & [= <-] & Hv). exact Hv.
  - split; [intros [g Hg]; discriminate|intros (v & Hv & _); discriminate].
Qed.

Lemma through_bitmaps (dat : list Z) (k : nat) :
  is_Some (through all_bitmaps dat k) <-> exists v, dat !! k = Some v /\ 1 <= v <= 15.
Proof.
  unfold through. destruct (dat !! k) as [v|].
  - rewrite all_bitmaps_keys. split.
    + intros Hv. exists v. now split.
    + intros (v' & [= <-] & Hv). exact Hv.
  - split; [intros [g Hg]; discriminate|intros (v & Hv & _); discriminate].
Qed.

Lemma subscript_error_cases (table : gmap Z Z) (dat : list Z) (k : nat) (e : lookup_exn) :
  through table dat k = None ->
  e = subscript_error dat k ->
  (dat !! k = None /\ e = ListIndexError)
  \/ exists v, dat !! k = Some v /\ table !! v = None /\ e = KeyError v.
Proof.
  unfold through, subscript_error. destruct (dat !! k) as [v|]; intros H ->.
  - right. exists v. auto.
  - left. auto.
Qed.

(** Every position of a text of [h] lines of [n] glyphs and a line feed. *)
Lemma text_position (h n i : nat) :
  (i < h * (n + 1))%nat ->
  exists y x, (y < h)%nat /\ (x <= n)%nat /\ i = (y * (n + 1) + x)%nat.
Proof.
  intros Hi. exists (i / (n + 1))%nat, (i mod (n + 1))%nat.
  pose proof (Nat.div_mod_eq i (n + 1)) as E.
  pose proof (Nat.mod_upper_bound i (n + 1) ltac:(lia)) as Hm.
  split; [apply Nat.Div0.div_lt_upper_bound; lia|]. split; [lia|]. lia.
Qed.

(** Every cell index of a grid of [h] rows of [n] cells. *)
Lemma cell_position (h n k : nat) :
  (k < h * n)%nat ->
  exists y x, (y < h)%nat /\ (x < n)%nat /\ k = (y * n + x)%nat.
Proof.
  intros Hk. assert (Hn : (0 < n)%nat) by nia.
  exists (k / n)%nat, (k mod n)%nat.
  pose proof (Nat.div_mod_eq k n) as E.
  pose proof (Nat.mod_upper_bound k n ltac:(lia)) as Hm.
  split; [apply Nat.Div0.div_lt_upper_bound; lia|]. split; [lia|]. lia.
Qed.

Lemma Maze_str_cases (m : Maze) :
  (exists text,
     Maze_str m = inr text
     /\ (forall k, (k < cells_read m)%nat -> is_Some (through pmap (maze m) k))
     /\ length text = (Z.to_nat (height m) * (Z.to_nat (width m) + 1))%nat
     /\ (forall y x, (y < Z.to_nat (height m))%nat -> (x < Z.to_nat (width m))%nat ->
           text !! (y * (Z.to_nat (width m) + 1) + x)%nat
           = through pmap (maze m) (y * Z.to_nat (width m) + x))
     /\ (forall y, (y < Z.to_nat (height m))%nat ->
           text !! (y * (Z.to_nat (width m) + 1) + Z.to_nat (width m))%nat
           = Some newline))
  \/ (exists k,
        Maze_str m = inl (subscript_error (maze m) k)
        /\ (k < cells_read m)%nat
        /\ (forall j, (j < k)%nat -> is_Some (through pmap (maze m) j))
        /\ through pmap (maze m) k = None).
Proof.
  destruct (first_failure (fun k => is_Some (through pmap (maze m) k))
              (through_dec pmap (maze m)) (cells_read m))
    as [Hall|(k & Hk & Hbad & Hbefore)].
  - left. destruct (Maze_str_ok m Hall) as (text & H1 & H2 & H3 & H4).
    exists text. auto.
  - right. exists k. apply through_None in Hbad.
    split; [now apply Maze_str_fails|auto].
Qed.

Lemma draw_maze_cases (on_disk : Z -> bool) (m : Maze) (tilesize : Z) :
  (exists ps,
     draw_maze on_disk m tilesize
     = inr (mkPicture (width m * tilesize, height m * tilesize) ps)
     /\ (forall i, 1 <= i <= 15 -> on_disk i = true)
     /\ (0 <= width m * tilesize /\ 0 <= height m * tilesize)
     /\ (forall k, (k < cells_read m)%nat -> is_Some (through all_bitmaps (maze m) k))
     /\ length ps = cells_read m
     /\ forall y x, (y < Z.to_nat (height m))%nat -> (x < Z.to_nat (width m))%nat ->
          exists b, through all_bitmaps (maze m) (y * Z.to_nat (width m) + x) = Some b
                    /\ ps !! (y * Z.to_nat (width m) + x)%nat
                       = Some (b, (Z.of_nat x * tilesize, Z.of_nat y * tilesize)))
  \/ (exists j,
        draw_maze on_disk m tilesize = inl (FileNotFoundError j)
        /\ 1 <= j <= 15 /\ on_disk j = false
        /\ forall i, 1 <= i < j -> on_disk i = true)
  \/ (draw_maze on_disk m tilesize = inl ImageValueError
      /\ (forall i, 1 <= i <= 15 -> on_disk i = true)
      /\ (width m * tilesize < 0 \/ height m * tilesize < 0))
  \/ (exists k,
        draw_maze on_disk m tilesize = inl (subscript_error (maze m) k)
        /\ (forall i, 1 <= i <= 15 -> on_disk i = true)
        /\ (0 <= width m * tilesize /\ 0 <= height m * tilesize)
        /\ (k < cells_read m)%nat
        /\ (forall j, (j < k)%nat -> is_Some (through all_bitmaps (maze m) j))
        /\ through all_bitmaps (maze m) k = None).
Proof.
  destruct (first_failure (fun k => on_disk (Z.of_nat (S k)) = true)
              (fun k => bool_dec (on_disk (Z.of_nat (S k))) true) 15)
    as [Hdisk|(k & Hk & Hbad & Hbefore)].
  - assert (Hdisk' : forall i, 1 <= i <= 15 -> on_disk i = true).
    { intros i Hi. specialize (Hdisk (Z.to_nat (i - 1)) ltac:(lia)).
      now replace (Z.of_nat (S (Z.to_nat (i - 1)))) with i in Hdisk by lia. }
    destruct (Z_lt_le_dec (width m * tilesize) 0) as [Hw|Hw];
      [right; right; left; split; [apply draw_maze_bad_size|]; auto|].
    destruct (Z_lt_le_dec (height m * tilesize) 0) as [Hh|Hh];
      [right; right; left; split; [apply draw_maze_bad_size|]; auto|].
    destruct (first_failure (fun k => is_Some (through all_bitmaps (maze m) k))
                (through_dec all_bitmaps (maze m)) (cells_read m))
      as [Hall|(k & Hk & Hbad & Hbefore)].
    + left. destruct (draw_maze_ok on_disk m tilesize Hdisk' (conj Hw Hh) Hall)
        as (ps & H1 & H2 & H3).
      exists ps. auto 10.
    + right. right. right. exists k. apply through_None in Hbad.
      split; [now apply draw_maze_fails|auto 10].
  - right. left. exists (Z.of_nat (S k)).
    apply not_true_is_false in Hbad.
    assert (Hb : forall i, 1 <= i < Z.of_nat (S k) -> on_disk i = true).
    { intros i Hi. specialize (Hbefore (Z.to_nat (i - 1)) ltac:(lia)).
      now replace (Z.of_nat (S (Z.to_nat (i - 1)))) with i in Hbefore by lia. }
    split; [apply draw_maze_missing_tile; try assumption; lia|].
    split; [lia|]. split; assumption.
Qed.

(** ** What the renderings accept, return and raise *)

(** X1.  [Maze.__str__] returns a string exactly when the array holds,
    at each of the first [height * width] positions (none when a dimension
    is not positive), a mask between 0 and 15; entries past those positions
    are never read. *)
Theorem Maze_str_succeeds_iff (m : Maze) :
  (exists text, Maze_str m = inr text) <->
  forall k, (k < cells_read m)%nat -> exists v, maze m !! k = Some v /\ 0 <= v <= 15.
Proof.
  destruct (Maze_str_cases m) as [(text & E & Hall & _)|(k & E & Hk & _ & Hbad)].
  - split; [|eauto]. intros _ k Hk. apply through_pmap. now apply Hall.
  - split.
    + intros (text & E'). rewrite E in E'. discriminate.
    + intros Hall. apply Hall, through_pmap in Hk as [g Hg]. congruence.
Qed.

(** X2.  [Maze.__str__] raises exactly at the first position, in row
    order, that is missing from the array or holds a value outside 0..15:
    [IndexError] when it is missing, [KeyError] with that value otherwise. *)
Theorem Maze_str_error_iff (m : Maze) (e : lookup_exn) :
  Maze_str m = inl e <->
  exists k,
    (k < cells_read m)%nat
    /\ (forall j, (j < k)%nat -> exists v, maze m !! j = Some v /\ 0 <= v <= 15)
    /\ ((maze m !! k = None /\ e = ListIndexError)
        \/ exists v, maze m !! k = Some v /\ ~ 0 <= v <= 15 /\ e = KeyError v).
Proof.
  split.
  - intros E.
    destruct (Maze_str_cases m) as [(text & E' & _)|(k & E' & Hk & Hbefore & Hbad)];
      [congruence|].
    rewrite E in E'. injection E' as ->. exists k. split; [assumption|].
    split; [intros j Hj; now apply through_pmap, Hbefore|].
    destruct (subscript_error_cases pmap (maze m) k _ Hbad eq_refl)
      as [?|(v & Hv & Hnone & He)]; [now left|].
    right. exists v. split; [assumption|]. split; [|assumption].
    intros Hok. apply (pmap_keys v) in Hok as [g Hg]. congruence.
  - intros (k & Hk & Hbefore & Hat).
    assert (Hbad : through pmap (maze m) k = None).
    { unfold through. destruct Hat as [(-> & _)|(v & -> & Hv & _)]; [reflexivity|].
      destruct (pmap !! v) as [g|] eqn:Eg; [|reflexivity].
      exfalso. apply Hv. apply (pmap_keys v). eauto. }
    rewrite (Maze_str_fails m k Hk); [|intros j Hj; now apply through_pmap, Hbefore|assumption].
    f_equal. unfold subscript_error.
    destruct Hat as [(-> & ->)|(v & -> & _ & ->)]; reflexivity.
Qed.

(** X3.  The string [Maze.__str__] returns is the one of [height]
    lines of [width] glyphs and a line feed, the glyph at row [y], column
    [x] being [pmap[maze[y * width + x]]]: a text is returned exactly when
    it has that length, those glyphs and those line feeds. *)
Theorem Maze_str_layout (m : Maze) (text : list Z) :
  Maze_str m = inr text <->
  length text = (Z.to_nat (height m) * (Z.to_nat (width m) + 1))%nat
  /\ (forall y x, (y < Z.to_nat (height m))%nat -> (x < Z.to_nat (width m))%nat ->
        exists v glyph,
          maze m !! (y * Z.to_nat (width m) + x)%nat = Some v
          /\ pmap !! v = Some glyph
          /\ text !! (y * (Z.to_nat (width m) + 1) + x)%nat = Some glyph)
  /\ (forall y, (y < Z.to_nat (height m))%nat ->
        text !! (y * (Z.to_nat (width m) + 1) + Z.to_nat (width m))%nat = Some newline).
Proof.
  set (h := Z.to_nat (height m)). set (n := Z.to_nat (width m)).
  assert (Hglyph : forall (text' : list Z) (y x : nat),
            (forall y x : nat, (y < h)%nat -> (x < n)%nat ->
               text' !! (y * (n + 1) + x)%nat = through pmap (maze m) (y * n + x)) ->
            (forall k, (k < cells_read m)%nat -> is_Some (through pmap (maze m) k)) ->
            (y < h)%nat -> (x < n)%nat ->
            exists v glyph,
              maze m !! (y * n + x)%nat = Some v /\ pmap !! v = Some glyph
              /\ text' !! (y * (n + 1) + x)%nat = Some glyph).
  { intros text' y x Hcell Hall Hy Hx.
    destruct (Hall (y * n + x)%nat) as [g Hg]; [unfold cells_read; fold h n; nia|].
    rewrite (Hcell y x Hy Hx). unfold through in *.
    destruct (maze m !! (y * n + x)%nat) as [v|]; [|discriminate]. eauto. }
  split.
  - intros E.
    destruct (Maze_str_cases m) as [(text' & E' & Hall & Hlen & Hcell & Hnl)|(k & E' & _)];
      [|congruence].
    rewrite E in E'. injection E' as <-. fold h n in Hlen, Hcell, Hnl.
    split; [assumption|]. split; [|assumption].
    intros y x Hy Hx. now apply Hglyph.
  - intros (Hlen & Hcell & Hnl).
    destruct (Maze_str_cases m) as [(text' & E' & Hall & Hlen' & Hcell' & Hnl')
                                   |(k & _ & Hk & _ & Hbad)].
    + rewrite E'. f_equal. fold h n in Hlen', Hcell', Hnl'.
      apply list_eq. intros i.
      destruct (le_lt_dec (h * (n + 1)) i) as [Hge|Hlt].
      * rewrite (proj2 (lookup_ge_None text' i)) by lia.
        now rewrite (proj2 (lookup_ge_None text i)) by lia.
      * destruct (text_position h n i Hlt) as (y & x & Hy & Hx & ->).
        destruct (decide (x = n)) as [->|Hne].
        -- now rewrite Hnl, Hnl'.
        -- destruct (Hcell y x Hy ltac:(lia)) as (v & g & Hv & Hg & Ht).
           rewrite Ht, Hcell' by lia. unfold through. now rewrite Hv.
    + exfalso. unfold cells_read in Hk. fold h n in Hk.
      destruct (cell_position h n k Hk) as (y & x & Hy & Hx & ->).
      destruct (Hcell y x Hy Hx) as (v & g & Hv & Hg & _).
      unfold through in Hbad. fold n in Hbad. rewrite Hv in Hbad. congruence.
Qed.

(** X4.  The string determines the walls: two mazes of the same
    dimensions that [Maze.__str__] renders to the same text have the same
    mask at every one of the [height * width] positions (no two masks share
    a glyph). *)
Theorem Maze_str_injective (m m' : Maze) (text : list Z) (k : nat) :
  width m = width m' -> height m = height m' ->
  Maze_str m = inr text -> Maze_str m' = inr text ->
  (k < cells_read m)%nat ->
  maze m !! k = maze m' !! k.
Proof.
  intros Hw Hh E E' Hk.
  apply Maze_str_layout in E as (_ & Hcell & _), E' as (_ & Hcell' & _).
  rewrite <- Hw, <- Hh in Hcell'. unfold cells_read in Hk.
  destruct (cell_position _ _ k Hk) as (y & x & Hy & Hx & ->).
  destruct (Hcell y x Hy Hx) as (v & g & Hv & Hg & Ht).
  destruct (Hcell' y x Hy Hx) as (v' & g' & Hv' & Hg' & Ht').
  rewrite Hv, Hv'. f_equal. rewrite Ht in Ht'. injection Ht' as <-.
  exact (pmap_injective v v' g Hg Hg').
Qed.

Lemma Maze_str_injective_witness :
  maze (mkMaze [5; 13; 3; 2] 2 2) !! 3%nat = maze (mkMaze [5; 13; 3; 2; 7] 2 2) !! 3%nat.
Proof.
  apply (Maze_str_injective (mkMaze [5; 13; 3; 2] 2 2) (mkMaze [5; 13; 3; 2; 7] 2 2)
           [9473; 9523; 10; 9499; 9593; 10] 3).
  - reflexivity.
  - reflexivity.
  - vm_compute. reflexivity.
  - vm_compute. reflexivity.
  - vm_compute. lia.
Defined.

(** X5.  [draw_maze] builds the picture it saves exactly when the
    fifteen tile files [1.png] .. [15.png] can be opened, neither
    [width * tilesize] nor [height * tilesize] is negative, and the array
    holds, at each of the first [height * width] positions, a mask between
    1 and 15. *)
Theorem draw_maze_succeeds_iff (on_disk : Z -> bool) (m : Maze) (tilesize : Z) :
  (exists pic, draw_maze on_disk m tilesize = inr pic) <->
  (forall i, 1 <= i <= 15 -> on_disk i = true)
  /\ (0 <= width m * tilesize /\ 0 <= height m * tilesize)
  /\ forall k, (k < cells_read m)%nat -> exists v, maze m !! k = Some v /\ 1 <= v <= 15.
Proof.
  destruct (draw_maze_cases on_disk m tilesize)
    as [(ps & E & Hdisk & Hsize & Hall & _)
       |[(j & E & Hj & Hoff & _)
        |[(E & _ & Hsize)|(k & E & _ & _ & Hk & _ & Hbad)]]].
  - split; [|eauto]. intros _. split; [assumption|]. split; [assumption|].
    intros k Hk. apply through_bitmaps. now apply Hall.
  - split.
    + intros (pic & E'). congruence.
    + intros (Hdisk & _). rewrite (Hdisk j Hj) in Hoff. discriminate.
  - split.
    + intros (pic & E'). congruence.
    + intros (_ & Hok & _). lia.
  - split.
    + intros (pic & E'). congruence.
    + intros (_ & _ & Hall). apply Hall, through_bitmaps in Hk as [g Hg]. congruence.
Qed.

(** X6.  The picture [draw_maze] saves is [width * tilesize] by
    [height * tilesize] and carries one paste per cell, in row order: the
    paste of cell [(x, y)] is the tile numbered by its mask, put at
    [(x * tilesize, y * tilesize)]. *)
Theorem draw_maze_picture (on_disk : Z -> bool) (m : Maze) (tilesize : Z) (pic : picture) :
  draw_maze on_disk m tilesize = inr pic ->
  image_size pic = (width m * tilesize, height m * tilesize)
  /\ length (pasted pic) = cells_read m
  /\ forall y x, (y < Z.to_nat (height m))%nat -> (x < Z.to_nat (width m))%nat ->
       exists v,
         maze m !! (y * Z.to_nat (width m) + x)%nat = Some v
         /\ pasted pic !! (y * Z.to_nat (width m) + x)%nat
            = Some (v, (Z.of_nat x * tilesize, Z.of_nat y * tilesize)).
Proof.
  intros E.
  destruct (draw_maze_cases on_disk m tilesize)
    as [(ps & E' & _ & _ & _ & Hlen & Hcell)|[(j & E' & _)|[(E' & _)|(k & E' & _)]]];
    try congruence.
  rewrite E in E'. injection E' as ->. simpl.
  split; [reflexivity|]. split; [assumption|].
  intros y x Hy Hx. destruct (Hcell y x Hy Hx) as (b & Hb & Hps).
  unfold through in Hb.
  destruct (maze m !! (y * Z.to_nat (width m) + x)%nat) as [v|]; [|discriminate].
  apply all_bitmaps_value in Hb. subst b. eauto.
Qed.

Lemma draw_maze_picture_witness :
  image_size (mkPicture (16, 16) [(5, (0, 0)); (13, (8, 0)); (3, (0, 8)); (2, (8, 8))])
  = (2 * 8, 2 * 8).
Proof.
  exact (proj1 (draw_maze_picture (fun _ => true) (mkMaze [5; 13; 3; 2] 2 2) 8
                  (mkPicture (16, 16) [(5, (0, 0)); (13, (8, 0)); (3, (0, 8)); (2, (8, 8))])
                  eq_refl)).
Defined.


(** ** What a finished run guarantees *)

Section FinishedRun.

Variables (width height : Z) (branch_dist : list Q) (min_length : Z).
Variable seeded_words : Z -> list Z.
Hypothesis width_pos : 1 <= width.
Hypothesis height_pos : 1 <= height.
Hypothesis count_small : cell_count width height <= INF.

Lemma growth_first_head (fuel : nat) (seed : option Z) (s0 s : frame) :
  growth width height branch_dist seeded_words fuel seed s0 = Returns tt s ->
  exists s1,
    (random_seed seeded_words seed ;;; init_state width height ;;;
     pick_start width height) s0 = Returns tt s1
    /\ grow width height branch_dist fuel s1 = Returns tt s.
Proof.
  unfold growth. intros H.
  apply bind_Returns in H as ([] & s1 & H1 & H).
  apply bind_Returns in H as ([] & s2 & H2 & H).
  apply bind_Returns in H as ([] & s3 & H3 & H).
  exists s3. split; [|assumption].
  rewrite (bind_of_Returns _ _ _ _ _ H1), (bind_of_Returns _ _ _ _ _ H2). exact H3.
Qed.

Lemma growth_visit (fuel : nat) (seed : option Z) (s0 s : frame) :
  growth width height branch_dist seeded_words fuel seed s0 = Returns tt s ->
  visit_inv width height s /\ cell_count width height <= cells_visited s.
Proof.
  intros H. apply growth_first_head in H as (s1 & H1 & H).
  apply (first_head_visit width height seeded_words seed s0 width_pos height_pos) in H1.
  destruct (grow_extends width height branch_dist width_pos height_pos count_small
              fuel s1 s H1 H)
    as (Hv & _ & Hc).
  now split.
Qed.

Lemma full_count (s : frame) :
  visit_inv width height s -> cell_count width height <= cells_visited s ->
  cells_visited s = cell_count width height
  /\ Forall (fun d => 0 <= d < cell_count width height) (cell_distance s).
Proof.
  intros Hv Hc.
  destruct (inv_shape _ _ _ (vis_loop _ _ _ Hv)) as (_ & Hld & _).
  pose proof (vis_count _ _ _ Hv) as Hcount.
  pose proof (visited_count_le (cell_distance s)) as Hle.
  assert (HN : Z.of_nat (Z.to_nat (cell_count width height)) = cell_count width height)
    by (unfold cell_count in *; nia).
  assert (Hfull : visited_count (cell_distance s) = length (cell_distance s)) by lia.
  split; [lia|].
  apply visited_count_full in Hfull. apply Forall_lookup. intros i d Hi.
  destruct (inv_distance _ _ _ (vis_loop _ _ _ Hv) i d Hi) as [->|Hd].
  - exfalso. eapply Forall_lookup in Hfull; [|exact Hi]. now apply Hfull.
  - lia.
Qed.

Lemma gen_maze_masks (fuel : nat) (seed : option Z) (s0 s' : frame) (m : Maze) :
  gen_maze width height branch_dist min_length seeded_words fuel seed s0 = Returns m s' ->
  m = mkMaze (cell_state s') width height
  /\ length (cell_state s') = Z.to_nat (cell_count width height)
  /\ Forall (fun v => 1 <= v <= 15) (cell_state s').
Proof.
  unfold gen_maze. intros H.
  apply bind_Returns in H as ([] & s1 & H1 & H).
  apply bind_Returns in H as ([] & s2 & H2 & H).
  apply bind_Returns in H as (walls & s3 & H3 & H).
  unfold gets in H3. injection H3 as <- <-. injection H as <- <-.
  split; [reflexivity|].
  destruct (growth_visit _ _ _ _ H1) as (Hv & Hc).
  destruct (full_count s1 Hv Hc) as (_ & Hall).
  destruct (inv_shape _ _ _ (vis_loop _ _ _ Hv)) as (_ & Hld & Hls).
  destruct (punch_exit_effect width height min_length s1 s2 (vis_masks _ _ _ Hv) H2)
    as (Hfp & Hok & Hg).
  unfold footprint in Hfp. injection Hfp as _ _ _ _ Hlen _.
  split; [congruence|].
  apply Forall_lookup. intros i v Hi.
  assert (Hm : mask_ok v) by (eapply Forall_lookup in Hok; [exact Hok|exact Hi]).
  assert (Hi1 : (i < length (cell_distance s1))%nat).
  { apply lookup_lt_Some in Hi. lia. }
  apply lookup_lt_is_Some_2 in Hi1 as [d Hd].
  assert (HdINF : d <> INF).
  { eapply Forall_lookup in Hall; [|exact Hd]. unfold INF, cell_count in *. simpl in Hall.
    intros ->. unfold INF in *. lia. }
  destruct (vis_open _ _ _ Hv i d Hd HdINF) as (v1 & Hv1 & Hnz).
  destruct (walls_grow_nonzero _ _ i v1 Hg Hv1 Hnz) as (v' & Hv' & Hnz').
  rewrite Hi in Hv'. injection Hv' as <-. unfold mask_ok in Hm. lia.
Qed.

End FinishedRun.

(** X8.  When the growth phase of [gen_maze] ends without an
    exception (grid of at least one cell and at most [2^62]), the counter
    equals the number of cells exactly, every entry of the distance array
    holds a distance between 0 and [width * height - 1] (none is left at
    the sentinel), and every cell has at least one open wall. *)
Theorem growth_visits_every_cell
    (width height : Z) (branch_dist : list Q) (seeded_words : Z -> list Z)
    (fuel : nat) (seed : option Z) (s0 s : frame) :
  1 <= width -> 1 <= height -> cell_count width height <= INF ->
  growth width height branch_dist seeded_words fuel seed s0 = Returns tt s ->
  cells_visited s = cell_count width height
  /\ length (cell_distance s) = Z.to_nat (cell_count width height)
  /\ Forall (fun d => 0 <= d < cell_count width height) (cell_distance s)
  /\ Forall (fun v => 1 <= v <= 15) (cell_state s).
Proof.
  intros Hw Hh Hbig H.
  destruct (growth_visit width height branch_dist seeded_words Hw Hh Hbig _ _ _ _ H)
    as (Hv & Hc).
  destruct (full_count width height Hw Hh s Hv Hc) as (Hcount & Hall).
  destruct (inv_shape _ _ _ (vis_loop _ _ _ Hv)) as (_ & Hld & Hls).
  split; [assumption|]. split; [assumption|]. split; [assumption|].
  apply Forall_lookup. intros i v Hi.
  assert (Hm : mask_ok v).
  { pose proof (vis_masks _ _ _ Hv) as Hok.
    eapply Forall_lookup in Hok; [exact Hok|exact Hi]. }
  assert (Hi1 : (i < length (cell_distance s))%nat).
  { apply lookup_lt_Some in Hi. lia. }
  apply lookup_lt_is_Some_2 in Hi1 as [d Hd].
  assert (HdINF : d <> INF).
  { eapply Forall_lookup in Hall; [|exact Hd]. simpl in Hall. lia. }
  destruct (vis_open _ _ _ Hv i d Hd HdINF) as (v1 & Hv1 & Hnz).
  rewrite Hi in Hv1. injection Hv1 as <-. unfold mask_ok in Hm. lia.
Qed.

Lemma growth_visits_every_cell_witness :
  cells_visited grown_2x2_seed582 = cell_count 2 2
  /\ length (cell_distance grown_2x2_seed582) = Z.to_nat (cell_count 2 2)
  /\ Forall (fun d => 0 <= d < cell_count 2 2) (cell_distance grown_2x2_seed582)
  /\ Forall (fun v => 1 <= v <= 15) (cell_state grown_2x2_seed582).
Proof.
  apply (growth_visits_every_cell 2 2 default_branch_factors
           (fun _ => draws_2x2_seed582) 5 (Some 582) (entry_frame [])).
  - lia.
  - lia.
  - vm_compute. discriminate.
  - vm_compute. reflexivity.
Defined.

(** X9.  A [Maze] that [gen_maze] returns has the dimensions it was
    asked for, one mask per cell, and every mask between 1 and 15: no
    returned cell is closed on all four sides. *)
Theorem gen_maze_returns_open_cells
    (width height : Z) (branch_dist : list Q) (min_length : Z)
    (seeded_words : Z -> list Z) (fuel : nat) (seed : option Z) (s0 s' : frame)
    (m : Maze) :
  1 <= width -> 1 <= height -> cell_count width height <= INF ->
  gen_maze width height branch_dist min_length seeded_words fuel seed s0 = Returns m s' ->
  m = mkMaze (maze m) width height
  /\ length (maze m) = Z.to_nat (width * height)
  /\ Forall (fun v => 1 <= v <= 15) (maze m).
Proof.
  intros Hw Hh Hbig H.
  destruct (gen_maze_masks width height branch_dist min_length seeded_words
              Hw Hh Hbig _ _ _ _ _ H) as (-> & Hlen & Hall).
  simpl. auto.
Qed.

Lemma gen_maze_returns_open_cells_witness :
  mkMaze [5; 13; 3; 2] 2 2 = mkMaze (maze (mkMaze [5; 13; 3; 2] 2 2)) 2 2
  /\ length (maze (mkMaze [5; 13; 3; 2] 2 2)) = Z.to_nat (2 * 2)
  /\ Forall (fun v => 1 <= v <= 15) (maze (mkMaze [5; 13; 3; 2] 2 2)).
Proof.
  apply (gen_maze_returns_open_cells 2 2 default_branch_factors 1
           (fun _ => draws_2x2_seed582) 5 (Some 582) (entry_frame [])
           (mkFrame 4 [1; -1; 0; 1] [2; 1; 0; 2] [5; 13; 3; 2]
              [(-2, (0, 0)); (-2, (1, 1)); (-1, (1, 0)); (0, (2, 0))]
              [(0, 0); (1, 1)] (Some (2, 0)) (Some (0, 0)) [] [])).
  - lia.
  - lia.
  - vm_compute. discriminate.
  - vm_compute. reflexivity.
Defined.

(** X10.  Generation composes with both renderings: on a [Maze]
    that [gen_maze] returns, [Maze.__str__] returns a text of [height]
    lines of [width + 1] characters in which the dot (the glyph of a cell
    without open wall) does not occur, and [draw_maze] builds a picture of
    [width * height] pastes whenever the fifteen tile files are there and
    [tilesize] is not negative; it never fails on a key. *)
Theorem returned_maze_renders
    (width height : Z) (branch_dist : list Q) (min_length : Z)
    (seeded_words : Z -> list Z) (fuel : nat) (seed : option Z) (s0 s' : frame)
    (m : Maze) :
  1 <= width -> 1 <= height -> cell_count width height <= INF ->
  gen_maze width height branch_dist min_length seeded_words fuel seed s0 = Returns m s' ->
  (exists text,
     Maze_str m = inr text
     /\ length text = Z.to_nat (height * (width + 1))
     /\ ~ In 9679 text)
  /\ forall (on_disk : Z -> bool) (tilesize : Z),
       (forall i, 1 <= i <= 15 -> on_disk i = true) ->
       0 <= tilesize ->
       exists ps,
         draw_maze on_disk m tilesize
         = inr (mkPicture (width * tilesize, height * tilesize) ps)
         /\ length ps = Z.to_nat (width * height).
Proof.
  intros Hw Hh Hbig H.
  destruct (gen_maze_masks width height branch_dist min_length seeded_words
              Hw Hh Hbig _ _ _ _ _ H) as (-> & Hlen & Hall).
  set (m := mkMaze (cell_state s') width height).
  assert (Hread : cells_read m = Z.to_nat (cell_count width height)).
  { unfold cells_read, cell_count. simpl. nia. }
  assert (Hcell : forall k, (k < cells_read m)%nat ->
            exists v, maze m !! k = Some v /\ 1 <= v <= 15).
  { intros k Hk. simpl.
    destruct (lookup_lt_is_Some_2 (cell_state s') k ltac:(lia)) as [v Hv].
    exists v. split; [assumption|].
    eapply Forall_lookup in Hall; [exact Hall|exact Hv]. }
  split.
  - destruct (Maze_str_cases m) as [(text & E & _ & Htl & Htc & Hnl)|(k & _ & Hk & _ & Hbad)].
    + exists text. split; [assumption|]. simpl in Htl, Htc, Hnl.
      split; [rewrite Htl; nia|].
      intros Hdot. apply list_elem_of_In, list_elem_of_lookup in Hdot as [i Hi].
      assert (Hlt : (i < Z.to_nat height * (Z.to_nat width + 1))%nat).
      { rewrite <- Htl. eapply lookup_lt_Some. exact Hi. }
      destruct (text_position _ _ i Hlt) as (y & x & Hy & Hx & ->).
      destruct (decide (x = Z.to_nat width)) as [->|Hne].
      * rewrite Hnl in Hi by assumption. discriminate.
      * rewrite Htc in Hi by lia.
        destruct (Hcell (y * Z.to_nat width + x)%nat) as (v & Hv & Hrange);
          [rewrite Hread; unfold cell_count; nia|].
        unfold through in Hi. simpl in Hv. rewrite Hv in Hi.
        apply pmap_dot in Hi. lia.
    + exfalso. destruct (Hcell k Hk) as (v & Hv & Hrange).
      unfold through in Hbad. rewrite Hv in Hbad.
      destruct (proj2 (pmap_keys v)) as [g Hg]; [unfold mask_ok; lia|]. congruence.
  - intros on_disk tilesize Hdisk Htile.
    destruct (draw_maze_cases on_disk m tilesize)
      as [(ps & E & _ & _ & _ & Hpl & _)
         |[(j & _ & Hj & Hoff & _)
          |[(_ & _ & Hsize)|(k & _ & _ & _ & Hk & _ & Hbad)]]].
    + exists ps. split; [exact E|]. rewrite Hpl, Hread. reflexivity.
    + rewrite (Hdisk j Hj) in Hoff. discriminate.
    + exfalso. simpl in Hsize. nia.
    + exfalso. destruct (Hcell k Hk) as (v & Hv & Hrange).
      unfold through in Hbad. rewrite Hv in Hbad.
      destruct (proj2 (all_bitmaps_keys v) Hrange) as [g Hg]. congruence.
Qed.

Lemma returned_maze_renders_witness :
  exists text,
    Maze_str (mkMaze [5; 13; 3; 2] 2 2) = inr text
    /\ length text = Z.to_nat (2 * (2 + 1))
    /\ ~ In 9679 text.
Proof.
  refine (proj1 (returned_maze_renders 2 2 default_branch_factors 1
                   (fun _ => draws_2x2_seed582) 5 (Some 582) (entry_frame [])
                   (mkFrame 4 [1; -1; 0; 1] [2; 1; 0; 2] [5; 13; 3; 2]
                      [(-2, (0, 0)); (-2, (1, 1)); (-1, (1, 0)); (0, (2, 0))]
                      [(0, 0); (1, 1)] (Some (2, 0)) (Some (0, 0)) [] [])
                   (mkMaze [5; 13; 3; 2] 2 2) _ _ _ _)).
  - lia.
  - lia.
  - vm_compute. discriminate.
  - vm_compute. reflexivity.
Defined.

(** X11.  The loop only ever adds.  From a frame at the head of the
    loop, one iteration that completes, and the rest of the loop when it
    completes, leave every distance that was already written as it is,
    leave every open wall open, and do not decrease the counter; one
    iteration visits at most three cells. *)
Theorem loop_never_rewrites
    (width height : Z) (branch_dist : list Q) (seeded_words : Z -> list Z)
    (seed : option Z) (s0 s : frame) :
  1 <= width -> 1 <= height -> cell_count width height <= INF ->
  at_loop_head width height branch_dist seeded_words seed s0 s ->
  (forall s',
     cells_visited s < cell_count width height ->
     loop_body width height branch_dist s = Returns tt s' ->
     distances_kept (cell_distance s) (cell_distance s')
     /\ walls_grow (cell_state s) (cell_state s')
     /\ cells_visited s <= cells_visited s' <= cells_visited s + 3)
  /\ (forall fuel s',
        grow width height branch_dist fuel s = Returns tt s' ->
        distances_kept (cell_distance s) (cell_distance s')
        /\ walls_grow (cell_state s) (cell_state s')
        /\ cells_visited s <= cells_visited s').
Proof.
  intros Hw Hh Hbig Hs.
  pose proof (loop_head_visit width height branch_dist seeded_words seed s0
                Hw Hh Hbig s Hs) as Hv.
  split.
  - intros s' Hguard H.
    destruct (loop_body_visit width height branch_dist Hw Hh Hbig s s' Hv Hguard H)
      as (_ & (Hk & Hg & Hc) & Hc3).
    auto.
  - intros fuel s' H.
    destruct (grow_extends width height branch_dist Hw Hh Hbig fuel s s' Hv H)
      as (_ & He & _).
    exact He.
Qed.

Lemma loop_never_rewrites_witness :
  distances_kept (cell_distance head1_1x3_seed7) (cell_distance head2_1x3_seed7)
  /\ walls_grow (cell_state head1_1x3_seed7) (cell_state head2_1x3_seed7)
  /\ cells_visited head1_1x3_seed7 <= cells_visited head2_1x3_seed7
     <= cells_visited head1_1x3_seed7 + 3.
Proof.
  refine (proj1 (loop_never_rewrites 1 3 default_branch_factors
                   (fun _ => draws_1x3_seed7) (Some 7) (entry_frame [])
                   head1_1x3_seed7 _ _ _ head1_1x3_seed7_reached)
            head2_1x3_seed7 _ _).
  - lia.
  - lia.
  - vm_compute. discriminate.
  - reflexivity.
  - vm_compute. reflexivity.
Defined.

(** X12.  At the head of the loop every heap entry is a pair
    [(-d, c)] in which [d] is the distance stored for [c], and [d] is
    smaller than the number of cells visited so far: the heap orders the
    cells it holds by decreasing distance from the start. *)
Theorem heap_keyed_by_distance
    (width height : Z) (branch_dist : list Q) (seeded_words : Z -> list Z)
    (seed : option Z) (s0 s : frame) (e : entry) :
  1 <= width -> 1 <= height -> cell_count width height <= INF ->
  at_loop_head width height branch_dist seeded_words seed s0 s ->
  In e (cell_by_distance s) ->
  py_get (cell_distance s) (t width (snd e)) = Some (- fst e)
  /\ 0 <= - fst e < cells_visited s.
Proof.
  intros Hw Hh Hbig Hs He.
  pose proof (loop_head_visit width height branch_dist seeded_words seed s0
                Hw Hh Hbig s Hs) as Hv.
  pose proof (vis_keys _ _ _ Hv e He) as Hkey.
  destruct (heap_pending width height s (vis_loop _ _ _ Hv) e He) as (Ht & Hne).
  unfold distance_of in *.
  destruct (py_get (cell_distance s) (t width (snd e))) as [d|] eqn:Ed;
    simpl in *; [|congruence].
  subst d. split; [reflexivity|].
  unfold py_get in Ed.
  destruct (py_index (length (cell_distance s)) (t width (snd e))); [|discriminate].
  destruct (inv_distance _ _ _ (vis_loop _ _ _ Hv) _ _ Ed); [contradiction|assumption].
Qed.

Lemma heap_keyed_by_distance_witness :
  py_get (cell_distance head3_1x3_seed7) (t 1 (snd (-1, (0, 0)))) = Some (- fst (-1, (0, 0)))
  /\ 0 <= - fst (-1, (0, 0)) < cells_visited head3_1x3_seed7.
Proof.
  apply (heap_keyed_by_distance 1 3 default_branch_factors
           (fun _ => draws_1x3_seed7) (Some 7) (entry_frame []) head3_1x3_seed7
           (-1, (0, 0))).
  - lia.
  - lia.
  - vm_compute. discriminate.
  - exact head3_1x3_seed7_reached.
  - simpl. tauto.
Defined.

(** ** The grid *)

Section Grid.

Variables (width height : Z).

Lemma in_bounds_spec (c : cell) :
  in_bounds width height c = true <-> 0 <= fst c < width /\ 0 <= snd c < height.
Proof.
  unfold in_bounds. rewrite !andb_true_iff, !Z.leb_le, !Z.ltb_lt. tauto.
Qed.

Lemma in_bounds_false (c : cell) :
  in_bounds width height c = false <->
  ~ (0 <= fst c < width /\ 0 <= snd c < height).
Proof. rewrite <- in_bounds_spec. destruct (in_bounds width height c); intuition congruence. Qed.

Lemma in_bounds_c_l (c : cell) :
  in_bounds width height c = true ->
  in_bounds width height (c_l c) = negb (fst c =? 0).
Proof.
  intros H. apply in_bounds_spec in H.
  destruct (Z.eqb_spec (fst c) 0); simpl.
  - apply in_bounds_false. unfold c_l. simpl. lia.
  - apply in_bounds_spec. unfold c_l. simpl. lia.
Qed.

Lemma in_bounds_c_r (c : cell) :
  in_bounds width height c = true ->
  in_bounds width height (c_r c) = negb (fst c =? width - 1).
Proof.
  intros H. apply in_bounds_spec in H.
  destruct (Z.eqb_spec (fst c) (width - 1)); simpl.
  - apply in_bounds_false. unfold c_r. simpl. lia.
  - apply in_bounds_spec. unfold c_r. simpl. lia.
Qed.

Lemma in_bounds_c_t (c : cell) :
  in_bounds width height c = true ->
  in_bounds width height (c_t c) = negb (snd c =? 0).
Proof.
  intros H. apply in_bounds_spec in H.
  destruct (Z.eqb_spec (snd c) 0); simpl.
  - apply in_bounds_false. unfold c_t. simpl. lia.
  - apply in_bounds_spec. unfold c_t. simpl. lia.
Qed.

Lemma in_bounds_c_b (c : cell) :
  in_bounds width height c = true ->
  in_bounds width height (c_b c) = negb (snd c =? height - 1).
Proof.
  intros H. apply in_bounds_spec in H.
  destruct (Z.eqb_spec (snd c) (height - 1)); simpl.
  - apply in_bounds_false. unfold c_b. simpl. lia.
  - apply in_bounds_spec. unfold c_b. simpl. lia.
Qed.

Lemma t_decode (c : cell) :
  in_bounds width height c = true ->
  (t width c mod width, t width c / width) = c.
Proof.
  intros H. apply in_bounds_spec in H. destruct c as [x y]. unfold t. simpl in *.
  destruct H as [Hx Hy]. f_equal.
  - symmetry. apply (Z.mod_unique _ _ y); [left; assumption|lia].
  - symmetry. apply (Z.div_unique _ _ _ x); [left; assumption|lia].
Qed.

Lemma t_encode (i : Z) :
  1 <= width ->
  0 <= i < width * height ->
  in_bounds width height (i mod width, i / width) = true
  /\ t width (i mod width, i / width) = i.
Proof.
  intros Hw1 Hi. assert (Hw : 0 < width) by lia.
  pose proof (Z.mod_pos_bound i width Hw) as Hm.
  pose proof (Z.div_mod i width ltac:(lia)) as Hdm.
  split.
  - apply in_bounds_spec. simpl. split; [assumption|]. split.
    + apply Z.div_pos; lia.
    + apply Z.div_lt_upper_bound; lia.
  - unfold t. simpl. lia.
Qed.

End Grid.

(** X13.  The linear index [t] puts the cells of the grid one to one
    onto the positions [0 .. width * height - 1] of the arrays: an in-grid
    cell is recovered from its index as [(i mod width, i / width)], and
    every position is the index of the in-grid cell so computed.  Off the
    grid the index aliases: the position one past the right edge of row
    [y] has the index of the first cell of row [y + 1]. *)
Theorem linear_index_round_trip (width height : Z) :
  1 <= width ->
  (forall c, in_bounds width height c = true ->
     0 <= t width c < width * height
     /\ (t width c mod width, t width c / width) = c)
  /\ (forall i, 0 <= i < width * height ->
        in_bounds width height (i mod width, i / width) = true
        /\ t width (i mod width, i / width) = i)
  /\ (forall y, t width (width, y) = t width (0, y + 1)).
Proof.
  intros Hw. split; [|split].
  - intros c Hc. split; [now apply (t_in_range width height)|now apply (t_decode width height)].
  - intros i Hi. now apply t_encode.
  - intros y. unfold t. simpl. lia.
Qed.

Lemma linear_index_round_trip_witness :
  (forall c, in_bounds 3 2 c = true ->
     0 <= t 3 c < 3 * 2 /\ (t 3 c mod 3, t 3 c / 3) = c)
  /\ (forall i, 0 <= i < 3 * 2 ->
        in_bounds 3 2 (i mod 3, i / 3) = true /\ t 3 (i mod 3, i / 3) = i)
  /\ (forall y, t 3 (3, y) = t 3 (0, y + 1)).
Proof. apply (linear_index_round_trip 3 2). lia. Defined.

(** X14.  For a cell of the grid, [is_border] holds exactly when
    one of its four neighbouring positions lies outside the grid, that is
    when it has fewer than four neighbours in the grid. *)
Theorem border_cells_miss_a_neighbour (width height : Z) (c : cell) :
  in_bounds width height c = true ->
  (is_border width height c = true <->
   (length (grid_neighbours width height c) < 4)%nat).
Proof.
  intros Hc. unfold grid_neighbours, is_border, last_x, last_y. simpl.
  rewrite (in_bounds_c_l width height c Hc), (in_bounds_c_r width height c Hc),
    (in_bounds_c_t width height c Hc), (in_bounds_c_b width height c Hc).
  destruct (fst c =? 0), (fst c =? width - 1), (snd c =? 0), (snd c =? height - 1);
    simpl; split; intros H; first [reflexivity | lia | discriminate].
Qed.

Lemma border_cells_miss_a_neighbour_witness :
  is_border 3 3 (1, 1) = true <-> (length (grid_neighbours 3 3 (1, 1)%Z) < 4)%nat.
Proof. apply (border_cells_miss_a_neighbour 3 3 (1, 1)). reflexivity. Defined.

(** ** The restart scan *)

Lemma fallback_from_scan (width : Z) (sides : list Z) (h : list entry) :
  exists skipped rest,
    h = skipped ++ rest
    /\ (forall e, In e skipped ->
          exists r, py_get sides (t width (snd e)) = Some r /\ r <= 0)
    /\ match rest with
       | [] => fallback_from width sides h = inl (None, [])
       | e :: kept =>
           match py_get sides (t width (snd e)) with
           | None => fallback_from width sides h = inr rest
           | Some r =>
               1 <= r
               /\ fallback_from width sides h
                  = inl (Some (snd e), if 1 <? r then rest else kept)
           end
       end.
Proof.
  induction h as [|e h IH].
  - exists [], []. split; [reflexivity|]. split; [intros e []|reflexivity].
  - simpl. destruct (py_get sides (t width (snd e))) as [r|] eqn:Er.
    + destruct (Z.ltb_spec 1 r) as [Hr|Hr].
      * exists [], (e :: h). split; [reflexivity|]. split; [intros e' []|].
        rewrite Er. split; [lia|]. destruct (Z.ltb_spec 1 r); [reflexivity|lia].
      * destruct (Z.eqb_spec r 1) as [->|Hne].
        -- exists [], (e :: h). split; [reflexivity|]. split; [intros e' []|].
           rewrite Er. split; [lia|]. reflexivity.
        -- destruct IH as (skipped & rest & -> & Hskip & Hrest).
           exists (e :: skipped), rest. split; [reflexivity|]. split.
           ++ intros e' [<-|He']; [exists r; split; [assumption|lia]|now apply Hskip].
           ++ exact Hrest.
    + exists [], (e :: h). split; [reflexivity|]. split; [intros e' []|].
      now rewrite Er.
Qed.

(** X15.  [fallback_cell] scans the heap from its head.  It discards
    the entries whose remaining-sides count is 0 or less up to the first
    entry that has a count of 1 or more, and returns the cell of that
    entry, which it also discards when the count is exactly 1.  It returns
    [None], with the heap empty, when no entry has a positive count, and
    raises [IndexError] when the scan reaches an entry whose index is
    outside the array. *)
Theorem fallback_cell_scan (width : Z) (s : frame) :
  exists skipped rest,
    cell_by_distance s = skipped ++ rest
    /\ (forall e, In e skipped ->
          exists r, py_get (cell_remaining_sides s) (t width (snd e)) = Some r /\ r <= 0)
    /\ match rest with
       | [] => fallback_cell width s = Returns None (set_cell_by_distance [] s)
       | e :: kept =>
           match py_get (cell_remaining_sides s) (t width (snd e)) with
           | None =>
               fallback_cell width s = Raises IndexError (set_cell_by_distance rest s)
           | Some r =>
               1 <= r
               /\ fallback_cell width s
                  = Returns (Some (snd e))
                      (set_cell_by_distance (if 1 <? r then rest else kept) s)
           end
       end.
Proof.
  destruct (fallback_from_scan width (cell_remaining_sides s) (cell_by_distance s))
    as (skipped & rest & Hh & Hskip & Hrest).
  exists skipped, rest. split; [assumption|]. split; [assumption|].
  unfold fallback_cell. destruct rest as [|e kept].
  - now rewrite Hrest.
  - destruct (py_get (cell_remaining_sides s) (t width (snd e))) as [r|].
    + destruct Hrest as (Hr & ->). now split.
    + now rewrite Hrest.
Qed.

(** ** Edge cases of [gen_maze] *)

Lemma store_Raises (arr : frame -> list Z) (upd : list Z -> frame -> frame)
    (i v : Z) (s : frame) :
  py_index (length (arr s)) i = None -> store arr upd i v s = Raises IndexError s.
Proof. intros H. unfold store, py_set. now rewrite H. Qed.

Lemma store_ok (arr : frame -> list Z) (upd : list Z -> frame -> frame)
    (i v : Z) (s : frame) (k : nat) :
  py_index (length (arr s)) i = Some k ->
  store arr upd i v s = Returns tt (upd (<[k := v]> (arr s)) s).
Proof. intros H. unfold store, py_set. now rewrite H. Qed.

Lemma py_index_empty (i : Z) : py_index 0 i = None.
Proof.
  unfold py_index. change (Z.of_nat 0) with 0. change (- 0) with 0.
  destruct (Z.leb_spec 0 i), (Z.ltb_spec i 0); simpl; try reflexivity; lia.
Qed.

Lemma range_nonpositive (n : Z) : n <= 0 -> range n = [].
Proof. intros Hn. unfold range. now replace (Z.to_nat n) with 0%nat by lia. Qed.

Lemma range_positive (n : Z) : 1 <= n -> exists rest, range n = 0 :: rest.
Proof.
  intros Hn. unfold range. destruct (Z.to_nat n) as [|k] eqn:E; [lia|].
  simpl. eauto.
Qed.

Lemma init_state_empty_grid (width height : Z) (s : frame) :
  width <= 0 \/ height <= 0 ->
  exists sides,
    init_state width height s
    = Raises IndexError (set_cell_remaining_sides sides (set_cells_visited 0 s)).
Proof.
  intros Hempty. unfold init_state.
  rewrite (bind_of_Returns _ _ s tt (set_cells_visited 0 s)) by reflexivity.
  set (s1 := set_cells_visited 0 s).
  set (n := Z.to_nat (cell_count width height)).
  rewrite (bind_of_Returns _ _ s1 tt (set_cell_remaining_sides (repeat 4 n) s1))
    by reflexivity.
  set (s2 := set_cell_remaining_sides (repeat 4 n) s1).
  assert (Hlen2 : length (cell_remaining_sides s2) = n) by apply repeat_length.
  destruct (Z.le_gt_cases 1 width) as [Hw|Hw].
  { (* the first pass over the top row fails at once *)
    assert (Hn : n = 0%nat) by (unfold n, cell_count; nia).
    destruct (range_positive width Hw) as (rest & ->).
    exists (repeat 4 n). apply bind_of_Raises. cbn [for_each].
    apply bind_of_Raises. apply bind_of_Raises.
    apply store_Raises. subst s2 s1.
      cbn [cell_remaining_sides set_cell_remaining_sides];
        rewrite ?length_insert, repeat_length.
      rewrite Hn. apply py_index_empty. }
  rewrite (range_nonpositive width) by lia. cbn [for_each].
  rewrite (bind_of_Returns _ _ s2 tt s2) by reflexivity.
  destruct (Z.le_gt_cases 1 height) as [Hh|Hh].
  { assert (Hn : n = 0%nat) by (unfold n, cell_count; nia).
    destruct (range_positive height Hh) as (rest & ->).
    exists (repeat 4 n). apply bind_of_Raises. cbn [for_each].
    apply bind_of_Raises. apply bind_of_Raises.
    apply store_Raises. subst s2 s1.
      cbn [cell_remaining_sides set_cell_remaining_sides];
        rewrite ?length_insert, repeat_length.
      rewrite Hn. apply py_index_empty. }
  rewrite (range_nonpositive height) by lia. cbn [for_each].
  rewrite (bind_of_Returns _ _ s2 tt s2) by reflexivity.
  destruct (Z.eq_dec (cell_count width height) 0) as [Hz|Hnz].
  { assert (Hn : n = 0%nat) by (unfold n; lia).
    exists (repeat 4 n). apply bind_of_Raises.
    apply store_Raises. subst s2 s1.
      cbn [cell_remaining_sides set_cell_remaining_sides];
        rewrite ?length_insert, repeat_length.
      rewrite Hn. apply py_index_empty. }
  assert (Hpos : 1 <= cell_count width height) by (unfold cell_count in *; nia).
  assert (HnZ : Z.of_nat n = width * height) by (unfold n, cell_count in *; lia).
  (* both dimensions are negative *)
  rewrite (bind_of_Returns _ _ s2 tt
             (set_cell_remaining_sides (<[0%nat := 2]> (repeat 4 n)) s2)).
  2:{ apply (store_ok cell_remaining_sides set_cell_remaining_sides _ 2 s2 0).
      subst s2 s1.
      cbn [cell_remaining_sides set_cell_remaining_sides];
        rewrite ?length_insert, repeat_length.
      unfold t. simpl. unfold py_index.
      destruct (Z.leb_spec 0 (width * 0 + 0)); [|lia].
      destruct (Z.ltb_spec (width * 0 + 0) (Z.of_nat n)); [|lia].
      simpl. f_equal. lia. }
  set (s3 := set_cell_remaining_sides (<[0%nat := 2]> (repeat 4 n)) s2).
  assert (Hlen3 : length (cell_remaining_sides s3) = n).
  { unfold s3. simpl. now rewrite length_insert, repeat_length. }
  destruct (Z.eq_dec height (-1)) as [Hm1|Hm1].
  { exists (<[0%nat := 2]> (repeat 4 n)). apply bind_of_Raises.
    apply store_Raises. subst s3 s2 s1.
      cbn [cell_remaining_sides set_cell_remaining_sides];
        rewrite ?length_insert, repeat_length.
      unfold t, py_index. simpl.
    destruct (Z.leb_spec 0 (width * 0 + (width - 1))); [lia|]. simpl.
    destruct (Z.leb_spec (- Z.of_nat n) (width * 0 + (width - 1))); [nia|].
    reflexivity. }
  rewrite (bind_of_Returns _ _ s3 tt
             (set_cell_remaining_sides
                (<[Z.to_nat (Z.of_nat n + (width - 1)) := 2]>
                   (<[0%nat := 2]> (repeat 4 n))) s3)).
  2:{ apply (store_ok cell_remaining_sides set_cell_remaining_sides _ 2 s3).
      subst s3 s2 s1.
      cbn [cell_remaining_sides set_cell_remaining_sides];
        rewrite ?length_insert, repeat_length.
      unfold t, py_index. simpl.
      destruct (Z.leb_spec 0 (width * 0 + (width - 1))); [lia|]. simpl.
      destruct (Z.leb_spec (- Z.of_nat n) (width * 0 + (width - 1))); [|nia].
      destruct (Z.ltb_spec (width * 0 + (width - 1)) 0); [|lia].
      simpl. f_equal. lia. }
  exists (<[Z.to_nat (Z.of_nat n + (width - 1)) := 2]> (<[0%nat := 2]> (repeat 4 n))).
  apply bind_of_Raises.
  apply store_Raises. simpl. rewrite !length_insert, repeat_length.
  unfold t, py_index. simpl.
  destruct (Z.leb_spec 0 (width * (height - 1) + 0)); [|nia].
  destruct (Z.ltb_spec (width * (height - 1) + 0) (Z.of_nat n)); [nia|].
  simpl. destruct (Z.ltb_spec (width * (height - 1) + 0) 0); [lia|].
  now rewrite andb_false_r.
Qed.

(** X16.  A grid without cells is rejected: when [width] or [height] is
    zero or negative, [gen_maze] raises [IndexError] while it fills in the
    remaining-sides array, before it draws a random number, visits a cell
    or prints anything. *)
Theorem gen_maze_rejects_empty_grid
    (width height : Z) (branch_dist : list Q) (min_length : Z)
    (seeded_words : Z -> list Z) (fuel : nat) (seed : option Z) (s0 : frame) :
  width <= 0 \/ height <= 0 ->
  exists s',
    gen_maze width height branch_dist min_length seeded_words fuel seed s0
    = Raises IndexError s'
    /\ cells_visited s' = 0
    /\ stdout s' = stdout s0
    /\ rand_words s' = match seed with
                       | Some n => seeded_words n
                       | None => rand_words s0
                       end.
Proof.
  intros Hempty. unfold gen_maze, growth.
  destruct (random_seed seeded_words seed s0) as [[] s1|e s1|] eqn:E1;
    try (destruct seed; discriminate).
  destruct (init_state_empty_grid width height s1 Hempty) as (sides & E2).
  exists (set_cell_remaining_sides sides (set_cells_visited 0 s1)).
  split.
  - apply bind_of_Raises. rewrite (bind_of_Returns _ _ _ _ _ E1).
    now apply bind_of_Raises.
  - simpl. split; [reflexivity|].
    destruct seed; simpl in E1; unfold modify, ret in E1;
      injection E1 as <-; simpl; auto.
Qed.

Lemma gen_maze_rejects_empty_grid_witness :
  exists s',
    gen_maze 0 3 default_branch_factors (-1) (fun _ => [0; 0; 0]) 1 (Some 0)
      (entry_frame [])
    = Raises IndexError s'
    /\ cells_visited s' = 0
    /\ stdout s' = stdout (entry_frame [])
    /\ rand_words s' = [0; 0; 0].
Proof.
  apply (gen_maze_rejects_empty_grid 0 3 default_branch_factors (-1)
           (fun _ => [0; 0; 0]) 1 (Some 0) (entry_frame [])).
  left. lia.
Defined.

Lemma filter_nil_of_false {A : Type} (f : A -> bool) (l : list A) :
  (forall x, In x l -> f x = false) -> List.filter f l = [].
Proof.
  induction l as [|a l IH]; intros H; simpl; [reflexivity|].
  rewrite (H a) by now left. apply IH. intros x Hx. apply H. now right.
Qed.

(** X17.  The exit has to be farther from the start than
    [min_exit_distance], and no distance exceeds [width * height - 1]:
    when [min_exit_distance] is at least [width * height - 1], every run
    whose growth phase finishes prints the message and raises [SystemExit].
    With the default [min_length] this is the case of the grids of one or
    two cells. *)
Theorem small_grid_has_no_exit
    (width height : Z) (branch_dist : list Q) (min_length : Z)
    (seeded_words : Z -> list Z) (fuel : nat) (seed : option Z) (s0 s : frame) :
  1 <= width -> 1 <= height -> cell_count width height <= INF ->
  width * height - 1 <= min_exit_distance width height min_length ->
  growth width height branch_dist seeded_words fuel seed s0 = Returns tt s ->
  gen_maze width height branch_dist min_length seeded_words fuel seed s0
  = Raises SystemExit (set_stdout (stdout s ++ [no_path_message]) s).
Proof.
  intros Hw Hh Hbig Hmin H.
  destruct (growth_visit width height branch_dist seeded_words Hw Hh Hbig _ _ _ _ H)
    as (Hv & Hc).
  destruct (full_count width height Hw Hh s Hv Hc) as (_ & Hall).
  destruct (inv_shape _ _ _ (vis_loop _ _ _ Hv)) as (_ & Hld & _).
  assert (HN : Z.of_nat (Z.to_nat (cell_count width height)) = width * height)
    by (unfold cell_count in *; nia).
  assert (Hr : forall c, In c (all_cells width height) ->
                 0 <= t width c < Z.of_nat (length (cell_distance s))).
  { intros c Hc'. rewrite Hld, HN. now apply t_in_range, all_cells_spec. }
  unfold gen_maze. rewrite (bind_of_Returns _ _ _ _ _ H).
  apply bind_of_Raises. apply punch_exit_empty; [assumption|].
  unfold exit_pool. apply filter_nil_of_false. intros c Hc'.
  unfold qualifies. apply andb_false_iff. right. apply Z.ltb_ge.
  unfold distance_of. rewrite py_get_in_range by now apply Hr.
  destruct (cell_distance s !! Z.to_nat (t width c)) as [d|] eqn:Ed.
  - eapply Forall_lookup in Hall; [|exact Ed]. simpl in *. unfold cell_count in *. lia.
  - apply lookup_ge_None in Ed. specialize (Hr c Hc'). lia.
Qed.

Lemma small_grid_has_no_exit_witness :
  gen_maze 1 1 default_branch_factors (-1) (fun _ => [0; 0; 0]) 1 (Some 0)
    (entry_frame [])
  = Raises SystemExit
      (set_stdout
         (stdout (mkFrame 1 [2] [0] [2] [(0, (0, 0))] [(0, 0)] (Some (0, 0)) None [] [])
          ++ [no_path_message])
         (mkFrame 1 [2] [0] [2] [(0, (0, 0))] [(0, 0)] (Some (0, 0)) None [] [])).
Proof.
  apply (small_grid_has_no_exit 1 1 default_branch_factors (-1)
           (fun _ => [0; 0; 0]) 1 (Some 0) (entry_frame [])).
  - lia.
  - lia.
  - vm_compute. discriminate.
  - vm_compute. discriminate.
  - vm_compute. reflexivity.
Defined.

(** ** The start *)

Lemma q_up_start (width height : Z) (x : option cell) (c : cell) (d : Z) :
  preserves (fun s => start s = x) (q_up width height c d).
Proof. preserves_all ltac:(intros; simpl; assumption). Qed.



(** ** Runs that start in the grid *)

Section GridSteps.

Variables (width height : Z).
Hypothesis width_pos : 1 <= width.
Hypothesis height_pos : 1 <= height.

Let N : nat := Z.to_nat (cell_count width height).

Lemma open_sides_sum (distances : list Z) (c : cell) :
  open_sides width height distances c
  = Z.b2z (unvisited width height distances (c_l c))
    + Z.b2z (unvisited width height distances (c_r c))
    + Z.b2z (unvisited width height distances (c_t c))
    + Z.b2z (unvisited width height distances (c_b c)).
Proof.
  unfold open_sides, neighbours. simpl.
  destruct (unvisited width height distances (c_l c)),
    (unvisited width height distances (c_r c)),
    (unvisited width height distances (c_t c)),
    (unvisited width height distances (c_b c)); reflexivity.
Qed.

Lemma py_get_cell {A : Type} (a : list A) (c : cell) :
  length a = N -> in_bounds width height c = true ->
  py_get a (t width c) = a !! Z.to_nat (t width c)
  /\ (Z.to_nat (t width c) < length a)%nat.
Proof.
  intros Hlen Hc. pose proof (t_in_range width height c Hc) as Hr.
  assert (Hlt : 0 <= t width c < Z.of_nat (length a)).
  { rewrite Hlen. unfold N, cell_count. lia. }
  split; [now apply py_get_in_range|lia].
Qed.

(** Marking [n] takes it, and nothing else, out of the unvisited cells. *)
Lemma unvisited_mark (distances : list Z) (n m : cell) (d : Z) :
  length distances = N -> in_bounds width height n = true -> d <> INF ->
  unvisited width height (<[Z.to_nat (t width n) := d]> distances) m
  = unvisited width height distances m && negb (bool_decide (m = n)).
Proof.
  intros Hlen Hn Hd. destruct (in_bounds width height m) eqn:Hm.
  - destruct (decide (m = n)) as [->|Hne].
    + rewrite bool_decide_eq_true_2 by reflexivity. rewrite andb_false_r.
      unfold unvisited. rewrite Hn. simpl. apply Z.eqb_neq.
      unfold distance_of.
      destruct (py_get_cell (<[Z.to_nat (t width n) := d]> distances) n) as (-> & _);
        [now rewrite length_insert|assumption|].
      destruct (py_get_cell distances n Hlen Hn) as (_ & Hlt).
      now rewrite list_lookup_insert_eq.
    + rewrite bool_decide_eq_false_2 by assumption. rewrite andb_true_r.
      apply unvisited_other; auto.
  - unfold unvisited. now rewrite Hm.
Qed.

Lemma open_sides_mark (distances : list Z) (n c : cell) (d : Z) :
  length distances = N -> in_bounds width height n = true -> d <> INF ->
  unvisited width height distances n = true ->
  open_sides width height (<[Z.to_nat (t width n) := d]> distances) c
  = open_sides width height distances c - adjacency n c.
Proof.
  intros Hlen Hn Hd Hun. rewrite !open_sides_sum, !unvisited_mark by assumption.
  unfold adjacency.
  assert (Hcase : forall m : cell,
            Z.b2z (unvisited width height distances m && negb (bool_decide (m = n)))
            = Z.b2z (unvisited width height distances m) - Z.b2z (bool_decide (m = n))).
  { intros m. destruct (decide (m = n)) as [->|Hne].
    - rewrite bool_decide_eq_true_2 by reflexivity. now rewrite Hun.
    - rewrite bool_decide_eq_false_2 by assumption. rewrite andb_true_r. simpl. lia. }
  rewrite !Hcase.
  assert (El : bool_decide (c_l c = n) = bool_decide (c = c_r n)).
  { apply bool_decide_ext. unfold c_l, c_r. destruct c, n. simpl.
    split; intros [= ? ?]; f_equal; lia. }
  assert (Er : bool_decide (c_r c = n) = bool_decide (c = c_l n)).
  { apply bool_decide_ext. unfold c_l, c_r. destruct c, n. simpl.
    split; intros [= ? ?]; f_equal; lia. }
  assert (Et : bool_decide (c_t c = n) = bool_decide (c = c_b n)).
  { apply bool_decide_ext. unfold c_t, c_b. destruct c, n. simpl.
    split; intros [= ? ?]; f_equal; lia. }
  assert (Eb : bool_decide (c_b c = n) = bool_decide (c = c_t n)).
  { apply bool_decide_ext. unfold c_t, c_b. destruct c, n. simpl.
    split; intros [= ? ?]; f_equal; lia. }
  rewrite El, Er, Et, Eb. lia.
Qed.

(** One [decrement_side]. *)
Lemma decrement_side_spec (m : cell) (s : frame) :
  length (cell_remaining_sides s) = N ->
  exists s',
    decrement_side width height m s = Returns tt s'
    /\ length (cell_remaining_sides s') = N
    /\ footprint s' = footprint s
    /\ cell_state s' = cell_state s /\ start s' = start s
    /\ forall c, in_bounds width height c = true ->
         py_get (cell_remaining_sides s') (t width c)
         = option_map (fun v => v - Z.b2z (bool_decide (c = m)))
             (py_get (cell_remaining_sides s) (t width c)).
Proof.
  intros Hlen. unfold decrement_side.
  destruct (in_bounds width height m) eqn:Hm.
  - destruct (py_get_cell (cell_remaining_sides s) m Hlen Hm) as (Hget & Hlt).
    destruct (lookup_lt_is_Some_2 _ _ Hlt) as [v Hv].
    pose proof (t_in_range width height m Hm) as Hr.
    unfold bind, load. rewrite Hget, Hv. unfold store.
    rewrite py_set_in_range by lia.
    eexists. split; [reflexivity|]. simpl. rewrite length_insert.
    split; [assumption|]. split; [unfold footprint; simpl; now rewrite length_insert|].
    split; [reflexivity|]. split; [reflexivity|].
    intros c Hc.
    destruct (py_get_cell (cell_remaining_sides s) c Hlen Hc) as (-> & Hltc).
    destruct (py_get_cell (<[Z.to_nat (t width m) := v - 1]> (cell_remaining_sides s)) c)
      as (-> & _); [now rewrite length_insert|assumption|].
    destruct (decide (c = m)) as [->|Hne].
    + rewrite bool_decide_eq_true_2 by reflexivity.
      rewrite list_lookup_insert_eq by assumption. rewrite Hv. reflexivity.
    + rewrite bool_decide_eq_false_2 by assumption.
      rewrite list_lookup_insert_ne.
      * destruct (cell_remaining_sides s !! Z.to_nat (t width c)); simpl; [f_equal; lia|reflexivity].
      * intros E. apply Hne. symmetry.
        apply (t_injective width height); try assumption.
        pose proof (t_in_range width height c Hc). lia.
  - exists s. split; [reflexivity|]. split; [assumption|].
    split; [reflexivity|]. split; [reflexivity|]. split; [reflexivity|].
    intros c Hc. rewrite bool_decide_eq_false_2 by (intros ->; congruence).
    destruct (py_get (cell_remaining_sides s) (t width c)); simpl; [f_equal; lia|reflexivity].
Qed.

(** [q_up] of a cell of the grid: it returns, and this is the frame. *)
Lemma q_up_grid (n : cell) (d : Z) (s : frame) :
  shaped N s -> in_bounds width height n = true ->
  exists s',
    q_up width height n d s = Returns tt s'
    /\ shaped N s'
    /\ cells_visited s' = cells_visited s + 1
    /\ cell_distance s' = <[Z.to_nat (t width n) := d]> (cell_distance s)
    /\ cell_by_distance s' = heappush (cell_by_distance s) (- d, n)
    /\ q s' = q s ++ [n]
    /\ cell_state s' = cell_state s
    /\ start s' = start s
    /\ forall c, in_bounds width height c = true ->
         py_get (cell_remaining_sides s') (t width c)
         = option_map (fun v => v - adjacency n c)
             (py_get (cell_remaining_sides s) (t width c)).
Proof.
  intros (Hls & Hld & Hlc) Hn.
  pose proof (t_in_range width height n Hn) as Hr.
  unfold q_up, set_visited.
  rewrite (bind_of_Returns _ _ s tt (set_q (q s ++ [n]) s)) by reflexivity.
  set (s1 := set_q (q s ++ [n]) s).
  rewrite (bind_of_Returns _ _ s1 tt (set_cells_visited (cells_visited s1 + 1) s1))
    by reflexivity.
  set (s2 := set_cells_visited (cells_visited s1 + 1) s1).
  rewrite (bind_of_Returns _ _ s2 tt
             (set_cell_distance (<[Z.to_nat (t width n) := d]> (cell_distance s2)) s2)).
  2:{ unfold store. rewrite py_set_in_range; [reflexivity|].
      subst s2 s1. simpl. rewrite Hld. unfold N, cell_count. lia. }
  set (s3 := set_cell_distance (<[Z.to_nat (t width n) := d]> (cell_distance s2)) s2).
  rewrite (bind_of_Returns _ _ s3 tt
             (set_cell_by_distance (heappush (cell_by_distance s3) (- d, n)) s3))
    by reflexivity.
  set (s4 := set_cell_by_distance (heappush (cell_by_distance s3) (- d, n)) s3).
  assert (Hl4 : length (cell_remaining_sides s4) = N) by exact Hls.
  destruct (decrement_side_spec (c_l n) s4 Hl4)
    as (s5 & E5 & Hl5 & F5 & W5 & S5 & P5).
  rewrite (bind_of_Returns _ _ _ _ _ E5).
  destruct (decrement_side_spec (c_r n) s5 Hl5)
    as (s6 & E6 & Hl6 & F6 & W6 & S6 & P6).
  rewrite (bind_of_Returns _ _ _ _ _ E6).
  destruct (decrement_side_spec (c_t n) s6 Hl6)
    as (s7 & E7 & Hl7 & F7 & W7 & S7 & P7).
  rewrite (bind_of_Returns _ _ _ _ _ E7).
  destruct (decrement_side_spec (c_b n) s7 Hl7)
    as (s8 & E8 & Hl8 & F8 & W8 & S8 & P8).
  exists s8. split; [exact E8|].
  rewrite F7, F6, F5 in F8. unfold footprint in F8.
  injection F8 as Hv Hd Hh Hq Hlc8 _.
  split; [|split; [exact Hv|split; [exact Hd|split; [exact Hh|split; [exact Hq|]]]]].
  { repeat split; [assumption| |].
    - rewrite Hd. subst s4 s3 s2 s1. simpl. now rewrite length_insert.
    - rewrite Hlc8. exact Hlc. }
  split; [now rewrite W8, W7, W6, W5|]. split; [now rewrite S8, S7, S6, S5|].
  intros c Hc. rewrite (P8 c Hc), (P7 c Hc), (P6 c Hc), (P5 c Hc).
  change (cell_remaining_sides s4) with (cell_remaining_sides s).
  unfold adjacency.
  destruct (py_get (cell_remaining_sides s) (t width c)); simpl; [f_equal; lia|reflexivity].
Qed.

End GridSteps.

Section GridLoop.

Variables (width height : Z) (branch_dist : list Q).
Hypothesis width_pos : 1 <= width.
Hypothesis height_pos : 1 <= height.
Hypothesis count_small : cell_count width height <= INF.

Let N : nat := Z.to_nat (cell_count width height).

Lemma cell_decide (c c' : cell) :
  bool_decide (c = c') = (fst c =? fst c') && (snd c =? snd c').
Proof.
  destruct c as [x y], c' as [x' y']. simpl.
  destruct (Z.eqb_spec x x'), (Z.eqb_spec y y'); simpl;
    [apply bool_decide_eq_true_2; congruence
    |apply bool_decide_eq_false_2; congruence ..].
Qed.

Lemma adjacency_neighbour (n cc : cell) :
  In n (neighbours cc) -> adjacency n cc = 1.
Proof.
  unfold neighbours, adjacency. rewrite !cell_decide.
  unfold c_l, c_r, c_t, c_b. destruct cc as [x y]. simpl.
  intros [<-|[<-|[<-|[<-|[]]]]]; simpl;
    repeat match goal with
           | |- context [?a =? ?b] => destruct (Z.eqb_spec a b); try lia
           end; reflexivity.
Qed.

Lemma adjacency_nonneg (n c : cell) : 0 <= adjacency n c.
Proof.
  unfold adjacency.
  repeat match goal with |- context [bool_decide ?P] => destruct (bool_decide P) end;
    simpl; lia.
Qed.

Lemma distance_of_mark (distances : list Z) (n c : cell) (d : Z) :
  length distances = N -> in_bounds width height n = true ->
  in_bounds width height c = true ->
  distance_of width (<[Z.to_nat (t width n) := d]> distances) c
  = if bool_decide (c = n) then d else distance_of width distances c.
Proof.
  intros Hlen Hn Hc. unfold distance_of.
  destruct (py_get_cell width height width_pos height_pos (<[Z.to_nat (t width n) := d]> distances) c)
    as (-> & _); [now rewrite length_insert|assumption|].
  destruct (py_get_cell width height width_pos height_pos distances c Hlen Hc) as (-> & Hlt).
  destruct (decide (c = n)) as [->|Hne].
  - rewrite bool_decide_eq_true_2 by reflexivity.
    now rewrite list_lookup_insert_eq.
  - rewrite bool_decide_eq_false_2 by assumption.
    rewrite list_lookup_insert_ne; [reflexivity|].
    intros E. apply Hne. symmetry. apply (t_injective width height); try assumption.
    pose proof (t_in_range width height c Hc).
    pose proof (t_in_range width height n Hn). lia.
Qed.

(** [q_up] of an unvisited neighbour keeps the core of the invariant. *)
Lemma q_up_core (spared : option cell) (n : cell) (d : Z) (s : frame) :
  grid_core width height spared s ->
  unvisited width height (cell_distance s) n = true -> d <> INF ->
  exists s',
    q_up width height n d s = Returns tt s'
    /\ grid_core width height spared s'
    /\ cells_visited s' = cells_visited s + 1
    /\ cell_distance s' = <[Z.to_nat (t width n) := d]> (cell_distance s)
    /\ q s' = q s ++ [n]
    /\ cell_state s' = cell_state s
    /\ start s' = start s.
Proof.
  intros [Hshape Hpend Hsides Hheap] Hun Hd.
  pose proof Hshape as (Hls & Hld & Hlc).
  destruct (unvisited_true width height _ n Hld Hun) as (Hn & _ & _).
  destruct (q_up_grid width height width_pos height_pos n d s Hshape Hn)
    as (s' & E & Hshape' & Hv & Hdist & Hh & Hq & Hw & Hst & Hs).
  exists s'. split; [assumption|]. split; [|auto 10].
  constructor.
  - assumption.
  - intros c Hc. unfold pending in *. rewrite Hq, Hh in Hc.
    rewrite !in_app_iff in Hc. destruct Hc as [[Hc|[<-|[]]]|Hc]; try assumption.
    + apply Hpend. apply in_app_iff. now left.
    + apply in_map_iff in Hc as (e & <- & He).
      apply heappush_In in He as [->|He]; [assumption|].
      apply Hpend. apply in_app_iff. right. now apply in_map.
  - intros c Hc. rewrite (Hs c Hc), (Hsides c Hc), Hdist. simpl.
    now rewrite open_sides_mark.
  - intros c Hc Hvis Hopen Hsp. rewrite Hh, Hdist in *.
    rewrite (distance_of_mark _ n c d Hld Hn Hc) in Hvis.
    rewrite open_sides_mark in Hopen by assumption.
    apply in_map_iff.
    destruct (decide (c = n)) as [->|Hne].
    + exists (- d, n). split; [reflexivity|]. apply heappush_In. now left.
    + rewrite bool_decide_eq_false_2 in Hvis by assumption.
      pose proof (adjacency_nonneg n c).
      destruct (proj1 (in_map_iff _ _ _) (Hheap c Hc Hvis ltac:(lia) Hsp))
        as (e & He & Hin).
      exists e. split; [assumption|]. apply heappush_In. now right.
Qed.

Lemma connect_core (spared : option cell) (cc n : cell) (s : frame) :
  grid_core width height spared s ->
  in_bounds width height cc = true -> in_bounds width height n = true ->
  In n (neighbours cc) ->
  exists s',
    connect width cc n s = Returns tt s'
    /\ grid_core width height spared s'
    /\ footprint s' = footprint s
    /\ start s' = start s.
Proof.
  intros [Hshape Hpend Hsides Hheap] Hcc Hn Hnb.
  pose proof Hshape as (Hls & Hld & Hlc).
  destruct (connect_neighbour width cc n Hnb) as (b1 & b2 & _ & _ & _ & _ & E).
  assert (HN : Z.of_nat N = width * height) by (unfold N, cell_count; nia).
  pose proof (t_in_range width height cc Hcc) as Hrc.
  pose proof (t_in_range width height n Hn) as Hrn.
  assert (Hret : exists s', connect width cc n s = Returns tt s').
  { rewrite E. unfold bind. rewrite open_wall_spec by (rewrite Hlc; fold N; lia).
    rewrite open_wall_spec by (simpl; rewrite length_insert, Hlc; fold N; lia).
    eauto. }
  destruct Hret as (s' & Hret). exists s'. split; [assumption|].
  assert (Hfp : footprint s' = footprint s).
  { exact (preserves_Returns _ _ _ _ _ (connect_footprint width (footprint s) cc n)
             eq_refl Hret). }
  assert (Hkeep : cell_remaining_sides s' = cell_remaining_sides s /\ start s' = start s).
  { eapply (preserves_Returns
              (fun x => cell_remaining_sides x = cell_remaining_sides s
                        /\ start x = start s));
      [|split; reflexivity|exact Hret].
    preserves_all ltac:(intros ? ? [? ?] ?; split; simpl; assumption). }
  destruct Hkeep as (Hs' & Hst').
  split; [|split; assumption].
  unfold footprint in Hfp. injection Hfp as Hv Hd Hh Hq Hlc' Hls'.
  constructor.
  - repeat split; congruence.
  - unfold pending. rewrite Hq, Hh. exact Hpend.
  - intros c Hc. rewrite Hs', Hd. now apply Hsides.
  - intros c Hc. rewrite Hd, Hh. now apply Hheap.
Qed.

Lemma for_each_core (spared : option cell) (cc : cell) (d : Z) (selection : list cell) :
  d <> INF -> NoDup selection -> in_bounds width height cc = true ->
  forall s,
    (forall n, In n selection ->
       unvisited width height (cell_distance s) n = true /\ In n (neighbours cc)) ->
    grid_core width height spared s ->
    exists s',
      for_each selection (fun n => connect width cc n ;;; q_up width height n d) s
      = Returns tt s'
      /\ grid_core width height spared s'
      /\ q s' = q s ++ selection
      /\ open_sides width height (cell_distance s') cc
         = open_sides width height (cell_distance s) cc - Z.of_nat (length selection)
      /\ cells_visited s' = cells_visited s + Z.of_nat (length selection)
      /\ start s' = start s.
Proof.
  intros HINF Hnd Hcc. induction Hnd as [|n selection Hnotin Hnd IH];
    intros s Hsel Hcore.
  - exists s. simpl. rewrite app_nil_r. split; [reflexivity|]. split; [assumption|].
    split; [reflexivity|]. split; [lia|]. split; [lia|reflexivity].
  - destruct (Hsel n (or_introl eq_refl)) as (Hun & Hnb).
    pose proof (core_shape _ _ _ _ Hcore) as (_ & Hld & _).
    destruct (unvisited_true width height _ n Hld Hun) as (Hn & _ & _).
    destruct (connect_core spared cc n s Hcore Hcc Hn Hnb)
      as (s2 & E2 & Hcore2 & Hfp & Hst2).
    unfold footprint in Hfp. injection Hfp as Hv2 Hd2 _ Hq2 _ _.
    destruct (q_up_core spared n d s2 Hcore2)
      as (s1 & E1 & Hcore1 & Hv1 & Hd1 & Hq1 & _ & Hst1);
      [now rewrite Hd2|assumption|].
    destruct (IH s1) as (s' & E' & Hcore' & Hq' & Hopen' & Hv' & Hst'); [|assumption|].
    { intros m Hm. destruct (Hsel m (or_intror Hm)) as (Hum & Hmb).
      split; [|assumption]. rewrite Hd1, Hd2.
      destruct (unvisited_true width height _ m Hld Hum) as (Hinm & _ & _).
      rewrite unvisited_other; try assumption.
      intros ->. apply Hnotin. now apply list_elem_of_In. }
    exists s'. split.
    + cbn [for_each]. rewrite (bind_of_Returns _ _ s tt s1); [exact E'|].
      now rewrite (bind_of_Returns _ _ _ _ _ E2).
    + split; [assumption|]. split; [|split; [|split]].
      * rewrite Hq', Hq1, Hq2, <- app_assoc. reflexivity.
      * rewrite Hopen', Hd1, Hd2.
        rewrite open_sides_mark by assumption.
        rewrite (adjacency_neighbour n cc Hnb). simpl length. lia.
      * rewrite Hv', Hv1, Hv2. simpl length. lia.
      * now rewrite Hst', Hst1, Hst2.
Qed.

End GridLoop.

(** *** The draws of an iteration succeed *)

Lemma sample_pool_total {A : Type} (k : nat) :
  forall (pool : list A) (n : nat) (s : frame),
    (k <= n)%nat -> (n <= length pool)%nat ->
    exists sel s', sample_pool k pool n s = Returns sel s'.
Proof.
  induction k as [|k IH]; intros pool n s Hk Hn; simpl; [unfold ret; eauto|].
  unfold bind at 1. rewrite randbelow_spec.
  pose proof (Z.mod_pos_bound (next_raw s) (Z.of_nat n) ltac:(lia)) as Hj.
  destruct (lookup_lt_is_Some_2 pool (Z.to_nat (next_raw s mod Z.of_nat n)) ltac:(lia))
    as [x Hx].
  destruct (lookup_lt_is_Some_2 pool (n - 1)%nat ltac:(lia)) as [y Hy].
  rewrite Hx, Hy.
  destruct (IH (<[Z.to_nat (next_raw s mod Z.of_nat n) := y]> pool) (n - 1)%nat
              (consume s)) as (rest & s' & E); [lia|rewrite length_insert; lia|].
  unfold bind. rewrite E. unfold ret. eauto.
Qed.

Lemma random_sample_total {A : Type} (population : list A) (k : nat) (s : frame) :
  (k <= length population)%nat ->
  exists sel s', random_sample population k s = Returns sel s'.
Proof.
  intros Hk. unfold random_sample.
  destruct (Nat.leb_spec k (length population)); [|lia].
  now apply sample_pool_total.
Qed.

Lemma visited_count_short (distances : list Z) :
  (visited_count distances < length distances)%nat ->
  exists i, distances !! i = Some INF.
Proof.
  unfold visited_count. induction distances as [|a l IH]; simpl; [lia|].
  destruct (Z.eqb_spec a INF) as [->|Hne]; simpl; intros H.
  - exists 0%nat. reflexivity.
  - destruct IH as (i & Hi); [lia|]. exists (S i). exact Hi.
Qed.

Section GridRun.

Variables (width height : Z) (branch_dist : list Q).
Hypothesis width_pos : 1 <= width.
Hypothesis height_pos : 1 <= height.
Hypothesis count_small : cell_count width height <= INF.
Hypothesis weights : weights_ok branch_dist.

Let N : nat := Z.to_nat (cell_count width height).

Lemma grid_core_rand (spared : option cell) (s : frame) (ws : list Z) :
  grid_core width height spared s -> grid_core width height spared (set_rand_words ws s).
Proof. intros [? ? ? ?]. constructor; assumption. Qed.

Lemma visit_inv_rand (s : frame) (ws : list Z) :
  visit_inv width height s -> visit_inv width height (set_rand_words ws s).
Proof.
  intros [[? ? ? ?] ? ? ? ?]. constructor; [constructor|..]; assumption.
Qed.

(** Between a visited and an unvisited cell of the grid lies a visited
    cell with an unvisited neighbour. *)
Lemma frontier (distances : list Z) (b : cell) (k : nat) :
  in_bounds width height b = true ->
  distance_of width distances b = INF ->
  forall a,
    in_bounds width height a = true ->
    distance_of width distances a <> INF ->
    Z.abs (fst a - fst b) + Z.abs (snd a - snd b) = Z.of_nat k ->
    exists v,
      in_bounds width height v = true
      /\ distance_of width distances v <> INF
      /\ 1 <= open_sides width height distances v.
Proof.
  intros Hb Hdb. induction k as [|k IH]; intros a Ha Hda Hk.
  - exfalso. apply Hda. replace a with b; [assumption|].
    destruct a, b. simpl in *. f_equal; lia.
  - apply in_bounds_spec in Ha as Ha', Hb as Hb'.
    assert (Hstep : exists a',
              In a' (neighbours a) /\ in_bounds width height a' = true
              /\ Z.abs (fst a' - fst b) + Z.abs (snd a' - snd b) = Z.of_nat k).
    { unfold neighbours.
      destruct (Z.lt_trichotomy (fst a) (fst b)) as [Hlt|[Heq|Hgt]].
      - exists (c_r a). split; [simpl; tauto|]. unfold c_r. simpl.
        split; [apply in_bounds_spec; simpl; lia|lia].
      - destruct (Z.lt_trichotomy (snd a) (snd b)) as [Hlt|[Heq'|Hgt]].
        + exists (c_b a). split; [simpl; tauto|]. unfold c_b. simpl.
          split; [apply in_bounds_spec; simpl; lia|lia].
        + lia.
        + exists (c_t a). split; [simpl; tauto|]. unfold c_t. simpl.
          split; [apply in_bounds_spec; simpl; lia|lia].
      - exists (c_l a). split; [simpl; tauto|]. unfold c_l. simpl.
        split; [apply in_bounds_spec; simpl; lia|lia]. }
    destruct Hstep as (a' & Hnb & Ha'in & Hk').
    destruct (Z.eq_dec (distance_of width distances a') INF) as [Hinf|Hvis].
    + exists a. split; [assumption|]. split; [assumption|].
      unfold open_sides.
      assert (Hin : In a' (List.filter (unvisited width height distances) (neighbours a))).
      { apply filter_In. split; [assumption|]. unfold unvisited.
        rewrite Ha'in, Hinf. apply Z.eqb_refl. }
      destruct (List.filter (unvisited width height distances) (neighbours a));
        [contradiction|simpl; lia].
    + now apply (IH a').
Qed.

(** While cells are missing, some visited cell can still branch. *)
Lemma some_cell_can_branch (s : frame) (c0 : cell) :
  visit_inv width height s -> grid_core width height None s ->
  in_bounds width height c0 = true ->
  distance_of width (cell_distance s) c0 <> INF ->
  cells_visited s < cell_count width height ->
  exists v,
    in_bounds width height v = true
    /\ distance_of width (cell_distance s) v <> INF
    /\ 1 <= open_sides width height (cell_distance s) v.
Proof.
  intros Hv Hcore Hin0 Hd0 Hguard.
  destruct (core_shape _ _ _ _ Hcore) as (_ & Hld & _).
  destruct (visited_count_short (cell_distance s)) as (i & Hi).
  { pose proof (vis_count _ _ _ Hv). rewrite Hld. unfold cell_count in *. lia. }
  assert (Hlt : 0 <= Z.of_nat i < width * height).
  { apply lookup_lt_Some in Hi. rewrite Hld in Hi. unfold cell_count in *. lia. }
  destruct (t_encode width height (Z.of_nat i) width_pos Hlt) as (Hb & Htb).
  set (b := (Z.of_nat i mod width, Z.of_nat i / width)) in *.
  assert (Hdb : distance_of width (cell_distance s) b = INF).
  { unfold distance_of. rewrite py_get_in_range by (rewrite Htb, Hld; unfold cell_count; lia).
    rewrite Htb, Nat2Z.id, Hi. reflexivity. }
  apply (frontier (cell_distance s) b
           (Z.to_nat (Z.abs (fst c0 - fst b) + Z.abs (snd c0 - snd b))) Hb Hdb c0);
    [assumption|assumption|lia].
Qed.

(** With the queue empty and cells missing, [fallback_cell] hands out a
    cell of the grid that has a neighbour to branch into. *)
Lemma fallback_cell_grid (s : frame) (c0 : cell) :
  visit_inv width height s -> grid_core width height None s ->
  in_bounds width height c0 = true ->
  distance_of width (cell_distance s) c0 <> INF ->
  cells_visited s < cell_count width height ->
  exists e h',
    fallback_cell width s = Returns (Some (snd e)) (set_cell_by_distance h' s)
    /\ In e (cell_by_distance s)
    /\ (forall x, In x h' -> In x (cell_by_distance s))
    /\ 1 <= open_sides width height (cell_distance s) (snd e)
    /\ grid_core width height
         (if 1 <? open_sides width height (cell_distance s) (snd e)
          then None else Some (snd e))
         (set_cell_by_distance h' s).
Proof.
  intros Hv Hcore Hin0 Hd0 Hguard.
  destruct (some_cell_can_branch s c0 Hv Hcore Hin0 Hd0 Hguard) as (v & Hvin & Hvd & Hvo).
  pose proof (core_heap _ _ _ _ Hcore v Hvin Hvd Hvo ltac:(discriminate)) as Hvheap.
  apply in_map_iff in Hvheap as (ev & Hev & Hevin).
  destruct (fallback_from_scan width (cell_remaining_sides s) (cell_by_distance s))
    as (skipped & rest & Hh & Hskip & Hrest).
  assert (Hheap_in : forall e, In e (cell_by_distance s) ->
            in_bounds width height (snd e) = true).
  { intros e He. apply (core_pending _ _ _ _ Hcore). unfold pending.
    apply in_app_iff. right. now apply in_map. }
  assert (Hskipped : forall e, In e skipped ->
            open_sides width height (cell_distance s) (snd e) <= 0).
  { intros e He. destruct (Hskip e He) as (r & Hr & Hle).
    rewrite (core_sides _ _ _ _ Hcore) in Hr
      by (apply Hheap_in; rewrite Hh; apply in_app_iff; now left).
    injection Hr as <-. exact Hle. }
  destruct rest as [|e kept].
  { exfalso. rewrite Hh, app_nil_r in Hevin. specialize (Hskipped ev Hevin).
    rewrite Hev in Hskipped. lia. }
  assert (Hein : In e (cell_by_distance s)).
  { rewrite Hh. apply in_app_iff. right. now left. }
  rewrite (core_sides _ _ _ _ Hcore (snd e) (Hheap_in e Hein)) in Hrest.
  destruct Hrest as (Hr & Hfrom).
  set (r := open_sides width height (cell_distance s) (snd e)) in *.
  exists e, (if 1 <? r then e :: kept else kept).
  split; [unfold fallback_cell; now rewrite Hfrom|].
  split; [assumption|].
  assert (Hsub : forall x, In x (if 1 <? r then e :: kept else kept) ->
                   In x (cell_by_distance s)).
  { intros x Hx. rewrite Hh. apply in_app_iff. right.
    destruct (1 <? r); [assumption|now right]. }
  split; [assumption|]. split; [assumption|].
  destruct Hcore as [Hshape Hpend Hsides Hcovers]. constructor; simpl.
  - assumption.
  - intros c Hc. apply Hpend. unfold pending in *. simpl in Hc.
    rewrite in_app_iff in *. destruct Hc as [Hc|Hc]; [now left|right].
    apply in_map_iff in Hc as (x & <- & Hx). apply in_map. now apply Hsub.
  - assumption.
  - intros c Hc Hd Ho Hsp.
    change (cell_distance (set_cell_by_distance (if 1 <? r then e :: kept else kept) s))
      with (cell_distance s) in *.
    change (cell_by_distance (set_cell_by_distance (if 1 <? r then e :: kept else kept) s))
      with (if 1 <? r then e :: kept else kept).
    pose proof (Hcovers c Hc Hd Ho ltac:(discriminate)) as Hin.
    apply in_map_iff in Hin as (x & Hxc & Hx). apply in_map_iff. exists x.
    split; [assumption|].
    rewrite Hh in Hx. apply in_app_iff in Hx as [Hx|[Hx|Hx]].
    + specialize (Hskipped x Hx). rewrite Hxc in Hskipped. lia.
    + subst x. destruct (1 <? r) eqn:E; [now left|].
      exfalso. apply Hsp. fold r. rewrite E. now rewrite Hxc.
    + destruct (1 <? r); [now right|assumption].
Qed.

Lemma distances_kept_cell (distances distances' : list Z) (c : cell) :
  distances_kept distances distances' ->
  length distances = N -> length distances' = N ->
  in_bounds width height c = true ->
  distance_of width distances c <> INF ->
  distance_of width distances' c = distance_of width distances c.
Proof.
  intros Hk Hl Hl' Hc Hd. unfold distance_of in *.
  destruct (py_get_cell width height width_pos height_pos distances c Hl Hc) as (E & Hlt).
  destruct (py_get_cell width height width_pos height_pos distances' c Hl' Hc) as (E' & _).
  rewrite E in *. rewrite E'.
  destruct (distances !! Z.to_nat (t width c)) as [d|] eqn:Ed; [|now contradiction Hd].
  simpl in Hd. now rewrite (Hk _ _ Ed Hd).
Qed.

(** The branching step from a cell of the grid returns. *)
Lemma branch_from_grid (spared : option cell) (b : bool) (cc : cell) (s : frame) :
  visit_inv width height s ->
  grid_core width height spared s ->
  cells_visited s < cell_count width height ->
  in_bounds width height cc = true ->
  distance_of width (cell_distance s) cc <> INF ->
  blocked width height (cell_distance s) cc ->
  (b = false -> 1 <= open_sides width height (cell_distance s) cc) ->
  (spared = None
   \/ (spared = Some cc /\ b = false
       /\ open_sides width height (cell_distance s) cc = 1)) ->
  exists s' k,
    branch_from width height branch_dist b cc s = Returns tt s'
    /\ visit_inv width height s'
    /\ grid_core width height None s'
    /\ extends s s'
    /\ start s' = start s
    /\ cells_visited s' = cells_visited s + Z.of_nat k
    /\ length (q s') = (length (q s) + k)%nat
    /\ (b = false -> (1 <= k)%nat).
Proof.
  intros Hv Hcore Hguard Hcc Hvis Hbl Hforced Hsp.
  pose proof (vis_loop _ _ _ Hv) as Hinv.
  pose proof (core_shape _ _ _ _ Hcore) as Hshape.
  pose proof Hshape as (Hls & Hld & Hlc).
  pose proof (t_in_range width height cc Hcc) as Hrange.
  (* the distance of the current cell *)
  destruct (py_get_cell width height width_pos height_pos (cell_distance s) cc Hld Hcc)
    as (Hget & Hlt).
  destruct (lookup_lt_is_Some_2 _ _ Hlt) as [d Hd].
  assert (Hload : load cell_distance (t width cc) s = Returns d s).
  { unfold load. now rewrite Hget, Hd. }
  assert (HdINF : d <> INF).
  { unfold distance_of in Hvis. now rewrite Hget, Hd in Hvis. }
  assert (Hdv : 0 <= d < cells_visited s).
  { destruct (inv_distance _ _ _ Hinv _ _ Hd); [contradiction|assumption]. }
  (* the possible branches *)
  pose proof (possible_branches_spec width height cc s width_pos height_pos Hshape) as Hpb.
  set (pb := List.filter (unvisited width height (cell_distance s)) (neighbours cc)) in *.
  assert (Hfew : (length pb <= 3)%nat) by now apply blocked_few_branches.
  assert (Hopen : open_sides width height (cell_distance s) cc = Z.of_nat (length pb))
    by reflexivity.
  (* the branch count *)
  destruct weights as (Hlen & w0 & rest & Hbd & Hw0 & Hrest).
  destruct (sample_branch_count_spec branch_dist (length pb) s) as (Htotal & Hprops).
  destruct (Htotal w0 rest Hbd Hw0 Hrest) as (k0 & Hk0); [lia|].
  destruct (Hprops k0 _ Hk0) as (Hle & _ & _).
  set (k := if negb b && (k0 =? 0)%nat then 1%nat else k0).
  assert (Hk : (k <= length pb)%nat).
  { unfold k. destruct b; simpl; [assumption|].
    destruct (Nat.eqb_spec k0 0); [|assumption].
    specialize (Hforced eq_refl). lia. }
  (* the selection *)
  destruct (random_sample_total pb k (consume s) Hk) as (selection & s3 & E3).
  pose proof (random_sample_In _ _ _ _ _ E3) as Hsel.
  pose proof (random_sample_length _ _ _ _ _ E3) as Hsl.
  assert (Hnd : NoDup selection).
  { eapply random_sample_NoDup; [|exact E3].
    apply NoDup_ListNoDup, List.NoDup_filter, NoDup_ListNoDup, neighbours_NoDup. }
  assert (Hcore3 : grid_core width height spared s3).
  { eapply (preserves_Returns (grid_core width height spared)); [| |exact E3].
    - apply preserves_random_sample. intros. now apply grid_core_rand.
    - now apply grid_core_rand. }
  assert (Hfp3 : footprint s3 = footprint s).
  { eapply (preserves_Returns (footprint_is (footprint s))); [| |exact E3].
    - preserves_all footprint_leaf.
    - reflexivity. }
  assert (Hst3 : start s3 = start s).
  { eapply (preserves_Returns (fun x => start x = start s)); [| |exact E3].
    - preserves_all ltac:(intros; simpl; assumption).
    - reflexivity. }
  unfold footprint in Hfp3. injection Hfp3 as Hv3 Hd3 _ Hq3 _ _.
  (* the loop over the selection *)
  destruct (for_each_core width height width_pos height_pos spared cc (d + 1) selection
              ltac:(unfold INF in *; lia) Hnd Hcc s3)
    as (s' & E' & Hcore' & Hq' & Hopen' & Hv' & Hst'); [|assumption|].
  { intros n Hn. apply Hsel in Hn. apply filter_In in Hn as (Hnb & Hu).
    rewrite Hd3. now split. }
  assert (E : branch_from width height branch_dist b cc s = Returns tt s').
  { unfold branch_from.
    rewrite (bind_of_Returns _ _ s d s Hload).
    rewrite (bind_of_Returns _ _ s pb s Hpb).
    rewrite (bind_of_Returns _ _ s k0 (consume s) Hk0).
    cbv zeta. fold k.
    rewrite (bind_of_Returns _ _ _ selection s3 E3). exact E'. }
  destruct (branch_from_visit width height branch_dist width_pos height_pos count_small
              b cc s s' Hv Hguard ltac:(unfold cell_count; lia) Hvis Hbl E)
    as (Hvisit' & Hext & _).
  exists s', k. split; [assumption|]. split; [assumption|].
  split; [|split; [assumption|split; [now rewrite Hst', Hst3|]]].
  - (* the spared cell has no side left *)
    destruct Hsp as [->|(-> & -> & Hone)]; [assumption|].
    destruct Hcore' as [Hshape' Hpend' Hsides' Hcovers'].
    constructor; try assumption.
    intros c Hc Hdc Hoc _. apply Hcovers'; try assumption.
    intros [= ->]. rewrite Hopen', Hd3, Hone, Hsl in Hoc.
    assert ((1 <= k)%nat); [|lia].
    unfold k. simpl. destruct (Nat.eqb_spec k0 0); lia.
  - split; [rewrite Hv', Hv3, Hsl; reflexivity|].
    split; [rewrite Hq', Hq3, length_app, Hsl; reflexivity|].
    intros ->. unfold k. simpl. destruct (Nat.eqb_spec k0 0); lia.
Qed.

Lemma chooses_visit (s : frame) (b : bool) (cc : cell) (s1 : frame) :
  visit_inv width height s -> chooses width s b cc s1 -> visit_inv width height s1.
Proof.
  intros Hvinv Hch. pose proof (vis_loop _ _ _ Hvinv) as Hinv.
  destruct (chooses_inv width height s b cc s1 Hinv Hch) as (H1 & Hv & Hd & Hcc).
  destruct (chooses_walls width s b cc s1 Hch) as (Hw & _ & _).
  destruct Hvinv as [_ Hm Ho Hc Hkeys]. constructor.
  - assumption.
  - now rewrite Hw.
  - rewrite Hw, Hd. exact Ho.
  - now rewrite Hv, Hd.
  - rewrite Hd. intros e He. apply Hkeys.
    now apply (chooses_heap width s b cc s1 Hch).
Qed.

(** An iteration of a run that started in the grid returns, keeps the
    invariant and uses up one of the iterations left. *)
Lemma loop_body_grid (s : frame) :
  grid_inv width height s ->
  cells_visited s < cell_count width height ->
  exists s',
    loop_body width height branch_dist s = Returns tt s'
    /\ grid_inv width height s'
    /\ iterations_left width height s' < iterations_left width height s.
Proof.
  intros [Hv Hcore (c0 & Hst0 & Hin0 & Hd0)] Hguard.
  pose proof (vis_loop _ _ _ Hv) as Hinv.
  assert (Hfinish : forall b cc s1 spared,
            chooses width s b cc s1 ->
            grid_core width height spared s1 ->
            (b = false -> 1 <= open_sides width height (cell_distance s1) cc) ->
            (spared = None
             \/ (spared = Some cc /\ b = false
                 /\ open_sides width height (cell_distance s1) cc = 1)) ->
            start s1 = start s ->
            (length (q s1) + (if b then 1 else 0) = length (q s))%nat ->
            exists s',
              loop_body width height branch_dist s = Returns tt s'
              /\ grid_inv width height s'
              /\ iterations_left width height s' < iterations_left width height s).
  { intros b cc s1 spared Hch Hcore1 Hforced Hsp Hst1 Hq1.
    destruct (chooses_inv width height s b cc s1 Hinv Hch) as (_ & Hcv & Hd & Hcc).
    destruct (inv_pending _ _ _ Hinv cc Hcc) as (_ & Hvis & Hbl).
    pose proof (core_pending _ _ _ _ Hcore cc Hcc) as Hccin.
    destruct (branch_from_grid spared b cc s1 (chooses_visit s b cc s1 Hv Hch) Hcore1)
      as (s' & k & E & Hv' & Hcore' & Hext & Hst' & Hcv' & Hq' & Hk);
      try assumption; try (now rewrite Hcv); try (now rewrite Hd).
    exists s'. split; [now rewrite (loop_body_chooses width height branch_dist s b cc s1 Hch)|].
    split.
    - constructor; [assumption|assumption|].
      exists c0. rewrite Hst', Hst1. split; [assumption|]. split; [assumption|].
      destruct Hext as (Hkept & _ & _). rewrite Hd in Hkept.
      rewrite (distances_kept_cell _ _ c0 Hkept); try assumption.
      + now destruct (core_shape _ _ _ _ Hcore) as (_ & ? & _).
      + now destruct (core_shape _ _ _ _ Hcore') as (_ & ? & _).
    - unfold iterations_left. rewrite Hcv', Hcv, Hq'.
      destruct b; [lia|]. specialize (Hk eq_refl). lia. }
  destruct (q s) as [|c rest] eqn:Hq.
  - (* a restart *)
    destruct (fallback_cell_grid s c0 Hv Hcore Hin0 Hd0 Hguard)
      as (e & h' & Hfb & Hein & Hsub & Hr & Hcore1).
    apply (Hfinish false (snd e) (set_cell_by_distance h' s)
             (if 1 <? open_sides width height (cell_distance s) (snd e)
              then None else Some (snd e))).
    + right. auto.
    + assumption.
    + intros _. exact Hr.
    + simpl. destruct (Z.ltb_spec 1 (open_sides width height (cell_distance s) (snd e)));
        [now left|right]. split; [reflexivity|]. split; [reflexivity|lia].
    + reflexivity.
    + simpl. rewrite Hq. reflexivity.
  - (* the next cell of the queue *)
    apply (Hfinish true c (set_q rest s) None).
    + left. exists rest. auto.
    + destruct Hcore as [Hshape Hpend Hsides Hcovers]. constructor; try assumption.
      intros x Hx. apply Hpend. unfold pending in *. simpl in Hx. rewrite Hq.
      simpl. now right.
    + discriminate.
    + now left.
    + reflexivity.
    + simpl. lia.
Qed.

(** The loop of a run that started in the grid returns within the
    iterations left. *)
Lemma grow_grid (fuel : nat) :
  forall s,
    grid_inv width height s ->
    iterations_left width height s <= Z.of_nat fuel ->
    exists s',
      grow width height branch_dist fuel s = Returns tt s'
      /\ grid_inv width height s'.
Proof.
  induction fuel as [|fuel IH]; intros s Hs Hleft.
  - exists s. simpl.
    destruct (Z.ltb_spec (cells_visited s) (cell_count width height)) as [Hguard|Hguard];
      [|now split].
    exfalso. unfold iterations_left in Hleft. lia.
  - simpl.
    destruct (Z.ltb_spec (cells_visited s) (cell_count width height)) as [Hguard|Hguard];
      [|exists s; now split].
    destruct (loop_body_grid s Hs Hguard) as (s1 & E1 & Hs1 & Hless).
    destruct (IH s1 Hs1 ltac:(lia)) as (s' & E' & Hs').
    exists s'. split; [|assumption].
    now rewrite (bind_of_Returns _ _ _ _ _ E1).
Qed.

End GridRun.

(** *** The initial remaining-sides array *)

Lemma store_sides_Returns (i v : Z) (s s' : frame) :
  0 <= i ->
  store cell_remaining_sides set_cell_remaining_sides i v s = Returns tt s' ->
  cell_remaining_sides s' = <[Z.to_nat i := v]> (cell_remaining_sides s)
  /\ (Z.to_nat i < length (cell_remaining_sides s))%nat.
Proof.
  intros Hi H. apply store_Returns in H as (a' & Hset & ->). simpl.
  unfold py_set in Hset.
  destruct (py_index (length (cell_remaining_sides s)) i) as [k|] eqn:Ek; [|discriminate].
  apply py_index_nonneg in Ek as (-> & Hlt); [|assumption].
  injection Hset as <-. split; [reflexivity|lia].
Qed.

Lemma lookup_two_inserts (a : list Z) (j k i : nat) (v : Z) :
  (j < length a)%nat -> (k < length a)%nat ->
  <[k := v]> (<[j := v]> a) !! i
  = if ((j =? i)%nat || (k =? i)%nat)%bool then Some v else a !! i.
Proof.
  intros Hj Hk. destruct (Nat.eqb_spec k i) as [->|Hki].
  - rewrite orb_true_r. apply list_lookup_insert_eq. now rewrite length_insert.
  - rewrite orb_false_r, list_lookup_insert_ne by assumption.
    destruct (Nat.eqb_spec j i) as [->|Hji].
    + now apply list_lookup_insert_eq.
    + now apply list_lookup_insert_ne.
Qed.

(** A pass that stores [v] at two positions per element. *)
Lemma for_each_marks (f g : Z -> Z) (v : Z) (xs : list Z) :
  (forall x, In x xs -> 0 <= f x /\ 0 <= g x) ->
  forall s s',
    for_each xs
      (fun x =>
         store cell_remaining_sides set_cell_remaining_sides (f x) v ;;;
         store cell_remaining_sides set_cell_remaining_sides (g x) v) s
    = Returns tt s' ->
    length (cell_remaining_sides s') = length (cell_remaining_sides s)
    /\ forall i,
         cell_remaining_sides s' !! i
         = if existsb (fun x => (Z.to_nat (f x) =? i)%nat || (Z.to_nat (g x) =? i)%nat) xs
           then Some v
           else cell_remaining_sides s !! i.
Proof.
  induction xs as [|x xs IH]; intros Hpos s s' H.
  - simpl in H. injection H as <-. now split.
  - cbn [for_each] in H. apply bind_Returns in H as ([] & s2 & H2 & H).
    apply bind_Returns in H2 as ([] & s1 & H1 & H2).
    destruct (Hpos x (or_introl eq_refl)) as (Hf & Hg).
    apply store_sides_Returns in H1 as (E1 & L1); [|assumption].
    apply store_sides_Returns in H2 as (E2 & L2); [|assumption].
    rewrite E1, length_insert in L2.
    destruct (IH (fun y Hy => Hpos y (or_intror Hy)) s2 s' H) as (Hlen & Hat).
    rewrite E2, E1 in Hlen, Hat. rewrite !length_insert in Hlen.
    split; [assumption|]. intros i. rewrite Hat. cbn [existsb].
    rewrite lookup_two_inserts by assumption.
    destruct (existsb _ xs); [now rewrite orb_true_r|].
    now rewrite orb_false_r.
Qed.

Section InitSides.

Variables (width height : Z).
Hypothesis width_two : 2 <= width.
Hypothesis height_two : 2 <= height.

Let N : nat := Z.to_nat (cell_count width height).

Lemma index_eqb (c c' : cell) :
  in_bounds width height c = true -> in_bounds width height c' = true ->
  (Z.to_nat (t width c') =? Z.to_nat (t width c))%nat = bool_decide (c' = c).
Proof.
  intros Hc Hc'.
  pose proof (t_in_range width height c Hc). pose proof (t_in_range width height c' Hc').
  destruct (decide (c' = c)) as [->|Hne].
  - rewrite bool_decide_eq_true_2 by reflexivity. apply Nat.eqb_refl.
  - rewrite bool_decide_eq_false_2 by assumption. apply Nat.eqb_neq.
    intros E. apply Hne. apply (t_injective width height); try assumption. lia.
Qed.

(** [init_state] stores the number of neighbours each cell has in the
    grid. *)
Lemma init_state_sides (s s' : frame) (c : cell) :
  init_state width height s = Returns tt s' ->
  in_bounds width height c = true ->
  py_get (cell_remaining_sides s') (t width c)
  = Some (Z.of_nat (length (grid_neighbours width height c))).
Proof.
  intros H Hc. pose proof (init_state_shaped _ _ _ _ H) as (Hls & _ & _).
  destruct (py_get_cell width height ltac:(lia) ltac:(lia) (cell_remaining_sides s') c Hls Hc)
    as (-> & Hlt).
  pose proof Hc as Hxy. apply in_bounds_spec in Hxy. destruct c as [x y]. simpl in Hxy.
  set (i := Z.to_nat (t width (x, y))) in *.
  unfold init_state in H.
  apply bind_Returns in H as ([] & s1 & H1 & H). apply modify_Returns in H1.
  apply bind_Returns in H as ([] & s2 & H2 & H). apply modify_Returns in H2.
  apply bind_Returns in H as ([] & s3 & H3 & H).
  apply (for_each_marks (fun x => t width (x, 0)) (fun x => t width (x, height - 1)) 3)
    in H3 as (L3 & A3);
    [|intros x' Hx'; apply range_spec in Hx'; unfold t; simpl; nia].
  apply bind_Returns in H as ([] & s4 & H4 & H).
  apply (for_each_marks (fun y => t width (0, y)) (fun y => t width (width - 1, y)) 3)
    in H4 as (L4 & A4);
    [|intros y' Hy'; apply range_spec in Hy'; unfold t; simpl; nia].
  apply bind_Returns in H as ([] & s5 & H5 & H).
  apply store_sides_Returns in H5 as (E5 & L5); [|unfold t; simpl; nia].
  apply bind_Returns in H as ([] & s6 & H6 & H).
  apply store_sides_Returns in H6 as (E6 & L6); [|unfold t; simpl; nia].
  apply bind_Returns in H as ([] & s7 & H7 & H).
  apply store_sides_Returns in H7 as (E7 & L7); [|unfold t; simpl; nia].
  apply bind_Returns in H as ([] & s8 & H8 & H).
  apply store_sides_Returns in H8 as (E8 & L8); [|unfold t; simpl; nia].
  unfold bind, modify in H. injection H as H. subst s'. simpl in *.
  assert (E2 : cell_remaining_sides s2 = repeat 4 N) by (subst s2; reflexivity).
  (* the two passes *)
  assert (Hrow : existsb
                   (fun x' => Nat.eqb (Z.to_nat (t width (x', 0))) i
                              || Nat.eqb (Z.to_nat (t width (x', height - 1))) i)
                   (range width)
                 = (y =? 0) || (y =? height - 1)).
  { apply eq_true_iff_eq. rewrite existsb_exists, orb_true_iff, !Z.eqb_eq. split.
    - intros (x' & Hx' & Hhit). apply range_spec in Hx'.
      apply orb_true_iff in Hhit as [Hhit|Hhit];
        unfold i in Hhit; rewrite index_eqb in Hhit;
        try assumption; try (apply in_bounds_spec; simpl; lia);
        apply bool_decide_eq_true_1 in Hhit; injection Hhit as Hx0 Hy0; lia.
    - intros Hy. exists x. split; [apply range_spec; lia|].
      apply orb_true_iff. unfold i.
      destruct Hy as [->| ->]; [left|right]; apply Nat.eqb_refl. }
  assert (Hcol : existsb
                   (fun y' => Nat.eqb (Z.to_nat (t width (0, y'))) i
                              || Nat.eqb (Z.to_nat (t width (width - 1, y'))) i)
                   (range height)
                 = (x =? 0) || (x =? width - 1)).
  { apply eq_true_iff_eq. rewrite existsb_exists, orb_true_iff, !Z.eqb_eq. split.
    - intros (y' & Hy' & Hhit). apply range_spec in Hy'.
      apply orb_true_iff in Hhit as [Hhit|Hhit];
        unfold i in Hhit; rewrite index_eqb in Hhit;
        try assumption; try (apply in_bounds_spec; simpl; lia);
        apply bool_decide_eq_true_1 in Hhit; injection Hhit as Hx0 Hy0; lia.
    - intros Hx. exists y. split; [apply range_spec; lia|].
      apply orb_true_iff. unfold i.
      destruct Hx as [->| ->]; [left|right]; apply Nat.eqb_refl. }
  assert (V4 : cell_remaining_sides s4 !! i
               = Some (if (x =? 0) || (x =? width - 1) then 3
                       else if (y =? 0) || (y =? height - 1) then 3 else 4)).
  { rewrite A4, Hcol. destruct ((x =? 0) || (x =? width - 1)); [reflexivity|].
    rewrite A3, Hrow. destruct ((y =? 0) || (y =? height - 1)); [reflexivity|].
    rewrite E2. apply lookup_repeat.
    rewrite Hls in Hlt. exact Hlt. }
  (* the four corners *)
  assert (Hcorner : forall c' : cell,
            in_bounds width height c' = true ->
            (Z.to_nat (t width c') =? i)%nat
            = (x =? fst c') && (y =? snd c')).
  { intros c' Hc'. unfold i. rewrite index_eqb by assumption.
    rewrite cell_decide. cbn [fst snd].
    now rewrite (Z.eqb_sym (fst c') x), (Z.eqb_sym (snd c') y). }
  assert (V8 : <[Z.to_nat (t width (width - 1, height - 1)) := 2]>
                 (<[Z.to_nat (t width (0, height - 1)) := 2]>
                    (<[Z.to_nat (t width (width - 1, 0)) := 2]>
                       (<[Z.to_nat (t width (0, 0)) := 2]> (cell_remaining_sides s4))))
               !! i
               = Some (if ((x =? 0) || (x =? width - 1))
                          && ((y =? 0) || (y =? height - 1)) then 2
                       else if (x =? 0) || (x =? width - 1) then 3
                       else if (y =? 0) || (y =? height - 1) then 3 else 4)).
  { rewrite E5 in L6. rewrite E6, E5 in L7. rewrite E7, E6, E5 in L8.
    rewrite !length_insert in *.
    pose proof (Hcorner (0, 0) ltac:(apply in_bounds_spec; simpl; lia)) as C1.
    pose proof (Hcorner (width - 1, 0) ltac:(apply in_bounds_spec; simpl; lia)) as C2.
    pose proof (Hcorner (0, height - 1) ltac:(apply in_bounds_spec; simpl; lia)) as C3.
    pose proof (Hcorner (width - 1, height - 1) ltac:(apply in_bounds_spec; simpl; lia))
      as C4.
    cbn [fst snd] in C1, C2, C3, C4.
    destruct (Nat.eqb_spec (Z.to_nat (t width (width - 1, height - 1))) i) as [E4|N4].
    { rewrite E4, list_lookup_insert_eq by (rewrite !length_insert; lia).
      symmetry in C4. apply andb_true_iff in C4 as [-> ->]. now rewrite !orb_true_r. }
    rewrite list_lookup_insert_ne by assumption.
    destruct (Nat.eqb_spec (Z.to_nat (t width (0, height - 1))) i) as [E3|N3].
    { rewrite E3, list_lookup_insert_eq by (rewrite !length_insert; lia).
      symmetry in C3. apply andb_true_iff in C3 as [-> ->]. now rewrite !orb_true_r. }
    rewrite list_lookup_insert_ne by assumption.
    destruct (Nat.eqb_spec (Z.to_nat (t width (width - 1, 0))) i) as [E2'|N2].
    { rewrite E2', list_lookup_insert_eq by (rewrite !length_insert; lia).
      symmetry in C2. apply andb_true_iff in C2 as [-> ->]. now rewrite !orb_true_r. }
    rewrite list_lookup_insert_ne by assumption.
    destruct (Nat.eqb_spec (Z.to_nat (t width (0, 0))) i) as [E1|N1].
    { rewrite E1, list_lookup_insert_eq by lia.
      symmetry in C1. apply andb_true_iff in C1 as [-> ->]. reflexivity. }
    rewrite list_lookup_insert_ne by assumption.
    rewrite V4. f_equal.
    destruct (x =? 0), (x =? width - 1), (y =? 0), (y =? height - 1);
      simpl in *; congruence. }
  rewrite E8, E7, E6, E5, V8. f_equal.
  unfold grid_neighbours. cbn [List.filter].
  rewrite (in_bounds_c_l width height (x, y) Hc), (in_bounds_c_r width height (x, y) Hc),
    (in_bounds_c_t width height (x, y) Hc), (in_bounds_c_b width height (x, y) Hc).
  simpl fst. simpl snd.
  destruct (Z.eqb_spec x 0), (Z.eqb_spec x (width - 1)), (Z.eqb_spec y 0),
    (Z.eqb_spec y (height - 1)); simpl; try reflexivity; lia.
Qed.

(** Before any cell is visited, every neighbour in the grid can be
    branched into. *)
Lemma open_sides_initial (c : cell) :
  open_sides width height (repeat INF N) c
  = Z.of_nat (length (grid_neighbours width height c)).
Proof.
  unfold open_sides, grid_neighbours, neighbours. f_equal. f_equal.
  apply filter_ext_in. intros m _. unfold unvisited.
  destruct (in_bounds width height m) eqn:Hm; [|reflexivity]. simpl.
  unfold distance_of.
  destruct (py_get_cell width height ltac:(lia) ltac:(lia) (repeat INF N) m
              (repeat_length _ _) Hm) as (-> & Hlt).
  rewrite repeat_length in Hlt. rewrite lookup_repeat by assumption. reflexivity.
Qed.

End InitSides.

(** *** The whole run *)

Lemma loop_body_start (width height : Z) (branch_dist : list Q) (x : option cell) :
  preserves (fun s => start s = x) (loop_body width height branch_dist).
Proof.
  assert (Hs : preserves (fun s => start s = x)
                 (possible_branches_of width height (0, 0)) \/ True) by now right.
  clear Hs. unfold loop_body.
  apply preserves_bind; [apply preserves_gets|intros queue].
  apply preserves_bind.
  - destruct queue; [|apply preserves_ret].
    apply preserves_bind; [apply preserves_fallback_cell; intros; simpl; assumption|].
    intros [c|]; [|apply preserves_raise].
    apply preserves_bind; [apply preserves_modify; intros; simpl; assumption|].
    intros _. apply preserves_ret.
  - intros b. apply preserves_bind;
      [apply preserves_popleft; intros; simpl; assumption|intros cc].
    preserves_all ltac:(intros; simpl; assumption).
Qed.

Lemma punch_exit_total (width height min_length : Z) (s : frame) :
  1 <= width -> 1 <= height ->
  shaped (Z.to_nat (cell_count width height)) s ->
  (exists s', punch_exit width height min_length s = Returns tt s')
  \/ punch_exit width height min_length s
     = Raises SystemExit (set_stdout (stdout s ++ [no_path_message]) s).
Proof.
  intros Hw Hh (_ & Hd & Hc).
  assert (Hcount : Z.of_nat (Z.to_nat (cell_count width height)) = width * height)
    by (unfold cell_count; nia).
  assert (Hrd : forall c, In c (all_cells width height) ->
                  0 <= t width c < Z.of_nat (length (cell_distance s))).
  { intros c Hc'. rewrite Hd, Hcount. now apply t_in_range, all_cells_spec. }
  assert (Hrc : forall c, In c (all_cells width height) ->
                  0 <= t width c < Z.of_nat (length (cell_state s))).
  { intros c Hc'. rewrite Hc, Hcount. now apply t_in_range, all_cells_spec. }
  destruct (exit_pool width height min_length (cell_distance s)) as [|x xs] eqn:Epool.
  - right. now apply punch_exit_empty.
  - left.
    destruct (lookup_lt_is_Some_2 (x :: xs)
                (Z.to_nat (next_raw s mod Z.of_nat (length (x :: xs))))) as [e He].
    { pose proof (Z.mod_pos_bound (next_raw s) (Z.of_nat (length (x :: xs)))
                    ltac:(simpl; lia)). lia. }
    rewrite <- Epool in He.
    rewrite (punch_exit_pick width height min_length s e Hrd Hrc He). eauto.
Qed.

Section GridHeads.

Variables (width height : Z) (branch_dist : list Q).
Variable seeded_words : Z -> list Z.
Variable seed : option Z.
Variable s0 : frame.
Hypothesis width_two : 2 <= width.
Hypothesis height_two : 2 <= height.
Hypothesis count_small : cell_count width height <= INF.
Hypothesis weights : weights_ok branch_dist.

Let N : nat := Z.to_nat (cell_count width height).

Lemma first_head_grid (s : frame) (c : cell) :
  (random_seed seeded_words seed ;;; init_state width height ;;;
   pick_start width height) s0 = Returns tt s ->
  start s = Some c -> in_bounds width height c = true ->
  grid_inv width height s.
Proof.
  intros H Hst Hc.
  assert (Hw : 1 <= width) by lia. assert (Hh : 1 <= height) by lia.
  pose proof (first_head_visit width height seeded_words seed s0 Hw Hh s H) as Hv.
  apply bind_Returns in H as ([] & s1 & _ & H).
  apply bind_Returns in H as ([] & s2 & H2 & H).
  pose proof (init_state_shaped _ _ _ _ H2) as (Hls2 & _ & _).
  pose proof (fun c' => init_state_sides width height width_two height_two s1 s2 c' H2)
    as Hsides2.
  apply init_state_spec in H2.
  apply pick_start_walls in H
    as (c' & bit & sd & s3 & _ & _ & Hfp & _ & Hsd & _ & _ & Hopen & Hst3 & H & _);
    try assumption.
  rewrite H2 in Hfp.
  pose proof (preserves_Returns _ _ _ _ _ (q_up_start width height (Some c') c' 0)
                Hst3 H) as Hst'.
  cbv beta in Hst'. rewrite Hst in Hst'. injection Hst' as <-.
  apply open_wall_Returns in Hopen as (k & v & _ & _ & Hs3).
  unfold footprint in Hfp. injection Hfp as Hv0 Hd0 Hh0 Hq0 Hlc Hls.
  assert (Hcore3 : grid_core width height None s3).
  { subst s3. constructor; simpl.
    - repeat split; simpl.
      + now rewrite Hsd.
      + rewrite Hd0. apply repeat_length.
      + rewrite length_insert. exact Hlc.
    - intros x Hx. unfold pending in Hx. simpl in Hx. now rewrite Hq0, Hh0 in Hx.
    - intros x Hx. rewrite Hsd, Hd0, (Hsides2 x Hx).
      now rewrite (open_sides_initial width height width_two height_two).
    - intros x Hx Hdx. exfalso. apply Hdx. simpl. rewrite Hd0.
      unfold distance_of.
      destruct (py_get_cell width height Hw Hh
                  (repeat INF (Z.to_nat (cell_count width height))) x
                  (repeat_length _ _) Hx) as (-> & Hlt).
      rewrite repeat_length in Hlt. now rewrite lookup_repeat. }
  assert (Hd3 : cell_distance s3 = repeat INF (Z.to_nat (cell_count width height))).
  { subst s3. exact Hd0. }
  assert (Hun : unvisited width height (cell_distance s3) c = true).
  { unfold unvisited. rewrite Hc, Hd3. simpl. apply Z.eqb_eq. unfold distance_of.
    destruct (py_get_cell width height Hw Hh
                (repeat INF (Z.to_nat (cell_count width height))) c
                (repeat_length _ _) Hc) as (-> & Hlt).
    rewrite repeat_length in Hlt. now rewrite lookup_repeat. }
  destruct (q_up_core width height Hw Hh None c 0 s3 Hcore3 Hun ltac:(unfold INF; lia))
    as (s' & E & Hcore & _ & Hdist & _).
  rewrite H in E. injection E as <-.
  constructor; [assumption|assumption|].
  exists c. split; [assumption|]. split; [assumption|].
  rewrite Hdist, Hd3.
  rewrite (distance_of_mark width height Hw Hh _ c c 0 (repeat_length _ _) Hc Hc).
  rewrite bool_decide_eq_true_2 by reflexivity. unfold INF. lia.
Qed.

(** Every frame at the head of the loop of a run that started in the grid
    satisfies the invariant. *)
Lemma loop_head_grid (s : frame) (c : cell) :
  at_loop_head width height branch_dist seeded_words seed s0 s ->
  start s = Some c -> in_bounds width height c = true ->
  grid_inv width height s.
Proof.
  assert (Hw : 1 <= width) by lia. assert (Hh : 1 <= height) by lia.
  induction 1 as [s H|s s' _ IH Hguard H]; intros Hst Hc.
  - now apply (first_head_grid s c).
  - pose proof (preserves_Returns _ _ _ _ _
                  (loop_body_start width height branch_dist (start s)) eq_refl H) as Hsame.
    cbv beta in Hsame. rewrite Hst in Hsame. specialize (IH (eq_sym Hsame) Hc).
    destruct (loop_body_grid width height branch_dist Hw Hh count_small weights s IH Hguard)
      as (s'' & E & Hinv & _).
    rewrite H in E. injection E as <-. exact Hinv.
Qed.

End GridHeads.

Lemma head1_2x2_seed55_reached :
  at_loop_head 2 2 default_branch_factors (fun _ => draws_2x2_seed55) (Some 55)
    (entry_frame []) head1_2x2_seed55.
Proof. apply head_first. vm_compute. reflexivity. Defined.

Lemma default_weights_ok : weights_ok default_branch_factors.
Proof.
  split; [reflexivity|]. eexists. eexists. split; [reflexivity|].
  split; [reflexivity|]. repeat constructor; discriminate.
Defined.

Section GridTheorems.

Variables (width height : Z) (branch_dist : list Q).
Variable seeded_words : Z -> list Z.

Lemma growth_from_head (fuel : nat) (seed : option Z) (s0 s1 : frame) :
  (random_seed seeded_words seed ;;; init_state width height ;;;
   pick_start width height) s0 = Returns tt s1 ->
  growth width height branch_dist seeded_words fuel seed s0
  = grow width height branch_dist fuel s1.
Proof.
  intros H. unfold growth.
  apply bind_Returns in H as ([] & sa & Ha & H).
  apply bind_Returns in H as ([] & sb & Hb & H).
  rewrite (bind_of_Returns _ _ _ _ _ Ha), (bind_of_Returns _ _ _ _ _ Hb).
  now rewrite (bind_of_Returns _ _ _ _ _ H).
Qed.

Lemma first_head_counts (seed : option Z) (s0 s : frame) :
  1 <= width -> 1 <= height ->
  (random_seed seeded_words seed ;;; init_state width height ;;;
   pick_start width height) s0 = Returns tt s ->
  cells_visited s = 1 /\ length (q s) = 1%nat.
Proof.
  intros Hw Hh H.
  apply bind_Returns in H as ([] & s1 & _ & H).
  apply bind_Returns in H as ([] & s2 & H2 & H).
  apply init_state_spec in H2.
  apply (pick_start_spec width height Hw Hh) in H as (c & s3 & _ & Hfp & _ & H).
  rewrite H2 in Hfp. unfold footprint in Hfp. injection Hfp as Hv _ _ Hq _ _.
  apply q_up_footprint in H as (k & _ & Hfp).
  unfold footprint in Hfp. injection Hfp as Hv' _ _ Hq' _ _.
  rewrite Hv', Hq', Hv, Hq. now split.
Qed.

Lemma grow_start (x : option cell) (fuel : nat) :
  preserves (fun s => start s = x) (grow width height branch_dist fuel).
Proof.
  induction fuel as [|fuel IH]; intros s Hs; simpl;
    destruct (cells_visited s <? cell_count width height); try exact Hs; try exact I.
  apply (preserves_bind (fun s => start s = x)); [apply loop_body_start|intros _; exact IH|exact Hs].
Qed.

End GridTheorems.



(** X20.  On a grid of at least two rows and two columns,
    [gen_maze] initialises the remaining-sides count of every cell to the
    number of neighbours the cell has in the grid: 2 in a corner, 3 on an
    edge, 4 inside. *)
Theorem init_state_counts_neighbours (width height : Z) (s s' : frame) (c : cell) :
  2 <= width -> 2 <= height ->
  init_state width height s = Returns tt s' ->
  in_bounds width height c = true ->
  py_get (cell_remaining_sides s') (t width c)
  = Some (Z.of_nat (length (grid_neighbours width height c))).
Proof. intros Hw Hh. now apply init_state_sides. Qed.

Lemma init_state_counts_neighbours_witness :
  py_get
    (cell_remaining_sides
       (mkFrame 0 [2; 3; 2; 3; 4; 3; 2; 3; 2] (repeat INF 9) (repeat 0 9) [] [] None None
          [] []))
    (t 3 (1, 1))
  = Some (Z.of_nat (length (grid_neighbours 3 3 (1, 1)))).
Proof.
  apply (init_state_counts_neighbours 3 3 (entry_frame [])).
  - lia.
  - lia.
  - vm_compute. reflexivity.
  - reflexivity.
Defined.



(** ** Passages *)

Lemma wall_bits_cases (bit : Z) :
  In bit wall_bits -> bit = 1 \/ bit = 2 \/ bit = 4 \/ bit = 8.
Proof. unfold wall_bits. simpl. intuition. Qed.

Ltac wall_cases H :=
  apply wall_bits_cases in H; destruct H as [->|[->|[->| ->]]].

Lemma opposite_wall (bit : Z) : In bit wall_bits -> In (opposite bit) wall_bits.
Proof. intros H. wall_cases H; simpl; auto. Qed.

Lemma across_opposite (bit : Z) (c : cell) :
  In bit wall_bits -> across (opposite bit) (across bit c) = c.
Proof.
  intros H. destruct c as [x y].
  wall_cases H; unfold across, c_l, c_r, c_t, c_b; simpl; f_equal; lia.
Qed.

Lemma across_moves (bit : Z) (c : cell) : across bit c <> c.
Proof.
  destruct c as [x y]. unfold across, c_l, c_r, c_t, c_b. simpl.
  destruct (bit =? 1); [|destruct (bit =? 2); [|destruct (bit =? 4)]];
    intros E; inversion E; lia.
Qed.

Lemma testbit_wall (bit b : Z) :
  In bit wall_bits -> In b wall_bits -> Z.testbit bit (Z.log2 b) = (b =? bit).
Proof. intros H H'. wall_cases H; wall_cases H'; reflexivity. Qed.

(** Going back through the wall one came through. *)
Lemma turn_around (b bit : Z) (c cc : cell) :
  In b wall_bits -> In bit wall_bits ->
  bool_decide (across b c = cc) && (opposite b =? bit)
  = bool_decide (c = across bit cc) && (b =? opposite bit).
Proof.
  intros H H'. destruct c as [x y], cc as [x' y'].
  wall_cases H; wall_cases H'; simpl; rewrite ?andb_false_r, ?andb_true_r;
    try reflexivity;
    apply bool_decide_ext; unfold across, c_l, c_r, c_t, c_b; simpl;
    split; intros E; inversion E; f_equal; lia.
Qed.

Lemma same_side (b bit : Z) (c cc : cell) :
  In b wall_bits -> In bit wall_bits ->
  bool_decide (across b c = across bit cc) && (opposite b =? opposite bit)
  = bool_decide (c = cc) && (b =? bit).
Proof.
  intros H H'. destruct c as [x y], cc as [x' y'].
  wall_cases H; wall_cases H'; simpl; rewrite ?andb_false_r, ?andb_true_r;
    try reflexivity;
    apply bool_decide_ext; unfold across, c_l, c_r, c_t, c_b; simpl;
    split; intros E; inversion E; f_equal; lia.
Qed.

Lemma connect_walls (width : Z) (cc n : cell) :
  In n (neighbours cc) ->
  exists bit,
    In bit wall_bits /\ n = across bit cc
    /\ connect width cc n = (open_wall width bit cc ;;; open_wall width (opposite bit) n).
Proof.
  unfold neighbours, connect, across, c_l, c_r, c_t, c_b.
  destruct cc as [x y]. simpl.
  intros [<-|[<-|[<-|[<-|[]]]]]; simpl.
  - exists 1. repeat split; simpl; auto.
    destruct (Z.ltb_spec x (x - 1)); [lia|].
    destruct (Z.ltb_spec (x - 1) x); [reflexivity|lia].
  - exists 4. repeat split; simpl; auto.
    destruct (Z.ltb_spec x (x + 1)); [reflexivity|lia].
  - exists 2. repeat split; simpl; auto.
    rewrite Z.ltb_irrefl.
    destruct (Z.ltb_spec y (y - 1)); [lia|].
    destruct (Z.ltb_spec (y - 1) y); [reflexivity|lia].
  - exists 8. repeat split; simpl; auto.
    rewrite Z.ltb_irrefl.
    destruct (Z.ltb_spec y (y + 1)); [reflexivity|lia].
Qed.

Lemma joined_right_linked (width height : Z) (walls : list Z) (c : cell) :
  joined_right width height walls c = linked_by width height walls c 4.
Proof. reflexivity. Qed.

Lemma joined_below_linked (width height : Z) (walls : list Z) (c : cell) :
  joined_below width height walls c = linked_by width height walls c 8.
Proof. reflexivity. Qed.

(** *** Counting the passages *)

Lemma flat_map_same {A B : Type} (f g : A -> list B) (l : list A) :
  (forall a, In a l -> g a = f a) -> flat_map g l = flat_map f l.
Proof.
  induction l as [|a l IH]; intros H; [reflexivity|].
  simpl. rewrite (H a) by now left. f_equal. apply IH. intros x Hx. apply H. now right.
Qed.

Lemma flat_map_length_bump {A B : Type} (f g : A -> list B) (l : list A) (a0 : A) :
  List.NoDup l -> In a0 l ->
  (forall a, In a l -> a <> a0 -> g a = f a) ->
  length (g a0) = S (length (f a0)) ->
  length (flat_map g l) = S (length (flat_map f l)).
Proof.
  intros Hnd. induction Hnd as [|a l Hnotin Hnd IH]; intros Hin Hsame Hbump; [destruct Hin|].
  simpl. rewrite !length_app. destruct Hin as [->|Hin].
  - rewrite Hbump. rewrite (flat_map_same f g l); [reflexivity|].
    intros x Hx. apply Hsame; [now right|]. intros ->. contradiction.
  - rewrite (Hsame a); [|now left|intros ->; contradiction].
    rewrite IH; [lia|assumption| |assumption].
    intros x Hx Hne. apply Hsame; [now right|assumption].
Qed.

Lemma range_NoDup (n : Z) : List.NoDup (range n).
Proof.
  unfold range. apply Finite.Injective_map_NoDup; [|apply List.seq_NoDup].
  intros a b. lia.
Qed.

Lemma all_cells_NoDup (width height : Z) : List.NoDup (all_cells width height).
Proof.
  unfold all_cells. generalize (range_NoDup width).
  induction (range width) as [|x xs IH]; intros Hnd; [constructor|].
  simpl. inversion Hnd as [|? ? Hnotin Hnd']; subst.
  apply NoDup_ListNoDup, NoDup_app. split; [|split].
  - apply NoDup_ListNoDup, Finite.Injective_map_NoDup; [|apply range_NoDup].
    intros a b [= ->]. reflexivity.
  - intros c Hc Hc'. apply list_elem_of_In in Hc, Hc'.
    apply in_map_iff in Hc as (y & <- & _).
    apply in_flat_map in Hc' as (x' & Hx' & Hc').
    apply in_map_iff in Hc' as (y' & [= -> _] & _). contradiction.
  - apply NoDup_ListNoDup. now apply IH.
Qed.

Section TreeWalls.

Variables (width height : Z).
Hypothesis width_pos : 1 <= width.
Hypothesis height_pos : 1 <= height.

Let N : nat := Z.to_nat (cell_count width height).

Lemma mask_of_mark (walls : list Z) (n c : cell) (v : Z) :
  length walls = N -> in_bounds width height n = true ->
  in_bounds width height c = true ->
  mask_of width (<[Z.to_nat (t width n) := v]> walls) c
  = if bool_decide (c = n) then v else mask_of width walls c.
Proof.
  intros Hlen Hn Hc. unfold mask_of.
  destruct (py_get_cell width height width_pos height_pos (<[Z.to_nat (t width n) := v]> walls) c)
    as (-> & _); [now rewrite length_insert|assumption|].
  destruct (py_get_cell width height width_pos height_pos walls c Hlen Hc) as (-> & Hlt).
  destruct (decide (c = n)) as [->|Hne].
  - rewrite bool_decide_eq_true_2 by reflexivity.
    now rewrite list_lookup_insert_eq.
  - rewrite bool_decide_eq_false_2 by assumption.
    rewrite list_lookup_insert_ne; [reflexivity|].
    intros E. apply Hne. symmetry. apply (t_injective width height); try assumption.
    pose proof (t_in_range width height c Hc).
    pose proof (t_in_range width height n Hn). lia.
Qed.

Lemma opened_length (walls : list Z) (c : cell) (bit : Z) :
  length (opened width walls c bit) = length walls.
Proof. unfold opened. apply length_insert. Qed.

Lemma open_wall_opened (bit : Z) (c : cell) (s : frame) :
  length (cell_state s) = N -> in_bounds width height c = true ->
  open_wall width bit c s
  = Returns tt (set_cell_state (opened width (cell_state s) c bit) s).
Proof.
  intros Hlen Hc. apply open_wall_spec. rewrite Hlen.
  pose proof (t_in_range width height c Hc). unfold N, cell_count. lia.
Qed.

Lemma open_toward_opened (walls : list Z) (n : cell) (bit : Z) (c : cell) (b : Z) :
  length walls = N -> in_bounds width height n = true ->
  in_bounds width height c = true ->
  In bit wall_bits -> In b wall_bits ->
  open_toward width (opened width walls n bit) c b
  = open_toward width walls c b || (bool_decide (c = n) && (b =? bit)).
Proof.
  intros Hlen Hn Hc Hbit Hb. unfold open_toward, opened.
  rewrite mask_of_mark by assumption.
  destruct (decide (c = n)) as [->|Hne].
  - rewrite bool_decide_eq_true_2 by reflexivity.
    rewrite Z.lor_spec. rewrite (testbit_wall bit b) by assumption. reflexivity.
  - rewrite bool_decide_eq_false_2 by assumption. simpl. now rewrite orb_false_r.
Qed.

(** The walls after [connect cc (across bit cc)]. *)
Lemma connect_opened (cc n : cell) (s s' : frame) :
  length (cell_state s) = N ->
  in_bounds width height cc = true -> in_bounds width height n = true ->
  In n (neighbours cc) ->
  connect width cc n s = Returns tt s' ->
  exists bit,
    In bit wall_bits /\ n = across bit cc
    /\ s' = set_cell_state
              (opened width (opened width (cell_state s) cc bit) n (opposite bit)) s.
Proof.
  intros Hlen Hcc Hn Hnb H.
  destruct (connect_walls width cc n Hnb) as (bit & Hbit & -> & E).
  exists bit. split; [assumption|]. split; [reflexivity|].
  rewrite E in H. unfold bind in H.
  rewrite (open_wall_opened bit cc s Hlen Hcc) in H.
  rewrite open_wall_opened in H; [|simpl; now rewrite opened_length|assumption].
  injection H as <-. reflexivity.
Qed.

Section Connected.

Variables (walls : list Z) (cc : cell) (bit : Z).
Hypothesis walls_length : length walls = N.
Hypothesis cc_in : in_bounds width height cc = true.
Hypothesis n_in : in_bounds width height (across bit cc) = true.
Hypothesis bit_wall : In bit wall_bits.
Hypothesis walls_sym :
  forall c b, In b wall_bits ->
    in_bounds width height c = true -> in_bounds width height (across b c) = true ->
    open_toward width walls c b = open_toward width walls (across b c) (opposite b).

Let walls' : list Z :=
  opened width (opened width walls cc bit) (across bit cc) (opposite bit).

Lemma open_toward_connected (c : cell) (b : Z) :
  in_bounds width height c = true -> In b wall_bits ->
  open_toward width walls' c b
  = open_toward width walls c b
    || (bool_decide (c = cc) && (b =? bit))
    || (bool_decide (c = across bit cc) && (b =? opposite bit)).
Proof.
  intros Hc Hb. unfold walls'.
  rewrite open_toward_opened; try assumption;
    [|now rewrite opened_length|now apply opposite_wall].
  now rewrite open_toward_opened.
Qed.

Lemma connected_sym (c : cell) (b : Z) :
  In b wall_bits ->
  in_bounds width height c = true -> in_bounds width height (across b c) = true ->
  open_toward width walls' c b = open_toward width walls' (across b c) (opposite b).
Proof.
  intros Hb Hc Ha.
  rewrite !open_toward_connected; try assumption; [|now apply opposite_wall].
  rewrite turn_around, same_side by assumption.
  rewrite <- walls_sym by assumption.
  destruct (open_toward width walls c b), (bool_decide (c = cc) && (b =? bit)),
    (bool_decide (c = across bit cc) && (b =? opposite bit)); reflexivity.
Qed.

Lemma linked_by_connected (c : cell) (b : Z) :
  In b wall_bits ->
  linked_by width height walls' c b
  = linked_by width height walls c b
    || (bool_decide (c = cc) && (b =? bit))
    || (bool_decide (c = across bit cc) && (b =? opposite bit)).
Proof.
  intros Hb. unfold linked_by.
  destruct (in_bounds width height c) eqn:Hc.
  - destruct (in_bounds width height (across b c)) eqn:Ha; simpl.
    + rewrite <- connected_sym, <- walls_sym by assumption.
      rewrite open_toward_connected by assumption.
      destruct (open_toward width walls c b), (bool_decide (c = cc) && (b =? bit)),
        (bool_decide (c = across bit cc) && (b =? opposite bit)); reflexivity.
    + symmetry. apply orb_false_iff. split; apply andb_false_iff.
      * destruct (decide (c = cc)) as [->|Hne];
          [|left; now apply bool_decide_eq_false_2].
        right. apply Z.eqb_neq. intros ->. congruence.
      * destruct (decide (c = across bit cc)) as [->|Hne];
          [|left; now apply bool_decide_eq_false_2].
        right. apply Z.eqb_neq. intros ->.
        rewrite across_opposite in Ha by assumption. congruence.
  - simpl. symmetry. apply orb_false_iff. split; apply andb_false_iff; left;
      apply bool_decide_eq_false_2; intros ->; congruence.
Qed.

End Connected.

(** One passage more. *)
Lemma interior_edges_bump (walls walls' : list Z) (owner : cell) (side : Z) :
  side = 4 \/ side = 8 ->
  in_bounds width height owner = true ->
  (forall c b, b = 4 \/ b = 8 ->
     linked_by width height walls' c b
     = linked_by width height walls c b || (bool_decide (c = owner) && (b =? side))) ->
  linked_by width height walls owner side = false ->
  length (interior_edges width height walls')
  = S (length (interior_edges width height walls)).
Proof.
  intros Hside Hin Hlink Hnot. unfold interior_edges.
  apply (flat_map_length_bump _ _ _ owner).
  - apply all_cells_NoDup.
  - now apply all_cells_spec.
  - intros c _ Hne. rewrite !joined_right_linked, !joined_below_linked.
    rewrite !Hlink by auto.
    rewrite bool_decide_eq_false_2 by assumption. simpl. now rewrite !orb_false_r.
  - rewrite !joined_right_linked, !joined_below_linked.
    rewrite !Hlink by auto. rewrite bool_decide_eq_true_2 by reflexivity.
    destruct Hside as [->| ->]; rewrite Hnot; simpl; rewrite ?orb_false_r.
    + reflexivity.
    + rewrite !length_app. simpl. lia.
Qed.

(** The same passages. *)
Lemma interior_edges_same (walls walls' : list Z) :
  (forall c b, b = 4 \/ b = 8 -> in_bounds width height c = true ->
     linked_by width height walls' c b = linked_by width height walls c b) ->
  interior_edges width height walls' = interior_edges width height walls.
Proof.
  intros Hlink. unfold interior_edges. apply flat_map_same.
  intros c Hc. apply all_cells_spec in Hc.
  rewrite !joined_right_linked, !joined_below_linked. now rewrite !Hlink by auto.
Qed.

Lemma open_toward_closed (walls : list Z) (c : cell) (b : Z) :
  mask_of width walls c = 0 -> open_toward width walls c b = false.
Proof. intros H. unfold open_toward. rewrite H. apply Z.testbit_0_l. Qed.

Lemma linked_visited (c0 : cell) (bit0 : Z) (walls distances : list Z) (c : cell) (b : Z) :
  tree_inv width height c0 bit0 walls distances ->
  linked_by width height walls c b = true ->
  in_bounds width height c = true /\ in_bounds width height (across b c) = true
  /\ distance_of width distances c <> INF
  /\ distance_of width distances (across b c) <> INF.
Proof.
  intros Htree H. unfold linked_by in H.
  apply andb_prop in H as (H & H4). apply andb_prop in H as (H & H3).
  apply andb_prop in H as (H1 & H2).
  split; [assumption|]. split; [assumption|]. split; intros Hd.
  - rewrite open_toward_closed in H3; [discriminate|].
    now apply (tree_closed _ _ _ _ _ _ Htree).
  - rewrite open_toward_closed in H4; [discriminate|].
    now apply (tree_closed _ _ _ _ _ _ Htree).
Qed.

(** One [connect cc n ;; q_up n (d + 1)] on the arrays. *)
Lemma tree_inv_step (c0 : cell) (bit0 : Z) (walls distances : list Z)
    (cc : cell) (bit : Z) :
  length walls = N -> length distances = N ->
  tree_inv width height c0 bit0 walls distances ->
  In bit wall_bits ->
  in_bounds width height cc = true ->
  distance_of width distances cc <> INF ->
  distance_of width distances cc + 1 <> INF ->
  unvisited width height distances (across bit cc) = true ->
  tree_inv width height c0 bit0
    (opened width (opened width walls cc bit) (across bit cc) (opposite bit))
    (<[Z.to_nat (t width (across bit cc)) := distance_of width distances cc + 1]> distances).
Proof.
  intros Hlw Hld Htree Hbit Hcc Hd Hd1 Hun.
  set (n := across bit cc) in *. set (d := distance_of width distances cc) in *.
  destruct (unvisited_true width height distances n Hld Hun) as (Hn & Hrange & Hslot).
  assert (HnINF : distance_of width distances n = INF).
  { unfold unvisited in Hun. apply andb_prop in Hun as (_ & Hun). now apply Z.eqb_eq. }
  assert (Hdist : forall c, in_bounds width height c = true ->
            distance_of width (<[Z.to_nat (t width n) := d + 1]> distances) c
            = if bool_decide (c = n) then d + 1 else distance_of width distances c).
  { intros c Hc. now apply (distance_of_mark width height). }
  assert (Hold : forall c, in_bounds width height c = true ->
            distance_of width distances c <> INF ->
            distance_of width (<[Z.to_nat (t width n) := d + 1]> distances) c
            = distance_of width distances c).
  { intros c Hc Hvis. rewrite Hdist by assumption.
    rewrite bool_decide_eq_false_2; [reflexivity|]. intros ->. contradiction. }
  pose proof (tree_sym _ _ _ _ _ _ Htree) as Hsym.
  pose proof (linked_by_connected walls cc bit Hlw Hcc Hn Hbit Hsym) as Hlinked.
  pose proof (open_toward_connected walls cc bit Hlw Hcc Hn Hbit) as Hopen.
  fold n in Hlinked, Hopen.
  destruct (tree_root _ _ _ _ _ _ Htree) as (Hc0 & Hd0).
  assert (Hmask_n : mask_of width walls n = 0).
  { now apply (tree_closed _ _ _ _ _ _ Htree). }
  constructor.
  - split; [assumption|]. rewrite Hold; [assumption|assumption|].
    rewrite Hd0. unfold INF. lia.
  - intros c Hc. rewrite Hdist by assumption.
    pose proof (tree_nonneg _ _ _ _ _ _ Htree cc Hcc).
    pose proof (tree_nonneg _ _ _ _ _ _ Htree c Hc).
    destruct (bool_decide (c = n)); [fold d in H; lia|assumption].
  - intros c Hc Hinf. rewrite Hdist in Hinf by assumption.
    destruct (decide (c = n)) as [->|Hne].
    + rewrite bool_decide_eq_true_2 in Hinf by reflexivity. contradiction.
    + rewrite bool_decide_eq_false_2 in Hinf by assumption.
      unfold opened. rewrite mask_of_mark; try assumption;
        [|now rewrite length_insert].
      rewrite bool_decide_eq_false_2 by assumption.
      rewrite mask_of_mark by assumption.
      rewrite bool_decide_eq_false_2; [now apply (tree_closed _ _ _ _ _ _ Htree)|].
      intros ->. contradiction.
  - intros c b Hb Hc Ha. now apply connected_sym.
  - intros c b Hb Hc Ha. rewrite Hopen by assumption.
    rewrite (tree_out _ _ _ _ _ _ Htree) by assumption.
    replace (bool_decide (c = cc) && (b =? bit)) with false.
    + replace (bool_decide (c = n) && (b =? opposite bit)) with false;
        [now rewrite !orb_false_r|].
      symmetry. apply andb_false_iff.
      destruct (decide (c = n)) as [->|Hne]; [|left; now apply bool_decide_eq_false_2].
      right. apply Z.eqb_neq. intros ->. unfold n in Ha.
      rewrite across_opposite in Ha by assumption. congruence.
    + symmetry. apply andb_false_iff.
      destruct (decide (c = cc)) as [->|Hne]; [|left; now apply bool_decide_eq_false_2].
      right. apply Z.eqb_neq. intros ->. fold n in Ha. congruence.
  - intros c Hc Hvis Hne0. rewrite Hdist in Hvis by assumption.
    destruct (decide (c = n)) as [->|Hne].
    + exists (opposite bit). split; [now apply opposite_wall|].
      split.
      * rewrite Hlinked by now apply opposite_wall.
        rewrite (bool_decide_eq_true_2 (n = n)) by reflexivity.
        rewrite Z.eqb_refl. now rewrite orb_true_r.
      * replace (across (opposite bit) n) with cc
          by (unfold n; now rewrite across_opposite).
        rewrite (Hold cc) by assumption. rewrite (Hdist n) by assumption.
        now rewrite bool_decide_eq_true_2 by reflexivity.
    + rewrite bool_decide_eq_false_2 in Hvis by assumption.
      destruct (tree_parent _ _ _ _ _ _ Htree c Hc Hvis Hne0) as (b & Hb & Hl & Hstep).
      exists b. split; [assumption|]. split.
      * rewrite Hlinked by assumption. now rewrite Hl.
      * destruct (linked_visited _ _ _ _ c b Htree Hl) as (_ & Ha & _ & Hva).
        now rewrite !Hold.
  - intros c b Hb Hl. rewrite Hlinked in Hl by assumption.
    apply orb_prop in Hl as [Hl|Hl]; [apply orb_prop in Hl as [Hl|Hl]|].
    + destruct (linked_visited _ _ _ _ c b Htree Hl) as (Hc & Ha & Hvc & Hva).
      rewrite !Hold by assumption. now apply (tree_near _ _ _ _ _ _ Htree).
    + apply andb_prop in Hl as (Hl1 & Hl2).
      apply bool_decide_eq_true_1 in Hl1. apply Z.eqb_eq in Hl2. subst c b.
      left. fold n. rewrite (Hold cc) by assumption. rewrite (Hdist n) by assumption.
      now rewrite bool_decide_eq_true_2 by reflexivity.
    + apply andb_prop in Hl as (Hl1 & Hl2).
      apply bool_decide_eq_true_1 in Hl1. apply Z.eqb_eq in Hl2. subst c b.
      right. replace (across (opposite bit) n) with cc
        by (unfold n; now rewrite across_opposite).
      rewrite (Hold cc) by assumption. rewrite (Hdist n) by assumption.
      now rewrite bool_decide_eq_true_2 by reflexivity.
  - rewrite visited_count_insert; [|assumption|assumption].
    f_equal. rewrite <- (tree_edges _ _ _ _ _ _ Htree).
    assert (Hcase : bit = 1 \/ bit = 2 \/ bit = 4 \/ bit = 8) by now apply wall_bits_cases.
    assert (Hno : forall c b, linked_by width height walls c b = true -> c <> n).
    { intros c b Hl ->. destruct (linked_visited _ _ _ _ n b Htree Hl) as (_ & _ & Hv & _).
      contradiction. }
    assert (Hno' : forall b, linked_by width height walls cc b = true -> across b cc <> n).
    { intros b Hl E. destruct (linked_visited _ _ _ _ cc b Htree Hl) as (_ & _ & _ & Hv).
      rewrite E in Hv. contradiction. }
    destruct Hcase as [->|[->|[->| ->]]].
    + apply (interior_edges_bump walls _ n 4); [now left|assumption| |].
      * intros c b [->| ->]; rewrite Hlinked by (simpl; auto); simpl;
          rewrite ?andb_false_r, ?andb_true_r, ?orb_false_r; reflexivity.
      * destruct (linked_by width height walls n 4) eqn:E; [|reflexivity].
        exfalso. now apply (Hno n 4 E).
    + apply (interior_edges_bump walls _ n 8); [now right|assumption| |].
      * intros c b [->| ->]; rewrite Hlinked by (simpl; auto); simpl;
          rewrite ?andb_false_r, ?andb_true_r, ?orb_false_r; reflexivity.
      * destruct (linked_by width height walls n 8) eqn:E; [|reflexivity].
        exfalso. now apply (Hno n 8 E).
    + apply (interior_edges_bump walls _ cc 4); [now left|assumption| |].
      * intros c b [->| ->]; rewrite Hlinked by (simpl; auto); simpl;
          rewrite ?andb_false_r, ?andb_true_r, ?orb_false_r; reflexivity.
      * destruct (linked_by width height walls cc 4) eqn:E; [|reflexivity].
        exfalso. now apply (Hno' 4 E).
    + apply (interior_edges_bump walls _ cc 8); [now right|assumption| |].
      * intros c b [->| ->]; rewrite Hlinked by (simpl; auto); simpl;
          rewrite ?andb_false_r, ?andb_true_r, ?orb_false_r; reflexivity.
      * destruct (linked_by width height walls cc 8) eqn:E; [|reflexivity].
        exfalso. now apply (Hno' 8 E).
Qed.

End TreeWalls.

Section TreeSteps.

Variables (width height : Z) (branch_dist : list Q).
Hypothesis width_pos : 1 <= width.
Hypothesis height_pos : 1 <= height.

Let N : nat := Z.to_nat (cell_count width height).

Lemma mask_of_zeros (n : nat) (c : cell) : mask_of width (repeat 0 n) c = 0.
Proof.
  unfold mask_of, py_get. destruct (py_index _ _) as [k|]; [|reflexivity].
  destruct (repeat 0 n !! k) as [v|] eqn:E; [|reflexivity].
  simpl. apply list_elem_of_lookup_2, list_elem_of_In in E. now apply repeat_spec in E.
Qed.

Lemma distance_of_blank (n : nat) (c : cell) : distance_of width (repeat INF n) c = INF.
Proof.
  unfold distance_of, py_get. destruct (py_index _ _) as [k|]; [|reflexivity].
  destruct (repeat INF n !! k) as [v|] eqn:E; [|reflexivity].
  simpl. apply list_elem_of_lookup_2, list_elem_of_In in E. now apply repeat_spec in E.
Qed.

Lemma interior_edges_none (walls : list Z) :
  (forall c b, b = 4 \/ b = 8 -> linked_by width height walls c b = false) ->
  interior_edges width height walls = [].
Proof.
  intros H. unfold interior_edges.
  induction (all_cells width height) as [|c l IH]; [reflexivity|].
  simpl. rewrite joined_right_linked, joined_below_linked, !H by auto. exact IH.
Qed.

(** The arrays when the loop is entered. *)
Lemma tree_initial (c0 : cell) (bit0 : Z) :
  in_bounds width height c0 = true -> In bit0 wall_bits ->
  in_bounds width height (across bit0 c0) = false ->
  tree_inv width height c0 bit0
    (opened width (repeat 0 N) c0 bit0)
    (<[Z.to_nat (t width c0) := 0]> (repeat INF N)).
Proof.
  intros Hc0 Hbit0 Hout.
  assert (Hopen : forall c b, in_bounds width height c = true -> In b wall_bits ->
            open_toward width (opened width (repeat 0 N) c0 bit0) c b
            = bool_decide (c = c0) && (b =? bit0)).
  { intros c b Hc Hb.
    rewrite (open_toward_opened width height width_pos height_pos); try assumption;
      [|apply repeat_length].
    rewrite open_toward_closed; [reflexivity|apply mask_of_zeros]. }
  assert (Hdist : forall c, in_bounds width height c = true ->
            distance_of width (<[Z.to_nat (t width c0) := 0]> (repeat INF N)) c
            = if bool_decide (c = c0) then 0 else INF).
  { intros c Hc.
    rewrite (distance_of_mark width height width_pos height_pos); try assumption;
      [|apply repeat_length].
    now rewrite distance_of_blank. }
  assert (Hno : forall c b, In b wall_bits ->
            linked_by width height (opened width (repeat 0 N) c0 bit0) c b = false).
  { intros c b Hb. unfold linked_by.
    destruct (in_bounds width height c) eqn:Hc; [|reflexivity].
    destruct (in_bounds width height (across b c)) eqn:Ha; [|reflexivity].
    rewrite Hopen by assumption. simpl.
    destruct (decide (c = c0)) as [->|Hne];
      [|now rewrite bool_decide_eq_false_2 by assumption].
    destruct (Z.eqb_spec b bit0) as [->|Hb0]; [congruence|].
    now rewrite andb_false_r. }
  constructor.
  - split; [assumption|]. rewrite Hdist by assumption.
    now rewrite bool_decide_eq_true_2 by reflexivity.
  - intros c Hc. rewrite Hdist by assumption.
    destruct (bool_decide (c = c0)); unfold INF; lia.
  - intros c Hc Hinf. rewrite Hdist in Hinf by assumption.
    destruct (decide (c = c0)) as [->|Hne].
    + rewrite bool_decide_eq_true_2 in Hinf by reflexivity. unfold INF in Hinf. lia.
    + unfold opened.
      rewrite (mask_of_mark width height width_pos height_pos); try assumption;
        [|apply repeat_length].
      rewrite bool_decide_eq_false_2 by assumption. apply mask_of_zeros.
  - intros c b Hb Hc Ha. rewrite !Hopen; try assumption; [|now apply opposite_wall].
    transitivity false.
    + apply andb_false_iff.
      destruct (decide (c = c0)) as [->|Hne]; [|left; now apply bool_decide_eq_false_2].
      right. apply Z.eqb_neq. intros ->. congruence.
    + symmetry. apply andb_false_iff.
      destruct (decide (across b c = c0)) as [E|Hne];
        [|left; now apply bool_decide_eq_false_2].
      right. apply Z.eqb_neq. intros E'.
      rewrite <- E, <- E', across_opposite in Hout by assumption. congruence.
  - intros c b Hb Hc Ha. now apply Hopen.
  - intros c Hc Hvis Hne. rewrite Hdist in Hvis by assumption.
    now rewrite bool_decide_eq_false_2 in Hvis by assumption.
  - intros c b Hb Hl. rewrite Hno in Hl by assumption. discriminate.
  - rewrite interior_edges_none; [|intros c b [->| ->]; apply Hno; simpl; auto].
    rewrite visited_count_insert, visited_count_repeat; [reflexivity| |unfold INF; lia].
    apply lookup_repeat. pose proof (t_in_range width height c0 Hc0).
    unfold N, cell_count. lia.
Qed.

Lemma for_each_tree (c0 : cell) (bit0 : Z) (cc : cell) (d : Z) (selection : list cell) :
  d <> INF -> d + 1 <> INF -> NoDup selection ->
  in_bounds width height cc = true ->
  forall s s',
    (forall n, In n selection ->
       unvisited width height (cell_distance s) n = true /\ In n (neighbours cc)) ->
    length (cell_state s) = N -> length (cell_distance s) = N ->
    tree_inv width height c0 bit0 (cell_state s) (cell_distance s) ->
    distance_of width (cell_distance s) cc = d ->
    for_each selection (fun n => connect width cc n ;;; q_up width height n (d + 1)) s
    = Returns tt s' ->
    tree_inv width height c0 bit0 (cell_state s') (cell_distance s')
    /\ forall c, In c (pending s') -> In c (pending s) \/ In c selection.
Proof.
  intros HINF HINF1 Hnd Hcc. induction Hnd as [|n selection Hnotin Hnd IH];
    intros s s' Hsel Hlw Hld Htree Hd H.
  - simpl in H. injection H as <-. split; [assumption|]. intros c Hc. now left.
  - simpl in H. apply bind_Returns in H as ([] & s1 & H1 & H).
    apply bind_Returns in H1 as ([] & s2 & H2 & H1).
    destruct (Hsel n (or_introl eq_refl)) as (Hun & Hnb).
    destruct (unvisited_true width height _ n Hld Hun) as (Hn & Hrange & Hslot).
    apply (connect_opened width height width_pos height_pos cc n s s2 Hlw Hcc Hn Hnb) in H2
      as (bit & Hbit & En & ->).
    apply q_up_marks in H1 as (Hd1 & _ & Hw1 & _ & Hh1 & Hq1); [|lia].
    simpl in Hd1, Hw1, Hh1, Hq1.
    assert (Htree1 : tree_inv width height c0 bit0 (cell_state s1) (cell_distance s1)).
    { rewrite Hd1, Hw1, En, <- Hd.
      apply (tree_inv_step width height width_pos height_pos); try assumption.
      - now rewrite Hd.
      - now rewrite Hd.
      - now rewrite <- En. }
    destruct (IH s1 s') as (Htree' & Hpend); try assumption.
    + intros m Hm. destruct (Hsel m (or_intror Hm)) as (Hum & Hmb).
      split; [|assumption]. rewrite Hd1.
      destruct (unvisited_true width height _ m Hld Hum) as (Hinm & _ & _).
      rewrite unvisited_other; try assumption.
      intros ->. apply Hnotin. now apply list_elem_of_In.
    + rewrite Hw1. now rewrite !opened_length.
    + rewrite Hd1. now rewrite length_insert.
    + rewrite Hd1.
      rewrite (distance_of_mark width height width_pos height_pos); try assumption.
      rewrite bool_decide_eq_false_2; [assumption|].
      rewrite En. intros E. symmetry in E. now apply across_moves in E.
    + split; [assumption|]. intros c Hc.
      destruct (Hpend c Hc) as [Hc1|Hc1]; [|right; now right].
      unfold pending in Hc1. rewrite Hq1, Hh1 in Hc1.
      apply in_app_iff in Hc1 as [Hc1|Hc1].
      * apply in_app_iff in Hc1 as [Hc1|[<-|[]]]; [|right; now left].
        left. unfold pending. apply in_app_iff. now left.
      * apply in_map_iff in Hc1 as (e & <- & He).
        apply heappush_In in He as [->|He]; [right; now left|].
        left. unfold pending. apply in_app_iff. right. apply in_map_iff. eauto.
Qed.

(** The parts of an iteration that follow the choice of the cell. *)
Lemma branch_from_parts (b : bool) (cc : cell) (s s' : frame) :
  shaped N s ->
  branch_from width height branch_dist b cc s = Returns tt s' ->
  exists d s3 selection,
    py_get (cell_distance s) (t width cc) = Some d
    /\ footprint s3 = footprint s /\ cell_state s3 = cell_state s
    /\ NoDup selection
    /\ (forall n, In n selection ->
          unvisited width height (cell_distance s) n = true /\ In n (neighbours cc))
    /\ for_each selection (fun n => connect width cc n ;;; q_up width height n (d + 1)) s3
       = Returns tt s'.
Proof.
  intros Hshape H. unfold branch_from in H.
  apply bind_Returns in H as (d & sa & H0 & H).
  apply load_Returns in H0 as (-> & Hget).
  cbv beta in H. unfold bind at 1 in H.
  rewrite (possible_branches_spec width height cc s width_pos height_pos Hshape) in H.
  apply bind_Returns in H as (sampled & s2 & H2 & H).
  assert (Hw2 : cell_state s2 = cell_state s).
  { eapply (preserves_Returns (fun s1 => cell_state s1 = cell_state s));
      [|reflexivity|exact H2].
    preserves_all ltac:(intros; simpl; assumption). }
  apply (preserves_Returns (footprint_is (footprint s))) in H2;
    [|preserves_all footprint_leaf|reflexivity].
  cbv zeta in H.
  apply bind_Returns in H as (selection & s3 & H3 & H).
  pose proof (random_sample_In _ _ _ _ _ H3) as Hsel.
  assert (Hnd : NoDup selection).
  { eapply random_sample_NoDup; [|exact H3].
    apply NoDup_ListNoDup, List.NoDup_filter, NoDup_ListNoDup, neighbours_NoDup. }
  assert (Hw3 : cell_state s3 = cell_state s).
  { eapply (preserves_Returns (fun s1 => cell_state s1 = cell_state s));
      [|exact Hw2|exact H3].
    preserves_all ltac:(intros; simpl; assumption). }
  apply (preserves_Returns (footprint_is (footprint s))) in H3;
    [|preserves_all footprint_leaf|assumption].
  exists d, s3, selection.
  split; [assumption|]. split; [assumption|]. split; [assumption|].
  split; [assumption|]. split; [|assumption].
  intros n Hn. apply Hsel in Hn. apply filter_In in Hn as (Hnb & Hu). now split.
Qed.

Lemma chooses_queue (s : frame) (b : bool) (cc : cell) (s1 : frame) :
  chooses width s b cc s1 -> forall c, In c (q s1) -> In c (q s).
Proof.
  intros [(rest & E & _ & ->)|(_ & _ & H)]; simpl.
  - intros c Hc. rewrite E. now right.
  - apply fallback_cell_only_heap in H as (h & ->). now simpl.
Qed.

Hypothesis count_small : cell_count width height <= INF.

Lemma loop_body_tree (c0 : cell) (bit0 : Z) (s s' : frame) :
  visit_inv width height s ->
  cells_visited s < cell_count width height ->
  (forall c, In c (pending s) -> in_bounds width height c = true) ->
  tree_inv width height c0 bit0 (cell_state s) (cell_distance s) ->
  loop_body width height branch_dist s = Returns tt s' ->
  (forall c, In c (pending s') -> in_bounds width height c = true)
  /\ tree_inv width height c0 bit0 (cell_state s') (cell_distance s').
Proof.
  intros Hvinv Hguard Hpend Htree H. pose proof (vis_loop _ _ _ Hvinv) as Hinv.
  apply loop_body_Returns in H as (b & cc & s1 & Hch & H).
  destruct (chooses_inv width height s b cc s1 Hinv Hch) as (Hinv1 & Hv & Hd & Hcc).
  destruct (chooses_walls width s b cc s1 Hch) as (Hw & _ & _).
  destruct (inv_pending _ _ _ Hinv cc Hcc) as (_ & Hvis & _).
  pose proof (Hpend cc Hcc) as Hin.
  apply (branch_from_parts b cc s1 s' (inv_shape _ _ _ Hinv1)) in H
    as (d & s3 & selection & Hget & Hfp & Hw3 & Hnd & Hsel & H).
  unfold footprint in Hfp. injection Hfp as Hv3 Hd3 Hh3 Hq3 Hlw3 _.
  destruct (inv_shape _ _ _ Hinv) as (_ & Hld & Hlw).
  assert (Hdcc : distance_of width (cell_distance s) cc = d).
  { unfold distance_of. rewrite <- Hd, Hget. reflexivity. }
  assert (Hbound : 0 <= d < cells_visited s).
  { rewrite Hd in Hget. unfold py_get in Hget.
    destruct (py_index (length (cell_distance s)) (t width cc)); [|discriminate].
    destruct (inv_distance _ _ _ Hinv _ _ Hget) as [->|Hb]; [|assumption].
    rewrite <- Hdcc in Hvis. contradiction. }
  apply (for_each_tree c0 bit0 cc d selection) in H; try assumption.
  - destruct H as (Htree' & Hsub). split; [|assumption].
    intros c Hc. destruct (Hsub c Hc) as [Hc3|Hc3].
    + apply Hpend. unfold pending in *. rewrite Hq3, Hh3 in Hc3.
      apply in_app_iff in Hc3 as [Hc3|Hc3]; apply in_app_iff.
      * left. now apply (chooses_queue s b cc s1 Hch).
      * right. apply in_map_iff in Hc3 as (e & <- & He).
        apply in_map_iff. exists e. split; [reflexivity|].
        now apply (chooses_heap width s b cc s1 Hch).
    + destruct (Hsel c Hc3) as (Hun & _). rewrite Hd in Hun.
      now destruct (unvisited_true width height _ c Hld Hun).
  - rewrite <- Hdcc. assumption.
  - lia.
  - intros n Hn. rewrite Hd3. now apply Hsel.
  - rewrite Hw3, Hw. assumption.
  - rewrite Hd3, Hd. assumption.
  - rewrite Hw3, Hw, Hd3, Hd. assumption.
  - rewrite Hd3, Hd. assumption.
Qed.

End TreeSteps.

Section TreeRun.

Variables (width height : Z) (branch_dist : list Q).
Variable seeded_words : Z -> list Z.
Variable seed : option Z.
Variable s0 : frame.
Hypothesis width_pos : 1 <= width.
Hypothesis height_pos : 1 <= height.
Hypothesis count_small : cell_count width height <= INF.

Let N : nat := Z.to_nat (cell_count width height).

Lemma first_head_tree (s : frame) (c0 : cell) :
  (random_seed seeded_words seed ;;; init_state width height ;;;
   pick_start width height) s0 = Returns tt s ->
  start s = Some c0 -> in_bounds width height c0 = true ->
  exists bit0,
    In bit0 wall_bits /\ start_shape width height c0 bit0
    /\ in_bounds width height (across bit0 c0) = false
    /\ (forall c, In c (pending s) -> in_bounds width height c = true)
    /\ tree_inv width height c0 bit0 (cell_state s) (cell_distance s).
Proof.
  intros H Hst Hc0.
  apply bind_Returns in H as ([] & s1 & _ & H).
  apply bind_Returns in H as ([] & s2 & H2 & H).
  pose proof (init_state_walls _ _ _ _ H2) as Hw2.
  apply init_state_spec in H2.
  apply pick_start_walls in H
    as (c & bit & sd & s3 & _ & _ & Hfp & Hwd & _ & Hbit & Hout & Hopen & Hst3 & H & Hshape);
    try assumption.
  rewrite H2 in Hfp.
  pose proof (preserves_Returns _ _ _ _ _ (q_up_start width height (Some c) c 0)
                Hst3 H) as Hst'.
  cbv beta in Hst'. rewrite Hst in Hst'. injection Hst' as <-.
  unfold footprint in Hfp. injection Hfp as Hv0 Hd0 Hh0 Hq0 Hlc Hls.
  rewrite (open_wall_opened width height width_pos height_pos) in Hopen;
    [|now rewrite Hwd, Hw2, repeat_length|assumption].
  injection Hopen as <-.
  apply q_up_marks in H as (Hd & _ & Hw & _ & Hh & Hq);
    [|pose proof (t_in_range width height c0 Hc0); lia].
  simpl in Hd, Hw, Hh, Hq.
  exists bit. split; [assumption|]. split; [assumption|]. split; [assumption|].
  split.
  - intros c Hc. unfold pending in Hc. rewrite Hq, Hh, Hq0, Hh0 in Hc.
    simpl in Hc. destruct Hc as [<-|[<-|[]]]; assumption.
  - rewrite Hd, Hw, Hd0, Hwd, Hw2.
    now apply (tree_initial width height width_pos height_pos).
Qed.

Lemma loop_head_tree (s : frame) (c0 : cell) :
  at_loop_head width height branch_dist seeded_words seed s0 s ->
  start s = Some c0 -> in_bounds width height c0 = true ->
  exists bit0,
    In bit0 wall_bits /\ start_shape width height c0 bit0
    /\ in_bounds width height (across bit0 c0) = false
    /\ (forall c, In c (pending s) -> in_bounds width height c = true)
    /\ tree_inv width height c0 bit0 (cell_state s) (cell_distance s).
Proof.
  induction 1 as [s H|s s' Hhead IH Hguard H]; intros Hst Hc0.
  - now apply first_head_tree.
  - pose proof (preserves_Returns _ _ _ _ _
                  (loop_body_start width height branch_dist (start s)) eq_refl H) as Hsame.
    cbv beta in Hsame. rewrite Hst in Hsame.
    destruct (IH (eq_sym Hsame) Hc0) as (bit0 & Hbit & Hshape & Hout & Hpend & Htree).
    exists bit0. split; [assumption|]. split; [assumption|]. split; [assumption|].
    apply (loop_body_tree width height branch_dist width_pos height_pos count_small
             c0 bit0 s s'); try assumption.
    now apply (loop_head_visit width height branch_dist seeded_words seed s0).
Qed.

End TreeRun.

(** *** The exit leaves the passages as they are *)

Lemma punch_exit_Returns (width height min_length : Z) (s s' : frame) :
  1 <= width -> 1 <= height ->
  shaped (Z.to_nat (cell_count width height)) s ->
  punch_exit width height min_length s = Returns tt s' ->
  exists e,
    In e (exit_pool width height min_length (cell_distance s))
    /\ s' = set_cell_state (opened width (cell_state s) e (exit_side width e))
              (set_last_border_cell (Some e) (consume s)).
Proof.
  intros Hw Hh (_ & Hd & Hc) H.
  assert (Hcount : Z.of_nat (Z.to_nat (cell_count width height)) = width * height)
    by (unfold cell_count; nia).
  assert (Hrd : forall c, In c (all_cells width height) ->
                  0 <= t width c < Z.of_nat (length (cell_distance s))).
  { intros c Hc'. rewrite Hd, Hcount. now apply t_in_range, all_cells_spec. }
  assert (Hrc : forall c, In c (all_cells width height) ->
                  0 <= t width c < Z.of_nat (length (cell_state s))).
  { intros c Hc'. rewrite Hc, Hcount. now apply t_in_range, all_cells_spec. }
  destruct (exit_pool width height min_length (cell_distance s)) as [|x xs] eqn:Epool.
  - rewrite punch_exit_empty in H by assumption. discriminate.
  - destruct (lookup_lt_is_Some_2 (x :: xs)
                (Z.to_nat (next_raw s mod Z.of_nat (length (x :: xs))))) as [e He].
    { pose proof (Z.mod_pos_bound (next_raw s) (Z.of_nat (length (x :: xs)))
                    ltac:(simpl; lia)). lia. }
    exists e. split; [eapply list_elem_of_In, list_elem_of_lookup_2; exact He|].
    rewrite <- Epool in He.
    rewrite (punch_exit_pick width height min_length s e Hrd Hrc He) in H.
    now injection H as <-.
Qed.

Lemma exit_side_wall (width : Z) (c : cell) : In (exit_side width c) wall_bits.
Proof.
  unfold exit_side, wall_bits.
  destruct (fst c =? 0); [simpl; auto|].
  destruct (snd c =? 0); [simpl; auto|].
  destruct (fst c =? width - 1); simpl; auto.
Qed.

Section TreeExit.

Variables (width height : Z).
Hypothesis width_pos : 1 <= width.
Hypothesis height_pos : 1 <= height.

Let N : nat := Z.to_nat (cell_count width height).

(** A wall opened to the outside makes no passage. *)
Lemma outward_wall_links_nothing (walls : list Z) (e : cell) (side : Z) (c : cell) (b : Z) :
  length walls = N ->
  in_bounds width height e = true -> In side wall_bits ->
  in_bounds width height (across side e) = false ->
  In b wall_bits ->
  linked_by width height (opened width walls e side) c b
  = linked_by width height walls c b.
Proof.
  intros Hlen He Hside Hout Hb. unfold linked_by.
  destruct (in_bounds width height c) eqn:Hc; [|reflexivity].
  destruct (in_bounds width height (across b c)) eqn:Ha; [|reflexivity].
  simpl.
  rewrite !(open_toward_opened width height width_pos height_pos); try assumption;
    [|now apply opposite_wall].
  replace (bool_decide (c = e) && (b =? side)) with false.
  - replace (bool_decide (across b c = e) && (opposite b =? side)) with false;
      [now rewrite !orb_false_r|].
    symmetry. apply andb_false_iff.
    destruct (decide (across b c = e)) as [E|Hne];
      [|left; now apply bool_decide_eq_false_2].
    right. apply Z.eqb_neq. intros E'.
    rewrite <- E, <- E', across_opposite in Hout by assumption. congruence.
  - symmetry. apply andb_false_iff.
    destruct (decide (c = e)) as [->|Hne]; [|left; now apply bool_decide_eq_false_2].
    right. apply Z.eqb_neq. intros ->. congruence.
Qed.

Lemma walk_same (walls walls' : list Z) :
  (forall c b, In b wall_bits ->
     linked_by width height walls' c b = linked_by width height walls c b) ->
  forall steps c,
    Forall (fun b => In b wall_bits) steps ->
    walk width height walls' c steps = walk width height walls c steps.
Proof.
  intros Hsame. induction steps as [|b steps IH]; intros c Hsteps; [reflexivity|].
  apply Forall_cons in Hsteps as (Hb & Hsteps). simpl.
  rewrite Hsame by assumption.
  destruct (linked_by width height walls c b); [now apply IH|reflexivity].
Qed.

(** Following the parents leads to the start. *)
Lemma walk_to_start (c0 : cell) (bit0 : Z) (walls distances : list Z) :
  tree_inv width height c0 bit0 walls distances ->
  forall (k : nat) (c : cell),
    in_bounds width height c = true ->
    distance_of width distances c = Z.of_nat k -> Z.of_nat k < INF ->
    exists steps,
      length steps = k /\ Forall (fun b => In b wall_bits) steps
      /\ walk width height walls c steps = Some c0.
Proof.
  intros Htree. destruct (tree_root _ _ _ _ _ _ Htree) as (Hc0 & Hd0).
  induction k as [|k IH]; intros c Hc Hd Hk.
  - exists []. split; [reflexivity|]. split; [constructor|].
    simpl. f_equal.
    destruct (decide (c = c0)) as [->|Hne]; [reflexivity|exfalso].
    destruct (tree_parent _ _ _ _ _ _ Htree c Hc) as (b & Hb & Hl & Hstep);
      [rewrite Hd; simpl; unfold INF; lia|assumption|].
    destruct (linked_visited width height _ _ _ _ c b Htree Hl)
      as (_ & Ha & _).
    pose proof (tree_nonneg _ _ _ _ _ _ Htree _ Ha). lia.
  - assert (Hne : c <> c0) by (intros ->; lia).
    destruct (tree_parent _ _ _ _ _ _ Htree c Hc) as (b & Hb & Hl & Hstep);
      [lia|assumption|].
    destruct (linked_visited width height _ _ _ _ c b Htree Hl)
      as (_ & Ha & _).
    destruct (IH (across b c) Ha) as (steps & Hlen & Hall & Hwalk); [lia|lia|].
    exists (b :: steps). split; [simpl; now rewrite Hlen|].
    split; [now constructor|].
    simpl. now rewrite Hl.
Qed.

End TreeExit.

Section TreeMaze.

Variables (width height : Z) (branch_dist : list Q) (min_length : Z).
Variable seeded_words : Z -> list Z.
Hypothesis width_pos : 1 <= width.
Hypothesis height_pos : 1 <= height.
Hypothesis count_small : cell_count width height <= INF.

(** What a returned maze is made of: the arrays [walls] in which growth
    ended, with the wall [exit_side e] of the exit [e] opened. *)
Lemma gen_maze_tree (fuel : nat) (seed : option Z) (s0 s' : frame) (m : Maze) (c0 : cell) :
  gen_maze width height branch_dist min_length seeded_words fuel seed s0 = Returns m s' ->
  start s' = Some c0 -> in_bounds width height c0 = true ->
  exists bit0 e walls,
    In bit0 wall_bits /\ start_shape width height c0 bit0
    /\ in_bounds width height (across bit0 c0) = false
    /\ tree_inv width height c0 bit0 walls (cell_distance s')
    /\ length walls = Z.to_nat (cell_count width height)
    /\ Z.of_nat (visited_count (cell_distance s')) = cell_count width height
    /\ Forall (fun d => 0 <= d < cell_count width height) (cell_distance s')
    /\ length (cell_distance s') = Z.to_nat (cell_count width height)
    /\ In e (exit_pool width height min_length (cell_distance s'))
    /\ last_border_cell s' = Some e
    /\ maze m = opened width walls e (exit_side width e).
Proof.
  unfold gen_maze. intros H Hst Hc0.
  apply bind_Returns in H as ([] & s1 & H1 & H).
  apply bind_Returns in H as ([] & s2 & H2 & H).
  apply bind_Returns in H as (walls & s3 & H3 & H).
  unfold gets in H3. injection H3 as <- <-. injection H as <- <-.
  destruct (growth_visit width height branch_dist seeded_words
              width_pos height_pos count_small _ _ _ _ H1) as (Hv & Hc).
  destruct (full_count width height width_pos height_pos s1 Hv Hc) as (Hfull & Hall).
  pose proof (inv_shape _ _ _ (vis_loop _ _ _ Hv)) as Hshape.
  apply (punch_exit_Returns width height min_length s1 s2 width_pos height_pos Hshape) in H2
    as (e & He & ->).
  simpl in Hst. simpl.
  apply growth_first_head in H1 as (sh & Hh & Hgrow).
  assert (Hhead : at_loop_head width height branch_dist seeded_words seed s0 s1).
  { eapply grow_at_loop_head; [|exact Hgrow]. now apply head_first. }
  destruct (loop_head_tree width height branch_dist seeded_words seed s0
              width_pos height_pos count_small s1 c0 Hhead Hst Hc0)
    as (bit0 & Hbit & Hsh & Hout & _ & Htree).
  destruct Hshape as (_ & Hld & Hlw).
  exists bit0, e, (cell_state s1).
  split; [assumption|]. split; [assumption|]. split; [assumption|].
  split; [assumption|]. split; [assumption|].
  split; [now rewrite <- (vis_count _ _ _ Hv)|].
  split; [assumption|]. split; [assumption|]. split; [assumption|].
  split; reflexivity.
Qed.

End TreeMaze.

(** ** The maze is a tree *)

(** X22.  What the loop builds, for a run whose start is a cell of
    the grid (grid of at least one cell and at most [2^62]).  At the head
    of every iteration: the number of passages (walls between two cells
    of the grid that are open on both sides) is the number of visited
    cells less one; a cell that has not been visited has no open wall;
    every visited cell other than the start has a passage to a cell whose
    distance is smaller by one; and the two cells of any passage have
    distances that differ by exactly one. *)
Theorem loop_grows_a_tree
    (width height : Z) (branch_dist : list Q) (seeded_words : Z -> list Z)
    (seed : option Z) (s0 s : frame) (c0 : cell) :
  1 <= width -> 1 <= height -> cell_count width height <= INF ->
  at_loop_head width height branch_dist seeded_words seed s0 s ->
  start s = Some c0 -> in_bounds width height c0 = true ->
  Z.of_nat (length (interior_edges width height (cell_state s))) = cells_visited s - 1
  /\ (forall c, in_bounds width height c = true ->
        distance_of width (cell_distance s) c = INF ->
        mask_of width (cell_state s) c = 0)
  /\ (forall c, in_bounds width height c = true ->
        distance_of width (cell_distance s) c <> INF -> c <> c0 ->
        exists bit,
          In bit wall_bits /\ linked_by width height (cell_state s) c bit = true
          /\ distance_of width (cell_distance s) (across bit c) + 1
             = distance_of width (cell_distance s) c)
  /\ (forall c bit, In bit wall_bits ->
        linked_by width height (cell_state s) c bit = true ->
        distance_of width (cell_distance s) (across bit c)
        = distance_of width (cell_distance s) c + 1
        \/ distance_of width (cell_distance s) c
           = distance_of width (cell_distance s) (across bit c) + 1).
Proof.
  intros Hw Hh Hbig Hhead Hst Hc0.
  destruct (loop_head_tree width height branch_dist seeded_words seed s0 Hw Hh Hbig
              s c0 Hhead Hst Hc0) as (bit0 & _ & _ & _ & _ & Htree).
  pose proof (loop_head_visit width height branch_dist seeded_words seed s0 Hw Hh Hbig
                s Hhead) as Hv.
  split.
  - rewrite (vis_count _ _ _ Hv), <- (tree_edges _ _ _ _ _ _ Htree). lia.
  - split; [exact (tree_closed _ _ _ _ _ _ Htree)|].
    split; [exact (tree_parent _ _ _ _ _ _ Htree)|exact (tree_near _ _ _ _ _ _ Htree)].
Qed.

Lemma loop_grows_a_tree_witness :
  Z.of_nat (length (interior_edges 2 2 (cell_state grown_2x2_seed55)))
  = cells_visited grown_2x2_seed55 - 1
  /\ (forall c, in_bounds 2 2 c = true ->
        distance_of 2 (cell_distance grown_2x2_seed55) c = INF ->
        mask_of 2 (cell_state grown_2x2_seed55) c = 0)
  /\ (forall c, in_bounds 2 2 c = true ->
        distance_of 2 (cell_distance grown_2x2_seed55) c <> INF -> c <> (0, 0) ->
        exists bit,
          In bit wall_bits /\ linked_by 2 2 (cell_state grown_2x2_seed55) c bit = true
          /\ distance_of 2 (cell_distance grown_2x2_seed55) (across bit c) + 1
             = distance_of 2 (cell_distance grown_2x2_seed55) c)
  /\ (forall c bit, In bit wall_bits ->
        linked_by 2 2 (cell_state grown_2x2_seed55) c bit = true ->
        distance_of 2 (cell_distance grown_2x2_seed55) (across bit c)
        = distance_of 2 (cell_distance grown_2x2_seed55) c + 1
        \/ distance_of 2 (cell_distance grown_2x2_seed55) c
           = distance_of 2 (cell_distance grown_2x2_seed55) (across bit c) + 1).
Proof.
  apply (loop_grows_a_tree 2 2 default_branch_factors (fun _ => draws_2x2_seed55)
           (Some 55) (entry_frame []) grown_2x2_seed55 (0, 0)).
  - lia.
  - lia.
  - vm_compute. discriminate.
  - apply (grow_at_loop_head 2 2 default_branch_factors (fun _ => draws_2x2_seed55)
             (Some 55) (entry_frame []) 7 head1_2x2_seed55).
    + exact head1_2x2_seed55_reached.
    + vm_compute. reflexivity.
  - reflexivity.
  - reflexivity.
Defined.

(** X23.  A maze that [gen_maze] returns from a start in the grid
    is a spanning tree of the grid: it has exactly [width * height - 1]
    passages, and from every cell a walk through passages leads to the
    start, in as many steps as the distance stored for the cell. *)
Theorem returned_maze_is_spanning_tree
    (width height : Z) (branch_dist : list Q) (min_length : Z)
    (seeded_words : Z -> list Z) (fuel : nat) (seed : option Z) (s0 s' : frame)
    (m : Maze) (c0 : cell) :
  1 <= width -> 1 <= height -> cell_count width height <= INF ->
  gen_maze width height branch_dist min_length seeded_words fuel seed s0 = Returns m s' ->
  start s' = Some c0 -> in_bounds width height c0 = true ->
  Z.of_nat (length (interior_edges width height (maze m))) = width * height - 1
  /\ forall c, in_bounds width height c = true ->
       exists steps,
         Z.of_nat (length steps) = distance_of width (cell_distance s') c
         /\ walk width height (maze m) c steps = Some c0.
Proof.
  intros Hw Hh Hbig H Hst Hc0.
  destruct (gen_maze_tree width height branch_dist min_length seeded_words Hw Hh Hbig
              fuel seed s0 s' m c0 H Hst Hc0)
    as (bit0 & e & walls & _ & _ & _ & Htree & Hlw & Hcount & Hall & Hld & He & _ & ->).
  apply exit_pool_spec in He as (He & Hborder & _).
  pose proof (exit_side_outward width height e He Hborder) as Hout.
  pose proof (exit_side_wall width e) as Hside.
  assert (Hsame : forall c b, In b wall_bits ->
            linked_by width height (opened width walls e (exit_side width e)) c b
            = linked_by width height walls c b).
  { intros c b Hb. now apply (outward_wall_links_nothing width height Hw Hh). }
  split.
  - rewrite (interior_edges_same width height walls);
      [|intros c b [->| ->] _; apply Hsame; simpl; auto].
    pose proof (tree_edges _ _ _ _ _ _ Htree). unfold cell_count in Hcount. lia.
  - intros c Hc.
    destruct (py_get_cell width height Hw Hh (cell_distance s') c Hld Hc) as (Hget & Hlt).
    apply lookup_lt_is_Some_2 in Hlt as [d Hd].
    assert (Hdc : distance_of width (cell_distance s') c = d).
    { unfold distance_of. now rewrite Hget, Hd. }
    assert (Hrange : 0 <= d < cell_count width height).
    { eapply Forall_lookup in Hall; [exact Hall|exact Hd]. }
    destruct (walk_to_start width height c0 bit0 walls (cell_distance s') Htree
                (Z.to_nat d) c Hc) as (steps & Hlen & Hsteps & Hwalk); [lia|lia|].
    exists steps. split; [lia|].
    now rewrite (walk_same width height walls _ Hsame).
Qed.

Lemma returned_maze_is_spanning_tree_witness :
  Z.of_nat (length (interior_edges 2 2 (maze (mkMaze [14; 1; 6; 5] 2 2)))) = 2 * 2 - 1
  /\ forall c, in_bounds 2 2 c = true ->
       exists steps,
         Z.of_nat (length steps) = distance_of 2 (cell_distance returned_2x2_seed55) c
         /\ walk 2 2 (maze (mkMaze [14; 1; 6; 5] 2 2)) c steps = Some (0, 0).
Proof.
  apply (returned_maze_is_spanning_tree 2 2 default_branch_factors 1
           (fun _ => draws_2x2_seed55) 7 (Some 55) (entry_frame []) returned_2x2_seed55
           (mkMaze [14; 1; 6; 5] 2 2) (0, 0)).
  - lia.
  - lia.
  - vm_compute. discriminate.
  - vm_compute. reflexivity.
  - reflexivity.
  - reflexivity.
Defined.

(** X24.  The walls of a maze that [gen_maze] returns from a
    start in the grid are consistent: a wall between two cells of the grid
    is open on both sides or on neither, and exactly two walls are open to
    the outside, the one [pick_start] opened at the start and the one
    [punch_exit] opened at the exit, a border cell other than the
    start. *)
Theorem returned_maze_has_two_openings
    (width height : Z) (branch_dist : list Q) (min_length : Z)
    (seeded_words : Z -> list Z) (fuel : nat) (seed : option Z) (s0 s' : frame)
    (m : Maze) (c0 : cell) :
  1 <= width -> 1 <= height -> cell_count width height <= INF ->
  gen_maze width height branch_dist min_length seeded_words fuel seed s0 = Returns m s' ->
  start s' = Some c0 -> in_bounds width height c0 = true ->
  exists bit0 e,
    start_shape width height c0 bit0
    /\ last_border_cell s' = Some e
    /\ in_bounds width height e = true /\ is_border width height e = true
    /\ e <> c0
    /\ forall c bit, In bit wall_bits -> in_bounds width height c = true ->
         open_toward width (maze m) c bit
         = if in_bounds width height (across bit c)
           then open_toward width (maze m) (across bit c) (opposite bit)
           else bool_decide (c = c0) && (bit =? bit0)
                || bool_decide (c = e) && (bit =? exit_side width e).
Proof.
  intros Hw Hh Hbig H Hst Hc0.
  destruct (gen_maze_tree width height branch_dist min_length seeded_words Hw Hh Hbig
              fuel seed s0 s' m c0 H Hst Hc0)
    as (bit0 & e & walls & Hbit0 & Hshape & Hout0 & Htree & Hlw & _ & _ & _ & He & Hlast & ->).
  apply exit_pool_spec in He as (He & Hborder & Hfar).
  pose proof (exit_side_outward width height e He Hborder) as Hout.
  pose proof (exit_side_wall width e) as Hside.
  exists bit0, e. split; [assumption|]. split; [assumption|].
  split; [assumption|]. split; [assumption|]. split.
  - intros ->. destruct (tree_root _ _ _ _ _ _ Htree) as (_ & Hd0).
    rewrite Hd0 in Hfar. unfold min_exit_distance in Hfar.
    destruct (Z.ltb_spec 0 min_length); lia.
  - intros c b Hb Hc.
    rewrite (open_toward_opened width height Hw Hh) by assumption.
    destruct (in_bounds width height (across b c)) eqn:Ha.
    + rewrite (open_toward_opened width height Hw Hh); try assumption;
        [|now apply opposite_wall].
      rewrite (tree_sym _ _ _ _ _ _ Htree) by assumption.
      replace (bool_decide (c = e) && (b =? exit_side width e)) with false.
      * replace (bool_decide (across b c = e) && (opposite b =? exit_side width e))
          with false; [reflexivity|].
        symmetry. apply andb_false_iff.
        destruct (decide (across b c = e)) as [E|Hne];
          [|left; now apply bool_decide_eq_false_2].
        right. apply Z.eqb_neq. intros E'.
        rewrite <- E', <- E, across_opposite in Hout by assumption. congruence.
      * symmetry. apply andb_false_iff.
        destruct (decide (c = e)) as [->|Hne]; [|left; now apply bool_decide_eq_false_2].
        right. apply Z.eqb_neq. intros ->. congruence.
    + now rewrite (tree_out _ _ _ _ _ _ Htree) by assumption.
Qed.

Lemma returned_maze_has_two_openings_witness :
  exists bit0 e,
    start_shape 2 2 (0, 0) bit0
    /\ last_border_cell returned_2x2_seed55 = Some e
    /\ in_bounds 2 2 e = true /\ is_border 2 2 e = true
    /\ e <> (0, 0)
    /\ forall c bit, In bit wall_bits -> in_bounds 2 2 c = true ->
         open_toward 2 (maze (mkMaze [14; 1; 6; 5] 2 2)) c bit
         = if in_bounds 2 2 (across bit c)
           then open_toward 2 (maze (mkMaze [14; 1; 6; 5] 2 2)) (across bit c)
                  (opposite bit)
           else bool_decide (c = (0, 0)) && (bit =? bit0)
                || bool_decide (c = e) && (bit =? exit_side 2 e).
Proof.
  apply (returned_maze_has_two_openings 2 2 default_branch_factors 1
           (fun _ => draws_2x2_seed55) 7 (Some 55) (entry_frame []) returned_2x2_seed55
           (mkMaze [14; 1; 6; 5] 2 2) (0, 0)).
  - lia.
  - lia.
  - vm_compute. discriminate.
  - vm_compute. reflexivity.
  - reflexivity.
  - reflexivity.
Defined.
